(* ===== verification/_CoqProject ===== *)
-Q . S2P
Prelude.v
Crypto.v
Queue.v
Registry.v
Discovery.v
Acl.v
Channel.v
Messaging.v
Reliability.v
Billing.v
Http.v
BillingHttp.v
Metering.v
Stripe.v
Hub.v
Presence.v
ChannelApi.v
Relay.v
Connect.v
Agent.v
AgentFacts.v
AgentFlow.v
AgentLife.v
Tasks.v
Conversation.v
ConversationSql.v
Oauth.v
TimeText.v
AuditChain.v
BillingSql.v
Migration.v
QueueSql.v
RegistrySql.v
Signup.v
Paths.v
Sandbox.v
Runner.v
RunnerFacts.v
Transport.v
TransportFacts.v
Jwt.v
Bridge.v
A2aHttp.v
Mcp.v
McpFacts.v
Gateway.v
Dashboard.v
Checkout.v
