(* ===== verification/Crypto.v ===== *)
(** * Encryption and key texts (src/pkg/crypto, and encodeBase58 of src/pkg/identity/did.go)

    NaCl boxes with the nonce in front, named and anonymous, over the box primitives of
    golang.org/x/crypto, which are a parameter with their documented laws; signing with an
    Ed25519 key pair; and the base-58 text of a key, whose fixed-size buffer is shown to be
    large enough. *)

From S2P Require Import Prelude.
#[local] Open Scope Z_scope.

(** ** Boxes *)

Definition NonceSize : nat := 24.
Definition OverheadLen : nat := 16.
Definition X25519KeySize : nat := 32.

Inductive CryptoError := ErrInvalidKeySize | ErrDecryptionFailed | ErrRandom | ErrKeyAgreement.

(** golang.org/x/crypto/nacl/box and curve25519: [box_Seal] without its prefix. *)
Class Box := {
  x25519_public : string → string;
  box_Seal : string → string → string → string → string;
  box_Open : string → string → string → string → option string;
}.

(** What the package documents: a box sealed for a public key by a private key is opened by
    the matching private and public keys, and is [Overhead] bytes longer. *)
Class BoxLaws `{Box} : Prop := {
  box_open_seal p nonce a b : String.length nonce = NonceSize →
    box_Open (box_Seal p nonce (x25519_public b) a) nonce (x25519_public a) b = Some p;
  box_length p nonce pub priv : (String.length (box_Seal p nonce pub priv) = String.length p + OverheadLen)%nat;
  x25519_length a : String.length a = X25519KeySize → String.length (x25519_public a) = X25519KeySize;
}.

Section encrypt.
Context `{Box}.

(** [nonce] is what the random source delivers ([None] when it fails). *)
Definition Encrypt (nonce : option string) (plaintext senderPriv recipientPub : string) : result CryptoError string :=
  if decide (String.length senderPriv ≠ X25519KeySize ∨ String.length recipientPub ≠ X25519KeySize)
  then Err ErrInvalidKeySize
  else match nonce with
       | None => Err ErrRandom
       | Some n => Ok (n +:+ box_Seal plaintext n recipientPub senderPriv)
       end.

Definition slice (s : string) (from : nat) : string := String.substring from (String.length s - from) s.

Definition Decrypt (ciphertext recipientPriv senderPub : string) : result CryptoError string :=
  if decide (String.length recipientPriv ≠ X25519KeySize ∨ String.length senderPub ≠ X25519KeySize)
  then Err ErrInvalidKeySize
  else if (String.length ciphertext <? NonceSize + OverheadLen)%nat then Err ErrDecryptionFailed
  else match box_Open (slice ciphertext NonceSize) (String.substring 0 NonceSize ciphertext) senderPub recipientPriv with
       | Some p => Ok p
       | None => Err ErrDecryptionFailed
       end.

(** [eph] is the fresh private key of the throw-away pair. *)
Definition EncryptAnonymous (eph nonce : option string) (plaintext recipientPub : string) : result CryptoError string :=
  if decide (String.length recipientPub ≠ X25519KeySize) then Err ErrInvalidKeySize
  else match eph, nonce with
       | Some k, Some n => Ok (x25519_public k +:+ n +:+ box_Seal plaintext n recipientPub k)
       | _, _ => Err ErrRandom
       end.

Definition DecryptAnonymous (ciphertext recipientPriv : string) : result CryptoError string :=
  if decide (String.length recipientPriv ≠ X25519KeySize) then Err ErrInvalidKeySize
  else if (String.length ciphertext <? X25519KeySize + NonceSize + OverheadLen)%nat then Err ErrDecryptionFailed
  else match box_Open (slice ciphertext (X25519KeySize + NonceSize)) (String.substring X25519KeySize NonceSize ciphertext)
               (String.substring 0 X25519KeySize ciphertext) recipientPriv with
       | Some p => Ok p
       | None => Err ErrDecryptionFailed
       end.

End encrypt.

(** ** Base 58 *)

Definition base58Alphabet : string := "123456789ABCDEFGHJKLMNPQRSTUVWXYZabcdefghijkmnopqrstuvwxyz".

Definition bytes_of (s : string) : list Z := (λ a, Z.of_nat (Ascii.nat_of_ascii a)) <$> String.list_ascii_of_string s.

(** [for _, b := range data { if b == 0 { zeros++ } else { break } }] *)
Fixpoint leading_zeros (l : list Z) : nat :=
  match l with
  | d :: l' => if decide (d = 0) then S (leading_zeros l') else O
  | [] => O
  end.

(** The inner loop; the buffer is listed from its last cell, where the loop starts. *)
Fixpoint carry_loop (carry : Z) (rbuf : list Z) : list Z :=
  match rbuf with
  | [] => []
  | d :: rbuf' => let c := carry + 256 * d in (c mod 58) :: carry_loop (c / 58) rbuf'
  end.

Definition buffer_size (data : list Z) : nat := length data * 138 / 100 + 1.

(** The buffer after all bytes, from its first cell. *)
Definition base58_buffer (data : list Z) : list Z :=
  reverse (foldl (λ rbuf b, carry_loop b rbuf) (replicate (buffer_size data) 0) data).

Fixpoint skip_zeros (l : list Z) : list Z :=
  match l with
  | d :: l' => if decide (d = 0) then skip_zeros l' else l
  | [] => []
  end.

(** [base58Alphabet[buf[i]]]; every cell is below 58. *)
Definition digit58 (d : Z) : Ascii.ascii := default Ascii.zero (String.get (Z.to_nat d) base58Alphabet).

(** The character 1, the digit zero. *)
Definition char_1 : Ascii.ascii := Ascii.ascii_of_nat 49.

Definition encodeBase58 (data : string) : string :=
  let bs := bytes_of data in
  match bs with
  | [] => EmptyString
  | _ => String.string_of_list_ascii
           (replicate (leading_zeros bs) char_1 ++ (digit58 <$> skip_zeros (base58_buffer bs)))
  end.

(** ** Keys and identities *)

Definition Ed25519PublicKeySize : nat := 32.
Definition Ed25519PrivateKeySize : nat := 64.

Definition VerifySignature `{Runtime} (publicKey : option string) (data : string) (signature : option string) : bool :=
  let key := default EmptyString publicKey in
  if decide (String.length key ≠ Ed25519PublicKeySize) then false
  else ed25519_Verify key data (default EmptyString signature).

Record KeyPair := { kp_PublicKey : string; kp_PrivateKey : string }.
Record AgentKeys := { ak_Signing : KeyPair; ak_Encryption : KeyPair }.

(** The rest of crypto/ed25519, crypto/rand and curve25519's shared secret. *)
Class Primitives := {
  ed25519_public : string → string;  (* of a 32-byte seed *)
  ed25519_Sign : string → string → string;
  X25519 : string → string → option string;
}.

(** An Ed25519 private key is its seed followed by its public key, and its signatures
    verify; the empty one does not. *)
Class PrimitivesLaws `{Runtime} `{Primitives} : Prop := {
  ed25519_public_length seed : String.length seed = 32%nat → String.length (ed25519_public seed) = 32%nat;
  ed25519_Verify_Sign seed data : String.length seed = 32%nat →
    ed25519_Verify (ed25519_public seed) data (ed25519_Sign (seed +:+ ed25519_public seed) data) = true;
  ed25519_Verify_empty key data : ed25519_Verify key data "" = false;
}.

Section identity.
Context `{Runtime} `{Primitives} `{Box}.

(** [seed] and [private] are what the random source delivers, 32 bytes each, if it does not
    fail. *)
Definition GenerateSigningKeyPair (seed : option string) : option KeyPair :=
  s ← seed; Some {| kp_PublicKey := ed25519_public s; kp_PrivateKey := s +:+ ed25519_public s |}.

Definition GenerateEncryptionKeyPair (private : option string) : option KeyPair :=
  k ← private; Some {| kp_PublicKey := x25519_public k; kp_PrivateKey := k |}.

Definition GenerateAgentKeys (seed private : option string) : option AgentKeys :=
  signing ← GenerateSigningKeyPair seed;
  encryption ← GenerateEncryptionKeyPair private;
  Some {| ak_Signing := signing; ak_Encryption := encryption |}.

Definition Sign (k : KeyPair) (data : string) : string := ed25519_Sign (kp_PrivateKey k) data.
Definition Verify (k : KeyPair) (data signature : string) : bool := ed25519_Verify (kp_PublicKey k) data signature.

Definition ComputeSharedSecret (k : KeyPair) (peerPublicKey : string) : result CryptoError string :=
  if decide (String.length peerPublicKey ≠ X25519KeySize) then Err ErrInvalidKeySize
  else match X25519 (kp_PrivateKey k) peerPublicKey with
       | Some secret => Ok secret
       | None => Err ErrKeyAgreement
       end.

(** A verification method of a DID document. *)
Record VerificationMethod := { vm_Fragment : string; vm_Type : string; vm_PublicKeyBase58 : string }.

Record Document := {
  doc_ID : string;
  doc_Assertion : list VerificationMethod;
  doc_Authentication : list VerificationMethod;
  doc_KeyAgreement : list VerificationMethod;
}.

Record Identity := { i_DID : string; i_Document : Document; i_Keys : AgentKeys }.

Definition buildDocument (did : string) (keys : AgentKeys) : Document :=
  let signingVM := {| vm_Fragment := "signing-key"; vm_Type := "Ed25519VerificationKey2018";
                      vm_PublicKeyBase58 := encodeBase58 (kp_PublicKey (ak_Signing keys)) |} in
  let encryptionVM := {| vm_Fragment := "encryption-key"; vm_Type := "X25519KeyAgreementKey2019";
                         vm_PublicKeyBase58 := encodeBase58 (kp_PublicKey (ak_Encryption keys)) |} in
  {| doc_ID := did; doc_Assertion := [signingVM]; doc_Authentication := [signingVM]; doc_KeyAgreement := [encryptionVM] |}.

Inductive IdentityError := ErrParseDID | ErrGenerateKeys | ErrReadFile | ErrUnmarshal | ErrSigningKeySize | ErrEncryptionKeySize.

Definition identity_of (didStr : string) (keys : AgentKeys) : result IdentityError Identity :=
  match ParseDID didStr with
  | Some _ => Ok {| i_DID := didStr; i_Document := buildDocument didStr keys; i_Keys := keys |}
  | None => Err ErrParseDID
  end.

Definition agent_did (domain agentID : string) : string := "did:wba:" +:+ domain +:+ ":agent:" +:+ agentID.

Definition NewIdentity (seed private : option string) (domain agentID : string) : result IdentityError Identity :=
  match GenerateAgentKeys seed private with
  | None => Err ErrGenerateKeys
  | Some keys => identity_of (agent_did domain agentID) keys
  end.

Definition NewIdentityFromKeys (domain agentID : string) (keys : AgentKeys) : result IdentityError Identity :=
  identity_of (agent_did domain agentID) keys.

Definition NewIdentityFromKeysTenant (domain tenantID : string) (keys : AgentKeys) : result IdentityError Identity :=
  identity_of ("did:wba:" +:+ domain +:+ ":tenant:" +:+ tenantID) keys.

Record serializedIdentity := { si_SigningPrivateKey : string; si_EncryptionPrivateKey : string }.

(** The text of a [serializedIdentity], by encoding/json. *)
Context (marshal : serializedIdentity → string) (unmarshal : string → option serializedIdentity).

(** What SaveToFile writes. *)
Definition SaveToFile (ident : Identity) : string :=
  marshal {| si_SigningPrivateKey := kp_PrivateKey (ak_Signing (i_Keys ident));
             si_EncryptionPrivateKey := kp_PrivateKey (ak_Encryption (i_Keys ident)) |}.

(** [file] is the content of the file, if it can be read. *)
Definition LoadFromFile (file : option string) (domain agentID : string) : result IdentityError Identity :=
  match file with
  | None => Err ErrReadFile
  | Some data =>
      match unmarshal data with
      | None => Err ErrUnmarshal
      | Some s =>
          if decide (String.length (si_SigningPrivateKey s) ≠ Ed25519PrivateKeySize) then Err ErrSigningKeySize
          else if decide (String.length (si_EncryptionPrivateKey s) ≠ X25519KeySize) then Err ErrEncryptionKeySize
          else identity_of (agent_did domain agentID)
                 {| ak_Signing := {| kp_PublicKey := slice (si_SigningPrivateKey s) 32;
                                     kp_PrivateKey := si_SigningPrivateKey s |};
                    ak_Encryption := {| kp_PublicKey := x25519_public (si_EncryptionPrivateKey s);
                                        kp_PrivateKey := si_EncryptionPrivateKey s |} |}
      end
  end.

End identity.

(** ** Byte strings cut in two *)

Lemma substring_all (s : string) : String.substring 0 (String.length s) s = s.
Proof. induction s as [|c s IH]; simpl; [done | by f_equal]. Qed.

Lemma substring_app_l (s t : string) : String.substring 0 (String.length s) (s +:+ t) = s.
Proof. induction s as [|c s IH]; simpl; [by destruct t | by f_equal]. Qed.

Lemma substring_app_r (s t : string) n : String.substring (String.length s) n (s +:+ t) = String.substring 0 n t.
Proof. induction s as [|c s IH]; simpl; [by destruct t | done]. Qed.

Lemma slice_app (s t : string) : slice (s +:+ t) (String.length s) = t.
Proof.
  unfold slice. rewrite substring_app_r, string_app_length.
  replace (_ + _ - _)%nat with (String.length t) by lia. apply substring_all.
Qed.

Lemma slice_app_app (s t u : string) : slice (s +:+ t +:+ u) (String.length s + String.length t) = u.
Proof. rewrite string_app_assoc, <- string_app_length. apply slice_app. Qed.

(** ** Round trips *)

Lemma Encrypt_spec `{BoxLaws} (nonce p a b : string) :
  String.length nonce = NonceSize → String.length a = X25519KeySize → String.length b = X25519KeySize →
  ∃ c, Encrypt (Some nonce) p a (x25519_public b) = Ok c ∧ Decrypt c b (x25519_public a) = Ok p ∧
       String.length c = (NonceSize + String.length p + OverheadLen)%nat.
Proof.
  intros Hn Ha Hb. exists (nonce +:+ box_Seal p nonce (x25519_public b) a). unfold Encrypt, Decrypt.
  pose proof (x25519_length a Ha). pose proof (x25519_length b Hb).
  rewrite !decide_False by lia. split; [done |].
  rewrite string_app_length, box_length, Hn. split; [|lia].
  replace (_ <? _)%nat with false by (symmetry; apply Nat.ltb_ge; lia).
  rewrite <- Hn, substring_app_l, slice_app. by rewrite box_open_seal.
Qed.

Lemma EncryptAnonymous_spec `{BoxLaws} (nonce eph p b : string) :
  String.length nonce = NonceSize → String.length eph = X25519KeySize → String.length b = X25519KeySize →
  ∃ c, EncryptAnonymous (Some eph) (Some nonce) p (x25519_public b) = Ok c ∧ DecryptAnonymous c b = Ok p ∧
       String.length c = (X25519KeySize + NonceSize + String.length p + OverheadLen)%nat.
Proof.
  intros Hn He Hb. exists (x25519_public eph +:+ nonce +:+ box_Seal p nonce (x25519_public b) eph).
  unfold EncryptAnonymous, DecryptAnonymous. pose proof (x25519_length eph He) as Hle. pose proof (x25519_length b Hb).
  rewrite !decide_False by lia. split; [done |].
  rewrite !string_app_length, box_length, Hn, Hle. split; [|lia].
  replace (_ <? _)%nat with false by (symmetry; apply Nat.ltb_ge; lia).
  rewrite <- Hle, <- Hn, slice_app_app, substring_app_r, !substring_app_l. by rewrite box_open_seal.
Qed.

Lemma Decrypt_short `{Box} c key pub :
  (String.length c < NonceSize + OverheadLen)%nat ∨ String.length key ≠ X25519KeySize →
  is_Some (result_error (Decrypt c key pub)) ∧ is_Some (result_error (DecryptAnonymous c key)).
Proof.
  unfold Decrypt, DecryptAnonymous. intros [Hc|Hk]; [|rewrite !decide_True by lia; done].
  assert ((String.length c <? NonceSize + OverheadLen)%nat = true) as -> by (apply Nat.ltb_lt; lia).
  assert ((String.length c <? X25519KeySize + NonceSize + OverheadLen)%nat = true) as -> by (apply Nat.ltb_lt; lia).
  repeat case_decide; done.
Qed.

(** What is encrypted for an agent is what it decrypts, with its own key and the public
    key of the sender, or anonymously; the ciphertext carries the 24-byte nonce and 16 bytes
    of tag (and the 32-byte ephemeral key); decryption refuses a short ciphertext and a key
    of the wrong size. *)
Theorem encrypt_roundtrip `{BoxLaws} (nonce eph p a b : string) :
  String.length nonce = NonceSize → String.length a = X25519KeySize → String.length b = X25519KeySize →
  String.length eph = X25519KeySize →
  (∃ c, Encrypt (Some nonce) p a (x25519_public b) = Ok c ∧ Decrypt c b (x25519_public a) = Ok p ∧
        String.length c = (NonceSize + String.length p + OverheadLen)%nat) ∧
  (∃ c, EncryptAnonymous (Some eph) (Some nonce) p (x25519_public b) = Ok c ∧ DecryptAnonymous c b = Ok p ∧
        String.length c = (X25519KeySize + NonceSize + String.length p + OverheadLen)%nat) ∧
  (∀ c key, (String.length c < NonceSize + OverheadLen)%nat ∨ String.length key ≠ X25519KeySize →
     is_Some (result_error (Decrypt c key (x25519_public a))) ∧ is_Some (result_error (DecryptAnonymous c key))).
Proof.
  intros Hn Ha Hb He. split; [|split].
  - by apply Encrypt_spec.
  - by apply EncryptAnonymous_spec.
  - intros c key. apply Decrypt_short.
Qed.

(** An identity whose keys were generated and saved is the identity that is loaded again
    for the same domain and agent: same keys, same DID and same document; the public keys
    are recomputed, and the signatures of the loaded identity verify under its public key. *)
Theorem identity_file_roundtrip `{PrimitivesLaws} `{Box} marshal unmarshal seed private domain agentID ident :
  (∀ s, unmarshal (marshal s) = Some s) →
  String.length seed = 32%nat → String.length private = X25519KeySize →
  NewIdentity (Some seed) (Some private) domain agentID = Ok ident →
  LoadFromFile unmarshal (Some (SaveToFile marshal ident)) domain agentID = Ok ident ∧
  (∀ data, Verify (ak_Signing (i_Keys ident)) data (Sign (ak_Signing (i_Keys ident)) data) = true) ∧
  (∀ s, String.length (si_SigningPrivateKey s) ≠ Ed25519PrivateKeySize ∨ String.length (si_EncryptionPrivateKey s) ≠ X25519KeySize →
     is_Some (result_error (LoadFromFile unmarshal (Some (marshal s)) domain agentID))).
Proof.
  intros Hcodec Hseed Hpriv Hnew.
  unfold NewIdentity, identity_of in Hnew. simpl in Hnew. destruct (ParseDID _) eqn:Hdid; [|done].
  injection Hnew as <-. split; [|split].
  - unfold LoadFromFile, SaveToFile. rewrite Hcodec. cbn [i_Keys ak_Signing ak_Encryption kp_PrivateKey si_SigningPrivateKey si_EncryptionPrivateKey].
    rewrite decide_False by (rewrite string_app_length, ed25519_public_length, Hseed by done; unfold Ed25519PrivateKeySize; lia).
    rewrite decide_False by lia. rewrite <- Hseed, slice_app. unfold identity_of. by rewrite Hdid.
  - intros data. unfold Verify, Sign. simpl. by apply ed25519_Verify_Sign.
  - intros keys Hbad. unfold LoadFromFile. rewrite Hcodec.
    destruct Hbad; [rewrite decide_True by done; done |]. case_decide; [done |]. rewrite decide_True by done. done.
Qed.

(** ** Base 58 is faithful *)

(** The number that a list of digits writes, most significant digit first. *)
Definition number (base : Z) (ds : list Z) : Z := foldl (λ v d, base * v + d) 0 ds.

(** The number of a buffer listed from its last cell. *)
Fixpoint rnumber (base : Z) (rds : list Z) : Z :=
  match rds with [] => 0 | d :: rds' => d + base * rnumber base rds' end.

Definition digits (base : Z) (ds : list Z) : Prop := Forall (λ d, 0 ≤ d < base) ds.

Lemma number_snoc base ds d : number base (ds ++ [d]) = base * number base ds + d.
Proof. unfold number. by rewrite foldl_app. Qed.

Lemma number_reverse base ds : number base (reverse ds) = rnumber base ds.
Proof.
  induction ds as [|d ds IH]; [done |].
  rewrite reverse_cons, number_snoc, IH. simpl. lia.
Qed.

Lemma number_cons base d ds : number base (d :: ds) = d * base ^ Z.of_nat (length ds) + number base ds.
Proof.
  induction ds as [|e ds IH] using rev_ind; [unfold number; simpl; lia |].
  rewrite app_comm_cons, !number_snoc, IH, length_app. simpl.
  rewrite Nat.add_1_r, Nat2Z.inj_succ, Z.pow_succ_r by lia. lia.
Qed.

Lemma number_bounds base ds : 0 < base → digits base ds → 0 ≤ number base ds < base ^ Z.of_nat (length ds).
Proof.
  intros Hb. induction 1 as [|d ds Hd _ IH]; [unfold number; simpl; lia |].
  rewrite number_cons. simpl length. rewrite Nat2Z.inj_succ, Z.pow_succ_r by lia. nia.
Qed.

(** Digit lists without a leading zero are determined by their number. *)
Definition canonical (ds : list Z) : Prop := head ds ≠ Some 0.

Lemma canonical_length base d1 d2 l1 l2 : 0 < base → digits base (d1 :: l1) → digits base (d2 :: l2) →
  canonical (d2 :: l2) → number base (d1 :: l1) = number base (d2 :: l2) → (length l2 ≤ length l1)%nat.
Proof.
  intros Hb H1 H2 Hc Heq. destruct (decide (length l2 ≤ length l1)%nat) as [?|Hlt]; [done |].
  pose proof (number_bounds base _ Hb H1) as B1. rewrite Heq in B1.
  apply Forall_cons in H2 as [Hd H2]. pose proof (number_bounds base _ Hb H2).
  rewrite number_cons in B1. simpl length in B1.
  assert (base ^ Z.of_nat (S (length l1)) ≤ base ^ Z.of_nat (length l2)) by (apply Z.pow_le_mono_r; lia).
  assert (d2 ≠ 0) by (intros ->; by apply Hc). nia.
Qed.

Lemma number_same_length base l1 l2 : 0 < base → digits base l1 → digits base l2 →
  length l1 = length l2 → number base l1 = number base l2 → l1 = l2.
Proof.
  intros Hb H1. revert l2. induction H1 as [|d l1 Hd H1 IH]; intros [|e l2] H2 Hlen Heq; try done.
  apply Forall_cons in H2 as [He H2]. simpl in Hlen. injection Hlen as Hlen.
  rewrite !number_cons, <- Hlen in Heq.
  pose proof (number_bounds base _ Hb H1). pose proof (number_bounds base _ Hb H2) as B2.
  rewrite <- Hlen in B2. assert (d = e) as -> by nia. f_equal. apply IH; [done | done | lia].
Qed.

Lemma number_nonzero base d l : 0 < base → digits base (d :: l) → canonical (d :: l) → number base (d :: l) ≠ 0.
Proof.
  intros Hb [Hd H1]%Forall_cons Hc. rewrite number_cons.
  pose proof (number_bounds base _ Hb H1). assert (d ≠ 0) by (intros ->; by apply Hc).
  assert (0 < base ^ Z.of_nat (length l)) by (apply Z.pow_pos_nonneg; lia). nia.
Qed.

Lemma number_inj base l1 l2 : 0 < base → digits base l1 → digits base l2 → canonical l1 → canonical l2 →
  number base l1 = number base l2 → l1 = l2.
Proof.
  intros Hb H1 H2 C1 C2 Heq. destruct l1 as [|d1 l1], l2 as [|d2 l2]; [done | | |].
  - by apply eq_sym, number_nonzero in Heq.
  - by apply number_nonzero in Heq.
  - assert (length l1 = length l2).
    { apply Nat.le_antisymm; [apply (canonical_length base d2 d1) | apply (canonical_length base d1 d2)]; congruence. }
    apply (number_same_length base); simpl; auto.
Qed.

Lemma number_skip_zeros base l : number base (skip_zeros l) = number base l.
Proof.
  induction l as [|d l IH]; [done |]. simpl. case_decide; [|done]. subst.
  rewrite IH, number_cons. lia.
Qed.

Lemma skip_zeros_canonical l : canonical (skip_zeros l).
Proof. induction l as [|d l IH]; simpl; [done |]. case_decide; [done |]. by intros [=]. Qed.

Lemma skip_zeros_digits base l : digits base l → digits base (skip_zeros l).
Proof. induction 1 as [|d l Hd H1 IH]; simpl; [constructor |]. case_decide; [done | by constructor]. Qed.

Lemma leading_zeros_split l : l = replicate (leading_zeros l) 0 ++ skip_zeros l.
Proof. induction l as [|d l IH]; simpl; [done |]. case_decide; simpl; [congruence | done]. Qed.

(** The inner loop adds the carry, and nothing is lost while there is room. *)
Lemma carry_loop_length c rbuf : length (carry_loop c rbuf) = length rbuf.
Proof. revert c. induction rbuf as [|d r IH]; intros c; simpl; [done | by rewrite IH]. Qed.

Lemma carry_loop_digits c rbuf : digits 58 (carry_loop c rbuf).
Proof.
  revert c. induction rbuf as [|d r IH]; intros c; simpl; constructor; [|apply IH].
  apply Z.mod_pos_bound. lia.
Qed.

Lemma carry_loop_number c rbuf : 0 ≤ c → digits 58 rbuf →
  c + 256 * rnumber 58 rbuf < 58 ^ Z.of_nat (length rbuf) →
  rnumber 58 (carry_loop c rbuf) = c + 256 * rnumber 58 rbuf.
Proof.
  intros Hc Hd. revert c Hc. induction Hd as [|d r Hd Hr IH]; intros c Hc; simpl rnumber; intros Hlt.
  - simpl in Hlt. lia.
  - simpl length in Hlt. rewrite Nat2Z.inj_succ, Z.pow_succ_r in Hlt by lia.
    pose proof (Z.div_mod (c + 256 * d) 58). pose proof (Z.mod_pos_bound (c + 256 * d) 58).
    rewrite IH; [lia | apply Z.div_pos; lia | lia].
Qed.

(** 1.38 > log 256 / log 58: the buffer has room for the whole input. *)
Lemma buffer_large_enough (n : nat) :
  256 ^ Z.of_nat n ≤ 58 ^ Z.of_nat (n * 138 / 100 + 1)%nat.
Proof.
  apply Znot_gt_le. intros Hgt.
  set (s := (n * 138 / 100 + 1)%nat) in *.
  assert (Hs : (138 * n + 1 ≤ 100 * s)%nat).
  { unfold s. pose proof (Nat.div_mod_eq (n * 138) 100). pose proof (Nat.mod_upper_bound (n * 138) 100). lia. }
  assert (H1 : (58 ^ Z.of_nat s) ^ 100 < (256 ^ Z.of_nat n) ^ 100).
  { apply Z.pow_lt_mono_l; [lia |]. split; [apply Z.pow_nonneg; lia | lia]. }
  rewrite <- !Z.pow_mul_r in H1 by lia.
  assert (H2 : (256 ^ 100) ^ Z.of_nat n ≤ (58 ^ 138) ^ Z.of_nat n).
  { apply Z.pow_le_mono_l. split; [lia |]. by vm_compute. }
  rewrite <- !Z.pow_mul_r in H2 by lia.
  assert (H3 : 58 ^ (138 * Z.of_nat n) ≤ 58 ^ (Z.of_nat s * 100)) by (apply Z.pow_le_mono_r; lia).
  replace (100 * Z.of_nat n) with (Z.of_nat n * 100) in H2 by lia. lia.
Qed.

Lemma process_bytes_number data rbuf :
  digits 256 data → digits 58 rbuf →
  (rnumber 58 rbuf + 1) * 256 ^ Z.of_nat (length data) ≤ 58 ^ Z.of_nat (length rbuf) → 0 ≤ rnumber 58 rbuf →
  let out := foldl (λ rbuf b, carry_loop b rbuf) rbuf data in
  digits 58 out ∧ rnumber 58 out = rnumber 58 rbuf * 256 ^ Z.of_nat (length data) + number 256 data.
Proof.
  intros Hd. revert rbuf. induction Hd as [|b data Hb Hd IH]; intros rbuf Hr Hroom Hpos; simpl foldl.
  - split; [done |]. unfold number. simpl. lia.
  - simpl length in Hroom. rewrite Nat2Z.inj_succ, Z.pow_succ_r in Hroom by lia.
    assert (Hpow : 0 < 256 ^ Z.of_nat (length data)) by (apply Z.pow_pos_nonneg; lia).
    assert (Hstep : rnumber 58 (carry_loop b rbuf) = b + 256 * rnumber 58 rbuf)
      by (apply carry_loop_number; [lia | done | nia]).
    destruct (IH (carry_loop b rbuf)) as [Hdig Hnum]; [apply carry_loop_digits | rewrite carry_loop_length, Hstep; nia | lia |].
    split; [done |]. rewrite Hnum, Hstep, number_cons. simpl length.
    rewrite Nat2Z.inj_succ, Z.pow_succ_r by lia. lia.
Qed.

Lemma rnumber_zeros base n : rnumber base (replicate n 0) = 0.
Proof. induction n as [|n IH]; simpl; [done | rewrite IH; lia]. Qed.

Lemma base58_buffer_number data : digits 256 data →
  digits 58 (base58_buffer data) ∧ number 58 (base58_buffer data) = number 256 data.
Proof.
  intros Hd. unfold base58_buffer.
  destruct (process_bytes_number data (replicate (buffer_size data) 0)) as [Hdig Hnum].
  - done.
  - apply Forall_replicate. lia.
  - rewrite rnumber_zeros, length_replicate. unfold buffer_size. pose proof (buffer_large_enough (length data)). lia.
  - by rewrite rnumber_zeros.
  - rewrite number_reverse, Hnum, rnumber_zeros. split; [|lia].
    by apply Forall_reverse.
Qed.

Lemma bytes_of_digits s : digits 256 (bytes_of s).
Proof.
  apply Forall_forall. intros z (a & -> & _)%list_elem_of_fmap.
  pose proof (Ascii.nat_ascii_bounded a). lia.
Qed.

Lemma bytes_of_inj s t : bytes_of s = bytes_of t → s = t.
Proof.
  intros Heq.
  rewrite <- (String.string_of_list_ascii_of_string s), <- (String.string_of_list_ascii_of_string t). f_equal.
  revert Heq. unfold bytes_of. generalize (String.list_ascii_of_string t).
  induction (String.list_ascii_of_string s) as [|a l IH]; intros [|b k]; simpl; intros [=]; [done |].
  f_equal; [|auto].
  by rewrite <- (Ascii.ascii_nat_embedding a), <- (Ascii.ascii_nat_embedding b); f_equal; apply Nat2Z.inj.
Qed.

Lemma digit58_inj d e : 0 ≤ d < 58 → 0 ≤ e < 58 → digit58 d = digit58 e → d = e.
Proof.
  intros Hd He. assert (Hall : ∀ x y, x ∈ seqZ 0 58 → y ∈ seqZ 0 58 → digit58 x = digit58 y → x = y).
  { assert (Hb : forallb (λ x, forallb (λ y, implb (bool_decide (digit58 x = digit58 y)) (x =? y)) (seqZ 0 58)) (seqZ 0 58) = true)
      by by vm_compute.
    intros x y Hx Hy. rewrite forallb_forall in Hb. specialize (Hb x (proj1 (list_elem_of_In _ _) Hx)).
    rewrite forallb_forall in Hb. specialize (Hb y (proj1 (list_elem_of_In _ _) Hy)).
    intros Heq. rewrite bool_decide_eq_true_2 in Hb by done. simpl in Hb. lia. }
  apply Hall; apply elem_of_seqZ; lia.
Qed.

Lemma digit58_one d : 0 ≤ d < 58 → digit58 d = char_1 → d = 0.
Proof. intros Hd Heq. by apply digit58_inj. Qed.

Lemma encodeBase58_spec s :
  encodeBase58 s = String.string_of_list_ascii
    (replicate (leading_zeros (bytes_of s)) char_1 ++ (digit58 <$> skip_zeros (base58_buffer (bytes_of s)))).
Proof. unfold encodeBase58. by destruct (bytes_of s). Qed.

Lemma ones_then_digits n m l k : digits 58 l → digits 58 k → canonical l → canonical k →
  replicate n char_1 ++ (digit58 <$> l) = replicate m char_1 ++ (digit58 <$> k) → n = m ∧ l = k.
Proof.
  intros Hl Hk Cl Ck. revert m. induction n as [|n IH]; intros [|m]; simpl.
  - intros Heq. split; [done |]. clear Cl Ck. revert k Hk Heq.
    induction Hl as [|d l Hd Hl IH]; intros [|e k] Hk; simpl; intros [=]; [done |].
    apply Forall_cons in Hk as [He Hk]. f_equal; [by apply digit58_inj | by apply IH].
  - destruct l as [|d l]; intros [=]. exfalso. apply Cl. simpl. f_equal.
    apply Forall_cons in Hl as [Hd _]. by apply digit58_one.
  - destruct k as [|d k]; intros [=]. exfalso. apply Ck. simpl. f_equal.
    apply Forall_cons in Hk as [Hd _]. by apply digit58_one.
  - intros [= Heq]. by destruct (IH m Heq) as [-> ->].
Qed.

(** The base-58 text of a key stands for the key: after one 1 per leading zero byte
    come the digits, without a leading zero, of the number that the bytes write (the buffer
    of 138 cells per hundred bytes loses no carry), and two byte strings have the same text
    only if they are equal. *)
Theorem base58_faithful (s : string) :
  (∃ ds, encodeBase58 s = String.string_of_list_ascii (replicate (leading_zeros (bytes_of s)) char_1 ++ (digit58 <$> ds)) ∧
         digits 58 ds ∧ canonical ds ∧ number 58 ds = number 256 (bytes_of s)) ∧
  (∀ t, encodeBase58 s = encodeBase58 t ↔ s = t).
Proof.
  destruct (base58_buffer_number (bytes_of s)) as [Hd Hn]; [apply bytes_of_digits |]. split.
  - exists (skip_zeros (base58_buffer (bytes_of s))). rewrite number_skip_zeros.
    eauto using encodeBase58_spec, skip_zeros_digits, skip_zeros_canonical.
  - intros t. split; [|by intros ->]. rewrite !encodeBase58_spec. intros Heq.
    apply (f_equal String.list_ascii_of_string) in Heq. rewrite !String.list_ascii_of_string_of_list_ascii in Heq.
    destruct (base58_buffer_number (bytes_of t)) as [Hd' Hn']; [apply bytes_of_digits |].
    apply ones_then_digits in Heq as [Hz Heq]; try (apply skip_zeros_digits || apply skip_zeros_canonical; done).
    apply (f_equal (number 58)) in Heq. rewrite !number_skip_zeros, Hn, Hn' in Heq.
    apply bytes_of_inj. rewrite (leading_zeros_split (bytes_of s)), (leading_zeros_split (bytes_of t)), Hz. f_equal.
    apply (number_inj 256); try (apply skip_zeros_digits, bytes_of_digits || apply skip_zeros_canonical); [lia |].
    by rewrite !number_skip_zeros.
Qed.

(** ** Executable instances of the primitives, for the examples *)

Definition box_example : Box := {|
  x25519_public k := k;
  box_Seal p n pub priv := p +:+ "0123456789abcdef";
  box_Open c n pub priv := Some (String.substring 0 (String.length c - OverheadLen) c);
|}.

Lemma box_example_laws : @BoxLaws box_example.
Proof.
  split; [|intros; simpl; by rewrite string_app_length | done].
  intros p n a b _. simpl. f_equal. rewrite string_app_length. simpl.
  replace (_ + _ - _)%nat with (String.length p) by (unfold OverheadLen; lia). apply substring_app_l.
Qed.

Definition runtime_example : Runtime := {|
  uuid_String u := "";
  uuid_Parse s := None;
  ed25519_Verify pub data sig := String.eqb ("!" +:+ data) sig;
  ParseDID s := if HasPrefix s "did:wba:" then Some "wba" else None;
  Format_RFC3339 z := "";
|}.

Definition primitives_example : Primitives := {|
  ed25519_public seed := seed;
  ed25519_Sign key data := "!" +:+ data;
  X25519 k p := Some p;
|}.

Lemma primitives_example_laws : @PrimitivesLaws runtime_example primitives_example.
Proof. split; [done | | done]. intros seed data _. apply String.eqb_refl. Qed.

Definition text32 : string := "0123456789abcdef0123456789ABCDEF".

Lemma encrypt_roundtrip_witness :
  ∃ c, @Encrypt box_example (Some "nonce-nonce-nonce-nonce-") "hello" text32 text32 = Ok c ∧
       @Decrypt box_example c text32 text32 = Ok "hello".
Proof.
  destruct (@encrypt_roundtrip box_example box_example_laws "nonce-nonce-nonce-nonce-" text32 "hello" text32 text32)
    as [(c & Hc & Hd & _) _]; [reflexivity.. |]. by exists c.
Defined.

(** A codec of key files: the length of the first key in unary, and both keys. *)
Fixpoint unary (n : nat) : string := match n with O => "." | S n' => "1" +:+ unary n' end.

Fixpoint read_unary (s : string) : option (nat * string) :=
  match s with
  | String c s' =>
      if Ascii.eqb c char_1 then '(n, r) ← read_unary s'; Some (S n, r) else Some (O, s')
  | EmptyString => None
  end.

Lemma read_unary_app n s : read_unary (unary n +:+ s) = Some (n, s).
Proof. induction n as [|n IH]; simpl; [done |]. by rewrite IH. Qed.

Definition marshal_example (s : serializedIdentity) : string :=
  unary (String.length (si_SigningPrivateKey s)) +:+ si_SigningPrivateKey s +:+ si_EncryptionPrivateKey s.

Definition unmarshal_example (text : string) : option serializedIdentity :=
  '(n, r) ← read_unary text;
  Some {| si_SigningPrivateKey := String.substring 0 n r; si_EncryptionPrivateKey := slice r n |}.

Lemma unmarshal_marshal_example s : unmarshal_example (marshal_example s) = Some s.
Proof.
  unfold unmarshal_example, marshal_example. rewrite read_unary_app. simpl.
  rewrite substring_app_l, slice_app. by destruct s.
Qed.

Lemma identity_file_roundtrip_witness :
  match @NewIdentity runtime_example primitives_example box_example (Some text32) (Some text32) "example.com" "alice" with
  | Ok ident => @LoadFromFile runtime_example box_example unmarshal_example (Some (SaveToFile marshal_example ident)) "example.com" "alice" = Ok ident
  | Err _ => False
  end.
Proof.
  destruct (@NewIdentity _ _ _ _ _ _ _) eqn:Hnew; [|vm_compute in Hnew; discriminate].
  apply (@identity_file_roundtrip runtime_example primitives_example primitives_example_laws box_example
    marshal_example unmarshal_example text32 text32); [exact unmarshal_marshal_example | reflexivity | reflexivity | exact Hnew].
Defined.

(** A known text. *)
Example encodeBase58_example : encodeBase58 "Hello World!" = "2NEpo7TZRRrLZSi2U".
Proof. vm_compute. reflexivity. Qed.
