(* ===== verification/Queue.v ===== *)
(** * The offline message queue (src/pkg/queue/queue.go, src/pkg/queue/memory.go)

    [MemoryStore] is the store-and-forward queue of the relay: one slice of pending
    messages per recipient DID, a dead-letter list per recipient and a global
    counter.  Each method is one definition that takes the state and returns the new
    state with the method's results.  [time.Now()] is an argument, the iteration
    order of [range] over a map is an argument [ks] constrained by [RangeOrder], and
    [slices.SortFunc] is an argument [sort] constrained by [SortFunc]: the theorems
    hold for every clock, order and sort. *)

From S2P Require Import Prelude.

(** ** Data *)

Inductive QueueError := ErrQueueFull | ErrMessageTTL | ErrQueueClosed | ErrNotFound.

#[export] Instance QueueError_eq_dec : EqDecision QueueError.
Proof. solve_decision. Defined.

Record Config := {
  MessageTTL : Z;
  MaxQueueSize : Z;
  MaxTotalMessages : Z;
  MaxDeliveryAttempts : Z;
  AckTimeout : Z;
  EnableDLQ : bool;
}.

Definition DefaultConfig : Config := {|
  MessageTTL := 7 * 24 * Hour;
  MaxQueueSize := 10000;
  MaxTotalMessages := 100000;
  MaxDeliveryAttempts := 3;
  AckTimeout := 30 * Second;
  EnableDLQ := true;
|}.

Record QueuedMessage := {
  qm_ID : uuid;
  qm_RecipientDID : string;
  qm_Data : string;
  qm_QueuedAt : Z;
  qm_ExpiresAt : Z;
  qm_DeliveryAttempts : Z;
  qm_LastAttempt : option Z;
  qm_SenderDID : string;
}.

#[export] Instance QueuedMessage_eq_dec : EqDecision QueuedMessage.
Proof. solve_decision. Defined.

Definition IsExpired (now : Z) (m : QueuedMessage) : bool := (qm_ExpiresAt m <? now)%Z.

Record DeadLetterMessage := {
  dl_QueuedMessage : QueuedMessage;
  dl_FailReason : string;
  dl_MovedAt : Z;
}.

(** [closed] stores have nil maps, which read as empty ones. *)
Record MemoryStore := {
  config : Config;
  queues : gmap string (list QueuedMessage);
  dlq : gmap string (list DeadLetterMessage);
  totalCount : Z;
  closed : bool;
}.

Definition NewMemoryStore (c : Config) : MemoryStore :=
  {| config := c; queues := ∅; dlq := ∅; totalCount := 0; closed := false |}.

(** Functional update of the two fields the methods write together. *)
Definition with_queues (s : MemoryStore) (q : gmap string (list QueuedMessage)) (n : Z)
  : MemoryStore :=
  {| config := config s; queues := q; dlq := dlq s; totalCount := n; closed := closed s |}.

Definition with_dlq (s : MemoryStore) (d : gmap string (list DeadLetterMessage)) : MemoryStore :=
  {| config := config s; queues := queues s; dlq := d;
     totalCount := totalCount s; closed := closed s |}.

(** ** Operations *)

(** The candidate of the eviction scan: (time, recipient, index). *)
Definition scan_message (did : string) (acc : option (Z * string * nat))
    (im : nat * QueuedMessage) : option (Z * string * nat) :=
  let '(i, m) := im in
  match acc with
  | None => Some (qm_QueuedAt m, did, i)
  | Some (oldestTime, _, _) =>
      if (qm_QueuedAt m <? oldestTime)%Z then Some (qm_QueuedAt m, did, i) else acc
  end.

Definition scan_queue (qs : gmap string (list QueuedMessage))
    (acc : option (Z * string * nat)) (did : string) : option (Z * string * nat) :=
  foldl (scan_message did) acc (imap pair (get_slice qs did)).

Definition scan_oldest (ks : list string) (qs : gmap string (list QueuedMessage))
  : option (Z * string * nat) := foldl (scan_queue qs) None ks.

Definition evictOldestLocked (ks : list string) (s : MemoryStore) : MemoryStore :=
  match scan_oldest ks (queues s) with
  | Some (_, oldestDID, oldestIdx) =>
      if decide (oldestDID = EmptyString) then s
      else with_queues s
             (put_slice (queues s) oldestDID
                (slices_Delete oldestIdx (get_slice (queues s) oldestDID)))
             (totalCount s - 1)
  | None => s
  end.

Definition Enqueue (ks : list string) (s : MemoryStore) (msg : QueuedMessage)
  : MemoryStore * option QueueError :=
  if closed s then (s, Some ErrQueueClosed)
  else if bool_decide (0 < MaxQueueSize (config s) ∧
         MaxQueueSize (config s) ≤ Z.of_nat (length (get_slice (queues s) (qm_RecipientDID msg))))%Z
  then (s, Some ErrQueueFull)
  else
    let s1 := if bool_decide (0 < MaxTotalMessages (config s) ∧
                              MaxTotalMessages (config s) ≤ totalCount s)%Z
              then evictOldestLocked ks s else s in
    (with_queues s1
       (<[qm_RecipientDID msg := get_slice (queues s1) (qm_RecipientDID msg) ++ [msg]]> (queues s1))
       (totalCount s1 + 1), None).

(** The loop of [Dequeue] that splits a sorted queue into what is handed out and
    what stays. *)
Fixpoint dequeue_loop (now limit : Z) (queue result remaining : list QueuedMessage)
  : list QueuedMessage * list QueuedMessage :=
  match queue with
  | [] => (result, remaining)
  | msg :: queue' =>
      if IsExpired now msg then dequeue_loop now limit queue' result (remaining ++ [msg])
      else if bool_decide (0 < limit ∧ limit ≤ Z.of_nat (length result))%Z
      then dequeue_loop now limit queue' result (remaining ++ [msg])
      else dequeue_loop now limit queue' (result ++ [msg]) remaining
  end.

Definition Dequeue (sort : list QueuedMessage → list QueuedMessage) (now : Z)
    (s : MemoryStore) (recipientDID : string) (limit : Z)
  : MemoryStore * result QueueError (list QueuedMessage) :=
  if closed s then (s, Err ErrQueueClosed)
  else
    match get_slice (queues s) recipientDID with
    | [] => (s, Ok [])
    | queue =>
        let '(out, remaining) := dequeue_loop now limit (sort queue) [] [] in
        (with_queues s (put_slice (queues s) recipientDID remaining)
           (totalCount s - Z.of_nat (length out)), Ok out)
    end.

Fixpoint peek_loop (now limit : Z) (queue result : list QueuedMessage) : list QueuedMessage :=
  match queue with
  | [] => result
  | msg :: queue' =>
      if IsExpired now msg then peek_loop now limit queue' result
      else if bool_decide (0 < limit ∧ limit ≤ Z.of_nat (length result))%Z then result
      else peek_loop now limit queue' (result ++ [msg])
  end.

Definition Peek (sort : list QueuedMessage → list QueuedMessage) (now : Z)
    (s : MemoryStore) (recipientDID : string) (limit : Z)
  : result QueueError (list QueuedMessage) :=
  if closed s then Err ErrQueueClosed
  else
    match get_slice (queues s) recipientDID with
    | [] => Ok []
    | queue => Ok (peek_loop now limit (sort queue) [])
    end.

(** The nested search of [Ack] and [Nack]: first queue in iteration order that
    holds the ID, first index in it. *)
Fixpoint find_message (qs : gmap string (list QueuedMessage)) (id : uuid) (ks : list string)
  : option (string * nat * QueuedMessage) :=
  match ks with
  | [] => None
  | did :: ks' =>
      match list_find (λ m, qm_ID m = id) (get_slice qs did) with
      | Some (i, m) => Some (did, i, m)
      | None => find_message qs id ks'
      end
  end.

(** Remove index [i] of queue [did], as [Ack] and [Nack] do. *)
Definition remove_at (s : MemoryStore) (did : string) (i : nat) : MemoryStore :=
  with_queues s (put_slice (queues s) did (slices_Delete i (get_slice (queues s) did)))
    (totalCount s - 1).

Definition Ack (ks : list string) (s : MemoryStore) (messageID : uuid)
  : MemoryStore * option QueueError :=
  if closed s then (s, Some ErrQueueClosed)
  else
    match find_message (queues s) messageID ks with
    | Some (did, i, _) => (remove_at s did i, None)
    | None => (s, Some ErrNotFound)
    end.

(** The message after a failed delivery attempt. *)
Definition bump_attempt (now : Z) (m : QueuedMessage) : QueuedMessage := {|
  qm_ID := qm_ID m;
  qm_RecipientDID := qm_RecipientDID m;
  qm_Data := qm_Data m;
  qm_QueuedAt := qm_QueuedAt m;
  qm_ExpiresAt := qm_ExpiresAt m;
  qm_DeliveryAttempts := qm_DeliveryAttempts m + 1;
  qm_LastAttempt := Some now;
  qm_SenderDID := qm_SenderDID m;
|}.

Definition Nack (ks : list string) (now : Z) (s : MemoryStore) (messageID : uuid) (reason : string)
  : MemoryStore * option QueueError :=
  if closed s then (s, Some ErrQueueClosed)
  else
    match find_message (queues s) messageID ks with
    | None => (s, Some ErrNotFound)
    | Some (did, i, msg) =>
        let msg' := bump_attempt now msg in
        (* msg is a pointer into the slice: the update is visible in the queue *)
        let s1 := with_queues s (<[did := <[i := msg']> (get_slice (queues s) did)]> (queues s))
                    (totalCount s) in
        if bool_decide (0 < MaxDeliveryAttempts (config s) ∧
                        MaxDeliveryAttempts (config s) ≤ qm_DeliveryAttempts msg')%Z
        then
          let s2 := if EnableDLQ (config s)
                    then with_dlq s1
                           (<[did := get_slice (dlq s1) did ++
                              [{| dl_QueuedMessage := msg'; dl_FailReason := reason;
                                  dl_MovedAt := now |}]]> (dlq s1))
                    else s1 in
          (remove_at s2 did i, None)
        else (s1, None)
    end.

Definition GetQueueSize (now : Z) (s : MemoryStore) (recipientDID : string)
  : result QueueError Z :=
  if closed s then Err ErrQueueClosed
  else Ok (foldl (λ count m, if IsExpired now m then count else count + 1)%Z 0%Z
             (get_slice (queues s) recipientDID)).

Fixpoint dlq_loop (limit : Z) (l result : list DeadLetterMessage) : list DeadLetterMessage :=
  match l with
  | [] => result
  | m :: l' =>
      if bool_decide (0 < limit ∧ limit ≤ Z.of_nat (length result))%Z then result
      else dlq_loop limit l' (result ++ [m])
  end.

Definition GetDLQ (s : MemoryStore) (recipientDID : string) (limit : Z)
  : result QueueError (list DeadLetterMessage) :=
  if closed s then Err ErrQueueClosed
  else Ok (dlq_loop limit (get_slice (dlq s) recipientDID) []).

(** One iteration of the outer loop of [Cleanup]. *)
Definition cleanup_queue (now : Z) (acc : MemoryStore * Z) (did : string) : MemoryStore * Z :=
  let '(s, removed) := acc in
  let queue := get_slice (queues s) did in
  let remaining := filter (λ m, IsExpired now m = false) queue in
  let expired := Z.of_nat (length (filter (λ m, IsExpired now m = true) queue)) in
  (with_queues s (put_slice (queues s) did remaining) (totalCount s - expired),
   (removed + expired)%Z).

Definition Cleanup (ks : list string) (now : Z) (s : MemoryStore)
  : MemoryStore * result QueueError Z :=
  if closed s then (s, Err ErrQueueClosed)
  else
    let '(s', removed) := foldl (cleanup_queue now) (s, 0%Z) ks in
    (s', Ok removed).

Definition Close (s : MemoryStore) : MemoryStore :=
  {| config := config s; queues := ∅; dlq := ∅; totalCount := totalCount s; closed := true |}.

(** ** Loops as list functions *)

Abbreviation live now := (filter (λ m, IsExpired now m = false)).
Abbreviation expired now := (filter (λ m, IsExpired now m = true)).

(** A positive [limit] keeps the first [limit] elements; otherwise all are kept. *)
Definition cap {A} (limit : Z) (l : list A) : list A :=
  if (0 <? limit)%Z then take (Z.to_nat limit) l else l.

Lemma cap_length {A} limit (l : list A) :
  (0 < limit)%Z → (Z.of_nat (length (cap limit l)) ≤ limit)%Z.
Proof. intros Hl. unfold cap. rewrite (proj2 (Z.ltb_lt _ _) Hl), length_take. lia. Qed.

(** The part of [l] that still fits after [k] elements were taken. *)
Definition room {A} (limit : Z) (k : nat) (l : list A) : list A :=
  if (0 <? limit)%Z then take (Z.to_nat limit - k) l else l.

Lemma room_full {A} limit k (l : list A) :
  (0 < limit ∧ limit ≤ Z.of_nat k)%Z → room limit k l = [].
Proof.
  intros [H1 H2]. unfold room. rewrite (proj2 (Z.ltb_lt _ _) H1).
  by replace (Z.to_nat limit - k) with 0 by lia.
Qed.

Lemma room_cons {A} limit k x (l : list A) :
  ¬ (0 < limit ∧ limit ≤ Z.of_nat k)%Z → room limit k (x :: l) = x :: room limit (S k) l.
Proof.
  intros H. unfold room. destruct (0 <? limit)%Z eqn:E; [|done].
  apply Z.ltb_lt in E.
  by replace (Z.to_nat limit - k) with (S (Z.to_nat limit - S k)) by lia.
Qed.

Lemma room_nil {A} limit k : room limit k (@nil A) = [].
Proof. unfold room. destruct (_ <? _)%Z; [apply take_nil | done]. Qed.

Lemma room_0 {A} limit (l : list A) : room limit 0 l = cap limit l.
Proof. unfold room, cap. by rewrite Nat.sub_0_r. Qed.

Lemma dequeue_loop_out now limit q res rem :
  (dequeue_loop now limit q res rem).1 = res ++ room limit (length res) (live now q).
Proof.
  revert res rem. induction q as [|m q IH]; intros res rem; simpl.
  - by rewrite ?filter_nil, room_nil, app_nil_r.
  - rewrite filter_cons. destruct (IsExpired now m) eqn:E.
    + rewrite IH, decide_False; done.
    + rewrite decide_True by done. case_bool_decide as Hfull.
      * rewrite IH, !room_full; done.
      * rewrite IH, (room_cons _ _ _ _ Hfull), length_app, <- app_assoc. simpl.
        by rewrite Nat.add_1_r.
Qed.

Lemma dequeue_loop_Permutation now limit q res rem :
  (dequeue_loop now limit q res rem).1 ++ (dequeue_loop now limit q res rem).2
  ≡ₚ res ++ rem ++ q.
Proof.
  revert res rem. induction q as [|m q IH]; intros res rem; simpl.
  - by rewrite app_nil_r.
  - destruct (IsExpired now m); [|case_bool_decide]; rewrite IH; solve_Permutation.
Qed.

Lemma peek_loop_room now limit q res :
  peek_loop now limit q res = res ++ room limit (length res) (live now q).
Proof.
  revert res. induction q as [|m q IH]; intros res; simpl.
  - by rewrite ?filter_nil, room_nil, app_nil_r.
  - rewrite filter_cons. destruct (IsExpired now m) eqn:E.
    + rewrite IH, decide_False; done.
    + rewrite decide_True by done. case_bool_decide as Hfull.
      * by rewrite room_full, app_nil_r.
      * rewrite IH, (room_cons _ _ _ _ Hfull), length_app, <- app_assoc. simpl.
        by rewrite Nat.add_1_r.
Qed.

Lemma live_expired_Permutation now (q : list QueuedMessage) : live now q ++ expired now q ≡ₚ q.
Proof.
  induction q as [|m q IH]; [done |]. rewrite !filter_cons.
  destruct (IsExpired now m); simpl.
  - rewrite <- Permutation_middle. by f_equiv.
  - by f_equiv.
Qed.

Lemma GetQueueSize_count now (q : list QueuedMessage) (n : Z) :
  foldl (λ count m, if IsExpired now m then count else count + 1)%Z n q
  = (n + Z.of_nat (length (live now q)))%Z.
Proof.
  revert n. induction q as [|m q IH]; intros n; simpl; [lia |].
  rewrite IH, filter_cons. destruct (IsExpired now m); simpl; lia.
Qed.

Lemma dlq_loop_room limit l res : dlq_loop limit l res = res ++ room limit (length res) l.
Proof.
  revert res. induction l as [|m l IH]; intros res; simpl.
  - by rewrite ?filter_nil, room_nil, app_nil_r.
  - case_bool_decide as Hfull.
    + by rewrite room_full, app_nil_r.
    + rewrite IH, (room_cons _ _ _ _ Hfull), length_app, <- app_assoc. simpl.
      by rewrite Nat.add_1_r.
Qed.

(** ** The eviction scan *)

(** A candidate names a queued message by time, recipient and index. *)
Definition candidate (qs : gmap string (list QueuedMessage)) (c : Z * string * nat) : Prop :=
  ∃ m, get_slice qs c.1.2 !! c.2 = Some m ∧ qm_QueuedAt m = c.1.1.

(** [c] is no later than the previous candidate and the messages [ms]. *)
Definition no_later (acc : option (Z * string * nat)) (ms : list QueuedMessage)
    (c : Z * string * nat) : Prop :=
  (∀ c0, acc = Some c0 → (c.1.1 ≤ c0.1.1)%Z) ∧ Forall (λ m, (c.1.1 ≤ qm_QueuedAt m)%Z) ms.

(** What a scan that started from [acc] and looked at [ms] established. *)
Definition scanned (qs : gmap string (list QueuedMessage)) (acc : option (Z * string * nat))
    (ms : list QueuedMessage) (out : option (Z * string * nat)) : Prop :=
  match out with
  | Some c => candidate qs c ∧ no_later acc ms c
  | None => acc = None ∧ ms = []
  end.

Lemma scanned_nil qs acc :
  (∀ c, acc = Some c → candidate qs c) → scanned qs acc [] acc.
Proof.
  intros Hacc. destruct acc as [c|]; simpl; [|done]. split; [by apply Hacc |].
  split; [by intros ? [= ->] | done].
Qed.

Lemma scanned_app qs acc ms1 mid ms2 out :
  scanned qs acc ms1 mid → scanned qs mid ms2 out → scanned qs acc (ms1 ++ ms2) out.
Proof.
  intros H1 H2. destruct mid as [c1|]; simpl in H1.
  - destruct H1 as [Hc1 [Hle1 Hms1]].
    destruct out as [c|]; simpl in *; [|by destruct H2].
    destruct H2 as [Hc [Hle Hms]]. specialize (Hle c1 eq_refl).
    split; [done |]. split.
    + intros c0 Hc0. specialize (Hle1 c0 Hc0). lia.
    + apply Forall_app. split; [|done].
      eapply Forall_impl; [exact Hms1 |]. simpl. intros. lia.
  - destruct H1 as [-> ->]. exact H2.
Qed.

Lemma scanned_candidate qs acc ms out c :
  scanned qs acc ms out → out = Some c → candidate qs c.
Proof. intros H ->. apply H. Qed.

Lemma scan_message_spec qs did acc i m :
  (∀ c, acc = Some c → candidate qs c) → get_slice qs did !! i = Some m →
  scanned qs acc [m] (scan_message did acc (i, m)).
Proof.
  intros Hacc Hm. simpl. destruct acc as [[[t d] j]|].
  - destruct (qm_QueuedAt m <? t)%Z eqn:E; simpl.
    + apply Z.ltb_lt in E. split; [by exists m |].
      split; [intros ? [= <-]; simpl; lia | by repeat constructor].
    + apply Z.ltb_ge in E. split; [by apply Hacc |].
      split; [by intros ? [= <-] | repeat constructor; simpl; lia].
  - split; [by exists m |]. split; [done | by repeat constructor].
Qed.

Lemma scan_messages_spec qs did (l : list (nat * QueuedMessage)) acc :
  (∀ c, acc = Some c → candidate qs c) →
  (∀ i m, (i, m) ∈ l → get_slice qs did !! i = Some m) →
  scanned qs acc l.*2 (foldl (scan_message did) acc l).
Proof.
  revert acc. induction l as [|[i m] l IH]; intros acc Hacc Hl.
  - by apply scanned_nil.
  - assert (H1 : scanned qs acc [m] (scan_message did acc (i, m))).
    { apply scan_message_spec; [done |]. apply Hl. left. }
    eapply (scanned_app _ _ [m]); [exact H1 |]. apply IH.
    + intros c Hc. by eapply scanned_candidate.
    + intros j m' Hin. apply Hl. by right.
Qed.

Lemma scan_queue_spec qs acc did :
  (∀ c, acc = Some c → candidate qs c) →
  scanned qs acc (get_slice qs did) (scan_queue qs acc did).
Proof.
  intros Hacc. unfold scan_queue.
  pose proof (scan_messages_spec qs did (imap pair (get_slice qs did)) acc Hacc) as H.
  replace ((imap pair (get_slice qs did)).*2) with (get_slice qs did) in H.
  - apply H. intros i m [j [? [Heq Hj]]]%elem_of_lookup_imap. by simplify_eq.
  - rewrite fmap_imap. symmetry. apply list_eq. intros i.
    rewrite list_lookup_imap. by destruct (_ !! i).
Qed.

Lemma scan_queues_spec qs ks acc :
  (∀ c, acc = Some c → candidate qs c) →
  scanned qs acc (ks ≫= get_slice qs) (foldl (scan_queue qs) acc ks).
Proof.
  revert acc. induction ks as [|did ks IH]; intros acc Hacc.
  - by apply scanned_nil.
  - pose proof (scan_queue_spec qs acc did Hacc) as H1.
    eapply scanned_app; [exact H1 |]. apply IH.
    intros c Hc. by eapply scanned_candidate.
Qed.

Lemma scan_oldest_spec qs ks :
  RangeOrder qs ks → scanned qs None (flatten qs) (scan_oldest ks qs).
Proof.
  intros Hord. pose proof (scan_queues_spec qs ks None ltac:(done)) as H.
  fold (scan_oldest ks qs) in H.
  pose proof (range_order_flatten qs ks Hord) as Hp.
  unfold scanned in *. destruct (scan_oldest ks qs) as [c|].
  - destruct H as [Hc [Hle Hms]]. split; [done |]. split; [done |]. by rewrite <- Hp.
  - destruct H as [_ Hnil]. split; [done |].
    rewrite Hnil in Hp. by apply Permutation_nil_l in Hp.
Qed.

(** ** The representation invariant *)

Abbreviation addressed_to did := (λ m, qm_RecipientDID m = did).

Record Inv (s : MemoryStore) : Prop := {
  (** the global counter counts the queued messages *)
  inv_count : closed s = false → totalCount s = Z.of_nat (length (flatten (queues s)));
  (** no empty queue is kept, and a queue holds messages of its own recipient *)
  inv_keys did q : queues s !! did = Some q → q ≠ [] ∧ Forall (addressed_to did) q;
  (** the per-recipient limit holds *)
  inv_size did : (0 < MaxQueueSize (config s))%Z →
    (Z.of_nat (length (get_slice (queues s) did)) ≤ MaxQueueSize (config s))%Z;
  (** a closed store is empty *)
  inv_closed : closed s = true → queues s = ∅ ∧ dlq s = ∅;
}.

Lemma Inv_new c : Inv (NewMemoryStore c).
Proof.
  split; simpl; try done.
  - intros did. unfold get_slice. rewrite lookup_empty. simpl. lia.
Qed.

Lemma Inv_slice s did : Inv s → Forall (addressed_to did) (get_slice (queues s) did).
Proof.
  intros HI. unfold get_slice. destruct (queues s !! did) as [q|] eqn:E; simpl; [|done].
  by apply (inv_keys s HI did q).
Qed.

(** Replacing one queue is how every operation changes the store. *)
Lemma Inv_put s did l n :
  Inv s → closed s = false →
  Forall (addressed_to did) l →
  ((0 < MaxQueueSize (config s))%Z → (Z.of_nat (length l) ≤ MaxQueueSize (config s))%Z) →
  n = (totalCount s - Z.of_nat (length (get_slice (queues s) did)) + Z.of_nat (length l))%Z →
  Inv (with_queues s (put_slice (queues s) did l) n).
Proof.
  intros HI Hc Hl Hsz ->. split; simpl.
  - intros _. rewrite (inv_count s HI Hc), flatten_put_slice.
    rewrite (flatten_delete (queues s) did) at 1. rewrite !length_app. lia.
  - intros did' q. unfold put_slice. destruct l as [|x l].
    + rewrite lookup_delete. case_decide; [done |]. apply (inv_keys s HI).
    + rewrite lookup_insert. case_decide; [|apply (inv_keys s HI)].
      intros [= <-]. by subst.
  - intros did' Hm. destruct (decide (did = did')) as [<-|Hne].
    + rewrite get_put_slice_eq. by apply Hsz.
    + rewrite get_put_slice_ne by done. by apply (inv_size s HI).
  - by rewrite Hc.
Qed.

(** Keeping some of the messages of a queue. *)
Lemma Inv_shrink s did l r n :
  Inv s → closed s = false → get_slice (queues s) did ≡ₚ r ++ l →
  n = (totalCount s - Z.of_nat (length r))%Z →
  Inv (with_queues s (put_slice (queues s) did l) n).
Proof.
  intros HI Hc Hp ->. apply Inv_put; try done.
  - pose proof (Inv_slice s did HI) as HF. rewrite Hp, Forall_app in HF. by destruct HF.
  - intros Hm. pose proof (inv_size s HI did Hm) as H. rewrite Hp, length_app in H. lia.
  - rewrite Hp, length_app. lia.
Qed.

Lemma flatten_shrink s did l r n :
  get_slice (queues s) did ≡ₚ r ++ l →
  flatten (queues s) ≡ₚ r ++ flatten (queues (with_queues s (put_slice (queues s) did l) n)).
Proof.
  intros Hp. simpl. rewrite flatten_put_slice, (flatten_delete (queues s) did), Hp.
  by rewrite app_assoc.
Qed.

Lemma put_slice_nonempty {K V} `{Countable K} (m : gmap K (list V)) k l :
  l ≠ [] → put_slice m k l = <[k := l]> m.
Proof. by destruct l. Qed.

(** The messages of one recipient among all the pending ones. *)
Lemma slice_addressed s did :
  Inv s → get_slice (queues s) did ≡ₚ filter (addressed_to did) (flatten (queues s)).
Proof.
  intros HI. rewrite (flatten_delete (queues s) did), filter_app.
  rewrite (filter_all _ (get_slice (queues s) did)) by by apply Inv_slice.
  rewrite (filter_none _ (flatten (delete did (queues s)))); [by rewrite app_nil_r |].
  apply Forall_forall. intros x (did' & q & Hq & Hx)%elem_of_flatten Heq.
  apply lookup_delete_Some in Hq as [Hne Hq].
  destruct (inv_keys s HI did' q Hq) as [_ HF]. rewrite Forall_forall in HF.
  apply Hne. rewrite <- Heq. by apply HF.
Qed.

(** ** What the store promises: a bag of messages *)

Inductive Event :=
| EvEnqueue (msg : QueuedMessage) (err : option QueueError)
| EvDequeue (now : Z) (did : string) (limit : Z) (r : result QueueError (list QueuedMessage))
| EvAck (id : uuid) (err : option QueueError)
| EvNack (now : Z) (id : uuid) (reason : string) (err : option QueueError)
| EvCleanup (now : Z) (r : result QueueError Z)
| EvClose.

(** The transitions of the store, whatever order the maps are walked in and
    however the sort breaks ties. *)
Inductive step (s : MemoryStore) : Event → MemoryStore → Prop :=
| step_enqueue ks msg s' err :
    RangeOrder (queues s) ks → Enqueue ks s msg = (s', err) → step s (EvEnqueue msg err) s'
| step_dequeue sort now did limit s' r :
    SortFunc (key_le qm_QueuedAt) sort → Dequeue sort now s did limit = (s', r) →
    step s (EvDequeue now did limit r) s'
| step_ack ks id s' err :
    RangeOrder (queues s) ks → Ack ks s id = (s', err) → step s (EvAck id err) s'
| step_nack ks now id reason s' err :
    RangeOrder (queues s) ks → Nack ks now s id reason = (s', err) →
    step s (EvNack now id reason err) s'
| step_cleanup ks now s' r :
    RangeOrder (queues s) ks → Cleanup ks now s = (s', r) → step s (EvCleanup now r) s'
| step_close : step s EvClose (Close s).

(** The recipient's queue is at its limit. *)
Definition at_limit (c : Config) (P : list QueuedMessage) (did : string) : Prop :=
  (0 < MaxQueueSize c)%Z ∧
  (MaxQueueSize c ≤ Z.of_nat (length (filter (addressed_to did) P)))%Z.

(** The store holds as many messages as it may. *)
Definition under_pressure (c : Config) (P : list QueuedMessage) : Prop :=
  (0 < MaxTotalMessages c)%Z ∧ (MaxTotalMessages c ≤ Z.of_nat (length P))%Z.

Definition oldest (P : list QueuedMessage) (m : QueuedMessage) : Prop :=
  m ∈ P ∧ Forall (λ x, (qm_QueuedAt m ≤ qm_QueuedAt x)%Z) P.

(** The retry budget of a message is used up. *)
Definition exhausted (c : Config) (m : QueuedMessage) : Prop :=
  (0 < MaxDeliveryAttempts c)%Z ∧ (MaxDeliveryAttempts c ≤ qm_DeliveryAttempts m)%Z.

(** [out] is what a receiver may get: its own live messages, oldest first, at most
    [limit] of them, and nothing older (of its own, still live) is held back. *)
Definition delivery (now : Z) (did : string) (limit : Z) (out rest : list QueuedMessage) : Prop :=
  Forall (λ m, qm_RecipientDID m = did ∧ IsExpired now m = false) out ∧
  StronglySorted (key_le qm_QueuedAt) out ∧
  ((0 < limit)%Z → (Z.of_nat (length out) ≤ limit)%Z) ∧
  ∀ b, b ∈ rest → qm_RecipientDID b = did → IsExpired now b = false →
    ((0 < limit)%Z ∧ Z.of_nat (length out) = limit) ∧
    Forall (λ a, (qm_QueuedAt a ≤ qm_QueuedAt b)%Z) out.

(** The abstract store: pending messages [P] and dead letters [D], as bags. *)
Inductive spec_step (c : Config) (P : list QueuedMessage) (D : list DeadLetterMessage)
  : Event → list QueuedMessage → list DeadLetterMessage → Prop :=
| spec_full msg :
    at_limit c P (qm_RecipientDID msg) →
    spec_step c P D (EvEnqueue msg (Some ErrQueueFull)) P D
| spec_enqueue msg P' :
    ¬ at_limit c P (qm_RecipientDID msg) →
    (under_pressure c P → ∃ m, oldest P m ∧ qm_RecipientDID m = EmptyString) →
    P' ≡ₚ msg :: P →
    spec_step c P D (EvEnqueue msg None) P' D
| spec_evict msg old P0 P' :
    ¬ at_limit c P (qm_RecipientDID msg) → under_pressure c P →
    oldest P old → qm_RecipientDID old ≠ EmptyString → P ≡ₚ old :: P0 →
    P' ≡ₚ msg :: P0 →
    spec_step c P D (EvEnqueue msg None) P' D
| spec_dequeue now did limit out P' :
    P ≡ₚ out ++ P' → delivery now did limit out P' →
    spec_step c P D (EvDequeue now did limit (Ok out)) P' D
| spec_ack m P' :
    P ≡ₚ m :: P' → spec_step c P D (EvAck (qm_ID m) None) P' D
| spec_ack_missing id :
    Forall (λ m, qm_ID m ≠ id) P → spec_step c P D (EvAck id (Some ErrNotFound)) P D
| spec_nack_retry now m reason P0 P' :
    P ≡ₚ m :: P0 → ¬ exhausted c (bump_attempt now m) → P' ≡ₚ bump_attempt now m :: P0 →
    spec_step c P D (EvNack now (qm_ID m) reason None) P' D
| spec_nack_dead now m reason P' D' :
    P ≡ₚ m :: P' → exhausted c (bump_attempt now m) →
    D' ≡ₚ (if EnableDLQ c
           then [{| dl_QueuedMessage := bump_attempt now m; dl_FailReason := reason;
                    dl_MovedAt := now |}]
           else []) ++ D →
    spec_step c P D (EvNack now (qm_ID m) reason None) P' D'
| spec_nack_missing now id reason :
    Forall (λ m, qm_ID m ≠ id) P →
    spec_step c P D (EvNack now id reason (Some ErrNotFound)) P D
| spec_cleanup now P' :
    P' ≡ₚ live now P →
    spec_step c P D (EvCleanup now (Ok (Z.of_nat (length (expired now P))))) P' D
| spec_close : spec_step c P D EvClose [] [].

(** ** Each operation against the specification *)

Lemma slice_lookup_flatten s did i m :
  get_slice (queues s) did !! i = Some m → m ∈ flatten (queues s).
Proof.
  intros Hi. rewrite (flatten_delete (queues s) did). apply elem_of_app. left.
  by eapply list_elem_of_lookup_2.
Qed.

Lemma slice_lookup_recipient s did i m :
  Inv s → get_slice (queues s) did !! i = Some m → qm_RecipientDID m = did.
Proof.
  intros HI Hi. pose proof (Inv_slice s did HI) as HF. rewrite Forall_forall in HF.
  apply HF. by eapply list_elem_of_lookup_2.
Qed.

(** Removing one message from its queue. *)
Lemma remove_at_spec s did i m :
  Inv s → closed s = false → get_slice (queues s) did !! i = Some m →
  Inv (remove_at s did i) ∧
  flatten (queues s) ≡ₚ m :: flatten (queues (remove_at s did i)).
Proof.
  intros HI Hc Hi. pose proof (slices_Delete_Permutation i _ _ Hi) as Hp.
  split.
  - by apply (Inv_shrink s did _ [m]).
  - by apply (flatten_shrink s did _ [m]).
Qed.

Lemma evictOldestLocked_spec ks s :
  Inv s → closed s = false → RangeOrder (queues s) ks →
  (∃ old, oldest (flatten (queues s)) old ∧ qm_RecipientDID old ≠ EmptyString ∧
     Inv (evictOldestLocked ks s) ∧
     flatten (queues s) ≡ₚ old :: flatten (queues (evictOldestLocked ks s))) ∨
  (evictOldestLocked ks s = s ∧
     (flatten (queues s) = [] ∨
      ∃ m, oldest (flatten (queues s)) m ∧ qm_RecipientDID m = EmptyString)).
Proof.
  intros HI Hc Hord. pose proof (scan_oldest_spec (queues s) ks Hord) as Hscan.
  unfold evictOldestLocked. destruct (scan_oldest ks (queues s)) as [[[t did] i]|]; simpl in Hscan.
  - destruct Hscan as [(m & Hi & Ht) [_ Hmin]]. simpl in *.
    assert (Hold : oldest (flatten (queues s)) m).
    { split; [by eapply slice_lookup_flatten | by rewrite Ht]. }
    pose proof (slice_lookup_recipient s did i m HI Hi) as Hrec.
    case_decide as Hemp.
    + right. split; [done |]. right. exists m. by rewrite Hrec.
    + left. exists m. rewrite Hrec. by destruct (remove_at_spec s did i m HI Hc Hi).
  - right. split; [done |]. left. by destruct Hscan.
Qed.

Lemma evictOldestLocked_frame ks s :
  config (evictOldestLocked ks s) = config s ∧ closed (evictOldestLocked ks s) = closed s ∧
  dlq (evictOldestLocked ks s) = dlq s.
Proof. unfold evictOldestLocked. by go_cases. Qed.

(** Appending a message to a queue below its limit. *)
Lemma append_spec s msg n :
  Inv s → closed s = false →
  ((0 < MaxQueueSize (config s))%Z →
    (Z.of_nat (length (get_slice (queues s) (qm_RecipientDID msg))) < MaxQueueSize (config s))%Z) →
  n = (totalCount s + 1)%Z →
  let s' := with_queues s (<[qm_RecipientDID msg :=
              get_slice (queues s) (qm_RecipientDID msg) ++ [msg]]> (queues s)) n in
  Inv s' ∧ flatten (queues s') ≡ₚ msg :: flatten (queues s).
Proof.
  intros HI Hc Hsz ->. simpl.
  rewrite <- (put_slice_nonempty (queues s)) by apply snoc_nonempty.
  split.
  - apply Inv_put; try done.
    + apply Forall_app. split; [by apply Inv_slice | by repeat constructor].
    + intros Hm. specialize (Hsz Hm). rewrite length_app. simpl. lia.
    + rewrite length_app. simpl. lia.
  - rewrite flatten_put_slice, (flatten_delete (queues s) (qm_RecipientDID msg)).
    solve_Permutation.
Qed.

Lemma at_limit_slice s did :
  Inv s → at_limit (config s) (flatten (queues s)) did ↔
  (0 < MaxQueueSize (config s) ∧
   MaxQueueSize (config s) ≤ Z.of_nat (length (get_slice (queues s) did)))%Z.
Proof. intros HI. unfold at_limit. by rewrite <- (slice_addressed s did HI). Qed.

Lemma under_pressure_count s :
  Inv s → closed s = false →
  under_pressure (config s) (flatten (queues s)) ↔
  (0 < MaxTotalMessages (config s) ∧ MaxTotalMessages (config s) ≤ totalCount s)%Z.
Proof. intros HI Hc. unfold under_pressure. by rewrite (inv_count s HI Hc). Qed.

(** Eviction only shortens queues. *)
Lemma evict_slice_length ks s did :
  length (get_slice (queues (evictOldestLocked ks s)) did) ≤ length (get_slice (queues s) did).
Proof.
  unfold evictOldestLocked. destruct (scan_oldest _ _) as [[[t d] i]|]; [|done].
  case_decide; [done |]. simpl. destruct (decide (d = did)) as [<-|Hne].
  - rewrite get_put_slice_eq. apply sublist_length, slices_Delete_sublist.
  - by rewrite get_put_slice_ne.
Qed.

Lemma Enqueue_spec ks s msg s' err :
  Inv s → closed s = false → RangeOrder (queues s) ks → Enqueue ks s msg = (s', err) →
  Inv s' ∧ spec_step (config s) (flatten (queues s)) (flatten (dlq s)) (EvEnqueue msg err)
             (flatten (queues s')) (flatten (dlq s')).
Proof.
  intros HI Hc Hord HE. unfold Enqueue in HE. rewrite Hc in HE.
  case_bool_decide as Hlim.
  { simplify_eq. split; [done |]. apply spec_full. by apply at_limit_slice. }
  assert (Hsz : (0 < MaxQueueSize (config s))%Z →
    (Z.of_nat (length (get_slice (queues s) (qm_RecipientDID msg))) < MaxQueueSize (config s))%Z)
    by lia.
  rewrite <- (at_limit_slice s (qm_RecipientDID msg) HI) in Hlim.
  case_bool_decide as Hpr; rewrite <- (under_pressure_count s HI Hc) in Hpr.
  2:{ destruct (append_spec s msg _ HI Hc Hsz eq_refl) as [HI' Hp]. simplify_eq.
      split; [done |]. apply spec_enqueue; done. }
  destruct (evictOldestLocked_frame ks s) as (Hcf & Hcl & Hd).
  pose proof (evict_slice_length ks s (qm_RecipientDID msg)) as Hlen.
  destruct (evictOldestLocked_spec ks s HI Hc Hord) as [(old & Hold & Hne & HI1 & Hp1)|[Heq Hcase]].
  - destruct (append_spec (evictOldestLocked ks s) msg
      (totalCount (evictOldestLocked ks s) + 1)%Z HI1) as [HI' Hp]; [by rewrite Hcl | rewrite Hcf; lia | done |].
    simplify_eq. split; [done |]. simpl. rewrite Hd. by eapply spec_evict.
  - rewrite Heq in HE. destruct (append_spec s msg _ HI Hc Hsz eq_refl) as [HI' Hp]. simplify_eq.
    split; [done |]. apply spec_enqueue; [done | | done].
    intros _. destruct Hcase as [Hnil|?]; [|done].
    destruct Hpr as [? Hpr]. rewrite Hnil in Hpr. simpl in Hpr. lia.
Qed.

Lemma Dequeue_shape sort now s did limit :
  SortFunc (key_le qm_QueuedAt) sort → closed s = false →
  ∃ remaining,
    Dequeue sort now s did limit =
      (with_queues s (put_slice (queues s) did remaining)
         (totalCount s - Z.of_nat (length (cap limit (live now (sort (get_slice (queues s) did)))))),
       Ok (cap limit (live now (sort (get_slice (queues s) did))))) ∧
    get_slice (queues s) did ≡ₚ cap limit (live now (sort (get_slice (queues s) did))) ++ remaining
  ∨ get_slice (queues s) did = [] ∧ Dequeue sort now s did limit = (s, Ok []).
Proof.
  intros Hsort Hc. unfold Dequeue. rewrite Hc.
  destruct (get_slice (queues s) did) as [|m q] eqn:E; [exists []; by right |].
  rewrite <- E in *. clear m q E.
  pose proof (dequeue_loop_out now limit (sort (get_slice (queues s) did)) [] []) as Hout.
  pose proof (dequeue_loop_Permutation now limit (sort (get_slice (queues s) did)) [] []) as Hp.
  destruct (dequeue_loop now limit (sort (get_slice (queues s) did)) [] []) as [out rem].
  simpl in Hout, Hp. rewrite room_0 in Hout. subst out. exists rem. left.
  split; [done |]. by rewrite Hp, sort_Permutation.
Qed.

Lemma StronglySorted_filter {A} (R : relation A) (P : A → Prop) `{∀ x, Decision (P x)} l :
  StronglySorted R l → StronglySorted R (filter P l).
Proof.
  induction 1 as [|x l HS IH HF]; [constructor |]. rewrite filter_cons.
  case_decide; [|done]. constructor; [done |].
  rewrite Forall_forall in *. intros y [_ Hy]%list_elem_of_filter. by apply HF.
Qed.

(** A prefix of a sorted list is sorted and bounded by the rest. *)
Lemma StronglySorted_take_le {A} (R : relation A) l n :
  StronglySorted R l →
  StronglySorted R (take n l) ∧ ∀ b, b ∈ drop n l → Forall (λ a, R a b) (take n l).
Proof.
  intros HS. rewrite <- (take_drop n l) in HS. revert HS.
  generalize (take n l), (drop n l). intros l1 l2 HS.
  induction l1 as [|x l1 IH]; simpl in *.
  - split; [constructor | constructor].
  - apply StronglySorted_inv in HS as [HS HF]. apply IH in HS as [HS1 HS2].
    apply Forall_app in HF as [HF1 HF2]. split; [by constructor |].
    intros b Hb. constructor; [|by apply HS2]. rewrite Forall_forall in HF2. by apply HF2.
Qed.

(** Capping a sorted list of live messages leaves only later ones behind. *)
Lemma cap_sorted limit (l rest : list QueuedMessage) now :
  StronglySorted (key_le qm_QueuedAt) l → l ≡ₚ cap limit l ++ live now rest →
  StronglySorted (key_le qm_QueuedAt) (cap limit l) ∧
  (∀ b, b ∈ live now rest →
    ((0 < limit)%Z ∧ Z.of_nat (length (cap limit l)) = limit) ∧
    Forall (λ a, (qm_QueuedAt a ≤ qm_QueuedAt b)%Z) (cap limit l)).
Proof.
  intros HS Hp. unfold cap in *. destruct (0 <? limit)%Z eqn:E.
  - apply Z.ltb_lt in E. destruct (StronglySorted_take_le _ l (Z.to_nat limit) HS) as [H1 H2].
    split; [done |]. intros b Hb. rewrite <- (take_drop (Z.to_nat limit) l) in Hp at 1.
    apply Permutation_app_inv_l in Hp. rewrite <- Hp in Hb. split; [|by apply H2].
    split; [done |]. rewrite length_take.
    assert (length (drop (Z.to_nat limit) l) ≠ 0) as Hd.
    { intros Hn%nil_length_inv. rewrite Hn in Hb. by apply not_elem_of_nil in Hb. }
    rewrite length_drop in Hd. lia.
  - split; [done |]. intros b Hb.
    apply Permutation_length in Hp. rewrite length_app in Hp.
    assert (live now rest = []) as Hnil by (apply nil_length_inv; lia).
    rewrite Hnil in Hb. by apply not_elem_of_nil in Hb.
Qed.

Lemma Dequeue_spec sort now s did limit s' r :
  Inv s → closed s = false → SortFunc (key_le qm_QueuedAt) sort →
  Dequeue sort now s did limit = (s', r) →
  Inv s' ∧ spec_step (config s) (flatten (queues s)) (flatten (dlq s)) (EvDequeue now did limit r)
             (flatten (queues s')) (flatten (dlq s')).
Proof.
  intros HI Hc Hsort HE.
  destruct (Dequeue_shape sort now s did limit Hsort Hc) as [rem [[HD Hp]|[Hnil HD]]];
    rewrite HD in HE; simplify_eq.
  2:{ split; [done |]. apply spec_dequeue; [done |]. split_and!; [done | constructor | simpl; lia |].
      intros b Hb Hrec. exfalso.
      assert (b ∈ filter (addressed_to did) (flatten (queues s'))) as Hin
        by by apply list_elem_of_filter.
      rewrite <- (slice_addressed s' did HI), Hnil in Hin. by apply not_elem_of_nil in Hin. }
  set (q := get_slice (queues s) did) in *. set (l := live now (sort q)) in *.
  split; [by apply (Inv_shrink s did rem (cap limit l)) |].
  apply spec_dequeue; [by apply flatten_shrink |].
  assert (Hl : Forall (λ m, qm_RecipientDID m = did ∧ IsExpired now m = false) l).
  { apply Forall_forall. intros m [Hlive Hm]%list_elem_of_filter. split; [|done].
    rewrite sort_Permutation in Hm. pose proof (Inv_slice s did HI) as HF.
    rewrite Forall_forall in HF. by apply HF. }
  assert (Hcl : Forall (λ m, qm_RecipientDID m = did ∧ IsExpired now m = false) (cap limit l)).
  { unfold cap. destruct (_ <? _)%Z; [by apply Forall_take | done]. }
  assert (Hlp : l ≡ₚ cap limit l ++ live now rem).
  { subst l. rewrite sort_Permutation at 1. fold q. rewrite Hp at 1. rewrite filter_app.
    rewrite (filter_all _ (cap limit _)); [done |].
    eapply Forall_impl; [exact Hcl | by intros ? []]. }
  assert (HS : StronglySorted (key_le qm_QueuedAt) l) by apply StronglySorted_filter, sort_Sorted.
  destruct (cap_sorted limit l rem now HS Hlp) as [HSc Hrest].
  split_and!; [done | done | apply cap_length |].
  intros b Hb Hrec Hlive. apply Hrest, list_elem_of_filter.
  split; [done |]. simpl in Hb. rewrite flatten_put_slice, elem_of_app in Hb.
  destruct Hb as [Hb|Hb]; [done |]. exfalso.
  apply elem_of_flatten in Hb as (did' & q' & Hq' & Hb).
  apply lookup_delete_Some in Hq' as [Hne Hq'].
  destruct (inv_keys s HI did' q' Hq') as [_ HF]. rewrite Forall_forall in HF.
  apply Hne. rewrite <- Hrec. by apply HF.
Qed.

Lemma find_message_Some qs id ks did i m :
  find_message qs id ks = Some (did, i, m) → get_slice qs did !! i = Some m ∧ qm_ID m = id.
Proof.
  induction ks as [|k ks IH]; simpl; [done |].
  destruct (list_find _ _) as [[j x]|] eqn:E; [|done].
  intros [= <- <- <-]. apply list_find_Some in E as (? & ? & _). done.
Qed.

Lemma find_message_None qs id ks :
  find_message qs id ks = None → Forall (λ m, qm_ID m ≠ id) (ks ≫= get_slice qs).
Proof.
  induction ks as [|k ks IH]; [by constructor |]. simpl.
  destruct (list_find _ _) as [[j x]|] eqn:E; [done |]. intros Hn.
  apply list_find_None in E. apply Forall_app. split; [done | by apply IH].
Qed.

Lemma find_message_missing s id ks :
  RangeOrder (queues s) ks → find_message (queues s) id ks = None →
  Forall (λ m, qm_ID m ≠ id) (flatten (queues s)).
Proof. intros Hord Hn. rewrite <- (range_order_flatten _ ks Hord). by apply find_message_None. Qed.

Lemma Ack_spec ks s id s' err :
  Inv s → closed s = false → RangeOrder (queues s) ks → Ack ks s id = (s', err) →
  Inv s' ∧ spec_step (config s) (flatten (queues s)) (flatten (dlq s)) (EvAck id err)
             (flatten (queues s')) (flatten (dlq s')).
Proof.
  intros HI Hc Hord HE. unfold Ack in HE. rewrite Hc in HE.
  destruct (find_message _ _ _) as [[[did i] m]|] eqn:E; simplify_eq.
  - apply find_message_Some in E as [Hi <-].
    destruct (remove_at_spec s did i m HI Hc Hi) as [HI' Hp]. split; [done |]. by apply spec_ack.
  - split; [done |]. apply spec_ack_missing. by eapply find_message_missing.
Qed.

(** Replacing one message by another of the same recipient. *)
Lemma update_at_spec s did i m m' :
  Inv s → closed s = false → get_slice (queues s) did !! i = Some m →
  qm_RecipientDID m' = did →
  let s1 := with_queues s (<[did := <[i := m']> (get_slice (queues s) did)]> (queues s))
              (totalCount s) in
  Inv s1 ∧ get_slice (queues s1) did !! i = Some m' ∧
  flatten (queues s1) ≡ₚ m' :: slices_Delete i (get_slice (queues s) did) ++
                         flatten (delete did (queues s)).
Proof.
  intros HI Hc Hi Hrec. pose proof (lookup_lt_Some _ _ _ Hi) as Hlt. simpl.
  rewrite <- (put_slice_nonempty (queues s)).
  2:{ intros Hn. apply (f_equal length) in Hn. rewrite length_insert in Hn. simpl in Hn. lia. }
  split_and!.
  - apply Inv_put; try done.
    + apply Forall_insert; [by apply Inv_slice | done].
    + intros Hm. rewrite length_insert. by apply (inv_size s HI).
    + rewrite length_insert. lia.
  - rewrite get_put_slice_eq. by apply list_lookup_insert_eq.
  - rewrite flatten_put_slice.
    rewrite (insert_take_drop _ i m') by done. unfold slices_Delete. solve_Permutation.
Qed.

Lemma flatten_update_delete s did i m :
  get_slice (queues s) did !! i = Some m →
  flatten (queues s) ≡ₚ m :: slices_Delete i (get_slice (queues s) did) ++
                        flatten (delete did (queues s)).
Proof.
  intros Hi. rewrite (flatten_delete (queues s) did) at 1.
  by rewrite (slices_Delete_Permutation i _ _ Hi) at 1.
Qed.

Lemma Inv_with_dlq s d : Inv s → closed s = false → Inv (with_dlq s d).
Proof. intros [H1 H2 H3 H4] Hc. split; simpl; [done.. | by rewrite Hc]. Qed.

Lemma Nack_spec ks now s id reason s' err :
  Inv s → closed s = false → RangeOrder (queues s) ks → Nack ks now s id reason = (s', err) →
  Inv s' ∧ spec_step (config s) (flatten (queues s)) (flatten (dlq s)) (EvNack now id reason err)
             (flatten (queues s')) (flatten (dlq s')).
Proof.
  intros HI Hc Hord HE. unfold Nack in HE. rewrite Hc in HE.
  destruct (find_message _ _ _) as [[[did i] m]|] eqn:E; simplify_eq.
  2:{ split; [done |]. apply spec_nack_missing. by eapply find_message_missing. }
  apply find_message_Some in E as [Hi <-].
  pose proof (slice_lookup_recipient s did i m HI Hi) as Hrec.
  destruct (update_at_spec s did i m (bump_attempt now m) HI Hc Hi Hrec) as (HI1 & Hi1 & Hp1).
  pose proof (flatten_update_delete s did i m Hi) as Hp.
  set (s1 := with_queues s _ _) in *. case_bool_decide as Hex; injection HE as <- <-.
  2:{ split; [done |]. eapply spec_nack_retry; [exact Hp | done | exact Hp1]. }
  assert (Hdead : ∀ s2, Inv s2 → closed s2 = false → queues s2 = queues s1 →
    Inv (remove_at s2 did i) ∧
    flatten (queues s) ≡ₚ m :: flatten (queues (remove_at s2 did i))).
  { intros s2 HI2 Hc2 Hq2. rewrite <- Hq2 in *.
    destruct (remove_at_spec s2 did i _ HI2 Hc2 Hi1) as [HI' Hp']. split; [done |].
    rewrite Hp. apply perm_skip. rewrite Hp' in Hp1. symmetry. by apply Permutation_cons_inv in Hp1. }
  destruct (EnableDLQ (config s)) eqn:Edlq.
  - destruct (Hdead (with_dlq s1 (<[did := get_slice (dlq s1) did ++
      [{| dl_QueuedMessage := bump_attempt now m; dl_FailReason := reason; dl_MovedAt := now |}]]>
      (dlq s1)))) as [HI' Hp']; [by apply Inv_with_dlq | done | done |].
    split; [done |]. eapply spec_nack_dead; [exact Hp' | done |]. rewrite Edlq. simpl.
    rewrite <- (put_slice_nonempty (dlq s)) by apply snoc_nonempty.
    rewrite flatten_put_slice, (flatten_delete (dlq s) did). solve_Permutation.
  - destruct (Hdead s1) as [HI' Hp']; [done.. |]. split; [done |].
    eapply spec_nack_dead; [exact Hp' | done |]. by rewrite Edlq.
Qed.

Lemma cleanup_fold now ks s n :
  Inv s → closed s = false →
  let out := foldl (cleanup_queue now) (s, n) ks in
  Inv out.1 ∧ closed out.1 = false ∧ dlq out.1 = dlq s ∧
  (∀ did, get_slice (queues out.1) did =
     if decide (did ∈ ks) then live now (get_slice (queues s) did) else get_slice (queues s) did) ∧
  ∃ E, Forall (λ m, IsExpired now m = true) E ∧
       flatten (queues s) ≡ₚ E ++ flatten (queues out.1) ∧ out.2 = (n + Z.of_nat (length E))%Z.
Proof.
  revert s n. induction ks as [|k ks IH]; intros s n HI Hc; simpl.
  { split_and!; try done. exists []. split_and!; [done.. | simpl; lia]. }
  set (q := get_slice (queues s) k). set (E0 := expired now q).
  assert (Hp : q ≡ₚ E0 ++ live now q).
  { rewrite <- (live_expired_Permutation now q) at 1. apply Permutation_app_comm. }
  set (s1 := with_queues s (put_slice (queues s) k (live now q)) (totalCount s - Z.of_nat (length E0))).
  assert (HI1 : Inv s1) by by apply (Inv_shrink s k _ E0).
  pose proof (flatten_shrink s k (live now q) E0 (totalCount s - Z.of_nat (length E0))%Z Hp) as Hf.
  fold s1 in Hf.
  destruct (IH s1 (n + Z.of_nat (length E0))%Z HI1 Hc) as (HIo & Hco & Hdo & Hso & E & HE & HpE & HnE).
  split_and!; [done.. | |].
  - intros did. rewrite Hso. destruct (decide (k = did)) as [<-|Hne].
    + subst s1. simpl. rewrite get_put_slice_eq, (decide_True (P := k ∈ k :: ks)) by left.
      destruct (decide (k ∈ ks)); [|done]. by apply filter_all.
    + subst s1. simpl. rewrite get_put_slice_ne by done.
      apply decide_ext. rewrite elem_of_cons. intuition congruence.
  - exists (E0 ++ E). split_and!.
    + apply Forall_app. by split; [apply Forall_filter_self |].
    + by rewrite Hf, HpE, app_assoc.
    + rewrite HnE, length_app. lia.
Qed.

Lemma Cleanup_spec ks now s s' r :
  Inv s → closed s = false → RangeOrder (queues s) ks → Cleanup ks now s = (s', r) →
  Inv s' ∧ spec_step (config s) (flatten (queues s)) (flatten (dlq s)) (EvCleanup now r)
             (flatten (queues s')) (flatten (dlq s')).
Proof.
  intros HI Hc Hord HE. unfold Cleanup in HE. rewrite Hc in HE.
  destruct (cleanup_fold now ks s 0 HI Hc) as (HIo & Hco & Hdo & Hso & E & HE' & Hp & Hn).
  destruct (foldl _ _ _) as [so n]. simpl in *. injection HE as <- <-. split; [done |].
  assert (Hlive : Forall (λ m, IsExpired now m = false) (flatten (queues so))).
  { apply Forall_forall. intros m (did & q & Hq & Hm)%elem_of_flatten.
    assert (m ∈ get_slice (queues so) did) as Hin by (unfold get_slice; by rewrite Hq).
    rewrite Hso in Hin. case_decide as Hk; [by apply list_elem_of_filter in Hin as [? _] |].
    rewrite (range_order_elem_of (queues s) ks did Hord) in Hk. unfold get_slice in Hin.
    destruct (queues s !! did); [by destruct Hk |]. by apply not_elem_of_nil in Hin. }
  assert (Hnotlive : filter (λ m, IsExpired now m = false) E = []).
  { apply filter_none. eapply Forall_impl; [exact HE' |]. simpl. by intros ? ->. }
  assert (Hnotexp : filter (λ m, IsExpired now m = true) (flatten (queues so)) = []).
  { apply filter_none. eapply Forall_impl; [exact Hlive |]. simpl. by intros ? ->. }
  rewrite Hdo. replace n with (Z.of_nat (length (expired now (flatten (queues s))))).
  - apply spec_cleanup. rewrite Hp, filter_app, Hnotlive, filter_all; done.
  - rewrite Hp, filter_app, Hnotexp, app_nil_r, (filter_all _ E HE'). lia.
Qed.

Lemma Inv_Close s : Inv (Close s).
Proof.
  split; simpl; try done. intros did Hm. unfold get_slice. rewrite lookup_empty. simpl. lia.
Qed.

#[export] Hint Resolve Inv_new Inv_Close Enqueue_spec Dequeue_spec Ack_spec Nack_spec Cleanup_spec
  : go.

Lemma step_refines s ev s' :
  Inv s → closed s = false → step s ev s' →
  Inv s' ∧ spec_step (config s) (flatten (queues s)) (flatten (dlq s)) ev
             (flatten (queues s')) (flatten (dlq s')).
Proof.
  intros HI Hc Hstep. inversion Hstep; subst; eauto with go.
  split; [apply Inv_Close |]. simpl. rewrite !flatten_empty. apply spec_close.
Qed.

(** Once closed, the store refuses every operation and does not change. *)
Lemma step_closed s ev s' :
  closed s = true → step s ev s' →
  match ev with
  | EvEnqueue _ e | EvAck _ e | EvNack _ _ _ e => s' = s ∧ e = Some ErrQueueClosed
  | EvDequeue _ _ _ r => s' = s ∧ r = Err ErrQueueClosed
  | EvCleanup _ r => s' = s ∧ r = Err ErrQueueClosed
  | EvClose => s' = Close s
  end.
Proof.
  intros Hc Hstep. inversion Hstep as [? ? ? ? ? H|? ? ? ? ? ? ? H|? ? ? ? ? H|
    ? ? ? ? ? ? ? H|? ? ? ? ? H|]; subst; try done;
    unfold Enqueue, Dequeue, Ack, Nack, Cleanup in H; rewrite Hc in H; by simplify_eq.
Qed.

Lemma Inv_step s ev s' : Inv s → step s ev s' → Inv s'.
Proof.
  intros HI Hstep. destruct (closed s) eqn:Hc.
  - pose proof (step_closed s ev s' Hc Hstep) as H.
    destruct ev; [by destruct H as [-> ?].. | subst; apply Inv_Close].
  - by eapply step_refines.
Qed.

(** ** Reachable stores *)

(** The stores a fresh one can become through events allowed by [ok]. *)
Inductive reachable (c : Config) (ok : Event → Prop) : MemoryStore → Prop :=
| reach_new : reachable c ok (NewMemoryStore c)
| reach_step s ev s' : reachable c ok s → ok ev → step s ev s' → reachable c ok s'.

Definition any_event : Event → Prop := λ _, True.

Lemma step_config s ev s' : step s ev s' → config s' = config s.
Proof.
  intros Hstep.
  inversion Hstep as [? ? ? ? ? H|? ? ? ? ? ? ? H|? ? ? ? ? H|? ? ? ? ? ? ? H|? ? ? ? ? H|];
    subst; try done.
  - pose proof (evictOldestLocked_frame ks s) as (Hf & _). unfold Enqueue in H. by go_cases.
  - unfold Dequeue in H. by go_cases.
  - unfold Ack in H. by go_cases.
  - unfold Nack in H. by go_cases.
  - unfold Cleanup in H. destruct (closed s); [by simplify_eq |].
    assert (Hf : ∀ ks n s0, config (foldl (cleanup_queue now) (s0, n) ks).1 = config s0).
    { clear. intros ks. induction ks as [|k ks IH]; intros n s0; simpl; [done | by rewrite IH]. }
    specialize (Hf ks 0%Z s). destruct (foldl _ _ _). by simplify_eq.
Qed.

Lemma reachable_Inv c ok s : reachable c ok s → Inv s ∧ config s = c.
Proof.
  induction 1 as [|s ev s' _ [IH Hcf] _ Hstep]; [split; [apply Inv_new | done] |].
  split; [by eapply Inv_step |]. by rewrite (step_config _ _ _ Hstep).
Qed.

#[export] Hint Resolve reachable_Inv : go.

(** C11. The in-memory queue implements a bag of messages: in every reachable state,
    every operation (enqueue with the per-recipient limit and global eviction,
    dequeue, ack, nack with dead-lettering, cleanup, close) takes the pending
    messages and dead letters of the store from one bag to another exactly as the
    abstract queue allows, whatever the map iteration order and the sort. *)
Theorem queue_refinement c s ev s' :
  reachable c any_event s → closed s = false → step s ev s' →
  spec_step c (flatten (queues s)) (flatten (dlq s)) ev (flatten (queues s')) (flatten (dlq s')).
Proof.
  intros [HI <-]%reachable_Inv Hc Hstep. by eapply step_refines.
Qed.

(** No message is addressed to the empty DID. *)
Definition addressed (ev : Event) : Prop :=
  match ev with EvEnqueue m _ => qm_RecipientDID m ≠ EmptyString | _ => True end.

(** Within the global limit, and with nothing queued for the empty DID. *)
Definition bounded (c : Config) (P : list QueuedMessage) : Prop :=
  (Z.of_nat (length P) ≤ MaxTotalMessages c)%Z ∧
  Forall (λ m, qm_RecipientDID m ≠ EmptyString) P.

Lemma bounded_shrink c P r P' : bounded c P → P ≡ₚ r ++ P' → bounded c P'.
Proof.
  intros [H1 H2] Hp. rewrite Hp, length_app in H1. rewrite Hp, Forall_app in H2.
  split; [lia | by destruct H2].
Qed.

Lemma spec_step_bounded c P D ev P' D' :
  (0 < MaxTotalMessages c)%Z → addressed ev → bounded c P → spec_step c P D ev P' D' →
  bounded c P'.
Proof.
  intros Hpos Hok HB Hstep. destruct Hstep as
    [msg Hlim|msg P' Hlim Hpr Hp|msg old P0 P' Hlim Hpr Hold Hne Hp0 Hp|now did limit out P' Hp Hd
    |m P' Hp|id Hid|now m reason P0 P' Hp0 Hex Hp|now m reason P' D' Hp Hex HD|now id reason Hid
    |now P' Hp|]; simpl in *.
  - done.
  - destruct HB as [H1 H2]. split; [|rewrite Hp; by constructor].
    rewrite Hp. simpl. destruct (decide (under_pressure c P)) as [Hu|Hu].
    + destruct (Hpr Hu) as (m & [Hm _] & Hrec). rewrite Forall_forall in H2. by destruct (H2 m Hm).
    + unfold under_pressure in Hu. lia.
  - destruct HB as [H1 H2]. rewrite Hp0 in H1, H2. apply Forall_cons in H2 as [_ H2].
    split; [rewrite Hp; simpl in *; lia | rewrite Hp; by constructor].
  - by eapply bounded_shrink.
  - by eapply (bounded_shrink c P [m]).
  - done.
  - destruct HB as [H1 H2]. rewrite Hp0 in H1, H2. apply Forall_cons in H2 as [Hm H2].
    split; [rewrite Hp; simpl in *; lia | rewrite Hp; by constructor].
  - by eapply (bounded_shrink c P [m]).
  - done.
  - eapply (bounded_shrink c P (expired now P)); [done |].
    rewrite Hp, Permutation_app_comm. symmetry. apply live_expired_Permutation.
  - split; [simpl; lia | done].
Qed.

Lemma reachable_bounded c s :
  (0 < MaxTotalMessages c)%Z → reachable c addressed s → bounded c (flatten (queues s)).
Proof.
  intros Hpos Hr. induction Hr as [|s ev s' Hr IH Hok Hstep].
  - simpl. rewrite flatten_empty. split; [simpl; lia | done].
  - destruct (reachable_Inv _ _ _ Hr) as [HI Hcf]. destruct (closed s) eqn:Hc.
    + pose proof (step_closed s ev s' Hc Hstep) as H.
      destruct ev; [by destruct H as [-> ?].. |]. subst s'. simpl.
      rewrite flatten_empty. split; [simpl; lia | done].
    + destruct (step_refines s ev s' HI Hc Hstep) as [_ Hspec]. rewrite Hcf in Hspec.
      by eapply spec_step_bounded.
Qed.

(** C12. With a positive MaxTotalMessages, a store that is never given a message for
    the empty DID never counts, nor holds, more than MaxTotalMessages messages, and
    never more than MaxQueueSize for one recipient. *)
Theorem queue_bounded c s did :
  (0 < MaxTotalMessages c)%Z → (0 < MaxQueueSize c)%Z →
  reachable c addressed s → closed s = false →
  (totalCount s ≤ MaxTotalMessages c)%Z ∧
  totalCount s = Z.of_nat (length (flatten (queues s))) ∧
  (Z.of_nat (length (get_slice (queues s) did)) ≤ MaxQueueSize c)%Z.
Proof.
  intros Hpos Hsz Hr Hc. destruct (reachable_bounded c s Hpos Hr) as [HB _].
  destruct (reachable_Inv _ _ _ Hr) as [HI <-]. rewrite (inv_count s HI Hc).
  split_and!; [done.. | by apply (inv_size s HI)].
Qed.

(** Every enqueued message still has delivery attempts left. *)
Definition within_budget (c : Config) (ev : Event) : Prop :=
  match ev with
  | EvEnqueue m _ => (qm_DeliveryAttempts m < MaxDeliveryAttempts c)%Z
  | _ => True
  end.

Abbreviation has_budget c := (λ m, (qm_DeliveryAttempts m < MaxDeliveryAttempts c)%Z).

Lemma spec_step_budget c P D ev P' D' :
  (0 < MaxDeliveryAttempts c)%Z → within_budget c ev → Forall (has_budget c) P →
  spec_step c P D ev P' D' → Forall (has_budget c) P'.
Proof.
  intros Hpos Hok HB Hstep. destruct Hstep as
    [msg Hlim|msg P' Hlim Hpr Hp|msg old P0 P' Hlim Hpr Hold Hne Hp0 Hp|now did limit out P' Hp Hd
    |m P' Hp|id Hid|now m reason P0 P' Hp0 Hex Hp|now m reason P' D' Hp Hex HD|now id reason Hid
    |now P' Hp|]; simpl in *; try done.
  - rewrite Hp. by constructor.
  - rewrite Hp. rewrite Hp0 in HB. apply Forall_cons in HB as [_ HB]. by constructor.
  - rewrite Hp, Forall_app in HB. by destruct HB.
  - rewrite Hp in HB. by apply Forall_cons in HB as [_ HB].
  - rewrite Hp. rewrite Hp0 in HB. apply Forall_cons in HB as [_ HB]. constructor; [|done].
    unfold exhausted in Hex. simpl in *. lia.
  - rewrite Hp in HB. by apply Forall_cons in HB as [_ HB].
  - rewrite Hp. by apply Forall_filter_keep.
Qed.

Lemma reachable_budget c s :
  (0 < MaxDeliveryAttempts c)%Z → reachable c (within_budget c) s →
  Forall (has_budget c) (flatten (queues s)).
Proof.
  intros Hpos Hr. induction Hr as [|s ev s' Hr IH Hok Hstep].
  - simpl. by rewrite flatten_empty.
  - destruct (reachable_Inv _ _ _ Hr) as [HI Hcf]. destruct (closed s) eqn:Hc.
    + pose proof (step_closed s ev s' Hc Hstep) as H.
      destruct ev; [by destruct H as [-> ?].. |]. subst s'. simpl. by rewrite flatten_empty.
    + destruct (step_refines s ev s' HI Hc Hstep) as [_ Hspec]. rewrite Hcf in Hspec.
      by eapply spec_step_budget.
Qed.

(** Retry budget: when messages are enqueued with attempts left, no pending
    message ever reaches MaxDeliveryAttempts; the Nack that would bring it there
    removes it and, with the dead letter queue on, appends exactly one dead letter
    for it carrying the reason. *)
Theorem nack_budget c s ks now id reason s' err did i m :
  (0 < MaxDeliveryAttempts c)%Z → reachable c (within_budget c) s → closed s = false →
  RangeOrder (queues s) ks → find_message (queues s) id ks = Some (did, i, m) →
  Nack ks now s id reason = (s', err) →
  err = None ∧ Forall (has_budget c) (flatten (queues s')) ∧
  (if decide (qm_DeliveryAttempts m + 1 = MaxDeliveryAttempts c)%Z
   then flatten (queues s) ≡ₚ m :: flatten (queues s') ∧
        dlq s' = if EnableDLQ c
                 then <[did := get_slice (dlq s) did ++
                        [{| dl_QueuedMessage := bump_attempt now m; dl_FailReason := reason;
                            dl_MovedAt := now |}]]> (dlq s)
                 else dlq s
   else dlq s' = dlq s ∧
        get_slice (queues s') did = <[i := bump_attempt now m]> (get_slice (queues s) did)).
Proof.
  intros Hpos Hr Hc Hord Hfind HN.
  assert (Hbud' : Forall (has_budget c) (flatten (queues s'))).
  { apply reachable_budget; [done |]. by eapply reach_step, step_nack. }
  pose proof (reachable_budget c s Hpos Hr) as Hbud.
  destruct (reachable_Inv _ _ _ Hr) as [HI <-].
  destruct (Nack_spec ks now s id reason s' err HI Hc Hord HN) as [_ Hspec].
  destruct (find_message_Some _ _ _ _ _ _ Hfind) as [Hi _].
  assert (Hm : (qm_DeliveryAttempts m < MaxDeliveryAttempts (config s))%Z).
  { rewrite Forall_forall in Hbud. by apply Hbud, (slice_lookup_flatten s did i). }
  pose proof (slice_lookup_recipient s did i m HI Hi) as Hrec.
  destruct (update_at_spec s did i m (bump_attempt now m) HI Hc Hi Hrec) as (HI1 & Hi1 & Hp1).
  pose proof (flatten_update_delete s did i m Hi) as Hp.
  unfold Nack in HN. rewrite Hc, Hfind in HN. simpl in HN.
  set (s1 := with_queues s _ _) in *.
  case_bool_decide as Hex; injection HN as <- <-; split; [done | | done |]; split; try done.
  - rewrite decide_True by lia. split.
    + transitivity (m :: flatten (queues (remove_at s1 did i))).
      * destruct (remove_at_spec s1 did i _ HI1 Hc Hi1) as [_ Hp'].
        rewrite Hp. apply perm_skip. rewrite Hp' in Hp1. symmetry.
        by apply Permutation_cons_inv in Hp1.
      * by destruct (EnableDLQ (config s)).
    + by destruct (EnableDLQ (config s)).
  - rewrite decide_False by lia. split; [done |]. simpl. unfold get_slice at 1.
    by rewrite lookup_insert_eq.
Qed.

(** Store and forward: a message accepted by Enqueue is handed out by the next
    unlimited Dequeue of its recipient, if it has not expired by then. *)
Theorem enqueue_then_dequeue c s ks msg s' sort now s'' r :
  reachable c any_event s → closed s = false → RangeOrder (queues s) ks →
  Enqueue ks s msg = (s', None) →
  SortFunc (key_le qm_QueuedAt) sort → IsExpired now msg = false →
  Dequeue sort now s' (qm_RecipientDID msg) 0 = (s'', r) →
  ∃ out, r = Ok out ∧ msg ∈ out.
Proof.
  intros [HI _]%reachable_Inv Hc Hord HE Hsort Hlive HD.
  destruct (Enqueue_spec _ _ _ _ _ HI Hc Hord HE) as [HI' Hs].
  assert (Hin : msg ∈ flatten (queues s')).
  { inversion Hs as [|? ? ? ? Hp|? ? ? ? ? ? ? ? ? Hp| | | | | | | |]; subst; rewrite Hp; left. }
  assert (Hc' : closed s' = false).
  { unfold Enqueue in HE. pose proof (evictOldestLocked_frame ks s) as (_ & Hf & _).
    rewrite Hc in HE. case_bool_decide; [done |].
    injection HE as <-. simpl. case_bool_decide; [by rewrite Hf | done]. }
  destruct (Dequeue_spec _ _ _ _ _ _ _ HI' Hc' Hsort HD) as [_ Hd].
  inversion Hd as [| | |? ? ? out ? Hp (_ & _ & _ & Hrest)| | | | | | |]; subst.
  exists out. split; [done |]. rewrite Hp in Hin. apply elem_of_app in Hin as [Hin|Hin]; [done |].
  destruct (Hrest msg Hin eq_refl Hlive) as [[? _] _]. lia.
Qed.

(** Peek is Dequeue without the removal: at the same instant and with the same
    sort, Peek returns the list Dequeue would return, for every store state. *)
Theorem peek_is_dequeue sort now s did limit :
  Peek sort now s did limit = (Dequeue sort now s did limit).2.
Proof.
  unfold Peek, Dequeue. destruct (closed s); [done |].
  destruct (get_slice (queues s) did) as [|m q]; [done |].
  pose proof (dequeue_loop_out now limit (sort (m :: q)) [] []) as Hout.
  destruct (dequeue_loop _ _ _ _ _) as [out rem]. simpl in *. f_equal.
  by rewrite peek_loop_room, Hout.
Qed.

(** ** Concrete runs *)

Definition demo_config : Config := {|
  MessageTTL := 100; MaxQueueSize := 5; MaxTotalMessages := 1; MaxDeliveryAttempts := 2;
  AckTimeout := 30; EnableDLQ := true;
|}.

Definition demo_msg (n : nat) (did : string) (at_ : Z) : QueuedMessage := {|
  qm_ID := uuid_lit n; qm_RecipientDID := did; qm_Data := "payload"; qm_QueuedAt := at_;
  qm_ExpiresAt := at_ + 100; qm_DeliveryAttempts := 0; qm_LastAttempt := None;
  qm_SenderDID := "did:wba:a";
|}.

Definition demo_store : MemoryStore :=
  (Enqueue [] (NewMemoryStore demo_config) (demo_msg 1 "did:wba:b" 10)).1.

Lemma demo_reachable (ok : Event → Prop) :
  ok (EvEnqueue (demo_msg 1 "did:wba:b" 10) None) → reachable demo_config ok demo_store.
Proof.
  intros Hok. eapply reach_step; [apply reach_new | exact Hok |].
  apply (step_enqueue _ []); [apply RangeOrder_empty | reflexivity].
Qed.

Definition demo_store2 : MemoryStore :=
  (Enqueue (keys_of (queues demo_store)) demo_store (demo_msg 2 "did:wba:c" 20)).1.

Lemma queue_refinement_witness :
  spec_step demo_config (flatten (queues demo_store)) (flatten (dlq demo_store))
    (EvEnqueue (demo_msg 2 "did:wba:c" 20) None)
    (flatten (queues demo_store2)) (flatten (dlq demo_store2)) ∧
  (qm_RecipientDID <$> flatten (queues demo_store2)) = ["did:wba:c"].
Proof.
  split; [|reflexivity].
  apply (queue_refinement demo_config demo_store _ demo_store2).
  - by apply demo_reachable.
  - reflexivity.
  - apply (step_enqueue _ (keys_of (queues demo_store))); [apply _ | reflexivity].
Defined.

Lemma queue_bounded_witness : (totalCount demo_store ≤ 1)%Z ∧
  totalCount demo_store = Z.of_nat (length (flatten (queues demo_store))) ∧
  (Z.of_nat (length (get_slice (queues demo_store) "did:wba:b")) ≤ 5)%Z.
Proof.
  apply (queue_bounded demo_config demo_store "did:wba:b"); [done | done | | reflexivity].
  by apply demo_reachable.
Defined.

Lemma nack_budget_witness :
  get_slice (queues (Nack (keys_of (queues demo_store)) 11 demo_store (uuid_lit 1) "offline").1)
    "did:wba:b" = [bump_attempt 11 (demo_msg 1 "did:wba:b" 10)].
Proof.
  destruct (nack_budget demo_config demo_store (keys_of (queues demo_store)) 11 (uuid_lit 1)
    "offline" (Nack (keys_of (queues demo_store)) 11 demo_store (uuid_lit 1) "offline").1 None
    "did:wba:b" 0 (demo_msg 1 "did:wba:b" 10)) as (_ & _ & H).
  - done.
  - by apply demo_reachable.
  - reflexivity.
  - apply _.
  - reflexivity.
  - reflexivity.
  - destruct H as [_ H]. rewrite H. reflexivity.
Defined.

Lemma enqueue_then_dequeue_witness :
  ∃ out, (Dequeue (merge_sort_by qm_QueuedAt) 50 demo_store "did:wba:b" 0).2 = Ok out ∧
         demo_msg 1 "did:wba:b" 10 ∈ out.
Proof.
  apply (enqueue_then_dequeue demo_config (NewMemoryStore demo_config) []
    (demo_msg 1 "did:wba:b" 10) demo_store (merge_sort_by qm_QueuedAt) 50
    (Dequeue (merge_sort_by qm_QueuedAt) 50 demo_store "did:wba:b" 0).1).
  - apply reach_new.
  - reflexivity.
  - apply RangeOrder_empty.
  - reflexivity.
  - apply _.
  - reflexivity.
  - reflexivity.
Defined.

(** The global limit is not enforced once the oldest message is addressed to the
    empty DID: the scan selects it and [oldestDID != ""] then skips the eviction.
    Here a store limited to one message holds two. *)
Theorem queue_limit_stuck_on_empty_did :
  ∃ s, reachable demo_config any_event s ∧ closed s = false ∧
       MaxTotalMessages demo_config = 1%Z ∧ totalCount s = 2%Z.
Proof.
  set (s1 := (Enqueue [] (NewMemoryStore demo_config) (demo_msg 1 "" 10)).1).
  exists (Enqueue (keys_of (queues s1)) s1 (demo_msg 2 "did:wba:c" 20)).1.
  split_and!; [|reflexivity..].
  eapply reach_step; [|done |].
  - eapply (reach_step _ _ _ (EvEnqueue (demo_msg 1 "" 10) None) s1); [apply reach_new | done |].
    apply (step_enqueue _ []); [apply RangeOrder_empty | reflexivity].
  - eapply (step_enqueue _ (keys_of (queues s1))); [apply _ |]. apply surjective_pairing.
Qed.
