(* ===== verification/Registry.v ===== *)
(** * The agent registry (src/pkg/registry/agent.go, src/pkg/registry/store.go)

    Agents with their presence, keys and capabilities; the in-memory store with its
    index by DID, the file-backed store on top of it, and the [Store] interface as a
    class with the laws its clients use. *)

From S2P Require Import Prelude.

(** ** Presence of one agent *)

(** [type AgentStatus string]: a status read from JSON can be any string. *)
Abbreviation AgentStatus := string.
Definition StatusOnline : AgentStatus := "online".
Definition StatusOffline : AgentStatus := "offline".
Definition StatusBusy : AgentStatus := "busy".
Definition StatusAway : AgentStatus := "away".
Definition StatusDND : AgentStatus := "dnd".

Record PresenceInfo := {
  p_Status : AgentStatus;
  p_StatusText : string;
  p_LastActivity : Z;
  p_IdleSince : option Z;
}.

Definition NewPresenceInfo (now : Z) : PresenceInfo := {|
  p_Status := StatusOnline; p_StatusText := ""; p_LastActivity := now; p_IdleSince := None;
|}.

Definition p_with_status (p : PresenceInfo) (st : AgentStatus) : PresenceInfo := {|
  p_Status := st; p_StatusText := p_StatusText p; p_LastActivity := p_LastActivity p;
  p_IdleSince := p_IdleSince p;
|}.

Definition UpdateActivity (now : Z) (p : PresenceInfo) : PresenceInfo := {|
  p_Status := if decide (p_Status p = StatusAway) then StatusOnline else p_Status p;
  p_StatusText := p_StatusText p;
  p_LastActivity := now;
  p_IdleSince := None;
|}.

Definition SetIdle (now : Z) (p : PresenceInfo) : PresenceInfo :=
  if decide (p_Status p = StatusOnline) then {|
    p_Status := StatusAway; p_StatusText := p_StatusText p;
    p_LastActivity := p_LastActivity p; p_IdleSince := Some now;
  |} else p.

Definition IsIdle (now : Z) (p : PresenceInfo) (idleTimeout : Z) : bool :=
  (idleTimeout <? now - p_LastActivity p)%Z.

Record PresenceConfig := {
  SharePresence : bool;
  ReceivePresence : bool;
  ShareTyping : bool;
  HideLastSeen : bool;
  AwayTimeoutSecs : Z;
}.

Definition DefaultPresenceConfig : PresenceConfig := {|
  SharePresence := true; ReceivePresence := true; ShareTyping := true;
  HideLastSeen := false; AwayTimeoutSecs := 300;
|}.

(** ** Agents *)

Abbreviation KeyType := string.
Definition KeyTypeEd25519 : KeyType := "Ed25519".
Definition KeyTypeX25519 : KeyType := "X25519".

(** [pk_Key] is a []byte: [None] is the nil slice. *)
Record PublicKey := { pk_ID : string; pk_Type : KeyType; pk_Key : option string; pk_Purpose : string }.

Abbreviation TransportType := string.
Record Endpoint := { ep_Transport : TransportType; ep_URL : string; ep_Priority : Z }.

Record Capability := {
  cap_Name : string;
  cap_Description : string;
  cap_Methods : list string;
  cap_Schema : list (string * any);
}.

Record ACLRule := {
  r_Principal : string;
  r_Actions : list string;
  r_Effect : string;
  r_Conditions : list string;
}.

Record ACLPolicy := { DefaultAllow : bool; Rules : list ACLRule }.

Record Agent := {
  a_ID : uuid;
  a_DID : string;
  a_TenantID : string;
  a_DisplayName : string;
  a_PublicKeys : list PublicKey;
  a_Endpoints : list Endpoint;
  a_Capabilities : list Capability;
  a_ACL : option ACLPolicy;
  a_Status : AgentStatus;
  a_LastSeen : Z;
  a_Metadata : list (string * any);
  a_Presence : option PresenceInfo;
  a_PresenceCfg : option PresenceConfig;
  a_Role : string;
  a_DelegationNamespace : string;
}.

(** [id] is the fresh UUID v7 and [now] the instant of creation. *)
Definition NewAgent (id : uuid) (now : Z) (did displayName : string) : Agent := {|
  a_ID := id; a_DID := did; a_TenantID := ""; a_DisplayName := displayName;
  a_PublicKeys := []; a_Endpoints := []; a_Capabilities := []; a_ACL := None;
  a_Status := StatusOffline; a_LastSeen := now; a_Metadata := []; a_Presence := None;
  a_PresenceCfg := None; a_Role := ""; a_DelegationNamespace := "";
|}.

(** The fields the status setters write. *)
Definition a_with_status (a : Agent) (st : AgentStatus) (now : Z) (p : option PresenceInfo)
  : Agent := {|
  a_ID := a_ID a; a_DID := a_DID a; a_TenantID := a_TenantID a;
  a_DisplayName := a_DisplayName a; a_PublicKeys := a_PublicKeys a;
  a_Endpoints := a_Endpoints a; a_Capabilities := a_Capabilities a; a_ACL := a_ACL a;
  a_Status := st; a_LastSeen := now; a_Metadata := a_Metadata a; a_Presence := p;
  a_PresenceCfg := a_PresenceCfg a; a_Role := a_Role a;
  a_DelegationNamespace := a_DelegationNamespace a;
|}.

(** The fields the [Add...] methods and the tenant assignment write. *)
Definition a_with_parts (a : Agent) (tenant : string) (keys : list PublicKey)
    (eps : list Endpoint) (caps : list Capability) : Agent := {|
  a_ID := a_ID a; a_DID := a_DID a; a_TenantID := tenant;
  a_DisplayName := a_DisplayName a; a_PublicKeys := keys; a_Endpoints := eps;
  a_Capabilities := caps; a_ACL := a_ACL a; a_Status := a_Status a;
  a_LastSeen := a_LastSeen a; a_Metadata := a_Metadata a; a_Presence := a_Presence a;
  a_PresenceCfg := a_PresenceCfg a; a_Role := a_Role a;
  a_DelegationNamespace := a_DelegationNamespace a;
|}.

Definition AddEndpoint (a : Agent) (transport : TransportType) (url : string) (priority : Z)
  : Agent :=
  a_with_parts a (a_TenantID a) (a_PublicKeys a)
    (a_Endpoints a ++ [{| ep_Transport := transport; ep_URL := url; ep_Priority := priority |}])
    (a_Capabilities a).

Definition AddCapability (a : Agent) (name description : string) (methods : list string) : Agent :=
  a_with_parts a (a_TenantID a) (a_PublicKeys a) (a_Endpoints a)
    (a_Capabilities a ++ [{| cap_Name := name; cap_Description := description;
                             cap_Methods := methods; cap_Schema := [] |}]).

Definition AddPublicKey (a : Agent) (id : string) (keyType : KeyType) (key : option string)
    (purpose : string)
  : Agent :=
  a_with_parts a (a_TenantID a)
    (a_PublicKeys a ++ [{| pk_ID := id; pk_Type := keyType; pk_Key := key; pk_Purpose := purpose |}])
    (a_Endpoints a) (a_Capabilities a).

Definition SetOnline (now : Z) (a : Agent) : Agent :=
  a_with_status a StatusOnline now
    (Some match a_Presence a with
          | None => NewPresenceInfo now
          | Some p => UpdateActivity now (p_with_status p StatusOnline)
          end).

Definition SetOffline (now : Z) (a : Agent) : Agent :=
  a_with_status a StatusOffline now ((λ p, p_with_status p StatusOffline) <$> a_Presence a).

Definition SetBusy (now : Z) (a : Agent) : Agent :=
  a_with_status a StatusBusy now ((λ p, p_with_status p StatusBusy) <$> a_Presence a).

Definition SetAway (now : Z) (a : Agent) : Agent :=
  a_with_status a StatusAway now (SetIdle now <$> a_Presence a).

Definition SetDND (now : Z) (a : Agent) : Agent :=
  a_with_status a StatusDND now ((λ p, p_with_status p StatusDND) <$> a_Presence a).

(** [Agent.UpdatePresence]; the zero [PresenceInfo] stands in for a missing one. *)
Definition Agent_UpdatePresence (now : Z) (a : Agent) (status : AgentStatus) (statusText : string)
  : Agent :=
  a_with_status a status now
    (Some {| p_Status := status; p_StatusText := statusText; p_LastActivity := now;
             p_IdleSince := a_Presence a ≫= p_IdleSince |}).

Definition ShouldSharePresence (a : Agent) : bool :=
  match a_PresenceCfg a with None => true | Some c => SharePresence c end.

Definition ShouldShareTyping (a : Agent) : bool :=
  match a_PresenceCfg a with None => true | Some c => ShareTyping c end.

Definition HasCapability (a : Agent) (name : string) : bool :=
  existsb (λ c, String.eqb (cap_Name c) name) (a_Capabilities a).

(** The first key with the given purpose. *)
Definition key_for (purpose : string) (keys : list PublicKey) : option PublicKey :=
  List.find (λ k, String.eqb (pk_Purpose k) purpose) keys.

Definition GetSigningKey (a : Agent) : option PublicKey := key_for "signing" (a_PublicKeys a).
Definition GetEncryptionKey (a : Agent) : option PublicKey := key_for "encryption" (a_PublicKeys a).

(** ** The Store interface *)

Inductive StoreError := ErrAgentNotFound | ErrAgentAlreadyExists | ErrIO.

#[export] Instance StoreError_eq_dec : EqDecision StoreError.
Proof. solve_decision. Defined.

(** The operations of [registry.Store].  A lookup that finds an index entry but no
    agent returns a nil pointer and no error, hence [option Agent]. *)
Class Store (S : Type) := {
  Get : S → uuid → result StoreError Agent;
  GetByDID : S → string → result StoreError (option Agent);
  Put : S → Agent → S * option StoreError;
  Delete : S → uuid → S * option StoreError;
  ListAgents : S → list Agent;
  Search : S → string → list Agent;
  CountByTenant : S → string → Z;
}.

(** What the relay and the discovery service rely on. *)
Class StoreLaws (S : Type) `{Store S} := {
  put_get s a : Get (Put s a).1 (a_ID a) = Ok a;
  put_get_ne s a id : id ≠ a_ID a → Get (Put s a).1 id = Get s id;
  put_getByDID s a : a_DID a ≠ EmptyString → GetByDID (Put s a).1 (a_DID a) = Ok (Some a);
  delete_get s id : Get (Delete s id).1 id = Err ErrAgentNotFound;
  list_get s a : a ∈ ListAgents s ↔ ∃ id, Get s id = Ok a;
  search_list s cap a : a ∈ Search s cap ↔ a ∈ ListAgents s ∧ HasCapability a cap = true;
  count_list s t : CountByTenant s t =
    Z.of_nat (length (filter (λ a, t = EmptyString ∨ a_TenantID a = t) (ListAgents s)));
}.

(** ** MemoryStore *)

Record MemoryStore := {
  agents : gmap uuid Agent;
  byDID : gmap string uuid;
}.

Definition NewMemoryStore : MemoryStore := {| agents := ∅; byDID := ∅ |}.

Definition MemoryStore_Get (s : MemoryStore) (id : uuid) : result StoreError Agent :=
  match agents s !! id with Some a => Ok a | None => Err ErrAgentNotFound end.

Definition MemoryStore_GetByDID (s : MemoryStore) (did : string)
  : result StoreError (option Agent) :=
  match byDID s !! did with
  | Some id => Ok (agents s !! id)
  | None => Err ErrAgentNotFound
  end.

(** The two assignments of [Put]; [load] of the file store makes the same ones. *)
Definition put_agent (s : MemoryStore) (a : Agent) : MemoryStore := {|
  agents := <[a_ID a := a]> (agents s);
  byDID := if decide (a_DID a = EmptyString) then byDID s
           else <[a_DID a := a_ID a]> (byDID s);
|}.

Definition MemoryStore_Put (s : MemoryStore) (a : Agent) : MemoryStore * option StoreError :=
  (put_agent s a, None).

Definition MemoryStore_Delete (s : MemoryStore) (id : uuid) : MemoryStore * option StoreError :=
  match agents s !! id with
  | None => (s, Some ErrAgentNotFound)
  | Some a =>
      ({| agents := delete id (agents s);
          byDID := if decide (a_DID a = EmptyString) then byDID s
                   else delete (a_DID a) (byDID s) |}, None)
  end.

Definition MemoryStore_List (s : MemoryStore) : list Agent := (map_to_list (agents s)).*2.

Definition MemoryStore_Search (s : MemoryStore) (capability : string) : list Agent :=
  filter (λ a, HasCapability a capability = true) (MemoryStore_List s).

Definition MemoryStore_CountByTenant (s : MemoryStore) (tenantID : string) : Z :=
  if decide (tenantID = EmptyString) then Z.of_nat (size (agents s))
  else foldl (λ count a, if decide (a_TenantID a = tenantID) then count + 1 else count)%Z 0%Z
         (MemoryStore_List s).

#[export] Instance MemoryStore_Store : Store MemoryStore := {|
  Get := MemoryStore_Get;
  GetByDID := MemoryStore_GetByDID;
  Put := MemoryStore_Put;
  Delete := MemoryStore_Delete;
  ListAgents := MemoryStore_List;
  Search := MemoryStore_Search;
  CountByTenant := MemoryStore_CountByTenant;
|}.

(** ** FileStore: the memory store and the agents last written to its file *)

Record FileStore := {
  fs_mem : MemoryStore;
  fs_file : option (list Agent);
}.

(** [load]: the agents of the file are put one by one into the maps. *)
Definition load (s : MemoryStore) (file : list Agent) : MemoryStore := foldl put_agent s file.

(** [NewFileStore]: load the file when it exists. *)
Definition NewFileStore (file : option (list Agent)) : FileStore := {|
  fs_mem := load NewMemoryStore (default [] file); fs_file := file;
|}.

(** [save]; [io] tells whether [os.WriteFile] succeeds. *)
Definition save (io : bool) (s : FileStore) : FileStore * option StoreError :=
  if io then ({| fs_mem := fs_mem s; fs_file := Some (MemoryStore_List (fs_mem s)) |}, None)
  else (s, Some ErrIO).

Definition FileStore_Put (io : bool) (s : FileStore) (a : Agent) : FileStore * option StoreError :=
  save io {| fs_mem := put_agent (fs_mem s) a; fs_file := fs_file s |}.

Definition FileStore_Delete (io : bool) (s : FileStore) (id : uuid)
  : FileStore * option StoreError :=
  match MemoryStore_Delete (fs_mem s) id with
  | (_, Some e) => (s, Some e)
  | (m, None) => save io {| fs_mem := m; fs_file := fs_file s |}
  end.

(** ** Facts about the memory store *)

Lemma MemoryStore_List_spec s a : a ∈ MemoryStore_List s ↔ ∃ id, agents s !! id = Some a.
Proof.
  unfold MemoryStore_List. rewrite list_elem_of_fmap. split.
  - intros [[id a'] [-> Hin]]. exists id. by rewrite <- elem_of_map_to_list.
  - intros [id Hid]. exists (id, a). by rewrite elem_of_map_to_list.
Qed.

Lemma count_loop t (l : list Agent) n :
  foldl (λ count a, if decide (a_TenantID a = t) then count + 1 else count)%Z n l
  = (n + Z.of_nat (length (filter (λ a, a_TenantID a = t) l)))%Z.
Proof.
  revert n. induction l as [|a l IH]; intros n; simpl; [lia |].
  rewrite IH, filter_cons. case_decide; simpl; lia.
Qed.

#[export] Instance MemoryStore_Laws : StoreLaws MemoryStore.
Proof.
  split; simpl; unfold MemoryStore_Get, MemoryStore_GetByDID.
  - intros s a. simpl. by rewrite lookup_insert_eq.
  - intros s a id Hne. simpl. by rewrite lookup_insert_ne.
  - intros s a Hne. simpl. rewrite decide_False by done. by rewrite !lookup_insert_eq.
  - intros s id. unfold MemoryStore_Delete. destruct (agents s !! id) eqn:E; simpl.
    + by rewrite lookup_delete_eq.
    + by rewrite E.
  - intros s a. rewrite MemoryStore_List_spec. f_equiv. intros id.
    destruct (agents s !! id); naive_solver.
  - intros s cap a. unfold MemoryStore_Search. rewrite list_elem_of_filter. tauto.
  - intros s t. unfold MemoryStore_CountByTenant. case_decide as Ht.
    + rewrite filter_all by (apply Forall_forall; by left).
      unfold MemoryStore_List. by rewrite length_fmap, length_map_to_list.
    + rewrite count_loop, Z.add_0_l. do 2 f_equal. apply list_filter_iff. intros a. tauto.
Qed.

(** ** The DID index *)

(** Every index entry leads to the agent with that DID, and every agent that has a
    DID is reachable through the index. *)
Record paired (s : MemoryStore) : Prop := {
  index_sound did id : byDID s !! did = Some id →
    did ≠ EmptyString ∧ ∃ a, agents s !! id = Some a ∧ a_DID a = did;
  index_complete id a : agents s !! id = Some a →
    a_ID a = id ∧ (a_DID a ≠ EmptyString → byDID s !! a_DID a = Some id);
}.

(** [a] does not reuse the ID of an agent with another DID, nor a DID that is
    already bound to another ID. *)
Definition keeps_pairing (s : MemoryStore) (a : Agent) : Prop :=
  (∀ b, agents s !! a_ID a = Some b → a_DID b = a_DID a) ∧
  (∀ id, byDID s !! a_DID a = Some id → id = a_ID a).

Lemma paired_new : paired NewMemoryStore.
Proof. split; simpl; intros ? ?; by rewrite lookup_empty. Qed.

Lemma paired_put s a : paired s → keeps_pairing s a → paired (put_agent s a).
Proof.
  intros [Hs Hc] [Hid Hdid]. split; simpl.
  - intros did id. case_decide as Hemp.
    + intros Hl. destruct (Hs did id Hl) as [Hne (b & Hb & <-)]. split; [done |].
      rewrite lookup_insert. case_decide as Hi; [|eauto]. subst. exfalso.
      apply Hne. by rewrite (Hid b Hb).
    + rewrite lookup_insert. case_decide as Hd.
      * intros [= <-]. subst. split; [done |]. exists a. by rewrite lookup_insert_eq.
      * intros Hl. destruct (Hs did id Hl) as [Hne (b & Hb & <-)]. split; [done |].
        rewrite lookup_insert. case_decide as Hi; [|eauto]. subst. exfalso.
        apply Hd. by rewrite (Hid b Hb).
  - intros id b. rewrite lookup_insert. case_decide as Hi.
    + intros [= <-]. subst. split; [done |]. intros Hne.
      by rewrite decide_False, lookup_insert_eq by done.
    + intros Hb. destruct (Hc id b Hb) as [Hbi Hbd]. split; [done |]. intros Hne.
      specialize (Hbd Hne). case_decide as Hemp; [done |]. rewrite lookup_insert.
      case_decide as Hd; [|done]. exfalso. apply Hi. symmetry. apply Hdid. by rewrite Hd.
Qed.

Lemma paired_delete s id : paired s → paired (MemoryStore_Delete s id).1.
Proof.
  intros [Hs Hc]. unfold MemoryStore_Delete.
  destruct (agents s !! id) as [a|] eqn:Ha; [|done].
  destruct (Hc id a Ha) as [Hai Had]. split; simpl.
  - intros did id' Hl.
    assert (Hl' : byDID s !! did = Some id' ∧ did ≠ a_DID a).
    { case_decide as Hemp; [|by apply lookup_delete_Some in Hl as [Hne Hl]].
      split; [done |]. intros ->. by destruct (Hs _ _ Hl). }
    destruct Hl' as [Hl' Hne]. destruct (Hs did id' Hl') as [Hd (b & Hb & Hbd)].
    split; [done |]. exists b. split; [|done]. apply lookup_delete_Some.
    split; [|done]. intros ->. congruence.
  - intros id' b [Hne Hb]%lookup_delete_Some. destruct (Hc id' b Hb) as [Hbi Hbd].
    split; [done |]. intros Hd. specialize (Hbd Hd). case_decide as Hemp; [done |].
    apply lookup_delete_Some. split; [|done]. intros Heq. rewrite <- Heq in Hbd.
    rewrite (Had Hemp) in Hbd. congruence.
Qed.

(** Stores built by puts that keep the pairing, and deletes. *)
Inductive registry_run : MemoryStore → Prop :=
| run_new : registry_run NewMemoryStore
| run_put s a : registry_run s → keeps_pairing s a → registry_run (MemoryStore_Put s a).1
| run_delete s id : registry_run s → registry_run (MemoryStore_Delete s id).1.

Lemma registry_run_paired s : registry_run s → paired s.
Proof. induction 1; simpl; auto using paired_new, paired_put, paired_delete. Qed.

(** Registry index: as long as no Put reuses an agent ID for another DID or a DID
    for another ID, a lookup by DID succeeds exactly for the registered DIDs and
    returns the agent with that DID and never a nil agent. *)
Theorem registry_lookup_by_did s did r :
  registry_run s →
  MemoryStore_GetByDID s did = r →
  match r with
  | Ok None => False
  | Ok (Some a) => a_DID a = did ∧ did ≠ EmptyString ∧ a ∈ MemoryStore_List s
  | Err e => e = ErrAgentNotFound ∧
             ∀ a, a ∈ MemoryStore_List s → a_DID a = did → did = EmptyString
  end.
Proof.
  intros [Hs Hc]%registry_run_paired <-. unfold MemoryStore_GetByDID.
  destruct (byDID s !! did) as [id|] eqn:Hd.
  - destruct (Hs did id Hd) as [Hne (a & Ha & <-)]. rewrite Ha. split_and!; [done.. |].
    rewrite MemoryStore_List_spec. eauto.
  - split; [done |]. intros a [id Ha]%MemoryStore_List_spec <-.
    destruct (Hc id a Ha) as [_ Hi]. destruct (decide (a_DID a = EmptyString)); [done |].
    specialize (Hi n). congruence.
Qed.

(** An agent that is stored under the ID of an already registered agent takes over
    its DID: looking up the first agent's DID then returns the second agent, keys
    included.  The ID of a registration comes from the client. *)
Theorem registry_id_reuse_hijacks_did s victim other :
  a_ID other = a_ID victim → a_DID victim ≠ EmptyString → a_DID other ≠ a_DID victim →
  MemoryStore_GetByDID (MemoryStore_Put (MemoryStore_Put s victim).1 other).1 (a_DID victim)
  = Ok (Some other).
Proof.
  intros Hid Hne Hdiff. unfold MemoryStore_GetByDID. simpl.
  rewrite (decide_False (P := a_DID victim = EmptyString)) by done.
  case_decide; rewrite ?(lookup_insert_ne _ (a_DID other)) by done; rewrite lookup_insert_eq, <- Hid;
    by rewrite lookup_insert_eq.
Qed.

Lemma registry_id_reuse_hijacks_did_witness :
  MemoryStore_GetByDID
    (MemoryStore_Put (MemoryStore_Put NewMemoryStore
       (NewAgent (uuid_lit 1) 0 "did:wba:alice" "Alice")).1
       (NewAgent (uuid_lit 1) 1 "did:wba:mallory" "Mallory")).1 "did:wba:alice"
  = Ok (Some (NewAgent (uuid_lit 1) 1 "did:wba:mallory" "Mallory")).
Proof.
  apply (registry_id_reuse_hijacks_did NewMemoryStore
    (NewAgent (uuid_lit 1) 0 "did:wba:alice" "Alice")
    (NewAgent (uuid_lit 1) 1 "did:wba:mallory" "Mallory")); done.
Defined.

Definition demo_agent : Agent := NewAgent (uuid_lit 1) 0 "did:wba:alice" "Alice".

Lemma demo_registry_run : registry_run (MemoryStore_Put NewMemoryStore demo_agent).1.
Proof. apply run_put; [apply run_new |]. split; intros ?; simpl; by rewrite lookup_empty. Qed.

Lemma registry_lookup_by_did_witness :
  a_DID demo_agent = "did:wba:alice" ∧ "did:wba:alice" ≠ EmptyString ∧
  demo_agent ∈ MemoryStore_List (MemoryStore_Put NewMemoryStore demo_agent).1.
Proof.
  apply (registry_lookup_by_did (MemoryStore_Put NewMemoryStore demo_agent).1 "did:wba:alice"
    (Ok (Some demo_agent))); [apply demo_registry_run | reflexivity].
Defined.

(** ** Persistence *)

Lemma load_agents s l :
  NoDup (a_ID <$> l) →
  ∀ id, agents (load s l) !! id =
    match list_find (λ a, a_ID a = id) l with
    | Some (_, a) => Some a
    | None => agents s !! id
    end.
Proof.
  revert s. induction l as [|a l IH]; intros s Hnd id; [done |].
  apply NoDup_cons in Hnd as [Hnin Hnd]. simpl. unfold load in IH. rewrite (IH _ Hnd). simpl.
  destruct (decide (a_ID a = id)) as [<-|Hne].
  - assert (list_find (λ a0, a_ID a0 = a_ID a) l = None) as ->.
    { apply list_find_None, Forall_forall. intros b Hb Heq. apply Hnin.
      rewrite <- Heq. by apply list_elem_of_fmap_2. }
    by rewrite lookup_insert_eq.
  - destruct (list_find _ l) as [[i b]|]; [done |]. simpl. by rewrite lookup_insert_ne.
Qed.

(** A store that pairs IDs and DIDs is determined by its agents. *)
Lemma paired_ext s1 s2 : paired s1 → paired s2 → agents s1 = agents s2 → s1 = s2.
Proof.
  intros [Hs1 Hc1] [Hs2 Hc2] Heq. destruct s1 as [ag bd1], s2 as [ag2 bd2]. simpl in *. subst ag2.
  f_equal. apply map_eq. intros did. apply option_eq. intros id. split; intros Hl.
  - destruct (Hs1 _ _ Hl) as [Hne (a & Ha & <-)]. by apply (Hc2 id a Ha).
  - destruct (Hs2 _ _ Hl) as [Hne (a & Ha & <-)]. by apply (Hc1 id a Ha).
Qed.

(** Two agents of a list can be in one store. *)
Definition compatible (a b : Agent) : Prop :=
  a_ID a ≠ a_ID b ∧ (a_DID a ≠ EmptyString → a_DID a ≠ a_DID b).

Lemma paired_load s l :
  paired s → StronglySorted compatible l →
  Forall (keeps_pairing s) l → paired (load s l).
Proof.
  intros Hp Hl. revert s Hp. induction Hl as [|a l Hl IH Ha]; intros s Hp Hk; [done |].
  apply Forall_cons in Hk as [Hka Hk]. simpl. apply IH; [by apply paired_put |].
  rewrite Forall_forall in *. intros b Hb. destruct (Hk b Hb) as [Hk1 Hk2].
  destruct (Ha b Hb) as [Hid Hdid]. split; simpl.
  - intros b'. rewrite lookup_insert_ne by done. apply Hk1.
  - intros id. case_decide as He; [apply Hk2 |].
    rewrite lookup_insert_ne by auto. apply Hk2.
Qed.

Lemma paired_compatible s (l : list (uuid * Agent)) :
  paired s → NoDup l.*1 → (∀ id a, (id, a) ∈ l → agents s !! id = Some a) →
  StronglySorted compatible l.*2.
Proof.
  intros [Hs Hc] Hnd Hl. induction l as [|[id a] l IH]; simpl; constructor.
  - apply IH; [by apply NoDup_cons in Hnd as [_ ?] |]. intros. apply Hl. by right.
  - apply NoDup_cons in Hnd as [Hnin _]. apply Forall_forall. intros b Hb.
    apply list_elem_of_fmap in Hb as [[id' b'] [-> Hin]]. simpl.
    assert (Hne : id ≠ id') by (intros ->; apply Hnin; by apply (list_elem_of_fmap_2 fst _ _ Hin)).
    destruct (Hc id a (Hl id a ltac:(left))) as [<- Had].
    destruct (Hc id' b' (Hl id' b' ltac:(by right))) as [<- Hbd].
    split; [done |]. intros Hd Heq. specialize (Had Hd). rewrite Heq in Had, Hd.
    specialize (Hbd Hd). congruence.
Qed.

(** File store round trip: loading the file a Put or Delete wrote, whatever order
    the agents were written in, rebuilds exactly the store that was saved (agents and
    DID index), when the store pairs IDs and DIDs. *)
Theorem filestore_reload s written :
  registry_run (fs_mem s) →
  written ≡ₚ default [] (fs_file (save true s).1) →
  fs_mem (NewFileStore (Some written)) = fs_mem s.
Proof.
  intros Hp%registry_run_paired Hw. simpl in Hw. unfold MemoryStore_List in Hw.
  destruct (Permutation_map_inv _ _ Hw) as (l & -> & Hl).
  change (load NewMemoryStore l.*2 = fs_mem s).
  assert (Hin : ∀ id a, (id, a) ∈ l ↔ agents (fs_mem s) !! id = Some a).
  { intros id a. by rewrite <- Hl, elem_of_map_to_list. }
  assert (Hnd : NoDup l.*1) by (rewrite <- Hl; apply NoDup_fst_map_to_list).
  assert (Hid : a_ID <$> l.*2 = l.*1).
  { rewrite <- list_fmap_compose. apply list_fmap_ext. intros i [id a] Hi.
    apply list_elem_of_lookup_2, Hin in Hi. by apply (index_complete _ Hp) in Hi as [? _]. }
  apply paired_ext; [|done |].
  - apply paired_load; [apply paired_new | by apply (paired_compatible (fs_mem s)); [.. | intros ? ? ?%Hin] |].
    apply Forall_forall. intros a _. split; simpl; intros ?; by rewrite lookup_empty.
  - apply map_eq. intros id. rewrite load_agents by by rewrite Hid.
    destruct (list_find _ _) as [[i a]|] eqn:E.
    + apply list_find_Some in E as (Hi & <- & _).
      apply list_lookup_fmap_Some in Hi as ([id' a'] & -> & Hi).
      apply list_elem_of_lookup_2, Hin in Hi. simpl.
      by destruct (index_complete _ Hp _ _ Hi) as [-> _].
    + simpl. rewrite lookup_empty. symmetry. apply eq_None_not_Some. intros [a Ha].
      apply list_find_None in E. rewrite Forall_forall in E.
      apply (E a); [|by apply (index_complete _ Hp)].
      apply Hin in Ha. by apply (list_elem_of_fmap_2 snd _ _ Ha).
Qed.

Lemma filestore_reload_witness :
  fs_mem (NewFileStore (Some [demo_agent])) = (MemoryStore_Put NewMemoryStore demo_agent).1.
Proof.
  apply (filestore_reload {| fs_mem := (MemoryStore_Put NewMemoryStore demo_agent).1;
                             fs_file := None |} [demo_agent]).
  - apply demo_registry_run.
  - reflexivity.
Defined.

(** ** Agent status and presence status *)

(** The two copies of the status agree. *)
Definition in_step (a : Agent) : Prop :=
  match a_Presence a with None => True | Some p => p_Status p = a_Status a end.

(** The status setters keep the agent's status and its presence status equal,
    except SetAway, which leaves a busy, offline or do-not-disturb presence as it
    is: after it the two agree exactly when the presence was online or away. *)
Theorem status_setters_in_step now a status text :
  in_step (SetOnline now a) ∧ in_step (SetOffline now a) ∧ in_step (SetBusy now a) ∧
  in_step (SetDND now a) ∧ in_step (Agent_UpdatePresence now a status text) ∧
  (in_step (SetAway now a) ↔
   match a_Presence a with
   | None => True
   | Some p => p_Status p = StatusOnline ∨ p_Status p = StatusAway
   end).
Proof.
  unfold in_step. simpl. destruct (a_Presence a) as [p|]; simpl; [|done].
  split_and!; try done. unfold SetIdle. case_decide; simpl; tauto.
Qed.
