(* ===== verification/Discovery.v ===== *)
(** * Peer discovery (src/pkg/registry/discovery.go)

    The discovery protocol over any agent store: announcements, responses and leave messages
    update the store, queries are answered through the registered handlers.  The clients'
    theorems are proved against [Store] and [StoreLaws]. *)

From S2P Require Import Prelude Registry.

(** ** Messages *)

Definition DiscoveryAnnounce : string := "announce".
Definition DiscoveryQuery : string := "query".
Definition DiscoveryResponse : string := "response".
Definition DiscoveryLeave : string := "leave".

Record DiscoveryMessage := {
  dm_Type : string;
  dm_AgentID : uuid;
  dm_DID : string;
  dm_Capability : string;
  dm_Agent : option Agent;
  dm_Timestamp : Z;
}.

Inductive DiscoveryError := DErrDecode | DErrUnknownType | DErrStore (e : StoreError) | DErrHandler (e : string).

(** ** The service *)

(** [disc_calls] lists the handler calls made so far, with their message. *)
Record Discovery (S : Type) := {
  disc_store : S;
  disc_localAgent : Agent;
  disc_handlers : list nat;
  disc_calls : list (nat * DiscoveryMessage);
}.
Arguments disc_store {S}.
Arguments disc_localAgent {S}.
Arguments disc_handlers {S}.
Arguments disc_calls {S}.
Arguments Build_Discovery {S}.

Section discovery.
Context {S : Type} `{Store S}.

Definition NewDiscovery (store : S) (localAgent : Agent) : Discovery S :=
  Build_Discovery store localAgent [] [].

Definition with_store (d : Discovery S) (s : S) : Discovery S :=
  Build_Discovery s (disc_localAgent d) (disc_handlers d) (disc_calls d).

Definition OnMessage (d : Discovery S) (handler : nat) : Discovery S :=
  Build_Discovery (disc_store d) (disc_localAgent d) (disc_handlers d ++ [handler]) (disc_calls d).

Definition Announce (now : Z) (d : Discovery S) : DiscoveryMessage := {|
  dm_Type := DiscoveryAnnounce; dm_AgentID := a_ID (disc_localAgent d); dm_DID := a_DID (disc_localAgent d);
  dm_Capability := ""; dm_Agent := Some (disc_localAgent d); dm_Timestamp := now;
|}.

Definition Leave (now : Z) (d : Discovery S) : DiscoveryMessage := {|
  dm_Type := DiscoveryLeave; dm_AgentID := a_ID (disc_localAgent d); dm_DID := a_DID (disc_localAgent d);
  dm_Capability := ""; dm_Agent := None; dm_Timestamp := now;
|}.

Definition Query (now : Z) (d : Discovery S) (capability : string) : DiscoveryMessage := {|
  dm_Type := DiscoveryQuery; dm_AgentID := a_ID (disc_localAgent d); dm_DID := "";
  dm_Capability := capability; dm_Agent := None; dm_Timestamp := now;
|}.

(** [d.store.Put(agent)] as the result of the handler. *)
Definition store_put (d : Discovery S) (a : Agent) : Discovery S * option DiscoveryError :=
  let '(s, e) := Put (disc_store d) a in (with_store d s, DErrStore <$> e).

Definition handleAnnounce (now : Z) (d : Discovery S) (msg : DiscoveryMessage) : Discovery S * option DiscoveryError :=
  match dm_Agent msg with
  | None => (d, None)
  | Some a =>
      if decide (dm_AgentID msg = a_ID (disc_localAgent d)) then (d, None)
      else store_put d (SetOnline now a)
  end.

(** [outcome h m] is what handler [h] returns for the message. *)
Fixpoint notify (outcome : nat → DiscoveryMessage → option string) (m : DiscoveryMessage) (handlers : list nat)
  : list (nat * DiscoveryMessage) * option DiscoveryError :=
  match handlers with
  | [] => ([], None)
  | h :: hs =>
      match outcome h m with
      | Some e => ([(h, m)], Some (DErrHandler e))
      | None => let '(calls, e) := notify outcome m hs in ((h, m) :: calls, e)
      end
  end.

Definition query_response (now : Z) (d : Discovery S) : DiscoveryMessage := {|
  dm_Type := DiscoveryResponse; dm_AgentID := a_ID (disc_localAgent d); dm_DID := a_DID (disc_localAgent d);
  dm_Capability := ""; dm_Agent := Some (disc_localAgent d); dm_Timestamp := now;
|}.

Definition handleQuery (now : Z) (outcome : nat → DiscoveryMessage → option string) (d : Discovery S)
    (msg : DiscoveryMessage) : Discovery S * option DiscoveryError :=
  if bool_decide (dm_Capability msg ≠ "") && negb (HasCapability (disc_localAgent d) (dm_Capability msg)) then (d, None)
  else
    let '(calls, e) := notify outcome (query_response now d) (disc_handlers d) in
    (Build_Discovery (disc_store d) (disc_localAgent d) (disc_handlers d) (disc_calls d ++ calls), e).

Definition handleResponse (now : Z) (d : Discovery S) (msg : DiscoveryMessage) : Discovery S * option DiscoveryError :=
  match dm_Agent msg with
  | None => (d, None)
  | Some a => store_put d (SetOnline now a)
  end.

Definition handleLeave (now : Z) (d : Discovery S) (msg : DiscoveryMessage) : Discovery S * option DiscoveryError :=
  match Get (disc_store d) (dm_AgentID msg) with
  | Err _ => (d, None)
  | Ok a => store_put d (SetOffline now a)
  end.

(** [decoded] is what json.Unmarshal makes of the received bytes. *)
Definition HandleMessage (now : Z) (outcome : nat → DiscoveryMessage → option string) (d : Discovery S)
    (decoded : option DiscoveryMessage) : Discovery S * option DiscoveryError :=
  match decoded with
  | None => (d, Some DErrDecode)
  | Some msg =>
      if decide (dm_Type msg = DiscoveryAnnounce) then handleAnnounce now d msg
      else if decide (dm_Type msg = DiscoveryQuery) then handleQuery now outcome d msg
      else if decide (dm_Type msg = DiscoveryResponse) then handleResponse now d msg
      else if decide (dm_Type msg = DiscoveryLeave) then handleLeave now d msg
      else (d, Some DErrUnknownType)
  end.

Definition FindByCapability (d : Discovery S) (capability : string) : list Agent := Search (disc_store d) capability.

Definition FindByDID (d : Discovery S) (did : string) : result StoreError (option Agent) := GetByDID (disc_store d) did.

Definition GetOnlineAgents (d : Discovery S) : list Agent :=
  filter (λ a, a_Status a = StatusOnline) (ListAgents (disc_store d)).

Record PeerKey := { peer_ID : string; peer_Type : string; peer_Key : string; peer_Purpose : string }.

(** [decodeKey] is base64.StdEncoding.DecodeString. *)
Definition add_peer_key (decodeKey : string → option string) (a : Agent) (key : PeerKey) : Agent :=
  let keyType := if decide (peer_Type key = "X25519") then KeyTypeX25519 else KeyTypeEd25519 in
  match decodeKey (peer_Key key) with
  | None => a
  | Some keyBytes => AddPublicKey a (peer_ID key) keyType (Some keyBytes) (peer_Purpose key)
  end.

Definition AddPeer (now : Z) (id : uuid) (decodeKey : string → option string) (d : Discovery S)
    (did displayName : string) (keys : list PeerKey) : Discovery S * option DiscoveryError :=
  store_put d (foldl (add_peer_key decodeKey) (SetOnline now (NewAgent id now did displayName)) keys).

(** ** What the store holds after a history of messages *)

(** One received message: the instant and what decoding gives. *)
Definition HandleMessages (outcome : nat → DiscoveryMessage → option string) (d : Discovery S)
    (history : list (Z * option DiscoveryMessage)) : Discovery S :=
  foldl (λ d '(now, m), (HandleMessage now outcome d m).1) d history.

(** Specification: which agent record a message shows as present. *)
Definition shows (localID : uuid) (m : DiscoveryMessage) : option Agent :=
  if decide (dm_Type m = DiscoveryAnnounce) then (if decide (dm_AgentID m = localID) then None else dm_Agent m)
  else if decide (dm_Type m = DiscoveryResponse) then dm_Agent m else None.

(** Specification: the status of an agent after a message, given the one before; [None] when
    it is unknown. *)
Definition spec_status (localID id : uuid) (st : option AgentStatus) (m : option DiscoveryMessage) : option AgentStatus :=
  match m with
  | None => st
  | Some m =>
      match shows localID m with
      | Some a => if decide (a_ID a = id) then Some StatusOnline else st
      | None => if decide (dm_Type m = DiscoveryLeave ∧ dm_AgentID m = id) then (λ _, StatusOffline) <$> st else st
      end
  end.

Definition status_of (s : S) (id : uuid) : option AgentStatus :=
  match Get s id with Ok a => Some (a_Status a) | Err _ => None end.

End discovery.

Section laws.
Context {S : Type} `{StoreLaws S}.

(** An agent is stored under its own ID. *)
Definition keyed (s : S) : Prop := ∀ id a, Get s id = Ok a → a_ID a = id.

Lemma status_put s a id :
  status_of (Put s a).1 id = if decide (a_ID a = id) then Some (a_Status a) else status_of s id.
Proof.
  unfold status_of. case_decide as Hid; [by rewrite <- Hid, put_get | by rewrite put_get_ne].
Qed.

Lemma keyed_put s a : keyed s → keyed (Put s a).1.
Proof.
  intros Hk id b. destruct (decide (id = a_ID a)) as [->|Hne].
  - rewrite put_get. by intros [= <-].
  - rewrite put_get_ne by done. apply Hk.
Qed.

Lemma store_put_store (d : Discovery S) a : disc_store (store_put d a).1 = (Put (disc_store d) a).1.
Proof. unfold store_put. by destruct (Put _ _). Qed.

Lemma store_put_local (d : Discovery S) a : disc_localAgent (store_put d a).1 = disc_localAgent d.
Proof. unfold store_put. by destruct (Put _ _). Qed.

(** One case per message type. *)
Lemma HandleMessage_cases (P : Discovery S * option DiscoveryError → Prop) now outcome (d : Discovery S) m :
  (dm_Type m = DiscoveryAnnounce → P (handleAnnounce now d m)) →
  (dm_Type m = DiscoveryQuery → P (handleQuery now outcome d m)) →
  (dm_Type m = DiscoveryResponse → P (handleResponse now d m)) →
  (dm_Type m = DiscoveryLeave → P (handleLeave now d m)) →
  (dm_Type m ∉ [DiscoveryAnnounce; DiscoveryQuery; DiscoveryResponse; DiscoveryLeave] → P (d, Some DErrUnknownType)) →
  P (HandleMessage now outcome d (Some m)).
Proof.
  intros H1 H2 H3 H4 H5. unfold HandleMessage. repeat case_decide; auto.
  apply H5. rewrite !not_elem_of_cons. auto using not_elem_of_nil.
Qed.

Lemma handleQuery_store now outcome (d : Discovery S) m :
  disc_store (handleQuery now outcome d m).1 = disc_store d ∧
  disc_localAgent (handleQuery now outcome d m).1 = disc_localAgent d.
Proof. unfold handleQuery. destruct (_ && _); [done |]. by destruct (notify _ _ _). Qed.

Lemma HandleMessage_local now outcome (d : Discovery S) m :
  disc_localAgent (HandleMessage now outcome d m).1 = disc_localAgent d.
Proof.
  destruct m as [m|]; [|done]. apply HandleMessage_cases; intros _; [| apply handleQuery_store | | | done].
  - unfold handleAnnounce. destruct (dm_Agent m); [|done]. case_decide; [done | apply store_put_local].
  - unfold handleResponse. destruct (dm_Agent m); [apply store_put_local | done].
  - unfold handleLeave. destruct (Get _ _); [apply store_put_local | done].
Qed.

Lemma HandleMessage_keyed now outcome (d : Discovery S) m :
  keyed (disc_store d) → keyed (disc_store (HandleMessage now outcome d m).1).
Proof.
  intros Hk. destruct m as [m|]; [|done]. apply HandleMessage_cases; intros _; [| | | | done].
  - unfold handleAnnounce. destruct (dm_Agent m); [|done]. case_decide; [done |].
    rewrite store_put_store. by apply keyed_put.
  - by rewrite (proj1 (handleQuery_store _ _ _ _)).
  - unfold handleResponse. destruct (dm_Agent m); [|done]. rewrite store_put_store. by apply keyed_put.
  - unfold handleLeave. destruct (Get _ _); [|done]. rewrite store_put_store. by apply keyed_put.
Qed.

Lemma HandleMessage_status now outcome (d : Discovery S) m id :
  keyed (disc_store d) →
  status_of (disc_store (HandleMessage now outcome d m).1) id
    = spec_status (a_ID (disc_localAgent d)) id (status_of (disc_store d) id) m.
Proof.
  intros Hk. destruct m as [m|]; [|done].
  apply HandleMessage_cases; intros Ht; unfold spec_status, shows.
  - rewrite (decide_True (P := dm_Type m = DiscoveryAnnounce)) by done. unfold handleAnnounce.
    rewrite (decide_False (P := dm_Type m = DiscoveryLeave ∧ _)) by (rewrite Ht; by intros [? _]).
    destruct (dm_Agent m) as [a|]; [|by case_decide]. case_decide; [done |].
    by rewrite store_put_store, status_put.
  - rewrite (proj1 (handleQuery_store _ _ _ _)). rewrite Ht. repeat case_decide; by destruct_and?.
  - rewrite Ht. simpl. unfold handleResponse. destruct (dm_Agent m) as [a|].
    + by rewrite store_put_store, status_put.
    + done.
  - rewrite Ht. simpl. unfold handleLeave. destruct (Get (disc_store d) (dm_AgentID m)) as [a|e] eqn:Hget.
    + rewrite store_put_store, status_put. simpl. rewrite (Hk _ _ Hget).
      destruct (decide (dm_AgentID m = id)) as [Hid|Hid]; case_decide as Hc; try (tauto || by destruct Hc).
      unfold status_of. by rewrite <- Hid, Hget.
    + case_decide as Hd; [|done]. destruct Hd as [_ <-]. unfold status_of. simpl. by rewrite Hget.
  - rewrite !not_elem_of_cons in Ht. destruct Ht as (H1 & _ & H3 & H4 & _).
    rewrite !decide_False; [done | by intros [? _] | done..].
Qed.

Lemma HandleMessages_status outcome (history : list (Z * option DiscoveryMessage)) (d : Discovery S) id :
  keyed (disc_store d) →
  status_of (disc_store (HandleMessages outcome d history)) id
    = foldl (λ st '(_, m), spec_status (a_ID (disc_localAgent d)) id st m) (status_of (disc_store d) id) history ∧
  keyed (disc_store (HandleMessages outcome d history)).
Proof.
  revert d. induction history as [|[now m] history IH]; intros d Hk; [done |]. unfold HandleMessages. simpl foldl.
  destruct (IH (HandleMessage now outcome d m).1) as [IH1 IH2]; [by apply HandleMessage_keyed |].
  split; [|done]. rewrite HandleMessage_local, HandleMessage_status in IH1 by done. done.
Qed.

(** Discovery tracks presence: over any agent store, after any history of messages the
    online agents are exactly those whose last announcement (of another agent), response or
    leave message was an announcement or a response; queries and unreadable or unknown
    messages change nothing. *)
Theorem discovery_tracks_presence outcome (d : Discovery S) history id :
  keyed (disc_store d) →
  (∃ a, a ∈ GetOnlineAgents (HandleMessages outcome d history) ∧ a_ID a = id) ↔
  foldl (λ st '(_, m), spec_status (a_ID (disc_localAgent d)) id st m) (status_of (disc_store d) id) history
    = Some StatusOnline.
Proof.
  intros Hk. destruct (HandleMessages_status outcome history d id Hk) as [<- Hk'].
  set (s := disc_store (HandleMessages outcome d history)) in *. unfold GetOnlineAgents, status_of. fold s. split.
  - intros (a & [Hon Hin]%list_elem_of_filter & <-). apply list_get in Hin as [id Hget].
    rewrite (Hk' _ _ Hget), Hget. by rewrite Hon.
  - destruct (Get s id) as [a|] eqn:Hget; [|done]. intros [= Hon]. exists a. split; [|by apply Hk'].
    apply list_elem_of_filter. split; [done |]. apply list_get. eauto.
Qed.

(** A query is answered through every handler, in order and up to the first error, when the
    local agent has the capability (or none is asked for), and ignored otherwise. *)
Lemma handleQuery_answers now outcome (d : Discovery S) msg :
  let r := handleQuery now outcome d msg in
  (dm_Capability msg ≠ "" ∧ HasCapability (disc_localAgent d) (dm_Capability msg) = false → r = (d, None)) ∧
  (dm_Capability msg = "" ∨ HasCapability (disc_localAgent d) (dm_Capability msg) = true →
   (∀ h, h ∈ disc_handlers d → outcome h (query_response now d) = None) →
   disc_calls r.1 = disc_calls d ++ ((λ h, (h, query_response now d)) <$> disc_handlers d) ∧ r.2 = None).
Proof.
  simpl. unfold handleQuery. split.
  - intros [Hne ->]. by rewrite bool_decide_eq_true_2.
  - intros Hmatch Hok.
    assert (bool_decide (dm_Capability msg ≠ "") && negb (HasCapability (disc_localAgent d) (dm_Capability msg)) = false) as ->.
    { destruct Hmatch as [Hm|Hm]; rewrite Hm; [done |]. apply andb_false_r. }
    set (m := query_response now d) in *. clearbody m.
    assert (∀ hs, (∀ h, h ∈ hs → outcome h m = None) → notify outcome m hs = ((λ h, (h, m)) <$> hs, None)) as Hall.
    { induction hs as [|h hs IH]; intros Hhs; simpl; [done |]. rewrite Hhs by left.
      rewrite IH; [done |]. intros h' Hh'. apply Hhs. by right. }
    by rewrite Hall.
Qed.

(** An announcement made under another ID replaces the record of the local agent itself. *)
Lemma announce_replaces_local now outcome (d : Discovery S) m a :
  dm_Type m = DiscoveryAnnounce → dm_AgentID m ≠ a_ID (disc_localAgent d) →
  dm_Agent m = Some a → a_ID a = a_ID (disc_localAgent d) →
  Get (disc_store (HandleMessage now outcome d (Some m)).1) (a_ID (disc_localAgent d)) = Ok (SetOnline now a).
Proof.
  intros Ht Hid Ha Haid. unfold HandleMessage, handleAnnounce. rewrite decide_True, Ha, decide_False by done.
  rewrite store_put_store, <- Haid. apply (put_get _ (SetOnline now a)).
Qed.

Lemma add_peer_keys decodeKey keys : ∀ a,
  let b := foldl (add_peer_key decodeKey) a keys in
  a_ID b = a_ID a ∧ a_DID b = a_DID a ∧ a_Status b = a_Status a ∧
  a_PublicKeys b = a_PublicKeys a ++ omap (λ k, (λ bytes,
    {| pk_ID := peer_ID k; pk_Type := if decide (peer_Type k = "X25519") then KeyTypeX25519 else KeyTypeEd25519;
       pk_Key := Some bytes; pk_Purpose := peer_Purpose k |}) <$> decodeKey (peer_Key k)) keys.
Proof.
  induction keys as [|k keys IH]; intros a; simpl; [by rewrite app_nil_r |].
  destruct (IH (add_peer_key decodeKey a k)) as (-> & -> & -> & ->).
  unfold add_peer_key. destruct (decodeKey (peer_Key k)); simpl; [by rewrite <- app_assoc | done].
Qed.

(** A peer that is added is found by its DID, online, with exactly those of its keys
    whose text decodes, in order and with the type that was given. *)
Theorem added_peer_found now id decodeKey (d : Discovery S) did name keys : did ≠ "" →
  ∃ a, FindByDID (AddPeer now id decodeKey d did name keys).1 did = Ok (Some a) ∧
       a_ID a = id ∧ a_DID a = did ∧ a_Status a = StatusOnline ∧
       a_PublicKeys a = omap (λ k, (λ bytes,
         {| pk_ID := peer_ID k; pk_Type := if decide (peer_Type k = "X25519") then KeyTypeX25519 else KeyTypeEd25519;
            pk_Key := Some bytes; pk_Purpose := peer_Purpose k |}) <$> decodeKey (peer_Key k)) keys.
Proof.
  intros Hdid. unfold AddPeer, FindByDID. rewrite store_put_store.
  set (a := foldl _ _ _). destruct (add_peer_keys decodeKey keys (SetOnline now (NewAgent id now did name))) as (H1 & H2 & H3 & H4).
  fold a in H1, H2, H3, H4. exists a. split; [|done].
  rewrite <- H2 at 1. apply put_getByDID. by rewrite H2.
Qed.

End laws.

(** ** Examples *)

Definition demo_local : Agent := NewAgent (uuid_lit 9) 0 "did:wba:local" "Local".
Definition demo_discovery : Discovery MemoryStore := NewDiscovery NewMemoryStore demo_local.

Definition demo_announce : DiscoveryMessage := {|
  dm_Type := DiscoveryAnnounce; dm_AgentID := uuid_lit 1; dm_DID := "did:wba:alice"; dm_Capability := "";
  dm_Agent := Some demo_agent; dm_Timestamp := 0 |}.

Lemma discovery_tracks_presence_witness :
  ∃ a, a ∈ GetOnlineAgents (HandleMessages (λ _ _, None) demo_discovery [(5%Z, Some demo_announce)]) ∧ a_ID a = uuid_lit 1.
Proof.
  apply discovery_tracks_presence; [intros id a [=] | vm_compute; reflexivity].
Defined.

Lemma added_peer_found_witness :
  ∃ a, FindByDID (AddPeer 3 (uuid_lit 4) (λ s, if decide (s = "bad") then None else Some s) demo_discovery "did:wba:bob" "Bob"
         [{| peer_ID := "k1"; peer_Type := "X25519"; peer_Key := "key"; peer_Purpose := "encryption" |};
          {| peer_ID := "k2"; peer_Type := "Ed25519"; peer_Key := "bad"; peer_Purpose := "signing" |}]).1 "did:wba:bob" = Ok (Some a) ∧
       length (a_PublicKeys a) = 1.
Proof.
  edestruct (added_peer_found 3 (uuid_lit 4) (λ s, if decide (s = "bad") then None else Some s) demo_discovery "did:wba:bob" "Bob")
    as (a & Ha & _ & _ & _ & Hk); [discriminate |].
  exists a. split; [exact Ha |]. rewrite Hk. reflexivity.
Defined.
