(* ===== verification/Acl.v ===== *)
(** * Access control (src/pkg/security/acl.go)

    Rule evaluation of [ACLEnforcer] and the policies built by [PolicyBuilder].  The
    relay uses it for its DID allowlist and the agents for inbound requests. *)

From S2P Require Import Prelude Registry.

Inductive ACLError := ErrAccessDenied | ErrInvalidPolicy | ErrNoPolicyDefined.

Definition EffectAllow : string := "allow".
Definition EffectDeny : string := "deny".

(** ** Matching *)

Definition matchesPrincipal (pattern principal : string) : bool :=
  if String.eqb pattern "*" then true
  else if HasSuffix pattern "*" then HasPrefix principal (TrimSuffix pattern "*")
  else String.eqb pattern principal.

Fixpoint matchesAction (patterns : list string) (action : string) : bool :=
  match patterns with
  | [] => false
  | pattern :: patterns' =>
      if String.eqb pattern "*" then true
      else if HasSuffix pattern "*" && HasPrefix action (TrimSuffix pattern "*") then true
      else if String.eqb pattern action then true
      else matchesAction patterns' action
  end.

(** ** Evaluation *)

(** The loop over the rules: [Some] result at the first rule that matches and has
    one of the two effects; rules with another effect are passed over. *)
Fixpoint evalRules (rules : list ACLRule) (principalDID action : string)
  : option (option ACLError) :=
  match rules with
  | [] => None
  | rule :: rules' =>
      if matchesPrincipal (r_Principal rule) principalDID && matchesAction (r_Actions rule) action
      then if String.eqb (r_Effect rule) EffectDeny then Some (Some ErrAccessDenied)
           else if String.eqb (r_Effect rule) EffectAllow then Some None
           else evalRules rules' principalDID action
      else evalRules rules' principalDID action
  end.

(** [None] is a nil error: access granted. *)
Definition CheckAccess (agent : Agent) (principalDID action : string) : option ACLError :=
  match a_ACL agent with
  | None => None
  | Some acl =>
      match evalRules (Rules acl) principalDID action with
      | Some r => r
      | None => if DefaultAllow acl then None else Some ErrAccessDenied
      end
  end.

(** The relay checks its allowlist with a throwaway agent that carries it. *)
Definition allowlist_agent (acl : ACLPolicy) : Agent :=
  {| a_ID := uuid_Nil; a_DID := ""; a_TenantID := ""; a_DisplayName := "";
     a_PublicKeys := []; a_Endpoints := []; a_Capabilities := []; a_ACL := Some acl;
     a_Status := ""; a_LastSeen := 0; a_Metadata := []; a_Presence := None;
     a_PresenceCfg := None; a_Role := ""; a_DelegationNamespace := "" |}.

(** ** Building policies *)

Definition NewPolicyBuilder : ACLPolicy := {| DefaultAllow := false; Rules := [] |}.

Definition SetDefaultAllow (b : ACLPolicy) (allow : bool) : ACLPolicy :=
  {| DefaultAllow := allow; Rules := Rules b |}.

Definition add_rule (b : ACLPolicy) (effect principal : string) (actions : list string)
  : ACLPolicy :=
  {| DefaultAllow := DefaultAllow b;
     Rules := Rules b ++ [{| r_Principal := principal; r_Actions := actions;
                             r_Effect := effect; r_Conditions := [] |}] |}.

Definition Allow (b : ACLPolicy) (principal : string) (actions : list string) : ACLPolicy :=
  add_rule b EffectAllow principal actions.

Definition Deny (b : ACLPolicy) (principal : string) (actions : list string) : ACLPolicy :=
  add_rule b EffectDeny principal actions.

Definition DefaultOpenPolicy : ACLPolicy := SetDefaultAllow NewPolicyBuilder true.
Definition DefaultClosedPolicy : ACLPolicy := SetDefaultAllow NewPolicyBuilder false.

Definition TrustedAgentsPolicy (trustedDIDs : list string) : ACLPolicy :=
  foldl (λ b did, Allow b did ["*"]) (SetDefaultAllow NewPolicyBuilder false) trustedDIDs.

(** ** What a pattern means *)

(** A trailing star stands for any suffix; any other pattern for itself. *)
Definition denotes (pattern s : string) : Prop :=
  (∃ p r, pattern = p +:+ "*" ∧ s = p +:+ r) ∨ pattern = s.

Lemma starred_spec pattern s :
  HasSuffix pattern "*" = true →
  HasPrefix s (TrimSuffix pattern "*") = true ↔ ∃ p r, pattern = p +:+ "*" ∧ s = p +:+ r.
Proof.
  intros [p ->]%HasSuffix_spec. rewrite TrimSuffix_app, HasPrefix_spec. split.
  - intros [r ->]. by exists p, r.
  - intros (p' & r & Heq & ->). exists r. f_equal.
    rewrite <- (TrimSuffix_app p "*"), Heq. by rewrite TrimSuffix_app.
Qed.

Lemma matchesPrincipal_denotes pattern s : matchesPrincipal pattern s = true ↔ denotes pattern s.
Proof.
  unfold matchesPrincipal, denotes. destruct (String.eqb_spec pattern "*") as [->|Hstar].
  - split; [|done]. intros _. left. by exists EmptyString, s.
  - destruct (HasSuffix pattern "*") eqn:E.
    + rewrite (starred_spec _ _ E). split; [by left |]. intros [?|Heq]; [done |]. subst s.
      apply HasSuffix_spec in E as [p ->]. by exists p, "*".
    + rewrite String.eqb_eq. split; [by right |]. intros [(p & r & -> & _)|?]; [|done].
      rewrite (proj2 (HasSuffix_spec (p +:+ "*") "*")) in E by by exists p. done.
Qed.

Lemma matchesAction_denotes patterns s :
  matchesAction patterns s = true ↔ Exists (λ p, denotes p s) patterns.
Proof.
  induction patterns as [|p ps IH]; simpl; [by rewrite Exists_nil |].
  rewrite Exists_cons, <- IH, <- matchesPrincipal_denotes. unfold matchesPrincipal.
  destruct (String.eqb p "*"); [tauto |].
  destruct (HasSuffix p "*") eqn:E; simpl.
  - destruct (HasPrefix s (TrimSuffix p "*")) eqn:E2; [tauto |].
    destruct (String.eqb_spec p s) as [->|]; [|intuition congruence].
    exfalso. assert (denotes s s) as Hd by by right.
    apply matchesPrincipal_denotes in Hd. unfold matchesPrincipal in Hd.
    rewrite E, E2 in Hd. destruct (String.eqb_spec s "*") as [->|]; [|done].
    by vm_compute in E2.
  - destruct (String.eqb p s); intuition congruence.
Qed.

(** ** Rules *)

(** The rule applies to the request and has an effect the enforcer knows. *)
Definition decisive (did action : string) (rule : ACLRule) : Prop :=
  denotes (r_Principal rule) did ∧ Exists (λ p, denotes p action) (r_Actions rule) ∧
  (r_Effect rule = EffectAllow ∨ r_Effect rule = EffectDeny).

Lemma evalRules_first rules did action :
  match evalRules rules did action with
  | None => Forall (λ r, ¬ decisive did action r) rules
  | Some res => ∃ before rule after, rules = before ++ rule :: after ∧
      Forall (λ r, ¬ decisive did action r) before ∧ decisive did action rule ∧
      (res = None ↔ r_Effect rule = EffectAllow) ∧
      (res = Some ErrAccessDenied ↔ r_Effect rule = EffectDeny)
  end.
Proof.
  induction rules as [|rule rules IH]; simpl; [done |].
  assert (Hskip : ¬ decisive did action rule → match evalRules rules did action with
    | None => Forall (λ r, ¬ decisive did action r) (rule :: rules)
    | Some res => ∃ before r after, rule :: rules = before ++ r :: after ∧
        Forall (λ r, ¬ decisive did action r) before ∧ decisive did action r ∧
        (res = None ↔ r_Effect r = EffectAllow) ∧
        (res = Some ErrAccessDenied ↔ r_Effect r = EffectDeny) end).
  { intros Hn. destruct (evalRules rules did action); [|by constructor].
    destruct IH as (b & r & a & -> & Hb & Hr). exists (rule :: b), r, a.
    split; [done |]. split; [by constructor | done]. }
  destruct (matchesPrincipal (r_Principal rule) did) eqn:E1; simpl.
  2:{ apply Hskip. intros [Hd _]. apply matchesPrincipal_denotes in Hd. congruence. }
  destruct (matchesAction (r_Actions rule) action) eqn:E2.
  2:{ apply Hskip. intros (_ & Hd & _). apply matchesAction_denotes in Hd. congruence. }
  apply matchesPrincipal_denotes in E1. apply matchesAction_denotes in E2.
  destruct (String.eqb_spec (r_Effect rule) EffectDeny) as [Hd|Hd].
  { exists [], rule, rules. rewrite Hd. split_and!; try done. by split_and!; [| |right]. }
  destruct (String.eqb_spec (r_Effect rule) EffectAllow) as [Ha|Ha].
  { exists [], rule, rules. rewrite Ha. split_and!; try done. by split_and!; [| |left]. }
  apply Hskip. intros (_ & _ & [?|?]); done.
Qed.

(** The first element with a property is determined by the list. *)
Lemma first_unique {A} (P : A → Prop) (b1 b2 a1 a2 : list A) x1 x2 :
  b1 ++ x1 :: a1 = b2 ++ x2 :: a2 → Forall (λ r, ¬ P r) b1 → Forall (λ r, ¬ P r) b2 →
  P x1 → P x2 → x1 = x2.
Proof.
  intros Heq Hb1. revert b2 Heq. induction Hb1 as [|x b1 Hx Hb1 IH]; intros [|y b2] Heq Hb2 H1 H2;
    simplify_eq/=; try done.
  - by apply Forall_cons in Hb2 as [? _].
  - apply Forall_cons in Hb2 as [_ Hb2]. by apply (IH b2).
Qed.

(** First decisive rule wins: CheckAccess grants a request exactly when the agent
    has no ACL, or the first rule that matches principal and action (with trailing
    stars as wildcards) and carries a known effect is an allow rule, or no such rule
    exists and the policy defaults to allow; otherwise it returns ErrAccessDenied. *)
Theorem check_access_first_match agent acl did action :
  a_ACL agent = Some acl →
  (CheckAccess agent did action = None ↔
   (∃ before rule after, Rules acl = before ++ rule :: after ∧
      Forall (λ r, ¬ decisive did action r) before ∧ decisive did action rule ∧
      r_Effect rule = EffectAllow) ∨
   (Forall (λ r, ¬ decisive did action r) (Rules acl) ∧ DefaultAllow acl = true)) ∧
  (CheckAccess agent did action = None ∨ CheckAccess agent did action = Some ErrAccessDenied).
Proof.
  intros Hacl. unfold CheckAccess. rewrite Hacl.
  pose proof (evalRules_first (Rules acl) did action) as H.
  destruct (evalRules (Rules acl) did action) as [res|].
  - destruct H as (b & r & a & Hr & Hb & Hd & Hal & Hde). split.
    + rewrite Hal. split.
      * intros Ha. left. by exists b, r, a.
      * intros [(b' & r' & a' & Hr' & Hb' & Hd' & Ha')|[Hn _]].
        -- rewrite Hr in Hr'. by rewrite (first_unique _ _ _ _ _ _ _ Hr' Hb Hb' Hd Hd').
        -- rewrite Hr, Forall_app, Forall_cons in Hn. tauto.
    + destruct Hd as (_ & _ & [Ha|Ha]); [left; by apply Hal | right; by apply Hde].
  - split; [|destruct (DefaultAllow acl); tauto].
    destruct (DefaultAllow acl); split; try done.
    + intros _. by right.
    + intros [(b & r & a & Hr & _ & Hd & _)|[_ ?]]; [|done]. exfalso.
      rewrite Hr, Forall_app, Forall_cons in H. tauto.
Qed.

Lemma check_access_first_match_witness :
  CheckAccess (allowlist_agent (Allow (Deny NewPolicyBuilder "did:wba:x:bad" ["*"])
                 "did:wba:x:*" ["register"])) "did:wba:x:alice" "register" = None.
Proof.
  apply (check_access_first_match _ (Allow (Deny NewPolicyBuilder "did:wba:x:bad" ["*"])
                 "did:wba:x:*" ["register"])); [reflexivity |].
  left. eexists [_], _, []. split; [reflexivity |]. split_and!; [| | done].
  - constructor; [|done]. intros [Hd _]. apply matchesPrincipal_denotes in Hd. by vm_compute in Hd.
  - split_and!; [by apply matchesPrincipal_denotes | by apply matchesAction_denotes | by left].
Defined.

(** ** Trusted agents *)

Lemma trusted_rules dids b :
  Rules (foldl (λ b did, Allow b did ["*"]) b dids)
  = Rules b ++ ((λ did, {| r_Principal := did; r_Actions := ["*"]; r_Effect := EffectAllow;
                           r_Conditions := [] |}) <$> dids) ∧
  DefaultAllow (foldl (λ b did, Allow b did ["*"]) b dids) = DefaultAllow b.
Proof.
  revert b. induction dids as [|d ds IH]; intros b; simpl; [by rewrite app_nil_r |].
  destruct (IH (Allow b d ["*"])) as [-> ->]. simpl. split; [by rewrite <- app_assoc | done].
Qed.

Lemma evalRules_trusted dids did action :
  evalRules ((λ did, {| r_Principal := did; r_Actions := ["*"]; r_Effect := EffectAllow;
                        r_Conditions := [] |}) <$> dids) did action
  = if existsb (λ d, matchesPrincipal d did) dids then Some None else None.
Proof.
  induction dids as [|d ds IH]; [done |].
  cbn [fmap list_fmap evalRules existsb r_Principal r_Actions r_Effect].
  destruct (matchesPrincipal d did); [done |]. simpl. exact IH.
Qed.

(** TrustedAgentsPolicy grants every action to the DIDs its entries denote (the
    entry itself, or any extension of a starred prefix) and denies everyone else. *)
Theorem trusted_agents_policy_spec dids did action :
  CheckAccess (allowlist_agent (TrustedAgentsPolicy dids)) did action = None ↔
  Exists (λ d, denotes d did) dids.
Proof.
  unfold CheckAccess, TrustedAgentsPolicy. cbn [a_ACL allowlist_agent].
  destruct (trusted_rules dids (SetDefaultAllow NewPolicyBuilder false)) as [-> ->].
  simpl. rewrite evalRules_trusted.
  destruct (existsb _ dids) eqn:E; split; try done.
  - intros _. apply existsb_exists in E as (d & Hd & Hm). apply Exists_exists. exists d.
    by rewrite list_elem_of_In, <- matchesPrincipal_denotes.
  - intros (d & Hd & Hm)%Exists_exists. exfalso.
    assert (existsb (λ d, matchesPrincipal d did) dids = true) as E'; [|congruence].
    apply existsb_exists. exists d. by rewrite <- list_elem_of_In, matchesPrincipal_denotes.
Qed.
