(* ===== verification/Channel.v ===== *)
(** * Channels (src/pkg/registry/channel.go)

    Group channels with their members and roles, and the in-memory channel store with
    its index by name.  [time.Now()] and the fresh UUID are arguments. *)

From S2P Require Import Prelude.

(** ** Data *)

Inductive ChannelError :=
| ErrChannelNotFound | ErrChannelExists | ErrNotChannelMember | ErrNotChannelOwner
| ErrMemberAlreadyAdded.

#[export] Instance ChannelError_eq_dec : EqDecision ChannelError.
Proof. solve_decision. Defined.

(** The relay only creates channels of these types. *)
Inductive ChannelType := ChannelGroup | ChannelBroadcast | ChannelTopic.

#[export] Instance ChannelType_eq_dec : EqDecision ChannelType.
Proof. solve_decision. Defined.

Inductive ChannelRole := RoleOwner | RoleAdmin | RoleMember.

#[export] Instance ChannelRole_eq_dec : EqDecision ChannelRole.
Proof. solve_decision. Defined.

(** [Iteration] is a uint32. *)
Record SenderKey := { sk_ChainKey : string; sk_SignatureKey : string; sk_Iteration : Z }.

Record ChannelMember := {
  m_DID : string;
  m_JoinedAt : Z;
  m_Role : ChannelRole;
  m_SenderKey : option SenderKey;
}.

Record Channel := {
  ch_ID : uuid;
  ch_Name : string;
  ch_Type : ChannelType;
  ch_OwnerDID : string;
  ch_Description : string;
  ch_Members : list ChannelMember;
  ch_CreatedAt : Z;
  ch_UpdatedAt : Z;
  ch_Metadata : list (string * any);
}.

Definition NewChannel (id : uuid) (now : Z) (name : string) (ty : ChannelType) (ownerDID : string)
  : Channel := {|
  ch_ID := id; ch_Name := name; ch_Type := ty; ch_OwnerDID := ownerDID; ch_Description := "";
  ch_Members := [{| m_DID := ownerDID; m_JoinedAt := now; m_Role := RoleOwner;
                    m_SenderKey := None |}];
  ch_CreatedAt := now; ch_UpdatedAt := now; ch_Metadata := [];
|}.

Definition with_members (c : Channel) (now : Z) (ms : list ChannelMember) : Channel := {|
  ch_ID := ch_ID c; ch_Name := ch_Name c; ch_Type := ch_Type c; ch_OwnerDID := ch_OwnerDID c;
  ch_Description := ch_Description c; ch_Members := ms; ch_CreatedAt := ch_CreatedAt c;
  ch_UpdatedAt := now; ch_Metadata := ch_Metadata c;
|}.

Definition with_description (c : Channel) (d : string) : Channel := {|
  ch_ID := ch_ID c; ch_Name := ch_Name c; ch_Type := ch_Type c; ch_OwnerDID := ch_OwnerDID c;
  ch_Description := d; ch_Members := ch_Members c; ch_CreatedAt := ch_CreatedAt c;
  ch_UpdatedAt := ch_UpdatedAt c; ch_Metadata := ch_Metadata c;
|}.

(** ** Operations on one channel *)

Definition IsMember (c : Channel) (did : string) : bool :=
  existsb (λ m, String.eqb (m_DID m) did) (ch_Members c).

Definition IsOwner (c : Channel) (did : string) : bool := String.eqb (ch_OwnerDID c) did.

Definition IsAdmin (c : Channel) (did : string) : bool :=
  IsOwner c did ||
  existsb (λ m, String.eqb (m_DID m) did && bool_decide (m_Role m = RoleAdmin)) (ch_Members c).

Definition CanSend (c : Channel) (did : string) : bool :=
  if negb (IsMember c did) then false
  else if decide (ch_Type c = ChannelBroadcast) then IsOwner c did
  else true.

Definition AddMember (now : Z) (c : Channel) (did : string) (role : ChannelRole)
  : result ChannelError Channel :=
  if IsMember c did then Err ErrMemberAlreadyAdded
  else Ok (with_members c now
             (ch_Members c ++ [{| m_DID := did; m_JoinedAt := now; m_Role := role;
                                  m_SenderKey := None |}])).

(** Returns the channel and whether a member was removed. *)
Definition RemoveMember (now : Z) (c : Channel) (did : string) : Channel * bool :=
  match list_find (λ m, m_DID m = did) (ch_Members c) with
  | Some (i, _) => (with_members c now (slices_Delete i (ch_Members c)), true)
  | None => (c, false)
  end.

Definition GetMember (c : Channel) (did : string) : option ChannelMember :=
  snd <$> list_find (λ m, m_DID m = did) (ch_Members c).

Definition MemberDIDs (c : Channel) : list string := m_DID <$> ch_Members c.

Definition with_sender_key (m : ChannelMember) (key : option SenderKey) : ChannelMember :=
  {| m_DID := m_DID m; m_JoinedAt := m_JoinedAt m; m_Role := m_Role m; m_SenderKey := key |}.

Definition SetSenderKey (now : Z) (c : Channel) (did : string) (key : option SenderKey)
  : Channel * bool :=
  match list_find (λ m, m_DID m = did) (ch_Members c) with
  | Some (i, m) => (with_members c now (<[i := with_sender_key m key]> (ch_Members c)), true)
  | None => (c, false)
  end.

Definition GetSenderKey (c : Channel) (did : string) : option SenderKey :=
  GetMember c did ≫= m_SenderKey.

(** ** MemoryChannelStore

    The store copies channels on the way in and out, so values model it exactly. *)

Record MemoryChannelStore := {
  channels : gmap uuid Channel;
  byName : gmap string uuid;
}.

Definition NewMemoryChannelStore : MemoryChannelStore := {| channels := ∅; byName := ∅ |}.

Definition CreateChannel (s : MemoryChannelStore) (c : Channel)
  : MemoryChannelStore * option ChannelError :=
  match byName s !! ch_Name c with
  | Some _ => (s, Some ErrChannelExists)
  | None => ({| channels := <[ch_ID c := c]> (channels s);
                byName := <[ch_Name c := ch_ID c]> (byName s) |}, None)
  end.

Definition GetChannel (s : MemoryChannelStore) (id : uuid) : result ChannelError Channel :=
  match channels s !! id with Some c => Ok c | None => Err ErrChannelNotFound end.

Definition GetChannelByName (s : MemoryChannelStore) (name : string) : result ChannelError Channel :=
  match byName s !! name with Some id => GetChannel s id | None => Err ErrChannelNotFound end.

Definition UpdateChannel (s : MemoryChannelStore) (c : Channel)
  : MemoryChannelStore * option ChannelError :=
  match channels s !! ch_ID c with
  | None => (s, Some ErrChannelNotFound)
  | Some _ => ({| channels := <[ch_ID c := c]> (channels s); byName := byName s |}, None)
  end.

Definition DeleteChannel (s : MemoryChannelStore) (id : uuid)
  : MemoryChannelStore * option ChannelError :=
  match channels s !! id with
  | None => (s, Some ErrChannelNotFound)
  | Some c => ({| channels := delete id (channels s);
                  byName := delete (ch_Name c) (byName s) |}, None)
  end.

Definition ListAllChannels (s : MemoryChannelStore) : list Channel := (map_to_list (channels s)).*2.

Definition ListChannels (s : MemoryChannelStore) (memberDID : string) : list Channel :=
  filter (λ c, IsMember c memberDID = true) (ListAllChannels s).

(** ** Membership *)

Lemma IsMember_spec c did : IsMember c did = true ↔ did ∈ MemberDIDs c.
Proof.
  unfold IsMember, MemberDIDs. rewrite existsb_exists, list_elem_of_fmap.
  setoid_rewrite <- list_elem_of_In. setoid_rewrite String.eqb_eq.
  split; intros (m & H1 & H2); exists m; auto.
Qed.

(** Every DID is a member at most once and the owner is one. *)
Record channel_ok (c : Channel) : Prop := {
  members_NoDup : NoDup (MemberDIDs c);
  owner_member : ch_OwnerDID c ∈ MemberDIDs c;
}.

Lemma channel_ok_new id now name ty owner : channel_ok (NewChannel id now name ty owner).
Proof. split; unfold MemberDIDs; simpl; [apply NoDup_singleton | left]. Qed.

Lemma channel_ok_add now c did role c' :
  channel_ok c → AddMember now c did role = Ok c' → channel_ok c'.
Proof.
  intros [Hnd Ho] HA. unfold AddMember in HA. destruct (IsMember c did) eqn:E; [done |].
  injection HA as <-. split; unfold MemberDIDs; simpl; rewrite fmap_app; simpl.
  - apply NoDup_app. split_and!; [done | | apply NoDup_singleton].
    intros x Hx Hx'%list_elem_of_singleton. subst.
    apply IsMember_spec in Hx. simpl in Hx. congruence.
  - apply elem_of_app. by left.
Qed.

Lemma RemoveMember_dids now c did :
  channel_ok c →
  MemberDIDs (RemoveMember now c did).1 = filter (λ d, d ≠ did) (MemberDIDs c) ∧
  (RemoveMember now c did).2 = IsMember c did.
Proof.
  intros [Hnd _]. unfold RemoveMember.
  destruct (list_find _ _) as [[i m]|] eqn:E.
  - apply list_find_Some in E as (Hi & <- & _). simpl.
    assert (Hin : m_DID m ∈ MemberDIDs c).
    { apply list_elem_of_fmap_2. by eapply list_elem_of_lookup_2. }
    split; [|symmetry; by apply IsMember_spec].
    pose proof (take_drop_middle _ _ _ Hi) as Hsplit. unfold slices_Delete.
    revert Hsplit. generalize (take i (ch_Members c)), (drop (S i) (ch_Members c)).
    intros l1 l2 Hsplit. unfold MemberDIDs in *. simpl. rewrite <- Hsplit in *.
    rewrite !fmap_app in *. simpl in *. rewrite filter_app, filter_cons, decide_False by tauto.
    apply NoDup_app in Hnd as (_ & Hd1 & Hd2). apply NoDup_cons in Hd2 as [Hd2 _].
    rewrite !filter_all; [done | |]; apply Forall_forall; intros x Hx ->; [done |].
    apply (Hd1 _ Hx). left.
  - apply list_find_None in E. simpl. split.
    + symmetry. apply filter_all. unfold MemberDIDs. by apply Forall_fmap.
    + destruct (IsMember c did) eqn:E2; [|done]. apply IsMember_spec in E2.
      unfold MemberDIDs in E2. apply list_elem_of_fmap in E2 as (m & -> & Hm).
      rewrite Forall_forall in E. by destruct (E m Hm).
Qed.

Lemma channel_ok_remove now c did :
  channel_ok c → did ≠ ch_OwnerDID c → channel_ok (RemoveMember now c did).1.
Proof.
  intros Hok Hne. destruct (RemoveMember_dids now c did Hok) as [Hd _].
  assert (Ho : ch_OwnerDID (RemoveMember now c did).1 = ch_OwnerDID c).
  { unfold RemoveMember. by destruct (list_find _ _) as [[]|]. }
  destruct Hok as [Hnd Hm]. split.
  - rewrite Hd. by apply NoDup_filter.
  - rewrite Hd, Ho. by apply list_elem_of_filter.
Qed.

Lemma SetSenderKey_dids now c did key : MemberDIDs (SetSenderKey now c did key).1 = MemberDIDs c.
Proof.
  unfold SetSenderKey. destruct (list_find _ _) as [[i m]|] eqn:E; [|done].
  apply list_find_Some in E as (Hi & _). unfold MemberDIDs. simpl.
  rewrite list_fmap_insert. simpl. apply list_insert_id. by rewrite list_lookup_fmap, Hi.
Qed.

Lemma channel_ok_sender_key now c did key :
  channel_ok c → channel_ok (SetSenderKey now c did key).1.
Proof.
  intros [Hnd Ho].
  assert (Hod : ch_OwnerDID (SetSenderKey now c did key).1 = ch_OwnerDID c).
  { unfold SetSenderKey. by destruct (list_find _ _) as [[]|]. }
  split; rewrite SetSenderKey_dids; [done | by rewrite Hod].
Qed.

Lemma channel_ok_description c d : channel_ok c → channel_ok (with_description c d).
Proof. by intros [H1 H2]; split. Qed.

#[export] Hint Resolve channel_ok_new channel_ok_add channel_ok_remove channel_ok_sender_key
  channel_ok_description : go.

(** ** The name index *)

Record store_ok (s : MemoryChannelStore) : Prop := {
  name_sound name id : byName s !! name = Some id →
    ∃ c, channels s !! id = Some c ∧ ch_Name c = name;
  name_complete id c : channels s !! id = Some c →
    ch_ID c = id ∧ byName s !! ch_Name c = Some id;
  members_ok id c : channels s !! id = Some c → channel_ok c;
}.

Lemma store_ok_new : store_ok NewMemoryChannelStore.
Proof. split; simpl; intros ? ?; by rewrite lookup_empty. Qed.

Lemma store_ok_create s c :
  store_ok s → channel_ok c → channels s !! ch_ID c = None → store_ok (CreateChannel s c).1.
Proof.
  intros [Hs Hc Hm] Hok Hfresh. unfold CreateChannel.
  destruct (byName s !! ch_Name c) eqn:En; [done |]. split; simpl.
  - intros name id. rewrite lookup_insert. case_decide as Hn.
    + intros [= <-]. exists c. by rewrite lookup_insert_eq.
    + intros Hl. destruct (Hs name id Hl) as (c' & Hc' & <-). exists c'.
      rewrite lookup_insert_ne; [done |]. congruence.
  - intros id c'. rewrite lookup_insert. case_decide as Hi.
    + intros [= <-]. subst. by rewrite lookup_insert_eq.
    + intros Hl. destruct (Hc id c' Hl) as [Hi' Hn']. split; [done |].
      rewrite lookup_insert_ne; [done |]. congruence.
  - intros id c'. rewrite lookup_insert. case_decide; [by intros [= <-] | apply Hm].
Qed.

Lemma store_ok_update s c c0 :
  store_ok s → channel_ok c → channels s !! ch_ID c = Some c0 → ch_Name c = ch_Name c0 →
  store_ok (UpdateChannel s c).1.
Proof.
  intros [Hs Hc Hm] Hok Hc0 Hname. unfold UpdateChannel. rewrite Hc0. split; simpl.
  - intros name id Hl. destruct (Hs name id Hl) as (c' & Hc' & <-).
    destruct (decide (ch_ID c = id)) as [<-|Hi].
    + exists c. rewrite lookup_insert_eq. split; [done |]. congruence.
    + exists c'. by rewrite lookup_insert_ne.
  - intros id c'. rewrite lookup_insert. case_decide as Hi; [|apply Hc].
    intros [= <-]. subst. split; [done |]. rewrite Hname. by apply (Hc _ c0).
  - intros id c'. rewrite lookup_insert. case_decide; [by intros [= <-] | apply Hm].
Qed.

Lemma store_ok_delete s id : store_ok s → store_ok (DeleteChannel s id).1.
Proof.
  intros [Hs Hc Hm]. unfold DeleteChannel. destruct (channels s !! id) as [c|] eqn:Ec; [|done].
  destruct (Hc id c Ec) as [Hid Hn]. split; simpl.
  - intros name id' [Hne Hl]%lookup_delete_Some. destruct (Hs name id' Hl) as (c' & Hc' & <-).
    exists c'. split; [|done]. apply lookup_delete_Some. split; [|done]. congruence.
  - intros id' c' [Hne Hl]%lookup_delete_Some. destruct (Hc id' c' Hl) as [Hi' Hn'].
    split; [done |]. apply lookup_delete_Some. split; [|done]. congruence.
  - intros id' c' [_ Hl]%lookup_delete_Some. by apply (Hm id').
Qed.

#[export] Hint Resolve store_ok_new store_ok_create store_ok_update store_ok_delete : go.

(** The stores the relay's handlers build: fresh IDs, no renaming. *)
Inductive channel_run : MemoryChannelStore → Prop :=
| chan_new : channel_run NewMemoryChannelStore
| chan_create s c : channel_run s → channel_ok c → channels s !! ch_ID c = None →
    channel_run (CreateChannel s c).1
| chan_update s c c0 : channel_run s → channel_ok c → channels s !! ch_ID c = Some c0 →
    ch_Name c = ch_Name c0 → channel_run (UpdateChannel s c).1
| chan_delete s id : channel_run s → channel_run (DeleteChannel s id).1.

Lemma channel_run_ok s : channel_run s → store_ok s.
Proof. induction 1; eauto with go. Qed.

Lemma ListAllChannels_spec s c : c ∈ ListAllChannels s ↔ ∃ id, channels s !! id = Some c.
Proof.
  unfold ListAllChannels. rewrite list_elem_of_fmap. split.
  - intros [[id c'] [-> Hin]]. exists id. by rewrite <- elem_of_map_to_list.
  - intros [id Hid]. exists (id, c). by rewrite elem_of_map_to_list.
Qed.

(** Channel store: names identify channels.  After any sequence of creations with
    fresh IDs, updates that keep the name and deletions, a lookup by name returns
    exactly the stored channel of that name, no two channels share a name, and every
    stored channel has distinct members that include its owner. *)
Theorem channel_store_by_name s name :
  channel_run s →
  (∀ c, GetChannelByName s name = Ok c ↔ c ∈ ListAllChannels s ∧ ch_Name c = name) ∧
  (∀ c1 c2, c1 ∈ ListAllChannels s → c2 ∈ ListAllChannels s →
     ch_Name c1 = ch_Name c2 → c1 = c2) ∧
  (∀ c, c ∈ ListAllChannels s → NoDup (MemberDIDs c) ∧ ch_OwnerDID c ∈ MemberDIDs c).
Proof.
  intros [Hs Hc Hm]%channel_run_ok. split_and!.
  - intros c. rewrite ListAllChannels_spec. unfold GetChannelByName, GetChannel. split.
    + destruct (byName s !! name) as [id|] eqn:En; [|done].
      destruct (Hs name id En) as (c' & Hc' & Hn). rewrite Hc'. intros [= <-]. eauto.
    + intros [[id Hid] <-]. destruct (Hc id c Hid) as [_ ->]. by rewrite Hid.
  - intros c1 c2 [i1 H1]%ListAllChannels_spec [i2 H2]%ListAllChannels_spec Hn.
    destruct (Hc i1 c1 H1) as [_ Hn1], (Hc i2 c2 H2) as [_ Hn2]. congruence.
  - intros c [id Hid]%ListAllChannels_spec. by destruct (Hm id c Hid).
Qed.

Definition demo_channel : Channel :=
  NewChannel (uuid_lit 7) 5 "channel:d:news" ChannelBroadcast "did:wba:alice".

Lemma demo_channel_run : channel_run (CreateChannel NewMemoryChannelStore demo_channel).1.
Proof. apply chan_create; [apply chan_new | apply channel_ok_new | apply lookup_empty]. Qed.

Lemma channel_store_by_name_witness :
  demo_channel ∈ ListAllChannels (CreateChannel NewMemoryChannelStore demo_channel).1 ∧
  ch_Name demo_channel = "channel:d:news".
Proof.
  apply (channel_store_by_name (CreateChannel NewMemoryChannelStore demo_channel).1
    "channel:d:news"); [apply demo_channel_run | reflexivity].
Defined.

(** Who may send: on group and topic channels exactly the members, on broadcast
    channels exactly the owner (when the owner is a member, as in every stored
    channel); joining gives a new member the right on the former and never on the
    latter, and leaving takes it away. *)
Theorem can_send_spec now c did role c' :
  channel_ok c →
  (CanSend c did = true ↔
   if decide (ch_Type c = ChannelBroadcast) then did = ch_OwnerDID c else did ∈ MemberDIDs c) ∧
  (AddMember now c did role = Ok c' →
   CanSend c' did = negb (bool_decide (ch_Type c = ChannelBroadcast))) ∧
  CanSend (RemoveMember now c did).1 did = false.
Proof.
  intros Hok. split_and!.
  - unfold CanSend. destruct (IsMember c did) eqn:E; simpl.
    + apply IsMember_spec in E. case_decide; [|tauto]. unfold IsOwner.
      rewrite String.eqb_eq. split; congruence.
    + assert (did ∉ MemberDIDs c) as Hn by (rewrite <- IsMember_spec; congruence).
      split; [done |]. case_decide; [|done]. intros ->. by destruct Hn; apply owner_member.
  - unfold AddMember. destruct (IsMember c did) eqn:E; [done |]. intros [= <-].
    assert (did ∉ MemberDIDs c) as Hn by (rewrite <- IsMember_spec; congruence).
    unfold CanSend. rewrite (proj2 (IsMember_spec _ did)); simpl.
    + unfold IsOwner. simpl. case_decide as Ht; rewrite bool_decide_decide;
        [rewrite decide_True by done | by rewrite decide_False by done].
      destruct (String.eqb_spec (ch_OwnerDID c) did) as [<-|]; [|done].
      by destruct Hn; apply owner_member.
    + unfold MemberDIDs. simpl. rewrite fmap_app. apply elem_of_app. right. left.
  - unfold CanSend. destruct (IsMember (RemoveMember now c did).1 did) eqn:E; [|done].
    apply IsMember_spec in E. destruct (RemoveMember_dids now c did Hok) as [Hd _].
    rewrite Hd in E. by apply list_elem_of_filter in E as [? _].
Qed.

Lemma can_send_spec_witness :
  CanSend demo_channel "did:wba:alice" = true ∧ CanSend demo_channel "did:wba:bob" = false.
Proof.
  split.
  - apply (can_send_spec 6 demo_channel "did:wba:alice" RoleMember demo_channel
      (channel_ok_new _ _ _ _ _)). reflexivity.
  - apply (can_send_spec 6 demo_channel "did:wba:bob" RoleMember demo_channel
      (channel_ok_new _ _ _ _ _)).
Defined.
