(* ===== verification/Messaging.v ===== *)
(** * Message envelopes (src/pkg/messaging/message.go)

    The [Message] record, its constructors, predicates and validation.  A nil byte
    slice or pointer is [None].  The fresh UUID v7 and [time.Now()] are arguments, and
    so is [Marshal], the JSON encoder ([None] is its error). *)

From S2P Require Import Prelude.

Definition MaxEmojiLength : nat := 32.
Definition MaxStatusTextLength : nat := 256.
Definition MaxMethodLength : nat := 128.
Definition MaxDIDLength : nat := 256.

Inductive ValidationError :=
| ErrEmojiTooLong | ErrStatusTextTooLong | ErrMethodTooLong | ErrDIDTooLong | ErrInvalidReaction.

#[export] Instance ValidationError_eq_dec : EqDecision ValidationError.
Proof. solve_decision. Defined.

(** [type MessageType string] *)
Abbreviation MessageType := string.
Definition TypeRequest : MessageType := "request".
Definition TypeResponse : MessageType := "response".
Definition TypeNotification : MessageType := "notification".
Definition TypeStream : MessageType := "stream".
Definition TypeError : MessageType := "error".
Definition TypeChat : MessageType := "chat".
Definition TypeTyping : MessageType := "typing".
Definition TypeReceipt : MessageType := "receipt".
Definition TypePresence : MessageType := "presence".
Definition TypeReaction : MessageType := "reaction".

Record Message := {
  ID : uuid;
  CorrelationID : option uuid;
  From : string;
  To : string;
  Type_ : MessageType;
  Method : string;
  Body : option string;
  Signature : option string;
  Timestamp : Z;
  TraceID : string;
  Encrypted : bool;
  ThreadID : option uuid;
  ParentID : option uuid;
  ThreadSeqNo : Z;
  RequestAck : bool;
  ActorDID : string;
  ActorProof : option string;
}.

Definition NewMessage (id : uuid) (now : Z) (from to : string) (ty : MessageType) (method : string)
  : Message := {|
  ID := id; CorrelationID := None; From := from; To := to; Type_ := ty; Method := method;
  Body := None; Signature := None; Timestamp := now; TraceID := ""; Encrypted := false;
  ThreadID := None; ParentID := None; ThreadSeqNo := 0; RequestAck := false;
  ActorDID := ""; ActorProof := None;
|}.

(** The fields that the constructors and the [With...] methods set. *)
Definition set_links (m : Message) (corr thread parent : option uuid) (seqNo : Z) : Message := {|
  ID := ID m; CorrelationID := corr; From := From m; To := To m; Type_ := Type_ m;
  Method := Method m; Body := Body m; Signature := Signature m; Timestamp := Timestamp m;
  TraceID := TraceID m; Encrypted := Encrypted m; ThreadID := thread; ParentID := parent;
  ThreadSeqNo := seqNo; RequestAck := RequestAck m; ActorDID := ActorDID m;
  ActorProof := ActorProof m;
|}.

Definition set_content (m : Message) (body : option string) (trace : string) (ack : bool)
  : Message := {|
  ID := ID m; CorrelationID := CorrelationID m; From := From m; To := To m; Type_ := Type_ m;
  Method := Method m; Body := body; Signature := Signature m; Timestamp := Timestamp m;
  TraceID := trace; Encrypted := Encrypted m; ThreadID := ThreadID m; ParentID := ParentID m;
  ThreadSeqNo := ThreadSeqNo m; RequestAck := ack; ActorDID := ActorDID m;
  ActorProof := ActorProof m;
|}.

Definition with_body (m : Message) (body : option string) : Message :=
  set_content m body (TraceID m) (RequestAck m).

Section constructors.
Context (Marshal : any → option string).

(** [if body != nil { data, err := json.Marshal(body); ...; msg.Body = data }] *)
Definition attach_body (m : Message) (body : option any) : option Message :=
  match body with
  | None => Some m
  | Some v => data ← Marshal v; Some (with_body m (Some data))
  end.

Definition SetBody (m : Message) (body : any) : option Message :=
  data ← Marshal body; Some (with_body m (Some data)).

Definition NewRequest (id : uuid) (now : Z) (from to method : string) (body : option any)
  : option Message := attach_body (NewMessage id now from to TypeRequest method) body.

Definition NewNotification (id : uuid) (now : Z) (from to method : string) (body : option any)
  : option Message := attach_body (NewMessage id now from to TypeNotification method) body.

(** The skeleton of a reply: addresses swapped, correlated with the request. *)
Definition reply_to (id : uuid) (now : Z) (req : Message) (ty : MessageType) : Message :=
  set_links (NewMessage id now (To req) (From req) ty (Method req)) (Some (ID req)) None None 0.

Definition NewResponse (id : uuid) (now : Z) (req : Message) (body : option any) : option Message :=
  attach_body (reply_to id now req TypeResponse) body.

Definition ErrorBody (errCode : Z) (errMsg : string) : any :=
  JObject [("code", JNumber errCode); ("message", JString errMsg)].

Definition NewErrorResponse (id : uuid) (now : Z) (req : Message) (errCode : Z) (errMsg : string)
  : option Message :=
  data ← Marshal (ErrorBody errCode errMsg);
  Some (with_body (reply_to id now req TypeError) (Some data)).

(** The first message of a thread: the thread is named by the message's own ID. *)
Definition NewChatMessage (id : uuid) (now : Z) (from to : string) (body : option any)
  : option Message :=
  attach_body (set_links (NewMessage id now from to TypeChat "chat") None (Some id) None 1) body.

Definition NewChatReply (id : uuid) (now : Z) (from to : string) (threadID : uuid)
    (parentID : option uuid) (seqNo : Z) (body : option any) : option Message :=
  attach_body
    (set_links (NewMessage id now from to TypeChat "chat") None (Some threadID) parentID seqNo) body.

(** [data, _ := json.Marshal(body); msg.Body = data]: on an error the body is nil. *)
Definition NewTypingIndicator (id : uuid) (now : Z) (from to : string) (threadID : option uuid)
    (typing : bool) : Message :=
  with_body (set_links (NewMessage id now from to TypeTyping "typing") None threadID None 0)
    (Marshal (JObject [("typing", JBool typing)])).

Definition NewReceipt (id : uuid) (now : Z) (from to : string) (messageID receiptType stamp : string)
  : Message :=
  with_body (NewMessage id now from to TypeReceipt "receipt")
    (Marshal (JObject [("message_id", JString messageID); ("receipt_type", JString receiptType);
                       ("timestamp", JString stamp)])).

Definition NewReaction (id : uuid) (now : Z) (from to : string) (messageID emoji : string)
  : Message :=
  with_body (NewMessage id now from to TypeReaction "reaction")
    (Marshal (JObject [("message_id", JString messageID); ("emoji", JString emoji)])).

(** [status_text] is omitted when empty. *)
Definition NewPresenceMessage (id : uuid) (now : Z) (from to : string) (status statusText : string)
  : Message :=
  with_body (NewMessage id now from to TypePresence "")
    (Marshal (JObject (("status", JString status) ::
       (if String.eqb statusText "" then [] else [("status_text", JString statusText)])))).

End constructors.

Definition IsRequest (m : Message) : bool := String.eqb (Type_ m) TypeRequest.
Definition IsResponse (m : Message) : bool := String.eqb (Type_ m) TypeResponse.
Definition IsError (m : Message) : bool := String.eqb (Type_ m) TypeError.
Definition IsChat (m : Message) : bool := String.eqb (Type_ m) TypeChat.
Definition IsTyping (m : Message) : bool := String.eqb (Type_ m) TypeTyping.
Definition IsReceipt (m : Message) : bool := String.eqb (Type_ m) TypeReceipt.
Definition IsPresence (m : Message) : bool := String.eqb (Type_ m) TypePresence.
Definition IsReaction (m : Message) : bool := String.eqb (Type_ m) TypeReaction.

Definition InThread (m : Message) : bool := bool_decide (is_Some (ThreadID m)).
Definition IsThreadStart (m : Message) : bool := bool_decide (ThreadID m = Some (ID m)).

Definition WithTraceID (m : Message) (traceID : string) : Message :=
  set_content m (Body m) traceID (RequestAck m).
Definition WithRequestAck (m : Message) : Message := set_content m (Body m) (TraceID m) true.
Definition WithThread (m : Message) (threadID : uuid) (seqNo : Z) : Message :=
  set_links m (CorrelationID m) (Some threadID) (ParentID m) seqNo.
Definition WithParent (m : Message) (parentID : uuid) : Message :=
  set_links m (CorrelationID m) (ThreadID m) (Some parentID) (ThreadSeqNo m).

(** Validation; [None] is a nil error.  [len] counts bytes. *)
Definition Validate (m : Message) : option ValidationError :=
  if bool_decide (MaxDIDLength < String.length (From m)) then Some ErrDIDTooLong
  else if bool_decide (MaxDIDLength < String.length (To m)) then Some ErrDIDTooLong
  else if bool_decide (MaxMethodLength < String.length (Method m)) then Some ErrMethodTooLong
  else None.

Definition Reaction_Validate (emoji : string) : option ValidationError :=
  if String.eqb emoji "" then Some ErrInvalidReaction
  else if bool_decide (MaxEmojiLength < String.length emoji) then Some ErrEmojiTooLong
  else None.

Definition PresenceUpdate_Validate (statusText : string) : option ValidationError :=
  if bool_decide (MaxStatusTextLength < String.length statusText) then Some ErrStatusTextTooLong
  else None.

(** ** Properties *)

Lemma Validate_None m :
  Validate m = None ↔ String.length (From m) ≤ MaxDIDLength ∧
    String.length (To m) ≤ MaxDIDLength ∧ String.length (Method m) ≤ MaxMethodLength.
Proof. unfold Validate. repeat case_bool_decide; split; try done; lia. Qed.

Lemma attach_body_frame Marshal m body m' :
  attach_body Marshal m body = Some m' →
  ∃ b, m' = with_body m b ∧ (body = None → b = Body m) ∧
       (∀ v, body = Some v → ∃ data, Marshal v = Some data ∧ b = Some data).
Proof.
  unfold attach_body. destruct body as [v|].
  - destruct (Marshal v) as [data|] eqn:E; simpl; [|done]. intros [= <-]. exists (Some data).
    split_and!; [done.. |]. intros v' [= <-]. eauto.
  - intros [= <-]. exists (Body m). split_and!; [by destruct m | done | done].
Qed.

(** Replies: a response or error response to a request goes from the request's
    recipient back to its sender, carries the request's ID as correlation ID and its
    method, has its own ID, and is valid whenever the request is; its body is the
    encoding of the value it was given. *)
Theorem reply_correlates Marshal id now req body code text m e :
  NewResponse Marshal id now req body = Some m →
  NewErrorResponse Marshal id now req code text = Some e →
  (∀ r, r = m ∨ r = e →
     From r = To req ∧ To r = From req ∧ CorrelationID r = Some (ID req) ∧ ID r = id ∧
     Method r = Method req ∧ (Validate req = None → Validate r = None)) ∧
  IsResponse m = true ∧ IsError e = true ∧ IsError m = false ∧
  (∀ v, body = Some v → Body m = Marshal v) ∧ Body e = Marshal (ErrorBody code text).
Proof.
  intros Hm He. unfold NewErrorResponse in He.
  destruct (Marshal (ErrorBody code text)) as [d|] eqn:Ed; simpl in He; [|done].
  injection He as <-. destruct (attach_body_frame _ _ _ _ Hm) as (b & -> & _ & Hb).
  split_and!; try done.
  - intros r [-> | ->]; split_and!; try done; rewrite !Validate_None; simpl; lia.
  - intros v Hv. destruct (Hb v Hv) as (data & -> & ->). done.
Qed.

Definition demo_Marshal (v : any) : option string :=
  match v with JNull => Some "null" | JObject _ => Some "{}" | _ => None end.

Definition demo_request : Message :=
  NewMessage (uuid_lit 1) 10 "did:wba:a" "did:wba:b" TypeRequest "ping".

Definition demo_response : Message :=
  default demo_request (NewResponse demo_Marshal (uuid_lit 2) 11 demo_request (Some JNull)).
Definition demo_error : Message :=
  default demo_request (NewErrorResponse demo_Marshal (uuid_lit 2) 11 demo_request (-32603) "boom").

Lemma reply_correlates_witness :
  To demo_response = From demo_request ∧ CorrelationID demo_error = Some (ID demo_request).
Proof.
  destruct (reply_correlates demo_Marshal (uuid_lit 2) 11 demo_request (Some JNull) (-32603) "boom"
    demo_response demo_error eq_refl eq_refl) as [H _].
  split; [apply (H demo_response); by left | apply (H demo_error); by right].
Defined.

(** Threads: a new chat message starts a thread (its thread ID is its own ID, at
    sequence number 1) and a reply created with that thread ID, or any message put in
    the thread by WithThread, belongs to it without starting one. *)
Theorem chat_threading Marshal id now from to body m id' body' parent seqNo r other :
  NewChatMessage Marshal id now from to body = Some m →
  id' ≠ id → NewChatReply Marshal id' now to from (ID m) parent seqNo body' = Some r →
  ID other ≠ id →
  IsThreadStart m = true ∧ InThread m = true ∧ ThreadSeqNo m = 1%Z ∧
  InThread r = true ∧ ThreadID r = ThreadID m ∧ IsThreadStart r = false ∧
  ParentID r = parent ∧ ThreadSeqNo r = seqNo ∧
  ThreadID (WithThread other (ID m) seqNo) = ThreadID m ∧
  IsThreadStart (WithThread other (ID m) seqNo) = false.
Proof.
  intros Hm Hne Hr Ho. destruct (attach_body_frame _ _ _ _ Hm) as (b & -> & _).
  destruct (attach_body_frame _ _ _ _ Hr) as (b' & -> & _).
  unfold IsThreadStart, InThread. simpl.
  split_and!; try done; try (by apply bool_decide_eq_true_2).
  - apply bool_decide_eq_false_2. congruence.
  - apply bool_decide_eq_false_2. congruence.
Qed.

Definition demo_chat : Message :=
  default demo_request (NewChatMessage demo_Marshal (uuid_lit 1) 10 "did:wba:a" "did:wba:b" None).
Definition demo_chat_reply : Message :=
  default demo_request
    (NewChatReply demo_Marshal (uuid_lit 2) 11 "did:wba:b" "did:wba:a" (ID demo_chat) None 2 None).

Lemma chat_threading_witness : IsThreadStart demo_chat = true ∧ IsThreadStart demo_chat_reply = false.
Proof.
  pose proof (chat_threading demo_Marshal (uuid_lit 1) 11 "did:wba:a" "did:wba:b" None
    (default demo_request
       (NewChatMessage demo_Marshal (uuid_lit 1) 11 "did:wba:a" "did:wba:b" None))
    (uuid_lit 2) None None 2 demo_chat_reply
    (NewMessage (uuid_lit 3) 10 "did:wba:a" "did:wba:b" TypeChat "chat")
    eq_refl ltac:(done) eq_refl ltac:(done)) as H.
  split; apply H.
Defined.
