(* ===== verification/Reliability.v ===== *)
(** * Retry, circuit breaker and rate limiter (src/pkg/messaging/reliability.go)

    Durations and instants are nanoseconds in [Z].  [float64] quantities (the backoff
    factor, the token bucket) are exact rationals.  A function argument is modelled by
    its outcomes: [fn k] is what the (k+1)-st call returns. *)

From S2P Require Import Prelude.
From Stdlib Require Import QArith Lqa.
#[local] Open Scope Z_scope.

(** ** Retry *)

Section retry.
Context {E : Type}.

Record RetryPolicy := {
  MaxRetries : Z;
  InitialBackoff : Z;
  MaxBackoff : Z;
  BackoffFactor : Q;
  RetryableError : E → bool;
}.

Inductive RetryResult :=
| RetryNil
| RetryCtxErr
| RetryErr (e : E)
| RetryMaxExceeded (last : option E).

(** [time.Duration(float64(backoff) * factor)] truncates toward zero, then the cap. *)
Definition next_backoff (p : RetryPolicy) (backoff : Z) : Z :=
  let b := Z.quot (backoff * Qnum (BackoffFactor p)) (Zpos (Qden (BackoffFactor p))) in
  if MaxBackoff p <? b then MaxBackoff p else b.

Context (p : RetryPolicy).
(** the outcome of the k-th call, and whether the context is done before it or
    during the wait after it *)
Context (fn : nat → option E) (done_before done_wait : nat → bool).

(** [n] iterations of the loop are left; returns the result and the waits made. *)
Fixpoint retry_loop (n attempt : nat) (backoff : Z) (lastErr : option E) : RetryResult * list Z :=
  match n with
  | O => (RetryMaxExceeded lastErr, [])
  | S n' =>
      if done_before attempt then (RetryCtxErr, [])
      else match fn attempt with
           | None => (RetryNil, [])
           | Some e =>
               if negb (RetryableError p e) then (RetryErr e, [])
               else if bool_decide (Z.of_nat attempt < MaxRetries p) then
                 if done_wait attempt then (RetryCtxErr, [])
                 else let '(r, ws) := retry_loop n' (S attempt) (next_backoff p backoff) (Some e) in
                      (r, backoff :: ws)
               else retry_loop n' (S attempt) backoff (Some e)
           end
  end.

(** The loop runs while [attempt <= MaxRetries]. *)
Definition Retry : RetryResult * list Z :=
  retry_loop (Z.to_nat (MaxRetries p + 1)) 0 (InitialBackoff p) None.

(** The call [k] fails with an error worth retrying. *)
Definition retryable_at (k : nat) : Prop := ∃ e, fn k = Some e ∧ RetryableError p e = true.

(** What a run that starts at [attempt] with [n] iterations left amounts to when the
    context is never cancelled. *)
Lemma retry_loop_spec n attempt backoff last :
  (∀ k, done_before k = false) → (∀ k, done_wait k = false) →
  match (retry_loop n attempt backoff last).1 with
  | RetryNil => ∃ k, (attempt ≤ k < attempt + n)%nat ∧ fn k = None ∧
                     ∀ j, (attempt ≤ j < k)%nat → retryable_at j
  | RetryErr e => ∃ k, (attempt ≤ k < attempt + n)%nat ∧ fn k = Some e ∧ RetryableError p e = false ∧
                       ∀ j, (attempt ≤ j < k)%nat → retryable_at j
  | RetryMaxExceeded l => (∀ j, (attempt ≤ j < attempt + n)%nat → retryable_at j) ∧
                          l = if decide (n = 0)%nat then last else fn (attempt + n - 1)%nat
  | RetryCtxErr => False
  end.
Proof.
  intros Hb Hw. revert attempt backoff last. induction n as [|n IH]; intros attempt backoff last; simpl.
  { split; [lia | done]. }
  rewrite Hb. destruct (fn attempt) as [e|] eqn:Ef; simpl.
  2:{ exists attempt. split_and!; [lia | lia | done | lia]. }
  destruct (RetryableError p e) eqn:Er; simpl.
  2:{ exists attempt. split_and!; [lia | lia | done | done | lia]. }
  assert (Ha : retryable_at attempt) by by exists e.
  assert (Hcons : ∀ k, (∀ j, (S attempt ≤ j < k)%nat → retryable_at j) →
    ∀ j, (attempt ≤ j < k)%nat → retryable_at j).
  { intros k Hk j Hj. destruct (decide (j = attempt)) as [->|]; [done |]. apply Hk. lia. }
  enough (∀ bk, match (retry_loop n (S attempt) bk (Some e)).1 with
  | RetryNil => ∃ k, (attempt ≤ k < attempt + S n)%nat ∧ fn k = None ∧
                     ∀ j, (attempt ≤ j < k)%nat → retryable_at j
  | RetryErr e => ∃ k, (attempt ≤ k < attempt + S n)%nat ∧ fn k = Some e ∧
                    RetryableError p e = false ∧ ∀ j, (attempt ≤ j < k)%nat → retryable_at j
  | RetryMaxExceeded l => (∀ j, (attempt ≤ j < attempt + S n)%nat → retryable_at j) ∧
                          l = fn (attempt + S n - 1)%nat
  | RetryCtxErr => False
  end) as Hrest.
  { case_bool_decide; [|apply Hrest]. rewrite Hw. specialize (Hrest (next_backoff p backoff)).
    destruct (retry_loop n (S attempt) (next_backoff p backoff) (Some e)). exact Hrest. }
  intros bk. specialize (IH (S attempt) bk (Some e)).
  destruct (retry_loop n (S attempt) bk (Some e)) as [[| |e'|l] ws]; simpl in *; [..|].
  - destruct IH as (k & Hk & Hf & Hj). exists k. split_and!; [lia | lia | done | by apply Hcons].
  - done.
  - destruct IH as (k & Hk & Hf & Hr & Hj). exists k.
    split_and!; [lia | lia | done | done | by apply Hcons].
  - destruct IH as [Hj ->]. split.
    + replace (attempt + S n)%nat with (S attempt + n)%nat by lia. by apply Hcons.
    + destruct n as [|n]; simpl; [|f_equal; lia]. by replace (attempt + 1 - 1)%nat with attempt by lia.
Qed.

(** Waits are bounded by the larger of the initial and the maximal backoff. *)
Lemma retry_loop_waits n attempt backoff last :
  backoff ≤ Z.max (InitialBackoff p) (MaxBackoff p) →
  Forall (λ w, w ≤ Z.max (InitialBackoff p) (MaxBackoff p)) (retry_loop n attempt backoff last).2 ∧
  (length (retry_loop n attempt backoff last).2 ≤ n)%nat ∧
  ((0 < n)%nat → MaxRetries p + 1 = Z.of_nat (attempt + n) →
   (length (retry_loop n attempt backoff last).2 < n)%nat).
Proof.
  revert attempt backoff last. induction n as [|n IH]; intros attempt backoff last Hb; simpl.
  { split_and!; [done | lia | lia]. }
  destruct (done_before attempt); [split_and!; [done | simpl; lia..] |].
  destruct (fn attempt) as [e|]; [|split_and!; [done | simpl; lia..]].
  destruct (RetryableError p e); simpl; [|split_and!; [done | simpl; lia..]].
  case_bool_decide as Hlt.
  - destruct (done_wait attempt); [split_and!; [done | simpl; lia..] |].
    assert (Hnb : next_backoff p backoff ≤ Z.max (InitialBackoff p) (MaxBackoff p)).
    { unfold next_backoff. destruct (_ <? _) eqn:Hcmp; [lia |]. apply Z.ltb_ge in Hcmp. lia. }
    destruct (IH (S attempt) (next_backoff p backoff) (Some e) Hnb) as (H1 & H2 & H3).
    destruct (retry_loop n (S attempt) (next_backoff p backoff) (Some e)) as [r ws]. simpl in *.
    split_and!; [by constructor | lia |]. intros _ Heq.
    assert (0 < n)%nat by (destruct n; lia). specialize (H3 ltac:(lia) ltac:(lia)). lia.
  - destruct (IH (S attempt) backoff (Some e) Hb) as (H1 & H2 & H3).
    split_and!; [done | lia | lia].
Qed.

End retry.
Arguments RetryPolicy : clear implicits.
Arguments RetryResult : clear implicits.

(** Retry outcome: with a context that is never cancelled, Retry returns nil
    exactly at the first success, a non-retryable error at the first call that yields
    one, and otherwise ErrMaxRetriesExceeded joined with the last error after exactly
    MaxRetries+1 failing calls; every wait is at most max(InitialBackoff, MaxBackoff)
    and there are at most MaxRetries of them. *)
Theorem retry_outcome {E} (p : RetryPolicy E) (fn : nat → option E) :
  0 ≤ MaxRetries p →
  let out := Retry p fn (λ _, false) (λ _, false) in
  match out.1 with
  | RetryNil => ∃ k, Z.of_nat k ≤ MaxRetries p ∧ fn k = None ∧
                     ∀ j, (j < k)%nat → retryable_at p fn j
  | RetryErr e => ∃ k, Z.of_nat k ≤ MaxRetries p ∧ fn k = Some e ∧ RetryableError p e = false ∧
                       ∀ j, (j < k)%nat → retryable_at p fn j
  | RetryMaxExceeded l => (∀ j, Z.of_nat j ≤ MaxRetries p → retryable_at p fn j) ∧
                          l = fn (Z.to_nat (MaxRetries p))
  | RetryCtxErr => False
  end ∧
  Forall (λ w, w ≤ Z.max (InitialBackoff p) (MaxBackoff p)) out.2 ∧
  Z.of_nat (length out.2) ≤ MaxRetries p.
Proof.
  intros Hpos out. subst out. unfold Retry.
  pose proof (retry_loop_spec p fn (λ _, false) (λ _, false) (Z.to_nat (MaxRetries p + 1)) 0
    (InitialBackoff p) None ltac:(done) ltac:(done)) as H.
  destruct (retry_loop_waits p fn (λ _, false) (λ _, false) (Z.to_nat (MaxRetries p + 1)) 0
    (InitialBackoff p) None ltac:(lia)) as (H1 & _ & H3).
  split_and!; [|done |].
  - destruct (retry_loop _ _ _ _ _ _ _ _) as [[| |e|l] ws]; simpl in *; [..|].
    + destruct H as (k & Hk & Hf & Hj). exists k. split_and!; [lia | done |].
      intros j Hj'. apply Hj. lia.
    + done.
    + destruct H as (k & Hk & Hf & Hr & Hj). exists k. split_and!; [lia | done | done |].
      intros j Hj'. apply Hj. lia.
    + destruct H as [Hj ->]. split; [intros j Hj'; apply Hj; lia |].
      rewrite decide_False by lia. f_equal. lia.
  - specialize (H3 ltac:(lia) ltac:(lia)). lia.
Qed.

Definition DefaultRetryPolicy {E} : RetryPolicy E := {|
  MaxRetries := 3; InitialBackoff := 100 * Millisecond; MaxBackoff := 5 * Second;
  BackoffFactor := 2; RetryableError := λ _, true;
|}.

Lemma retry_outcome_witness :
  Forall (λ w, w ≤ 5 * Second)
    (Retry DefaultRetryPolicy (λ k, if (k <? 2)%nat then Some tt else None)
       (λ _, false) (λ _, false)).2.
Proof.
  destruct (retry_outcome (E := unit) DefaultRetryPolicy
    (λ k, if (k <? 2)%nat then Some tt else None) ltac:(done)) as (_ & H & _).
  exact H.
Defined.

(** ** Circuit breaker *)

Inductive CircuitState := CircuitClosed | CircuitOpen | CircuitHalfOpen.

#[export] Instance CircuitState_eq_dec : EqDecision CircuitState.
Proof. solve_decision. Defined.

Record CircuitBreakerConfig := {
  cfg_Name : string;
  cfg_MaxFailures : Z;
  cfg_ResetTimeout : Z;
  cfg_HalfOpenMax : Z;
}.

Definition DefaultCircuitBreakerConfig (name : string) : CircuitBreakerConfig := {|
  cfg_Name := name; cfg_MaxFailures := 5; cfg_ResetTimeout := 30 * Second; cfg_HalfOpenMax := 3;
|}.

(** The zero [time.Time] of [lastFailure] is an argument of nothing the code does while
    closed; it is the instant 0 here. *)
Record CircuitBreaker := {
  cb_name : string;
  cb_maxFailures : Z;
  cb_resetTimeout : Z;
  cb_halfOpenMax : Z;
  cb_state : CircuitState;
  cb_failures : Z;
  cb_successes : Z;
  cb_lastFailure : Z;
}.

Definition NewCircuitBreaker (c : CircuitBreakerConfig) : CircuitBreaker := {|
  cb_name := cfg_Name c; cb_maxFailures := cfg_MaxFailures c;
  cb_resetTimeout := cfg_ResetTimeout c; cb_halfOpenMax := cfg_HalfOpenMax c;
  cb_state := CircuitClosed; cb_failures := 0; cb_successes := 0; cb_lastFailure := 0;
|}.

(** The fields a method assigns; the configuration never changes. *)
Definition cb_with (cb : CircuitBreaker) (st : CircuitState) (fails succs last : Z) : CircuitBreaker := {|
  cb_name := cb_name cb; cb_maxFailures := cb_maxFailures cb;
  cb_resetTimeout := cb_resetTimeout cb; cb_halfOpenMax := cb_halfOpenMax cb;
  cb_state := st; cb_failures := fails; cb_successes := succs; cb_lastFailure := last;
|}.

Definition allowRequest (now : Z) (cb : CircuitBreaker) : bool * CircuitBreaker :=
  match cb_state cb with
  | CircuitClosed | CircuitHalfOpen => (true, cb)
  | CircuitOpen =>
      if cb_resetTimeout cb <? now - cb_lastFailure cb
      then (true, cb_with cb CircuitHalfOpen (cb_failures cb) 0 (cb_lastFailure cb))
      else (false, cb)
  end.

Definition recordFailure (now : Z) (cb : CircuitBreaker) : CircuitBreaker :=
  let fails := cb_failures cb + 1 in
  match cb_state cb with
  | CircuitHalfOpen => cb_with cb CircuitOpen fails (cb_successes cb) now
  | st => if cb_maxFailures cb <=? fails
          then cb_with cb CircuitOpen fails (cb_successes cb) now
          else cb_with cb st fails (cb_successes cb) now
  end.

Definition recordSuccess (cb : CircuitBreaker) : CircuitBreaker :=
  match cb_state cb with
  | CircuitHalfOpen =>
      let succs := cb_successes cb + 1 in
      if cb_halfOpenMax cb <=? succs
      then cb_with cb CircuitClosed 0 succs (cb_lastFailure cb)
      else cb_with cb CircuitHalfOpen (cb_failures cb) succs (cb_lastFailure cb)
  | st => cb_with cb st 0 (cb_successes cb) (cb_lastFailure cb)
  end.

Definition State (cb : CircuitBreaker) : CircuitState := cb_state cb.

Definition Reset (cb : CircuitBreaker) : CircuitBreaker :=
  cb_with cb CircuitClosed 0 0 (cb_lastFailure cb).

(** The result of [Execute]: refused, or whatever [fn] returned. *)
Inductive ExecuteResult (E : Type) :=
| ErrCircuitOpen
| Executed (err : option E).
Arguments ErrCircuitOpen {E}.
Arguments Executed {E} err.

(** [fn] starts at [now] and its outcome is recorded at [fin]. *)
Definition Execute {E} (now fin : Z) (fn : option E) (cb : CircuitBreaker)
  : ExecuteResult E * CircuitBreaker :=
  match allowRequest now cb with
  | (false, cb') => (ErrCircuitOpen, cb')
  | (true, cb') =>
      (Executed fn, match fn with
                    | Some _ => recordFailure fin cb'
                    | None => recordSuccess cb'
                    end)
  end.

(** Each method holds the mutex, but [fn] runs outside it: several [Execute] calls
    interleave at the granularity of these steps, and a late outcome may arrive in a
    state that did not admit it. *)
Inductive cb_step : CircuitBreaker → CircuitBreaker → Prop :=
| step_allow now cb : cb_step cb (allowRequest now cb).2
| step_failure now cb : cb_step cb (recordFailure now cb)
| step_success cb : cb_step cb (recordSuccess cb)
| step_reset cb : cb_step cb (Reset cb).

Definition cb_inv (cb : CircuitBreaker) : Prop :=
  0 ≤ cb_failures cb ∧
  match cb_state cb with
  | CircuitClosed => cb_failures cb < cb_maxFailures cb
  | CircuitOpen => True
  | CircuitHalfOpen => 0 ≤ cb_successes cb < cb_halfOpenMax cb
  end.

Lemma cb_step_config cb cb' :
  cb_step cb cb' →
  cb_maxFailures cb' = cb_maxFailures cb ∧ cb_halfOpenMax cb' = cb_halfOpenMax cb ∧
  cb_resetTimeout cb' = cb_resetTimeout cb.
Proof.
  destruct 1; unfold allowRequest, recordFailure, recordSuccess; repeat case_match; done.
Qed.

Lemma cb_step_inv cb cb' :
  0 < cb_maxFailures cb → 0 < cb_halfOpenMax cb → cb_step cb cb' → cb_inv cb → cb_inv cb'.
Proof.
  intros Hm Hh Hs [Hf Hi].
  destruct Hs as [now [? ? ? ? [] ? ? ?]|now [? ? ? ? [] ? ? ?]|[? ? ? ? [] ? ? ?]|cb];
    unfold cb_inv, allowRequest, recordFailure, recordSuccess in *; simpl in *;
    repeat (case_match; simpl in *; try discriminate); rewrite ?Z.leb_le, ?Z.leb_gt in *; lia.
Qed.

(** Circuit-breaker invariant under every interleaving of concurrent Execute and
    Reset calls: with positive limits, a closed breaker has seen fewer than MaxFailures
    failures since it was last cleared and a half-open one fewer than HalfOpenMax
    successes; so a breaker never stays closed at or past its failure limit, and a
    transition out of Open always lands in half-open with a cleared success count or
    in a reset breaker. *)
Theorem circuit_interleaving_invariant (c : CircuitBreakerConfig) cb cb' :
  0 < cfg_MaxFailures c → 0 < cfg_HalfOpenMax c →
  rtc cb_step (NewCircuitBreaker c) cb → cb_step cb cb' →
  cb_inv cb' ∧
  (cb_state cb = CircuitOpen → cb_state cb' ≠ CircuitOpen →
   cb_state cb' = CircuitHalfOpen ∧ cb_successes cb' = 0 ∧ cb_failures cb' = cb_failures cb ∨
   cb' = Reset cb).
Proof.
  intros Hm Hh Hr Hs.
  assert (Hinv : cb_inv cb ∧ cb_maxFailures cb = cfg_MaxFailures c ∧ cb_halfOpenMax cb = cfg_HalfOpenMax c).
  { remember (NewCircuitBreaker c) as cb0 eqn:H0.
    assert (H1 : cb_inv cb0 ∧ cb_maxFailures cb0 = cfg_MaxFailures c ∧ cb_halfOpenMax cb0 = cfg_HalfOpenMax c)
      by (subst; done).
    clear H0 Hs. induction Hr as [|x y z Hxy _ IH]; [done |]. apply IH.
    destruct H1 as (Hi & H1 & H2). destruct (cb_step_config _ _ Hxy) as (? & ? & _).
    split_and!; [|congruence..]. apply (cb_step_inv x); [congruence.. | done | done]. }
  destruct Hinv as (Hi & H1 & H2). split.
  { apply (cb_step_inv cb); [congruence.. | done | done]. }
  intros Hopen Hne. destruct Hs; [left | exfalso; apply Hne..|by right].
  - revert Hne. unfold allowRequest. rewrite Hopen. case_match; simpl; [done |]. congruence.
  - unfold recordFailure. rewrite Hopen. simpl. by case_match.
  - unfold recordSuccess. by rewrite Hopen.
Qed.

Lemma circuit_interleaving_invariant_witness :
  cb_inv (recordFailure 5 (NewCircuitBreaker (DefaultCircuitBreakerConfig "relay"))).
Proof.
  destruct (circuit_interleaving_invariant (DefaultCircuitBreakerConfig "relay")
    (NewCircuitBreaker (DefaultCircuitBreakerConfig "relay"))
    (recordFailure 5 (NewCircuitBreaker (DefaultCircuitBreakerConfig "relay")))
    ltac:(done) ltac:(done) ltac:(constructor) ltac:(constructor)) as [H _].
  exact H.
Defined.

(** A sequential client: each call is an [Execute] with its start, end and outcome. *)
Fixpoint execute_all {E} (calls : list (Z * Z * option E)) (cb : CircuitBreaker)
  : list (ExecuteResult E) * CircuitBreaker :=
  match calls with
  | [] => ([], cb)
  | (now, fin, fn) :: calls' =>
      let '(r, cb') := Execute now fin fn cb in
      let '(rs, cb'') := execute_all calls' cb' in
      (r :: rs, cb'')
  end.

Lemma execute_failures_trip {E} (e : E) times cb :
  cb_state cb = CircuitClosed → cb_failures cb + Z.of_nat (length times) = cb_maxFailures cb →
  times ≠ [] →
  let out := execute_all (map (λ t, (t, t, Some e)) times) cb in
  out.1 = map (λ _, Executed (Some e)) times ∧ cb_state out.2 = CircuitOpen ∧
  cb_lastFailure out.2 = List.last times 0 ∧ cb_resetTimeout out.2 = cb_resetTimeout cb ∧
  cb_halfOpenMax out.2 = cb_halfOpenMax cb ∧ cb_maxFailures out.2 = cb_maxFailures cb.
Proof.
  revert cb. induction times as [|t times IH]; intros cb Hst Hlen Hne; [done |].
  cbn [map execute_all]. unfold Execute, allowRequest. rewrite Hst. unfold recordFailure. rewrite Hst.
  destruct (_ <=? _) eqn:Hcmp.
  - apply Z.leb_le in Hcmp. destruct times; [done | simpl in Hlen; lia].
  - apply Z.leb_gt in Hcmp. destruct times as [|t' times]; [simpl in Hlen; lia |].
    set (cb' := cb_with _ _ _ _ _). specialize (IH cb' eq_refl).
    destruct (execute_all (map _ (t' :: times)) cb') as [rs cb'']. simpl in *.
    destruct IH as (-> & H1 & H2 & H3 & H4 & H5); [lia | done |]. done.
Qed.

Lemma execute_open {E} now fin (fn : option E) cb :
  cb_state cb = CircuitOpen → now - cb_lastFailure cb ≤ cb_resetTimeout cb →
  Execute now fin fn cb = (ErrCircuitOpen, cb).
Proof.
  intros Hst Hle. unfold Execute, allowRequest. rewrite Hst. by destruct (Z.ltb_spec (cb_resetTimeout cb) (now - cb_lastFailure cb)); [lia |].
Qed.

Lemma execute_halfopen_recovers {E} times cb :
  cb_state cb = CircuitHalfOpen → cb_successes cb + Z.of_nat (length times) = cb_halfOpenMax cb →
  times ≠ [] →
  let out := execute_all (map (λ t, (t, t, @None E)) times) cb in
  out.1 = map (λ _, Executed None) times ∧ cb_state out.2 = CircuitClosed ∧ cb_failures out.2 = 0.
Proof.
  revert cb. induction times as [|t times IH]; intros cb Hst Hlen Hne; [done |].
  cbn [map execute_all]. unfold Execute, allowRequest. rewrite Hst. unfold recordSuccess. rewrite Hst.
  destruct (_ <=? _) eqn:Hcmp.
  - apply Z.leb_le in Hcmp. destruct times; [done | simpl in Hlen; lia].
  - apply Z.leb_gt in Hcmp. destruct times as [|t' times]; [simpl in Hlen; lia |].
    set (cb' := cb_with _ _ _ _ _). specialize (IH cb' eq_refl).
    destruct (execute_all (map _ (t' :: times)) cb') as [rs cb'']. simpl in *.
    destruct IH as (-> & H1 & H2); [lia | done |]. done.
Qed.

Lemma execute_open_expired {E} (t : Z) times cb :
  cb_state cb = CircuitOpen → cb_resetTimeout cb < t - cb_lastFailure cb →
  execute_all (map (λ t, (t, t, @None E)) (t :: times)) cb =
  execute_all (map (λ t, (t, t, @None E)) (t :: times))
    (cb_with cb CircuitHalfOpen (cb_failures cb) 0 (cb_lastFailure cb)).
Proof.
  intros Hst Hlt. cbn [map execute_all]. unfold Execute, allowRequest. rewrite Hst. simpl.
  by destruct (Z.ltb_spec (cb_resetTimeout cb) (t - cb_lastFailure cb)); [|lia].
Qed.

(** Trip and recovery of a sequential client: exactly MaxFailures failing calls on
    a fresh breaker all reach fn and open it; from then until ResetTimeout after the last
    failure every call is refused with ErrCircuitOpen and changes nothing; once the
    timeout has passed, HalfOpenMax successful calls are all admitted and close it with a
    cleared failure count. *)
Theorem circuit_trip_and_recover {E} (e : E) (c : CircuitBreakerConfig) (fails oks : list Z) :
  0 < cfg_MaxFailures c → 0 < cfg_HalfOpenMax c →
  Z.of_nat (length fails) = cfg_MaxFailures c → Z.of_nat (length oks) = cfg_HalfOpenMax c →
  let tripped := execute_all (map (λ t, (t, t, Some e)) fails) (NewCircuitBreaker c) in
  tripped.1 = map (λ _, Executed (Some e)) fails ∧
  State tripped.2 = CircuitOpen ∧
  (∀ now fin fn, now - List.last fails 0 ≤ cfg_ResetTimeout c →
     @Execute E now fin fn tripped.2 = (ErrCircuitOpen, tripped.2)) ∧
  (cfg_ResetTimeout c < List.hd 0 oks - List.last fails 0 →
   let healed := execute_all (map (λ t, (t, t, @None E)) oks) tripped.2 in
   healed.1 = map (λ _, Executed None) oks ∧
   State healed.2 = CircuitClosed ∧ cb_failures healed.2 = 0).
Proof.
  intros Hm Hh Hf Ho tripped.
  destruct (execute_failures_trip e fails (NewCircuitBreaker c)) as (H1 & H2 & H3 & H4 & H5 & H6);
    [done | done | by destruct fails; simpl in Hf; [lia |] |].
  fold tripped in H1, H2, H3, H4, H5, H6. simpl in H4, H5. split_and!; [done | done | |].
  - intros now fin fn Hle. apply execute_open; [done |]. lia.
  - intros Hlt. destruct oks as [|t oks]; [simpl in Ho; lia |]. simpl in Hlt.
    unfold State. rewrite execute_open_expired by (done || lia).
    apply (execute_halfopen_recovers (t :: oks)); simpl in *; [done | lia | done].
Qed.

Lemma circuit_trip_and_recover_witness :
  State (execute_all (map (λ t, (t, t, Some tt)) [1; 2; 3; 4; 5])
    (NewCircuitBreaker (DefaultCircuitBreakerConfig "relay"))).2 = CircuitOpen.
Proof.
  destruct (circuit_trip_and_recover tt (DefaultCircuitBreakerConfig "relay")
    [1; 2; 3; 4; 5] [40 * Second; 41 * Second; 42 * Second]
    ltac:(done) ltac:(done) ltac:(done) ltac:(done)) as (_ & H & _).
  exact H.
Defined.

(** ** Token bucket *)

#[local] Open Scope Q_scope.

Record RateLimiter := {
  rl_rate : Q;
  rl_bucketSize : Q;
  rl_tokens : Q;
  rl_lastUpdate : Z;
}.

Definition NewRateLimiter (now : Z) (rate bucketSize : Q) : RateLimiter := {|
  rl_rate := rate; rl_bucketSize := bucketSize; rl_tokens := bucketSize; rl_lastUpdate := now;
|}.

(** [Duration.Seconds] *)
Definition Seconds (d : Z) : Q := inject_Z d / inject_Z Second.

Definition math_Min (a b : Q) : Q := if Qle_bool a b then a else b.

Definition Allow (now : Z) (rl : RateLimiter) : bool * RateLimiter :=
  let elapsed := Seconds (now - rl_lastUpdate rl) in
  let tokens := math_Min (rl_tokens rl + elapsed * rl_rate rl) (rl_bucketSize rl) in
  let upd t := {| rl_rate := rl_rate rl; rl_bucketSize := rl_bucketSize rl;
                  rl_tokens := t; rl_lastUpdate := now |} in
  if Qle_bool 1 tokens then (true, upd (tokens - 1)) else (false, upd tokens).

(** The pause between two attempts of [Wait]:
    [time.Duration(1/rl.rate*1000) * time.Millisecond], truncated to whole milliseconds. *)
Definition wait_pause (rl : RateLimiter) : Z :=
  let q := Qinv (rl_rate rl) * 1000 in
  (Z.quot (Qnum q) (Zpos (Qden q)) * Millisecond)%Z.

(** What [Wait] returns; [WaitRunning] is a loop that has not returned within the fuel. *)
Inductive WaitResult := WaitNil | WaitCtxErr | WaitRunning.

(** At most [fuel] attempts of the loop of [Wait].  In the pause after attempt [k] the
    context may be done, and the timer fires [late k] after its deadline. *)
Fixpoint Wait (done_wait : nat → bool) (late : nat → Z) (fuel k : nat) (now : Z) (rl : RateLimiter)
  : WaitResult * RateLimiter :=
  match fuel with
  | O => (WaitRunning, rl)
  | S fuel' =>
      match Allow now rl with
      | (true, rl') => (WaitNil, rl')
      | (false, rl') =>
          if done_wait k then (WaitCtxErr, rl')
          else Wait done_wait late fuel' (S k) (now + wait_pause rl' + late k)%Z rl'
      end
  end.

(** Successive requests at the given instants; how many are admitted. *)
Fixpoint admitted (times : list Z) (rl : RateLimiter) : Z * RateLimiter :=
  match times with
  | [] => (0%Z, rl)
  | t :: ts =>
      let '(ok, rl') := Allow t rl in
      let '(n, rl'') := admitted ts rl' in
      (((if ok then 1 else 0) + n)%Z, rl'')
  end.

Definition rl_wf (rl : RateLimiter) : Prop :=
  0 <= rl_rate rl /\ 0 <= rl_bucketSize rl /\ 0 <= rl_tokens rl <= rl_bucketSize rl.

Lemma Seconds_nonneg d : (0 ≤ d)%Z → 0 <= Seconds d.
Proof.
  intros Hd. unfold Seconds, Qdiv. apply Qmult_le_0_compat; [|done].
  change 0 with (inject_Z 0). by rewrite <- Zle_Qle.
Qed.

Lemma Seconds_add a b : Seconds (a + b) == Seconds a + Seconds b.
Proof. unfold Seconds, Qdiv. rewrite inject_Z_plus. ring. Qed.

Lemma math_Min_spec a b : math_Min a b <= a /\ math_Min a b <= b /\ (math_Min a b = a \/ math_Min a b = b).
Proof.
  unfold math_Min. destruct (Qle_bool a b) eqn:Hle.
  - apply Qle_bool_iff in Hle. split_and!; [apply Qle_refl | done | by left].
  - assert (¬ a <= b) by (intros H; apply Qle_bool_iff in H; congruence).
    split_and!; [|apply Qle_refl | by right]. lra.
Qed.

Lemma last_cons_default {A} (x d : A) l : List.last (x :: l) d = List.last l x.
Proof.
  revert x d. induction l as [|y l IH]; intros x d; [done |].
  change (List.last (y :: l) d = List.last (y :: l) x). by rewrite !IH.
Qed.

(** One request: the bucket stays well formed, loses a token exactly when it admits, and
    gains at most what the elapsed time pays for. *)
Lemma Allow_spec now rl :
  rl_wf rl → (rl_lastUpdate rl ≤ now)%Z →
  let '(ok, rl') := Allow now rl in
  rl_wf rl' /\ rl_rate rl' = rl_rate rl /\ rl_bucketSize rl' = rl_bucketSize rl /\
  rl_lastUpdate rl' = now /\
  rl_tokens rl' + inject_Z (if ok then 1 else 0) <=
    rl_tokens rl + Seconds (now - rl_lastUpdate rl) * rl_rate rl.
Proof.
  intros (Hr & Hb & Ht) Hnow. unfold Allow.
  pose proof (Seconds_nonneg (now - rl_lastUpdate rl) ltac:(lia)) as Hs.
  pose proof (Qmult_le_0_compat _ _ Hs Hr) as Hp.
  destruct (math_Min_spec (rl_tokens rl + Seconds (now - rl_lastUpdate rl) * rl_rate rl) (rl_bucketSize rl))
    as (H1 & H2 & H3).
  set (m := math_Min _ _) in *.
  assert (0 <= m) by (destruct H3 as [-> | ->]; lra).
  destruct (Qle_bool 1 m) eqn:Hle; unfold rl_wf; simpl.
  - apply Qle_bool_iff in Hle. split_and!; try done; try lra.
    change (inject_Z 1) with 1. lra.
  - split_and!; try done; try lra. change (inject_Z 0) with 0. lra.
Qed.

(** The tokens spent and left are covered by the initial tokens and the refill. *)
Lemma admitted_potential times rl :
  rl_wf rl → Sorted Z.le (rl_lastUpdate rl :: times) →
  let '(n, rl') := admitted times rl in
  rl_wf rl' /\ inject_Z n + rl_tokens rl' <= rl_tokens rl +
    Seconds (List.last times (rl_lastUpdate rl) - rl_lastUpdate rl) * rl_rate rl.
Proof.
  revert rl. induction times as [|t ts IH]; intros rl Hwf Hs; cbn [admitted].
  { cbn [List.last]. split; [done |]. rewrite Z.sub_diag. change (inject_Z 0) with 0.
    change (Seconds 0) with (0 * / inject_Z Second). lra. }
  inversion Hs as [|? ? Hs' Hd]; subst. inversion Hd as [|? ? Hle]; subst.
  pose proof (Allow_spec t rl Hwf Hle) as HA. destruct (Allow t rl) as [ok rl'].
  destruct HA as (Hwf' & Hr & Hb & Hl & HA).
  specialize (IH rl' Hwf'). rewrite Hl in IH. specialize (IH Hs').
  destruct (admitted ts rl') as [n rl'']. destruct IH as [Hwf'' IH]. split; [done |].
  rewrite inject_Z_plus, last_cons_default.
  replace (List.last ts t - rl_lastUpdate rl)%Z
    with ((List.last ts t - t) + (t - rl_lastUpdate rl))%Z by lia.
  rewrite Seconds_add, Qmult_plus_distr_l. rewrite Hr in IH. lra.
Qed.

Lemma admitted_bound times rl :
  rl_wf rl → Sorted Z.le (rl_lastUpdate rl :: times) →
  let '(n, rl') := admitted times rl in
  rl_wf rl' /\ inject_Z n <= rl_tokens rl +
    Seconds (List.last times (rl_lastUpdate rl) - rl_lastUpdate rl) * rl_rate rl.
Proof.
  intros Hwf Hs. pose proof (admitted_potential times rl Hwf Hs) as H.
  destruct (admitted times rl) as [n rl']. destruct H as [Hwf' H]. split; [done |].
  destruct Hwf' as (_ & _ & ? & _). lra.
Qed.

(** Rate bound: over any sequence of requests at non-decreasing instants, the number
    a token bucket admits is at most its initial tokens plus rate times the elapsed
    seconds, and the bucket never holds a negative amount nor more than bucketSize. *)
Theorem rate_limiter_bound (rl : RateLimiter) (times : list Z) :
  rl_wf rl → Sorted Z.le (rl_lastUpdate rl :: times) →
  let '(n, rl') := admitted times rl in
  rl_wf rl' /\
  inject_Z n <= rl_tokens rl +
    Seconds (List.last times (rl_lastUpdate rl) - rl_lastUpdate rl) * rl_rate rl.
Proof. apply admitted_bound. Qed.

Lemma rate_limiter_bound_witness :
  let '(n, rl') := admitted [0; 0; 0; Second]%Z (NewRateLimiter 0 1 2) in
  n = 3%Z /\ rl_wf rl' /\ inject_Z n <= 2 + Seconds Second * 1.
Proof.
  pose proof (rate_limiter_bound (NewRateLimiter 0 1 2) [0; 0; 0; Second]%Z) as H.
  assert (Hn : (admitted [0; 0; 0; Second]%Z (NewRateLimiter 0 1 2)).1 = 3%Z) by (vm_compute; reflexivity).
  destruct (admitted [0; 0; 0; Second]%Z (NewRateLimiter 0 1 2)) as [n rl'].
  simpl in Hn. split; [exact Hn |]. apply H.
  - unfold rl_wf, NewRateLimiter. simpl. lra.
  - repeat constructor; simpl; unfold Second, Millisecond; lia.
Defined.

(** The truncated pause of [Wait] refills at least half a token when the rate is at most
    1000 per second (above that the pause truncates to zero). *)
Lemma wait_pause_half rl :
  0 < rl_rate rl → rl_rate rl <= 1000 →
  (0 ≤ wait_pause rl)%Z /\ 1 # 2 <= Seconds (wait_pause rl) * rl_rate rl.
Proof.
  unfold wait_pause. destruct (rl_rate rl) as [n d]. unfold Qlt, Qle; simpl. intros Hn Hle.
  destruct n as [|n|n]; [lia | | lia]. simpl. rewrite Z.quot_div_nonneg by lia.
  pose proof (Z.div_mod (Z.pos (d * 1000)) (Z.pos (n * 1)) ltac:(lia)) as Hdm.
  pose proof (Z.mod_pos_bound (Z.pos (d * 1000)) (Z.pos (n * 1)) ltac:(lia)) as Hmod.
  set (q := (Z.pos (d * 1000) / Z.pos (n * 1))%Z) in *.
  assert (Hq : (1 ≤ q)%Z) by (apply Z.div_le_lower_bound; lia).
  unfold Millisecond. split; [lia |].
  assert ((Z.pos d * 1000 ≤ 2 * (q * Z.pos n))%Z) by nia. simpl. lia.
Qed.

Lemma Allow_refused now rl rl' :
  1 <= rl_bucketSize rl → Allow now rl = (false, rl') →
  rl_tokens rl' < 1 /\ rl_tokens rl' = rl_tokens rl + Seconds (now - rl_lastUpdate rl) * rl_rate rl.
Proof.
  intros Hb. unfold Allow.
  destruct (math_Min_spec (rl_tokens rl + Seconds (now - rl_lastUpdate rl) * rl_rate rl) (rl_bucketSize rl))
    as (_ & _ & H3).
  set (m := math_Min _ _) in *. destruct (Qle_bool 1 m) eqn:Hle; intros [= <-]; simpl.
  assert (Hlt : m < 1).
  { apply Qnot_le_lt. intros H. apply Qle_bool_iff in H. congruence. }
  split; [done |]. destruct H3 as [H3|H3]; [done |]. exfalso. rewrite H3 in Hlt. lra.
Qed.

(** An attempt after a pause is admitted or has gained half a token. *)
Lemma Allow_after_pause now late rl :
  rl_wf rl → 0 < rl_rate rl → rl_rate rl <= 1000 → 1 <= rl_bucketSize rl →
  rl_lastUpdate rl = now → (0 ≤ late)%Z →
  let '(ok, rl') := Allow (now + wait_pause rl + late) rl in
  ok = true \/ (rl_tokens rl + (1 # 2) <= rl_tokens rl' /\ rl_tokens rl' < 1).
Proof.
  intros Hwf Hr Hr' Hb Hl Hlate. destruct (wait_pause_half rl Hr Hr') as [Hp Hhalf].
  destruct (Allow _ rl) as [[] rl'] eqn:HA; [by left | right].
  destruct (Allow_refused _ _ _ Hb HA) as [H1 H2]. split; [|done]. rewrite H2, Hl.
  replace (now + wait_pause rl + late - now)%Z with (wait_pause rl + late)%Z by lia.
  rewrite Seconds_add, Qmult_plus_distr_l.
  pose proof (Qmult_le_0_compat _ _ (Seconds_nonneg late Hlate) (Qlt_le_weak _ _ Hr)). lra.
Qed.

(** Wait makes progress: when the rate is positive and at most 1000 per second, the
    bucket holds at least one token and the context is never done, Wait returns nil after
    at most three attempts, however late the timers fire. *)
Theorem wait_returns (rl : RateLimiter) (late : nat → Z) (now : Z) :
  rl_wf rl → (rl_lastUpdate rl ≤ now)%Z → 0 < rl_rate rl → rl_rate rl <= 1000 →
  1 <= rl_bucketSize rl → (∀ k, (0 ≤ late k)%Z) →
  (Wait (λ _, false) late 3 0 now rl).1 = WaitNil.
Proof.
  intros Hwf Hnow Hr Hr' Hb Hlate. cbn [Wait].
  pose proof (Allow_spec now rl Hwf Hnow) as H1. destruct (Allow now rl) as [[] rl1]; [done |].
  destruct H1 as (Hwf1 & Er1 & Eb1 & El1 & _).
  pose proof (Allow_after_pause now (late 0%nat) rl1 Hwf1) as P1. rewrite Er1, Eb1, El1 in P1.
  specialize (P1 Hr Hr' Hb eq_refl (Hlate _)).
  assert (Hle1 : (rl_lastUpdate rl1 ≤ now + wait_pause rl1 + late 0%nat)%Z).
  { rewrite <- Er1 in Hr, Hr'. pose proof (wait_pause_half rl1 Hr Hr'). pose proof (Hlate 0%nat). lia. }
  pose proof (Allow_spec _ rl1 Hwf1 Hle1) as H2.
  destruct (Allow (now + wait_pause rl1 + late 0%nat) rl1) as [[] rl2]; [done |].
  destruct H2 as (Hwf2 & Er2 & Eb2 & El2 & _). destruct P1 as [?|[Hg1 _]]; [done |].
  set (t2 := (now + wait_pause rl1 + late 0%nat)%Z) in *.
  pose proof (Allow_after_pause t2 (late 1%nat) rl2 Hwf2) as P2.
  rewrite Er2, Eb2, El2, Er1, Eb1 in P2. specialize (P2 Hr Hr' Hb eq_refl (Hlate _)).
  destruct (Allow (t2 + wait_pause rl2 + late 1%nat) rl2) as [[] rl3]; [done |].
  destruct P2 as [?|[Hg2 Hlt]]; [done |].
  destruct Hwf1 as (_ & _ & Ht1 & _). exfalso. lra.
Qed.

Lemma wait_returns_witness :
  (Wait (λ _, false) (λ _, 7%Z) 3 0 0 {| rl_rate := 3; rl_bucketSize := 1; rl_tokens := 0; rl_lastUpdate := 0 |}).1
  = WaitNil.
Proof.
  apply wait_returns; unfold rl_wf; simpl; try lra; try lia.
Defined.
