(* ===== verification/Billing.v ===== *)
(** * Billing: tenants, API keys, rate limits and metering (src/pkg/billing)

    The in-memory billing store, the per-tenant token buckets, the limiter of failed
    authentications and the usage meter.  [float64] quantities are exact rationals,
    [atomic.Int64] is a two's-complement counter, the clock, random identifiers and
    SHA-256 are arguments. *)

From S2P Require Import Prelude Reliability.
From Stdlib Require Import QArith Lqa.
#[local] Open Scope Z_scope.

(** ** Plans and tenants *)

Abbreviation Plan := string.
Definition PlanFree : Plan := "free".
Definition PlanStarter : Plan := "starter".
Definition PlanTeam : Plan := "team".
Definition PlanEnterprise : Plan := "enterprise".

Record QuotaConfig := {
  MaxAgentDIDs : Z;
  MaxMessagesPerMonth : Z;
  MaxToolCallsPerMonth : Z;
  RateLimitMsgPerSec : Q;
  RateLimitBurstSize : Q;
}.

Definition hardcodedQuota (p : Plan) : QuotaConfig :=
  if decide (p = PlanStarter) then {|
    MaxAgentDIDs := 5; MaxMessagesPerMonth := 10000; MaxToolCallsPerMonth := 50000;
    RateLimitMsgPerSec := 10; RateLimitBurstSize := 50 |}
  else if decide (p = PlanTeam) then {|
    MaxAgentDIDs := 50; MaxMessagesPerMonth := 200000; MaxToolCallsPerMonth := 1000000;
    RateLimitMsgPerSec := 100; RateLimitBurstSize := 500 |}
  else if decide (p = PlanEnterprise) then {|
    MaxAgentDIDs := 100000; MaxMessagesPerMonth := 1000000000; MaxToolCallsPerMonth := 1000000000;
    RateLimitMsgPerSec := 10000; RateLimitBurstSize := 50000 |}
  else {|
    MaxAgentDIDs := 3; MaxMessagesPerMonth := 1000; MaxToolCallsPerMonth := 5000;
    RateLimitMsgPerSec := 5; RateLimitBurstSize := 20 |}.

Definition over_Z (ov q : Z) : Z := if 0 <? ov then ov else q.
Definition over_Q (ov q : Q) : Q := if Qle_bool ov 0 then q else ov.

(** [overrides] is the decoded BILLING_QUOTAS_FILE (empty when it is absent or broken). *)
Definition DefaultQuota (overrides : gmap string QuotaConfig) (p : Plan) : QuotaConfig :=
  let q := hardcodedQuota p in
  match overrides !! p with
  | None => q
  | Some ov => {|
      MaxAgentDIDs := over_Z (MaxAgentDIDs ov) (MaxAgentDIDs q);
      MaxMessagesPerMonth := over_Z (MaxMessagesPerMonth ov) (MaxMessagesPerMonth q);
      MaxToolCallsPerMonth := over_Z (MaxToolCallsPerMonth ov) (MaxToolCallsPerMonth q);
      RateLimitMsgPerSec := over_Q (RateLimitMsgPerSec ov) (RateLimitMsgPerSec q);
      RateLimitBurstSize := over_Q (RateLimitBurstSize ov) (RateLimitBurstSize q) |}
  end.

Abbreviation TenantStatus := string.
Definition TenantStatusActive : TenantStatus := "active".
Definition TenantStatusSuspended : TenantStatus := "suspended".
Definition TenantStatusDeleted : TenantStatus := "deleted".

Record Tenant := {
  t_ID : string;
  t_Name : string;
  t_Email : string;
  t_Plan : Plan;
  t_Status : TenantStatus;
  t_Quota : QuotaConfig;
  t_CreatedAt : Z;
  t_UpdatedAt : Z;
  t_StripeCustomerID : string;
  t_StripeSubscriptionID : string;
  t_CurrentPeriodEnd : option Z;
  t_BillingStatus : string;
  t_DIDSeed : option string;
  t_EmailVerifiedAt : option Z;
}.

Inductive BillingError :=
| ErrTenantNotFound | ErrTenantSuspended | ErrQuotaExceeded | ErrAPIKeyNotFound
| ErrAPIKeyRevoked | ErrInvalidAPIKey | ErrOAuthIdentityNotFound | ErrTokenNotFound.

#[export] Instance BillingError_eq_dec : EqDecision BillingError.
Proof. solve_decision. Defined.

(** [id] is the random identifier and [seed] the 32 random bytes. *)
Definition NewTenant (overrides : gmap string QuotaConfig) (id seed : string) (now : Z)
    (name email : string) (plan : Plan) : Tenant := {|
  t_ID := id; t_Name := name; t_Email := email; t_Plan := plan; t_Status := TenantStatusActive;
  t_Quota := DefaultQuota overrides plan; t_CreatedAt := now; t_UpdatedAt := now;
  t_StripeCustomerID := ""; t_StripeSubscriptionID := ""; t_CurrentPeriodEnd := None;
  t_BillingStatus := "active"; t_DIDSeed := Some seed; t_EmailVerifiedAt := None;
|}.

Definition IsActive (t : Tenant) : bool := String.eqb (t_Status t) TenantStatusActive.

(** The fields the store's methods assign. *)
Definition t_with (t : Tenant) (status : TenantStatus) (updated : Z) (verified : option Z) : Tenant := {|
  t_ID := t_ID t; t_Name := t_Name t; t_Email := t_Email t; t_Plan := t_Plan t; t_Status := status;
  t_Quota := t_Quota t; t_CreatedAt := t_CreatedAt t; t_UpdatedAt := updated;
  t_StripeCustomerID := t_StripeCustomerID t; t_StripeSubscriptionID := t_StripeSubscriptionID t;
  t_CurrentPeriodEnd := t_CurrentPeriodEnd t; t_BillingStatus := t_BillingStatus t;
  t_DIDSeed := t_DIDSeed t; t_EmailVerifiedAt := verified;
|}.

(** ** API keys *)

Definition apiKeyPrefixLive : string := "sk_live_".
Definition apiKeyPrefixTest : string := "sk_test_".
Definition apiKeyPrefixLegacy : string := "msg2a_".

(** [env] is the lower-cased MSG2AGENT_ENV. *)
Definition keyEnvPrefix (env : string) : string :=
  if decide (env = "test" ∨ env = "development" ∨ env = "dev") then apiKeyPrefixTest
  else apiKeyPrefixLive.

Record APIKey := {
  k_ID : string;
  k_TenantID : string;
  k_Name : string;
  k_KeyHash : string;
  k_Prefix : string;
  k_CreatedAt : Z;
  k_ExpiresAt : option Z;
  k_RevokedAt : option Z;
}.

Definition IsValid (now : Z) (k : APIKey) : bool :=
  match k_RevokedAt k with
  | Some _ => false
  | None => match k_ExpiresAt k with
            | Some e => negb (e <? now)
            | None => true
            end
  end.

Definition IsAPIKeyToken (token : string) : bool :=
  HasPrefix token apiKeyPrefixLive || HasPrefix token apiKeyPrefixTest ||
  HasPrefix token apiKeyPrefixLegacy.

Section keys.
(** SHA-256 followed by hexadecimal encoding. *)
Context (hashKey : string → string).

Definition HashAPIKey (plaintext : string) : result BillingError string :=
  if HasPrefix plaintext apiKeyPrefixLive || HasPrefix plaintext apiKeyPrefixTest ||
     HasPrefix plaintext apiKeyPrefixLegacy
  then Ok (hashKey plaintext) else Err ErrInvalidAPIKey.

(** [encoded] is the base64 text of the 32 random bytes, [id] the random identifier;
    [None] is the error for a text that is too short. *)
Definition GenerateAPIKey (env id encoded : string) (now : Z) (tenantID name : string)
  : option (string * APIKey) :=
  let plaintext := keyEnvPrefix env +:+ encoded in
  if (String.length encoded <? 8)%nat then None
  else Some (plaintext, {|
    k_ID := id; k_TenantID := tenantID; k_Name := name; k_KeyHash := hashKey plaintext;
    k_Prefix := String.substring 0 8 encoded; k_CreatedAt := now; k_ExpiresAt := None;
    k_RevokedAt := None |}).

End keys.

(** ** The in-memory store *)

Record memEmailToken := { tok_tenantID : string; tok_email : string; tok_expiresAt : Z }.

Record BillingStore := {
  tenants : gmap string Tenant;
  keys : gmap string APIKey;
  oauthIds : gmap string string;
  stripeEventsSeen : gset string;
  emailTokens : gmap string memEmailToken;
}.

Definition NewBillingStore : BillingStore :=
  {| tenants := ∅; keys := ∅; oauthIds := ∅; stripeEventsSeen := ∅; emailTokens := ∅ |}.

Definition with_tenants (s : BillingStore) (m : gmap string Tenant) : BillingStore :=
  {| tenants := m; keys := keys s; oauthIds := oauthIds s;
     stripeEventsSeen := stripeEventsSeen s; emailTokens := emailTokens s |}.
Definition with_keys (s : BillingStore) (m : gmap string APIKey) : BillingStore :=
  {| tenants := tenants s; keys := m; oauthIds := oauthIds s;
     stripeEventsSeen := stripeEventsSeen s; emailTokens := emailTokens s |}.
Definition with_tokens (s : BillingStore) (m : gmap string memEmailToken) : BillingStore :=
  {| tenants := tenants s; keys := keys s; oauthIds := oauthIds s;
     stripeEventsSeen := stripeEventsSeen s; emailTokens := m |}.

Definition PutTenant (s : BillingStore) (t : Tenant) : BillingStore :=
  with_tenants s (<[t_ID t := t]> (tenants s)).

Definition GetTenant (s : BillingStore) (id : string) : result BillingError Tenant :=
  match tenants s !! id with Some t => Ok t | None => Err ErrTenantNotFound end.

Definition ListTenants (s : BillingStore) : list Tenant := (map_to_list (tenants s)).*2.

Definition UpdateTenant (now : Z) (s : BillingStore) (t : Tenant)
  : BillingStore * option BillingError :=
  match tenants s !! t_ID t with
  | None => (s, Some ErrTenantNotFound)
  | Some _ => (with_tenants s (<[t_ID t := t_with t (t_Status t) now (t_EmailVerifiedAt t)]> (tenants s)), None)
  end.

(** [ks] is the visit order of the range loop. *)
Definition GetTenantByEmail (ks : list string) (s : BillingStore) (email : string)
  : result BillingError Tenant :=
  match list_find (λ t, t_Email t = email ∧ t_Status t ≠ TenantStatusDeleted)
          (omap (λ k, tenants s !! k) ks) with
  | Some (_, t) => Ok t
  | None => Err ErrTenantNotFound
  end.

Definition SuspendTenant (now : Z) (s : BillingStore) (id : string)
  : BillingStore * option BillingError :=
  match tenants s !! id with
  | None => (s, Some ErrTenantNotFound)
  | Some t => (with_tenants s (<[id := t_with t TenantStatusSuspended now (t_EmailVerifiedAt t)]> (tenants s)), None)
  end.

Definition MarkTenantEmailVerified (now : Z) (s : BillingStore) (tenantID : string) (at_ : Z)
  : BillingStore * option BillingError :=
  match tenants s !! tenantID with
  | None => (s, Some ErrTenantNotFound)
  | Some t => (with_tenants s (<[tenantID := t_with t (t_Status t) now (Some at_)]> (tenants s)), None)
  end.

Definition PutAPIKey (s : BillingStore) (k : APIKey) : BillingStore :=
  with_keys s (<[k_KeyHash k := k]> (keys s)).

Definition GetAPIKeyByHash (s : BillingStore) (hash : string) : result BillingError APIKey :=
  match keys s !! hash with Some k => Ok k | None => Err ErrAPIKeyNotFound end.

Definition ListAPIKeys (s : BillingStore) (tenantID : string) : list APIKey :=
  filter (λ k, k_TenantID k = tenantID) (map_to_list (keys s)).*2.

Definition ListAPIKeysActive (now : Z) (s : BillingStore) (tenantID : string) : list APIKey :=
  filter (λ k, k_TenantID k = tenantID ∧ IsValid now k = true) (map_to_list (keys s)).*2.

Definition revoke (now : Z) (k : APIKey) : APIKey := {|
  k_ID := k_ID k; k_TenantID := k_TenantID k; k_Name := k_Name k; k_KeyHash := k_KeyHash k;
  k_Prefix := k_Prefix k; k_CreatedAt := k_CreatedAt k; k_ExpiresAt := k_ExpiresAt k;
  k_RevokedAt := Some now;
|}.

(** The loop of [RevokeAPIKey] over the keys in the order [ks]. *)
Fixpoint revoke_loop (now : Z) (s : BillingStore) (id : string) (ks : list string)
  : BillingStore * option BillingError :=
  match ks with
  | [] => (s, Some ErrAPIKeyNotFound)
  | h :: ks' =>
      match keys s !! h with
      | Some k => if decide (k_ID k = id) then (with_keys s (<[h := revoke now k]> (keys s)), None)
                  else revoke_loop now s id ks'
      | None => revoke_loop now s id ks'
      end
  end.

Definition RevokeAPIKey (ks : list string) (now : Z) (s : BillingStore) (id : string)
  : BillingStore * option BillingError := revoke_loop now s id ks.

Definition PutEmailVerificationToken (s : BillingStore) (tokenHash tenantID email : string) (expiresAt : Z)
  : BillingStore :=
  with_tokens s (<[tokenHash := {| tok_tenantID := tenantID; tok_email := email; tok_expiresAt := expiresAt |}]>
                   (emailTokens s)).

Definition ConsumeEmailVerificationToken (now : Z) (s : BillingStore) (tokenHash : string)
  : BillingStore * result BillingError (string * string) :=
  let s' := with_tokens s (delete tokenHash (emailTokens s)) in
  match emailTokens s !! tokenHash with
  | None => (s', Err ErrTokenNotFound)
  | Some tok => if tok_expiresAt tok <? now then (s', Err ErrTokenNotFound)
                else (s', Ok (tok_tenantID tok, tok_email tok))
  end.

Definition oauth_key (provider sub : string) : string := provider +:+ ":" +:+ sub.

Definition PutOAuthIdentity (s : BillingStore) (provider sub tenantID : string) : BillingStore := {|
  tenants := tenants s; keys := keys s;
  oauthIds := <[oauth_key provider sub := tenantID]> (oauthIds s);
  stripeEventsSeen := stripeEventsSeen s; emailTokens := emailTokens s |}.

Definition GetOAuthIdentityTenant (s : BillingStore) (provider sub : string) : result BillingError string :=
  match oauthIds s !! oauth_key provider sub with
  | Some id => Ok id
  | None => Err ErrOAuthIdentityNotFound
  end.

Definition MarkStripeEventProcessed (s : BillingStore) (eventID : string) : BillingStore * bool :=
  if decide (eventID ∈ stripeEventsSeen s) then (s, false)
  else ({| tenants := tenants s; keys := keys s; oauthIds := oauthIds s;
           stripeEventsSeen := {[eventID]} ∪ stripeEventsSeen s; emailTokens := emailTokens s |}, true).

(** ** Per-tenant token buckets *)

(** [tenantBucket] has the fields of [messaging.RateLimiter] and its own [Allow]. *)
Abbreviation tenantBucket := RateLimiter.
Definition newTenantBucket (now : Z) (ratePerSec burst : Q) : tenantBucket := {|
  rl_rate := ratePerSec; rl_bucketSize := burst; rl_tokens := burst; rl_lastUpdate := now;
|}.

Definition tenantBucket_Allow (now : Z) (b : tenantBucket) : bool * tenantBucket :=
  let elapsed := Seconds (now - rl_lastUpdate b) in
  let t := (rl_tokens b + elapsed * rl_rate b)%Q in
  let t' := if Qle_bool t (rl_bucketSize b) then t else rl_bucketSize b in
  let upd x := {| rl_rate := rl_rate b; rl_bucketSize := rl_bucketSize b;
                  rl_tokens := x; rl_lastUpdate := now |} in
  if negb (Qle_bool 1 t') then (false, upd t') else (true, upd (t' - 1)%Q).

Abbreviation TenantRateLimiterPool := (gmap string tenantBucket).
Definition NewTenantRateLimiterPool : TenantRateLimiterPool := ∅.

Definition pool_bucket (now : Z) (s : BillingStore) (p : TenantRateLimiterPool) (tenantID : string)
  : tenantBucket :=
  match p !! tenantID with
  | Some b => b
  | None =>
      match GetTenant s tenantID with
      | Ok t => newTenantBucket now (RateLimitMsgPerSec (t_Quota t)) (RateLimitBurstSize (t_Quota t))
      | Err _ => newTenantBucket now 5 20
      end
  end.

Definition pool_Allow (now : Z) (s : BillingStore) (p : TenantRateLimiterPool) (tenantID : string)
  : bool * TenantRateLimiterPool :=
  let '(ok, b) := tenantBucket_Allow now (pool_bucket now s p tenantID) in
  (ok, <[tenantID := b]> p).

Definition Evict (p : TenantRateLimiterPool) (tenantID : string) : TenantRateLimiterPool :=
  delete tenantID p.

(** ** Failed-authentication limiter *)

Record authBucket := { ab_tokens : Q; ab_lastUpdate : Z; ab_lastSeen : Z }.
Abbreviation authLimiter := (gmap string authBucket).

Definition authBucketCapacity : Q := 10.
Definition authBucketRate : Q := 1.
Definition authBucketGCIdle : Z := Hour.

Definition getOrCreate (now : Z) (al : authLimiter) (ip : string) : authBucket :=
  match al !! ip with
  | Some b => {| ab_tokens := ab_tokens b; ab_lastUpdate := ab_lastUpdate b; ab_lastSeen := now |}
  | None => {| ab_tokens := authBucketCapacity; ab_lastUpdate := now; ab_lastSeen := now |}
  end.

Definition refill (now : Z) (b : authBucket) : authBucket :=
  let t := (ab_tokens b + Seconds (now - ab_lastUpdate b) * authBucketRate)%Q in
  {| ab_tokens := if Qle_bool t authBucketCapacity then t else authBucketCapacity;
     ab_lastUpdate := now; ab_lastSeen := ab_lastSeen b |}.

Definition auth_Allow (now : Z) (al : authLimiter) (ip : string) : bool * authLimiter :=
  let b := refill now (getOrCreate now al ip) in
  (Qle_bool 1 (ab_tokens b), <[ip := b]> al).

Definition Consume (now : Z) (al : authLimiter) (ip : string) : authLimiter :=
  let b := refill now (getOrCreate now al ip) in
  <[ip := if Qle_bool 1 (ab_tokens b)
          then {| ab_tokens := (ab_tokens b - 1)%Q; ab_lastUpdate := ab_lastUpdate b; ab_lastSeen := ab_lastSeen b |}
          else b]> al.

(** One tick of [gcLoop]. *)
Definition gc (now : Z) (al : authLimiter) : authLimiter :=
  filter (λ kv, ¬ ab_lastSeen kv.2 < now - authBucketGCIdle) al.

(** ** Usage meter *)

Abbreviation UsageEvent := string.
Definition EventToolCall : UsageEvent := "tool_call".
Definition EventMessage : UsageEvent := "message".

(** (tenant, period YYYY-MM, event) *)
Abbreviation counterKey := (string * string * string)%type.
Abbreviation UsageMeter := (gmap counterKey Z).
Definition NewUsageMeter : UsageMeter := ∅.

(** [getOrCreateCounter(...).Add(delta)] *)
Definition counter_Add (m : UsageMeter) (k : counterKey) (delta : Z) : UsageMeter * Z :=
  let v := int64 (default 0 (m !! k) + delta) in (<[k := v]> m, v).

Definition Record_ (m : UsageMeter) (tenantID period event : string) (delta : Z) : UsageMeter :=
  (counter_Add m (tenantID, period, event) delta).1.

Definition over_limit (limit newVal : Z) : bool := (0 <? limit) && (limit <? newVal).

Definition TryConsume (m : UsageMeter) (tenantID period event : string) (limit delta : Z)
  : UsageMeter * option BillingError :=
  let '(m1, newVal) := counter_Add m (tenantID, period, event) delta in
  if over_limit limit newVal
  then ((counter_Add m1 (tenantID, period, event) (- delta)).1, Some ErrQuotaExceeded)
  else (m1, None).

Definition ReleaseQuota (m : UsageMeter) (tenantID period event : string) (delta : Z) : UsageMeter :=
  (counter_Add m (tenantID, period, event) (- delta)).1.

Definition Current (m : UsageMeter) (tenantID period event : string) : Z :=
  default 0 (m !! (tenantID, period, event)).

Definition CheckQuota (m : UsageMeter) (tenantID period event : string) (limit : Z) : option BillingError :=
  if limit <=? 0 then None
  else if limit <=? Current m tenantID period event then Some ErrQuotaExceeded else None.

Definition ResetTenant (m : UsageMeter) (tenantID period : string) : UsageMeter :=
  map_imap (λ k v, Some (if decide (k.1 = (tenantID, period)) then 0 else v)) m.

Record UsageSnapshot := { us_TenantID : string; us_Period : string; us_Event : string; us_Count : Z }.

Definition Snapshot (m : UsageMeter) : list UsageSnapshot :=
  (λ '(t, p, e, v), {| us_TenantID := t; us_Period := p; us_Event := e; us_Count := v |}) <$>
    filter (λ '(_, v), 0 < v) (map_to_list m).

(** [RestoreFromAggregates] for the snapshots the event store returned. *)
Definition RestoreFromAggregates (m : UsageMeter) (snaps : list UsageSnapshot) : UsageMeter :=
  foldl (λ m s, let k := (us_TenantID s, us_Period s, us_Event s) in
                match m !! k with Some _ => m | None => <[k := us_Count s]> m end) m snaps.

(** ** Tenant buckets: equivalence, isolation and rate *)

Lemma tenantBucket_Allow_eq now b : tenantBucket_Allow now b = Allow now b.
Proof.
  unfold tenantBucket_Allow, Allow, math_Min. by destruct (Qle_bool 1 _).
Qed.

(** Requests of several tenants against one pool; counts those of [T] that are admitted. *)
Fixpoint pool_run (s : BillingStore) (T : string) (reqs : list (Z * string)) (p : TenantRateLimiterPool)
  : Z * TenantRateLimiterPool :=
  match reqs with
  | [] => (0, p)
  | (now, id) :: reqs' =>
      let '(ok, p') := pool_Allow now s p id in
      let '(n, p'') := pool_run s T reqs' p' in
      ((if ok && bool_decide (id = T) then 1 else 0) + n, p'')
  end.

Definition times_of (T : string) (reqs : list (Z * string)) : list Z :=
  (filter (λ r, r.2 = T) reqs).*1.

Lemma pool_run_known s T reqs p b :
  p !! T = Some b → (pool_run s T reqs p).1 = (admitted (times_of T reqs) b).1.
Proof.
  revert p b. induction reqs as [|[now id] reqs IH]; intros p b Hp; [done |].
  cbn [pool_run]. unfold pool_Allow, times_of in *. rewrite tenantBucket_Allow_eq, filter_cons. simpl.
  destruct (decide (id = T)) as [->|Hne].
  - unfold pool_bucket. rewrite Hp. destruct (Allow now b) as [ok b'] eqn:HA.
    specialize (IH (<[T := b']> p) b' ltac:(by rewrite lookup_insert_eq)).
    destruct (pool_run s T reqs _) as [n p'']. simpl in *. subst n.
    rewrite bool_decide_true, andb_true_r by done.
    rewrite HA. by destruct (admitted _ b').
  - destruct (Allow now _) as [ok b'].
    specialize (IH (<[id := b']> p) b ltac:(by rewrite lookup_insert_ne)).
    destruct (pool_run s T reqs _) as [n p'']. simpl in *. subst n.
    by rewrite bool_decide_false, andb_false_r by done.
Qed.

(** The bucket the first request of a tenant creates. *)
Lemma pool_run_fresh s T reqs p now ts :
  p !! T = None → times_of T reqs = now :: ts →
  (pool_run s T reqs p).1 = (admitted (now :: ts) (pool_bucket now s ∅ T)).1.
Proof.
  revert p. induction reqs as [|[t id] reqs IH]; intros p Hp Ht; [done |].
  cbn [pool_run]. unfold pool_Allow, times_of in *. rewrite tenantBucket_Allow_eq. rewrite filter_cons in Ht.
  simpl in Ht. destruct (decide (id = T)) as [->|Hne].
  - rewrite fmap_cons in Ht. simpl in Ht. injection Ht as -> Hts.
    assert (Hb : pool_bucket now s p T = pool_bucket now s ∅ T).
    { unfold pool_bucket. by rewrite Hp, lookup_empty. }
    rewrite Hb. cbn [admitted]. destruct (Allow now _) as [ok b'].
    pose proof (pool_run_known s T reqs (<[T := b']> p) b' ltac:(by rewrite lookup_insert_eq)) as H.
    destruct (pool_run s T reqs _) as [n p'']. simpl in *. subst n. unfold times_of. rewrite Hts.
    rewrite bool_decide_true, andb_true_r by done. by destruct (admitted ts b').
  - destruct (Allow t _) as [ok b'].
    specialize (IH (<[id := b']> p) ltac:(by rewrite lookup_insert_ne) Ht).
    destruct (pool_run s T reqs _) as [n p'']. simpl in IH |- *. subst n.
    by rewrite bool_decide_false, andb_false_r by done.
Qed.

(** Tenant isolation and rate: whatever the other tenants send, the requests of a
    tenant that the pool admits are those its own bucket would admit, and their number is
    at most the plan's burst plus its rate times the seconds between the tenant's first
    and last request. *)
Theorem tenant_rate_isolated s T t reqs reqs' p p' now ts :
  GetTenant s T = Ok t → (0 <= RateLimitMsgPerSec (t_Quota t))%Q → (0 <= RateLimitBurstSize (t_Quota t))%Q →
  p !! T = None → p' !! T = None →
  times_of T reqs = now :: ts → times_of T reqs' = now :: ts → Sorted Z.le (now :: ts) →
  (pool_run s T reqs p).1 = (pool_run s T reqs' p').1 ∧
  (inject_Z (pool_run s T reqs p).1 <=
     RateLimitBurstSize (t_Quota t) + Seconds (List.last ts now - now) * RateLimitMsgPerSec (t_Quota t))%Q.
Proof.
  intros Ht Hr Hb Hp Hp' Hreqs Hreqs' Hs.
  rewrite (pool_run_fresh _ _ _ _ _ _ Hp Hreqs), (pool_run_fresh _ _ _ _ _ _ Hp' Hreqs'). split; [done |].
  assert (Hbk : pool_bucket now s ∅ T =
    newTenantBucket now (RateLimitMsgPerSec (t_Quota t)) (RateLimitBurstSize (t_Quota t))).
  { unfold pool_bucket. by rewrite lookup_empty, Ht. }
  rewrite Hbk. set (b := newTenantBucket _ _ _).
  assert (Hwf : rl_wf b).
  { unfold rl_wf, b, newTenantBucket. simpl. split_and!; lra. }
  pose proof (admitted_bound (now :: ts) b Hwf) as H.
  destruct (admitted (now :: ts) b) as [n b']. destruct H as [_ H].
  { constructor; [done |]. constructor. simpl. lia. }
  simpl in H. simpl. rewrite <- (last_cons_default now (rl_lastUpdate b) ts). exact H.
Qed.

Definition demo_tenant : Tenant := NewTenant ∅ "t1" "seed" 0 "Acme" "a@acme.test" PlanFree.

Lemma tenant_rate_isolated_witness :
  (inject_Z (pool_run (PutTenant NewBillingStore demo_tenant) "t1"
      [(0, "t1"); (0, "t2"); (Second, "t1")]%Z ∅).1 <= 20 + Seconds Second * 5)%Q.
Proof.
  destruct (tenant_rate_isolated (PutTenant NewBillingStore demo_tenant) "t1" demo_tenant
    [(0, "t1"); (0, "t2"); (Second, "t1")] [(0, "t1"); (Second, "t1")] ∅ ∅ 0 [Second]
    ltac:(vm_compute; reflexivity) ltac:(vm_compute; discriminate) ltac:(vm_compute; discriminate)
    ltac:(reflexivity) ltac:(reflexivity) ltac:(vm_compute; reflexivity) ltac:(vm_compute; reflexivity)
    ltac:(repeat constructor; vm_compute; discriminate)) as [_ H].
  exact H.
Defined.

(** ** The meter never oversells a quota *)

(** Concurrent [TryConsume] and [ReleaseQuota] calls on one counter: the increment and
    the rollback of a refused call are two atomic steps between which others may run.
    Ghost state: what was granted and not released, and the increments of refused calls
    that wait for their rollback.  [D] bounds one increment and [G] the calls in flight. *)
Record meter_state := { ms_meter : UsageMeter; ms_granted : Z; ms_inflight : list Z }.

Section meter.
Context (tenantID period event : string) (limit D : Z) (G : nat).
Abbreviation key := (tenantID, period, event).

Inductive meter_step : meter_state → meter_state → Prop :=
| step_grant m g fl d m' v :
    0 ≤ d ≤ D → counter_Add m key d = (m', v) → over_limit limit v = false →
    meter_step {| ms_meter := m; ms_granted := g; ms_inflight := fl |}
               {| ms_meter := m'; ms_granted := g + d; ms_inflight := fl |}
| step_refuse m g fl d m' v :
    0 ≤ d ≤ D → counter_Add m key d = (m', v) → over_limit limit v = true → (length fl < G)%nat →
    meter_step {| ms_meter := m; ms_granted := g; ms_inflight := fl |}
               {| ms_meter := m'; ms_granted := g; ms_inflight := d :: fl |}
| step_rollback m g fl d fl' :
    fl ≡ₚ d :: fl' →
    meter_step {| ms_meter := m; ms_granted := g; ms_inflight := fl |}
               {| ms_meter := (counter_Add m key (- d)).1; ms_granted := g; ms_inflight := fl' |}
| step_release m g fl d :
    0 ≤ d ≤ g →
    meter_step {| ms_meter := m; ms_granted := g; ms_inflight := fl |}
               {| ms_meter := ReleaseQuota m tenantID period event d; ms_granted := g - d;
                  ms_inflight := fl |}.

Definition sum (l : list Z) : Z := foldr Z.add 0 l.

Lemma sum_Permutation l l' : l ≡ₚ l' → sum l = sum l'.
Proof. induction 1; simpl in *; lia. Qed.

Lemma sum_bound l : Forall (λ d, 0 ≤ d ≤ D) l → 0 ≤ sum l ≤ Z.of_nat (length l) * D.
Proof. induction 1; simpl in *; lia. Qed.

Definition meter_inv (st : meter_state) : Prop :=
  Current (ms_meter st) tenantID period event = ms_granted st + sum (ms_inflight st) ∧
  0 ≤ ms_granted st ≤ limit ∧ Forall (λ d, 0 ≤ d ≤ D) (ms_inflight st) ∧
  (length (ms_inflight st) ≤ G)%nat.

Lemma counter_Add_current m d m' v :
  counter_Add m key d = (m', v) →
  v = int64 (Current m tenantID period event + d) ∧ Current m' tenantID period event = v.
Proof.
  unfold counter_Add, Current. intros [= <- <-]. by rewrite lookup_insert_eq.
Qed.

Hypothesis Hlimit : 0 < limit.
Hypothesis Hbound : 0 ≤ D ∧ limit + (Z.of_nat G + 1) * D < 2 ^ 63.

Lemma meter_step_inv st st' : meter_step st st' → meter_inv st → meter_inv st'.
Proof.
  assert (Hsm : ∀ fl, Forall (λ d, 0 ≤ d ≤ D) fl → (length fl ≤ G)%nat → 0 ≤ sum fl ≤ Z.of_nat G * D).
  { intros fl Hfl Hlen. pose proof (sum_bound fl Hfl). nia. }
  destruct 1 as [m g fl d m' v Hd Ha Ho|m g fl d m' v Hd Ha Ho Hl|m g fl d fl' Hp|m g fl d Hd];
    intros (Hc & Hg & Hf & Hlen); simpl in Hc, Hg, Hf, Hlen; pose proof (Hsm fl Hf Hlen).
  - destruct (counter_Add_current _ _ _ _ Ha) as [Hv Hcur]. rewrite Hc, int64_id in Hv by nia.
    unfold over_limit in Ho. apply andb_false_iff in Ho. rewrite !Z.ltb_ge in Ho.
    unfold meter_inv; simpl. rewrite Hcur. split_and!; [lia.. | done | done].
  - destruct (counter_Add_current _ _ _ _ Ha) as [Hv Hcur]. rewrite Hc, int64_id in Hv by nia.
    unfold meter_inv; simpl. rewrite Hcur. split_and!; [lia.. | by constructor | lia].
  - destruct (counter_Add m key (- d)) as [m' v] eqn:Ha.
    destruct (counter_Add_current _ _ _ _ Ha) as [Hv Hcur].
    rewrite Hp in Hf. apply Forall_cons in Hf as [Hd Hf']. pose proof (sum_Permutation _ _ Hp) as Hs.
    simpl in Hs. rewrite Hc, int64_id in Hv by nia. rewrite (Permutation_length Hp) in Hlen. simpl in Hlen.
    unfold meter_inv; simpl. rewrite Hcur. split_and!; [lia.. | done | lia].
  - unfold ReleaseQuota. destruct (counter_Add m key (- d)) as [m' v] eqn:Ha.
    destruct (counter_Add_current _ _ _ _ Ha) as [Hv Hcur]. rewrite Hc, int64_id in Hv by nia.
    unfold meter_inv; simpl. rewrite Hcur. split_and!; [lia.. | done | done].
Qed.

Lemma meter_run_inv m st :
  Current m tenantID period event = 0 →
  rtc meter_step {| ms_meter := m; ms_granted := 0; ms_inflight := [] |} st → meter_inv st.
Proof.
  intros H0. set (st0 := Build_meter_state _ _ _). intros Hr.
  assert (Hinv : meter_inv st0).
  { unfold meter_inv, st0; simpl. split_and!; [lia.. | done | lia]. }
  clearbody st0. induction Hr as [|x y z Hxy _ IH]; [done |]. apply IH, (meter_step_inv x); done.
Qed.

(** A call that runs alone grants exactly what fits, and a refused one changes nothing. *)
Lemma TryConsume_sequential m d :
  0 ≤ d ≤ D → 0 ≤ Current m tenantID period event ≤ limit →
  let '(m', err) := TryConsume m tenantID period event limit d in
  if bool_decide (Current m tenantID period event + d ≤ limit)
  then err = None ∧ Current m' tenantID period event = Current m tenantID period event + d
  else err = Some ErrQuotaExceeded ∧
       Current m' tenantID period event = Current m tenantID period event.
Proof.
  intros Hd Hc. unfold TryConsume. destruct (counter_Add m key d) as [m1 v] eqn:Ha.
  destruct (counter_Add_current _ _ _ _ Ha) as [Hv Hcur]. rewrite int64_id in Hv by nia.
  unfold over_limit. rewrite (proj2 (Z.ltb_lt 0 limit) Hlimit), andb_true_l.
  destruct (Z.ltb_spec limit v).
  - rewrite bool_decide_false by lia. destruct (counter_Add m1 key (- d)) as [m2 v2] eqn:Ha2.
    destruct (counter_Add_current _ _ _ _ Ha2) as [Hv2 Hcur2]. simpl. split; [done |].
    rewrite Hcur2, Hv2, Hcur, Hv, int64_id; lia.
  - rewrite bool_decide_true by lia. split; [done |]. lia.
Qed.

End meter.

(** C31. A monthly quota is never oversold: for every interleaving of the atomic steps of
    concurrent TryConsume and ReleaseQuota calls on a counter that starts at zero, the
    granted and unreleased amount never exceeds the limit, and the counter equals that
    amount as soon as the refused calls have rolled back; a call that runs alone is granted
    exactly when it fits. *)
Theorem quota_never_oversold tenantID period event limit D G m st d :
  0 < limit → 0 ≤ D ∧ limit + (Z.of_nat G + 1) * D < 2 ^ 63 →
  Current m tenantID period event = 0 →
  rtc (meter_step tenantID period event limit D G)
      {| ms_meter := m; ms_granted := 0; ms_inflight := [] |} st →
  0 ≤ d ≤ D →
  0 ≤ ms_granted st ≤ limit ∧
  (ms_inflight st = [] →
   Current (ms_meter st) tenantID period event = ms_granted st ∧
   ((TryConsume (ms_meter st) tenantID period event limit d).2 = None ↔ ms_granted st + d ≤ limit)).
Proof.
  intros Hl Hb H0 Hr Hd.
  destruct (meter_run_inv tenantID period event limit D G Hl Hb m st H0 Hr) as (Hc & Hg & _ & _).
  split; [done |]. intros Hnil. rewrite Hnil in Hc. simpl in Hc. split; [lia |].
  pose proof (TryConsume_sequential tenantID period event limit D G Hl Hb (ms_meter st) d Hd ltac:(lia)) as H.
  destruct (TryConsume _ _ _ _ _ _) as [m' err]. simpl. rewrite Hc in H.
  case_bool_decide; destruct H as [-> _]; split; intros; done || lia.
Qed.

Lemma quota_never_oversold_witness :
  0 ≤ 1 ≤ 2 ∧ Current (Record_ NewUsageMeter "t1" "2025-01" EventMessage 1) "t1" "2025-01" EventMessage = 1.
Proof.
  set (st := {| ms_meter := Record_ NewUsageMeter "t1" "2025-01" EventMessage 1; ms_granted := 0 + 1; ms_inflight := [] |}).
  assert (Hs : meter_step "t1" "2025-01" EventMessage 2 1 10 {| ms_meter := NewUsageMeter; ms_granted := 0; ms_inflight := [] |} st).
  { unfold st, Record_. eapply step_grant; [done | apply surjective_pairing | by vm_compute]. }
  assert (H0 : Current NewUsageMeter "t1" "2025-01" EventMessage = 0) by (unfold Current, NewUsageMeter; by rewrite lookup_empty).
  destruct (quota_never_oversold "t1" "2025-01" EventMessage 2 1 10 NewUsageMeter st 1) as [Hg Hc]; [done | done | exact H0 | by apply rtc_once | done |].
  split; [exact Hg | by destruct (Hc eq_refl)].
Defined.

(** ** Snapshot and restore *)

Definition snap_key (s : UsageSnapshot) : counterKey := (us_TenantID s, us_Period s, us_Event s).

Lemma restore_lookup snaps m k :
  NoDup (snap_key <$> snaps) →
  RestoreFromAggregates m snaps !! k =
    match m !! k with
    | Some v => Some v
    | None => us_Count <$> (snd <$> list_find (λ s, snap_key s = k) snaps)
    end.
Proof.
  revert m. induction snaps as [|s snaps IH]; intros m Hnd.
  { simpl. by destruct (m !! k) eqn:Hm; rewrite ?Hm. }
  rewrite fmap_cons in Hnd. apply NoDup_cons in Hnd as [Hnin Hnd].
  unfold RestoreFromAggregates in *. cbn [foldl]. rewrite IH by done. fold (snap_key s).
  cbn [list_find]. destruct (decide (snap_key s = k)) as [<-|Hne].
  - destruct (m !! snap_key s) as [v|] eqn:Hm; [by rewrite Hm |].
    by rewrite lookup_insert_eq.
  - destruct (m !! snap_key s) as [v|] eqn:Hm.
    + destruct (m !! k) as [w|]; [done |]. by destruct (list_find _ snaps) as [[? ?]|].
    + rewrite lookup_insert_ne by done. destruct (m !! k) as [w|]; [done |].
      by destruct (list_find _ snaps) as [[? ?]|].
Qed.

Lemma Snapshot_keys m : snap_key <$> Snapshot m = (filter (λ '(_, v), 0 < v) (map_to_list m)).*1.
Proof.
  unfold Snapshot. rewrite <- list_fmap_compose. apply list_fmap_ext.
  by intros i [[[t p] e] v] _.
Qed.

Lemma Snapshot_NoDup m : NoDup (snap_key <$> Snapshot m).
Proof.
  rewrite Snapshot_keys. apply (sublist_NoDup _ _ (NoDup_fst_map_to_list m)).
  apply fmap_sublist, sublist_filter.
Qed.

(** Restart: rebuilding a fresh meter from a snapshot gives every counter back its
    value, whatever order the snapshot lists them in; counters that were zero or negative
    restart at zero. *)
Theorem meter_restore m snaps tenantID period event :
  snaps ≡ₚ Snapshot m →
  Current (RestoreFromAggregates NewUsageMeter snaps) tenantID period event =
    Z.max 0 (Current m tenantID period event).
Proof.
  intros Hp. set (k := (tenantID, period, event)).
  assert (Hnd : NoDup (snap_key <$> snaps)) by (rewrite Hp; apply Snapshot_NoDup).
  unfold Current. rewrite restore_lookup by done. unfold NewUsageMeter. rewrite lookup_empty. fold k.
  destruct (list_find (λ s, snap_key s = k) snaps) as [[i s]|] eqn:Hf; simpl.
  - apply list_find_Some in Hf as (Hi & Hk & _). apply list_elem_of_lookup_2 in Hi. rewrite Hp in Hi.
    unfold Snapshot in Hi. apply list_elem_of_fmap in Hi as ([[[t p] e] v] & -> & Hin).
    apply list_elem_of_filter in Hin as [Hv Hin]. apply elem_of_map_to_list in Hin.
    unfold snap_key in Hk. subst k. simpl in Hk, Hv |- *. injection Hk as <- <- <-.
    rewrite Hin. simpl. lia.
  - apply list_find_None in Hf. rewrite Forall_forall in Hf.
    destruct (m !! k) as [v|] eqn:Hm; simpl; [|lia].
    destruct (decide (0 < v)); [|lia]. exfalso.
    apply (Hf {| us_TenantID := tenantID; us_Period := period; us_Event := event; us_Count := v |}); [|done].
    rewrite Hp. unfold Snapshot. apply list_elem_of_fmap. exists (k, v). split; [done |].
    apply list_elem_of_filter. split; [done |]. by apply elem_of_map_to_list.
Qed.

Lemma meter_restore_witness :
  Current (RestoreFromAggregates NewUsageMeter
     (Snapshot (Record_ NewUsageMeter "t1" "2025-01" EventMessage 7))) "t1" "2025-01" EventMessage = 7.
Proof.
  rewrite (meter_restore (Record_ NewUsageMeter "t1" "2025-01" EventMessage 7) _ "t1" "2025-01" EventMessage
    ltac:(reflexivity)).
  vm_compute. reflexivity.
Defined.

(** ** Life of an API key *)

Lemma revoke_loop_unique now s id ks h k :
  NoDup ks → h ∈ ks → keys s !! h = Some k → k_ID k = id →
  (∀ h' k', keys s !! h' = Some k' → k_ID k' = id → h' = h) →
  revoke_loop now s id ks = (with_keys s (<[h := revoke now k]> (keys s)), None).
Proof.
  intros Hnd Hin Hk Hid Huniq. induction ks as [|h' ks IH]; [by apply elem_of_nil in Hin |].
  apply NoDup_cons in Hnd as [Hn Hnd]. simpl. destruct (decide (h' = h)) as [->|Hne].
  - by rewrite Hk, decide_True.
  - apply elem_of_cons in Hin as [->|Hin]; [done |].
    destruct (keys s !! h') as [k'|] eqn:Hk'; [|by apply IH].
    rewrite decide_False; [by apply IH |]. intros Heq. by apply Hne, (Huniq h' k').
Qed.

(** Life of an API key: the plaintext of a generated key is recognised as an API key
    and its hash finds the stored record, which is valid; once its ID is revoked (IDs
    being distinct) the same plaintext finds a key that is invalid at every later instant,
    and every other key is untouched. *)
Theorem api_key_lifecycle hashKey env id encoded now tenantID name plaintext k s ks now' :
  GenerateAPIKey hashKey env id encoded now tenantID name = Some (plaintext, k) →
  RangeOrder (keys (PutAPIKey s k)) ks →
  (∀ h' k', keys s !! h' = Some k' → k_ID k' ≠ id) →
  IsAPIKeyToken plaintext = true ∧
  ∃ hash, HashAPIKey hashKey plaintext = Ok hash ∧
    GetAPIKeyByHash (PutAPIKey s k) hash = Ok k ∧ (∀ t, IsValid t k = true) ∧
    let '(s', err) := RevokeAPIKey ks now' (PutAPIKey s k) id in
    err = None ∧
    (∃ k', GetAPIKeyByHash s' hash = Ok k' ∧ k_TenantID k' = tenantID ∧ ∀ t, IsValid t k' = false) ∧
    ∀ h', h' ≠ hash → GetAPIKeyByHash s' h' = GetAPIKeyByHash s h'.
Proof.
  unfold GenerateAPIKey. destruct (_ <? _)%nat; [done |]. intros [= <- <-] Hord Huniq.
  set (plain := keyEnvPrefix env +:+ encoded). set (k := Build_APIKey _ _ _ _ _ _ _ _) in *.
  assert (Htok : HasPrefix plain apiKeyPrefixLive || HasPrefix plain apiKeyPrefixTest ||
                 HasPrefix plain apiKeyPrefixLegacy = true).
  { unfold plain, keyEnvPrefix. case_decide.
    - replace (HasPrefix _ apiKeyPrefixTest) with true; [by rewrite orb_true_r |].
      symmetry. apply HasPrefix_spec. by exists encoded.
    - replace (HasPrefix _ apiKeyPrefixLive) with true; [done |].
      symmetry. apply HasPrefix_spec. by exists encoded. }
  split; [done |]. exists (hashKey plain). unfold HashAPIKey. rewrite Htok.
  assert (Hk : keys (PutAPIKey s k) !! hashKey plain = Some k) by (simpl; by rewrite lookup_insert_eq).
  split_and!; [done | unfold GetAPIKeyByHash; by rewrite Hk | done |].
  unfold RevokeAPIKey.
  rewrite (revoke_loop_unique _ _ id ks (hashKey plain) k).
  - split_and!; [done | |].
    + exists (revoke now' k). unfold GetAPIKeyByHash. simpl. by rewrite lookup_insert_eq.
    + intros h' Hne. unfold GetAPIKeyByHash. simpl. by rewrite !lookup_insert_ne by done.
  - apply (range_order_NoDup _ _ Hord).
  - apply (range_order_elem_of _ _ _ Hord). eauto.
  - done.
  - done.
  - intros h' k'. simpl. destruct (decide (h' = hashKey plain)); [done |].
    rewrite lookup_insert_ne by done. intros Hl Hid. by destruct (Huniq h' k').
Qed.

Lemma api_key_lifecycle_witness : IsAPIKeyToken "sk_live_abcdefghij" = true.
Proof.
  destruct (api_key_lifecycle (λ p, p) "production" "k1" "abcdefghij" 0 "t1" "ci" _ _ NewBillingStore
    ["sk_live_abcdefghij"] 5 ltac:(vm_compute; reflexivity)
    ltac:(unfold RangeOrder; vm_compute; reflexivity)
    ltac:(intros h' k' Hk; vm_compute in Hk; discriminate)) as [H _].
  exact H.
Defined.

(** ** Failed authentications are throttled *)

#[local] Open Scope Q_scope.

(** What a client that always fails authentication does: ask, and pay when admitted. *)
Definition auth_attempt (now : Z) (al : authLimiter) (ip : string) : bool * authLimiter :=
  let '(ok, al1) := auth_Allow now al ip in
  if ok then (true, Consume now al1 ip) else (false, al1).

Inductive auth_event := Attempt (ip : string) | Collect.

(** A run of attempts and collector ticks; counts the admitted attempts of [ip]. *)
Fixpoint auth_run (ip : string) (evs : list (Z * auth_event)) (al : authLimiter) : Z * authLimiter :=
  match evs with
  | [] => (0%Z, al)
  | (now, Collect) :: evs' => auth_run ip evs' (gc now al)
  | (now, Attempt ip') :: evs' =>
      let '(ok, al') := auth_attempt now al ip' in
      let '(n, al'') := auth_run ip evs' al' in
      (((if ok && bool_decide (ip' = ip) then 1 else 0) + n)%Z, al'')
  end.

Definition auth_bucket_ok (now : Z) (b : authBucket) : Prop :=
  0 <= ab_tokens b <= 10 /\ ab_lastSeen b = ab_lastUpdate b /\ (ab_lastUpdate b ≤ now)%Z.

Definition auth_ok (now : Z) (al : authLimiter) : Prop :=
  ∀ ip b, al !! ip = Some b → auth_bucket_ok now b.

(** The tokens a request at [now] would find. *)
Definition level (now : Z) (ob : option authBucket) : Q :=
  match ob with None => 10 | Some b => ab_tokens (refill now b) end.

Lemma Seconds_0 : Seconds 0 == 0.
Proof. reflexivity. Qed.

Lemma refill_spec now b :
  auth_bucket_ok now b →
  let x := ab_tokens b + Seconds (now - ab_lastUpdate b) in
  let r := ab_tokens (refill now b) in
  r <= x /\ 0 <= r <= 10 /\ (r == x \/ r == 10).
Proof.
  intros (Ht & _ & Hle). pose proof (Seconds_nonneg (now - ab_lastUpdate b) ltac:(lia)) as Hs.
  unfold refill, authBucketCapacity, authBucketRate; simpl.
  destruct (Qle_bool _ 10) eqn:Hc; simpl.
  - apply Qle_bool_iff in Hc. split_and!; [lra.. | left; lra].
  - assert (¬ ab_tokens b + Seconds (now - ab_lastUpdate b) * 1 <= 10).
    { intros H. apply Qle_bool_iff in H. congruence. }
    split_and!; [lra.. | right; lra].
Qed.

Lemma refill_same now b : auth_bucket_ok now b → ab_lastUpdate b = now → ab_tokens (refill now b) == ab_tokens b.
Proof.
  intros Hok Hl. pose proof (refill_spec now b Hok) as H. cbv zeta in H.
  rewrite Hl, Z.sub_diag, Seconds_0 in H. destruct H as (H1 & H2 & [H3|H3]), Hok as (Ht & _); lra.
Qed.

(** The bucket that [getOrCreate] and [refill] produce holds the level. *)
Lemma current_bucket now al ip :
  auth_ok now al →
  let b := refill now (getOrCreate now al ip) in
  ab_tokens b == level now (al !! ip) /\ auth_bucket_ok now b /\ ab_lastUpdate b = now.
Proof.
  intros Hok. unfold getOrCreate, level. destruct (al !! ip) as [b|] eqn:Hb.
  - pose proof (Hok ip b Hb) as Hbok. pose proof (refill_spec now b Hbok) as (_ & Hr & _).
    split_and!; [reflexivity | | done]. split; [exact Hr |]. by split; [|simpl; lia].
  - set (b := Build_authBucket _ _ _).
    assert (Hbok : auth_bucket_ok now b) by (unfold b, authBucketCapacity; split; simpl; [lra | lia]).
    pose proof (refill_spec now b Hbok) as (_ & Hr & _). split_and!; [|split; [exact Hr | by split; [|simpl; lia]] | done].
    rewrite (refill_same now b Hbok eq_refl). reflexivity.
Qed.

Lemma level_fresh now b : auth_bucket_ok now b → ab_lastUpdate b = now → level now (Some b) == ab_tokens b.
Proof. apply refill_same. Qed.

Lemma auth_ok_insert now al ip b : auth_ok now al → auth_bucket_ok now b → auth_ok now (<[ip := b]> al).
Proof.
  intros Hal Hb ip' b'. destruct (decide (ip = ip')) as [->|Hne].
  - rewrite lookup_insert_eq. by intros [= <-].
  - rewrite lookup_insert_ne by done. apply Hal.
Qed.

Lemma auth_attempt_spec now al ip :
  auth_ok now al →
  let '(ok, al') := auth_attempt now al ip in
  auth_ok now al' /\ (∀ ip', ip' ≠ ip → al' !! ip' = al !! ip') /\
  level now (al' !! ip) + inject_Z (if ok then 1 else 0) == level now (al !! ip).
Proof.
  intros Hok. unfold auth_attempt, auth_Allow.
  destruct (current_bucket now al ip Hok) as (Ht & Hb & Hl). cbv zeta in *.
  set (b := refill now (getOrCreate now al ip)) in *. clearbody b. destruct (Qle_bool 1 (ab_tokens b)) eqn:Hc.
  - apply Qle_bool_iff in Hc. unfold Consume.
    pose proof (auth_ok_insert now al ip b Hok Hb) as Hok1.
    destruct (current_bucket now (<[ip := b]> al) ip Hok1) as (Ht2 & Hb2 & Hl2).
    set (b2 := refill now (getOrCreate now (<[ip := b]> al) ip)) in *. cbv zeta in *.
    rewrite lookup_insert_eq, (level_fresh now b Hb Hl) in Ht2.
    assert (Hc2 : Qle_bool 1 (ab_tokens b2) = true) by (apply Qle_bool_iff; lra).
    clearbody b2. rewrite Hc2. set (b3 := Build_authBucket _ _ _).
    assert (Hb3 : auth_bucket_ok now b3).
    { destruct Hb2 as (Hr & Hs & Hu). split; [simpl; lra | done]. }
    split_and!; [by repeat apply auth_ok_insert | |].
    + intros ip' Hne. by rewrite !lookup_insert_ne.
    + rewrite lookup_insert_eq, (level_fresh now b3 Hb3 Hl2). simpl. change (inject_Z 1) with 1. lra.
  - split_and!; [by apply auth_ok_insert | by intros; rewrite lookup_insert_ne |].
    rewrite lookup_insert_eq, (level_fresh now b Hb Hl). change (inject_Z 0) with 0. lra.
Qed.

Lemma level_later now now' ob :
  (∀ b, ob = Some b → auth_bucket_ok now b) → (now ≤ now')%Z →
  level now' ob <= level now ob + Seconds (now' - now).
Proof.
  intros Hob Hle. pose proof (Seconds_nonneg (now' - now) ltac:(lia)) as Hs.
  destruct ob as [b|]; unfold level; [|lra]. pose proof (Hob b eq_refl) as (Ht & Hs' & Hu).
  pose proof (refill_spec now b (conj Ht (conj Hs' Hu))) as (_ & _ & H).
  assert (Hok' : auth_bucket_ok now' b) by (split_and!; [lra | lra | done | lia]).
  pose proof (refill_spec now' b Hok') as (H1' & H2' & _). cbv zeta in *.
  assert (Hsum : Seconds (now' - ab_lastUpdate b) == Seconds (now' - now) + Seconds (now - ab_lastUpdate b)).
  { rewrite <- Seconds_add. by replace (now' - now + (now - ab_lastUpdate b))%Z with (now' - ab_lastUpdate b)%Z by lia. }
  rewrite Hsum in H1'. destruct H; lra.
Qed.

(** The collector only removes buckets that have filled up again. *)
Lemma gc_level now al ip : auth_ok now al → level now (gc now al !! ip) == level now (al !! ip).
Proof.
  intros Hok. unfold gc. destruct (al !! ip) as [b|] eqn:Hb.
  - destruct (decide (ab_lastSeen b < now - authBucketGCIdle)%Z) as [Hold|Hnew].
    + rewrite map_lookup_filter_None_2; [|right; intros b' Hb'; simplify_eq; simpl; tauto].
      pose proof (Hok ip b Hb) as (Ht & Hs & Hu).
      pose proof (refill_spec now b (conj Ht (conj Hs Hu))) as (_ & Hr & H). cbv zeta in *. unfold level.
      assert (Hh : 3600 <= Seconds (now - ab_lastUpdate b)).
      { unfold authBucketGCIdle in Hold. rewrite Hs in Hold.
        replace (now - ab_lastUpdate b)%Z with (Hour + (now - ab_lastUpdate b - Hour))%Z by lia.
        rewrite Seconds_add. pose proof (Seconds_nonneg (now - ab_lastUpdate b - Hour) ltac:(lia)).
        assert (Seconds Hour == 3600) by reflexivity. lra. }
      destruct H; lra.
    + rewrite (map_lookup_filter_Some_2 _ al ip b Hb); [reflexivity | done].
  - by rewrite map_lookup_filter_None_2 by (by left).
Qed.

Lemma gc_ok now al : auth_ok now al → auth_ok now (gc now al).
Proof. intros Hok ip b [Hb _]%map_lookup_filter_Some. by apply (Hok ip). Qed.

Lemma auth_ok_later now now' al : auth_ok now al → (now ≤ now')%Z → auth_ok now' al.
Proof. intros Hok Hle ip b Hb. destruct (Hok ip b Hb) as (? & ? & ?). split_and!; [lra | lra | done | lia]. Qed.

Lemma auth_run_potential ip evs now al :
  auth_ok now al → Sorted Z.le (now :: evs.*1) →
  inject_Z (auth_run ip evs al).1 <= level now (al !! ip) + Seconds (List.last evs.*1 now - now).
Proof.
  revert now al. induction evs as [|[t ev] evs IH]; intros now al Hok Hs.
  { simpl. rewrite Z.sub_diag, Seconds_0. change (inject_Z 0) with 0. unfold level.
    destruct (al !! ip) as [b|] eqn:Hb; [|lra].
    pose proof (refill_spec now b (Hok ip b Hb)) as (_ & ? & _). lra. }
  rewrite fmap_cons in Hs |- *. simpl in Hs.
  inversion Hs as [|? ? Hs' Hd]; subst. inversion Hd as [|? ? Hle]; subst.
  cbn [fst]. rewrite last_cons_default.
  pose proof (auth_ok_later _ _ _ Hok Hle) as Hok'.
  pose proof (level_later now t (al !! ip) (λ b Hb, Hok ip b Hb) Hle) as Hlev.
  assert (Hsum : Seconds (List.last evs.*1 t - now) == Seconds (List.last evs.*1 t - t) + Seconds (t - now)).
  { rewrite <- Seconds_add. by replace (List.last evs.*1 t - t + (t - now))%Z with (List.last evs.*1 t - now)%Z by lia. }
  rewrite Hsum. cbn [auth_run]. destruct ev as [ip'|].
  - pose proof (auth_attempt_spec t al ip' Hok') as HA. destruct (auth_attempt t al ip') as [ok al'].
    destruct HA as (Hok2 & Hother & Hl). specialize (IH t al' Hok2 Hs').
    destruct (auth_run ip evs al') as [n al'']. cbn [fst] in *. rewrite inject_Z_plus.
    destruct (decide (ip' = ip)) as [->|Hne].
    + rewrite bool_decide_true, andb_true_r by done. lra.
    + rewrite bool_decide_false, andb_false_r by done. rewrite Hother in IH by done.
      change (inject_Z 0) with 0. lra.
  - specialize (IH t (gc t al) (gc_ok _ _ Hok') Hs'). rewrite (gc_level t al ip Hok') in IH. lra.
Qed.

(** Brute force is throttled: whatever other addresses do and whenever the idle-bucket
    collector runs, the authentication attempts one address gets admitted when all of them
    fail are at most ten plus one per elapsed second; the collector never changes what a
    later request finds. *)
Theorem auth_failures_bounded ip evs al now :
  Sorted Z.le (now :: evs.*1) → auth_ok now al →
  inject_Z (auth_run ip evs ∅).1 <= 10 + Seconds (List.last evs.*1 now - now) /\
  level now (gc now al !! ip) == level now (al !! ip).
Proof.
  intros Hs Hok. split.
  - pose proof (auth_run_potential ip evs now ∅) as H. rewrite lookup_empty in H. apply H; [|done].
    intros ip' b. by rewrite lookup_empty.
  - by apply gc_level.
Qed.

Lemma auth_failures_bounded_witness :
  inject_Z (auth_run "10.0.0.1" [(0%Z, Attempt "10.0.0.1"); (Second, Collect); (Second, Attempt "10.0.0.1")] ∅).1
  <= 10 + Seconds (Second - 0).
Proof.
  destruct (auth_failures_bounded "10.0.0.1"
    [(0%Z, Attempt "10.0.0.1"); (Second, Collect); (Second, Attempt "10.0.0.1")] ∅ 0
    ltac:(repeat constructor; vm_compute; discriminate)
    ltac:(intros ip b Hb; rewrite lookup_empty in Hb; discriminate)) as [H _].
  exact H.
Defined.
