(* ===== verification/Http.v ===== *)
(** * HTTP requests (the helpers the HTTP handlers share)

    The parts of a request that the handlers read, the header functions of the standard
    library they call, and the address a request is attributed to (realIP of
    src/pkg/billing/auth_limiter.go, signupRealIP of src/cmd/relay/signup.go).  A header
    that is absent reads as the empty string, as [Header.Get] returns it. *)

From S2P Require Import Prelude.
#[local] Open Scope Z_scope.

Record HTTPError := { http_code : Z; http_text : string }.

Definition StatusBadRequest : Z := 400.
Definition StatusUnauthorized : Z := 401.
Definition StatusPaymentRequired : Z := 402.
Definition StatusForbidden : Z := 403.
Definition StatusMethodNotAllowed : Z := 405.
Definition StatusConflict : Z := 409.
Definition StatusTooManyRequests : Z := 429.
Definition StatusInternalServerError : Z := 500.
Definition StatusBadGateway : Z := 502.
Definition StatusServiceUnavailable : Z := 503.

(** ** Package strings, on ASCII *)

(** [strings.SplitN(s, " ", 2)] when it yields two parts. *)
Fixpoint cut_space (s : string) : option (string * string) :=
  match s with
  | EmptyString => None
  | String a s' =>
      if decide (a = Ascii.ascii_of_nat 32) then Some (EmptyString, s')
      else match cut_space s' with Some (x, y) => Some (String a x, y) | None => None end
  end.

Definition lower (a : Ascii.ascii) : Ascii.ascii :=
  let n := Ascii.nat_of_ascii a in
  if ((65 <=? n) && (n <=? 90))%nat then Ascii.ascii_of_nat (n + 32) else a.

(** [strings.EqualFold] against an ASCII word. *)
Fixpoint EqualFold (s t : string) : bool :=
  match s, t with
  | EmptyString, EmptyString => true
  | String a s', String b t' => Ascii.eqb (lower a) (lower b) && EqualFold s' t'
  | _, _ => false
  end.

(** [strings.ToLower] on ASCII text. *)
Fixpoint ToLower (s : string) : string :=
  match s with EmptyString => EmptyString | String a s' => String (lower a) (ToLower s') end.

Fixpoint drop_while (p : Ascii.ascii → bool) (s : string) : string :=
  match s with
  | EmptyString => EmptyString
  | String a s' => if p a then drop_while p s' else s
  end.

Fixpoint string_rev_append (s acc : string) : string :=
  match s with EmptyString => acc | String a s' => string_rev_append s' (String a acc) end.
Definition string_rev (s : string) : string := string_rev_append s EmptyString.

(** Remove characters from both ends, from the right end. *)
Definition trim_by (p : Ascii.ascii → bool) (s : string) : string :=
  string_rev (drop_while p (string_rev (drop_while p s))).
Definition trim_right_by (p : Ascii.ascii → bool) (s : string) : string :=
  string_rev (drop_while p (string_rev s)).

Definition is_slash (a : Ascii.ascii) : bool := Ascii.eqb a (Ascii.ascii_of_nat 47).
Definition is_blank (a : Ascii.ascii) : bool :=
  Ascii.eqb a (Ascii.ascii_of_nat 32) || Ascii.eqb a (Ascii.ascii_of_nat 9).

(** ASCII white space of [unicode.IsSpace]: space and the characters 9 to 13. *)
Definition is_space (a : Ascii.ascii) : bool :=
  let n := Ascii.nat_of_ascii a in ((n =? 32) || ((9 <=? n) && (n <=? 13)))%nat.
Definition TrimSpace : string → string := trim_by is_space.

Fixpoint index_byte (c : Ascii.ascii) (s : string) : option nat :=
  match s with
  | EmptyString => None
  | String a s' => if decide (a = c) then Some 0%nat else S <$> index_byte c s'
  end.

Fixpoint last_index_byte (c : Ascii.ascii) (s : string) : option nat :=
  match s with
  | EmptyString => None
  | String a s' => match last_index_byte c s' with
                   | Some n => Some (S n)
                   | None => if decide (a = c) then Some 0%nat else None
                   end
  end.

Definition before (n : nat) (s : string) : string := String.substring 0 n s.
Definition from (n : nat) (s : string) : string := String.substring n (String.length s - n) s.

Definition colon : Ascii.ascii := Ascii.ascii_of_nat 58.
Definition comma : Ascii.ascii := Ascii.ascii_of_nat 44.
Definition open_bracket : Ascii.ascii := Ascii.ascii_of_nat 91.
Definition close_bracket : Ascii.ascii := Ascii.ascii_of_nat 93.

Definition has_byte (c : Ascii.ascii) (s : string) : bool := bool_decide (is_Some (index_byte c s)).

(** [net.SplitHostPort]; [None] is its error. *)
Definition SplitHostPort (hostport : string) : option (string * string) :=
  match last_index_byte colon hostport with
  | None => None
  | Some i =>
      let port := from (S i) hostport in
      if HasPrefix hostport "[" then
        match index_byte close_bracket hostport with
        | None => None
        | Some close =>
            if bool_decide (S close = i) && negb (has_byte open_bracket (from 1 hostport))
               && negb (has_byte close_bracket (from (S close) hostport))
            then Some (String.substring 1 (close - 1) hostport, port) else None
        end
      else
        let host := before i hostport in
        if has_byte colon host || has_byte open_bracket hostport || has_byte close_bracket hostport
        then None else Some (host, port)
  end.

(** The host of a remote address; the address itself when it has no port. *)
Definition remote_host (addr : string) : string :=
  match SplitHostPort addr with Some (host, _) => host | None => addr end.

(** ** Requests *)

Record Request := {
  rq_Method : string;
  rq_Path : string;
  rq_Authorization : string;
  rq_XRealIP : string;
  rq_XForwardedFor : string;
  rq_RemoteAddr : string;
}.

Definition trim : string → string := trim_by is_blank.

(** The pieces between the commas, trimmed, without the empty ones; [acc] holds the
    current piece in reverse. *)
Fixpoint split_comma (v acc : string) : list string :=
  match v with
  | EmptyString => [string_rev acc]
  | String a v' => if decide (a = comma) then string_rev acc :: split_comma v' EmptyString
                   else split_comma v' (String a acc)
  end.

Definition splitHeader (v : string) : list string :=
  filter (λ s, s ≠ EmptyString) (trim <$> split_comma v EmptyString).


Definition realIP (r : Request) : string :=
  if decide (rq_XRealIP r ≠ EmptyString) then rq_XRealIP r
  else match (if decide (rq_XForwardedFor r ≠ EmptyString) then splitHeader (rq_XForwardedFor r) else []) with
       | first :: _ => first
       | [] => remote_host (rq_RemoteAddr r)
       end.

Definition signupRealIP (r : Request) : string :=
  if decide (rq_XRealIP r ≠ EmptyString) then rq_XRealIP r
  else if decide (rq_XForwardedFor r ≠ EmptyString) then
    match index_byte comma (rq_XForwardedFor r) with
    | Some idx => TrimSpace (before idx (rq_XForwardedFor r))
    | None => TrimSpace (rq_XForwardedFor r)
    end
  else remote_host (rq_RemoteAddr r).

(** ** Examples *)

Example SplitHostPort_v4 : SplitHostPort "10.0.0.1:8080" = Some ("10.0.0.1", "8080").
Proof. reflexivity. Qed.
Example SplitHostPort_v6 : SplitHostPort "[::1]:80" = Some ("::1", "80").
Proof. reflexivity. Qed.
Example SplitHostPort_colons : SplitHostPort "::1" = None.
Proof. reflexivity. Qed.
Example splitHeader_example : splitHeader " 1.2.3.4 ,, 5.6.7.8" = ["1.2.3.4"; "5.6.7.8"].
Proof. reflexivity. Qed.
