(* ===== verification/BillingHttp.v ===== *)
(** * Billing over HTTP (src/pkg/billing: middleware.go, oauth_middleware.go)

    The three authentication middlewares and their composition.  A handler maps the
    environment of a request, the tenant in its context, the request and the state the
    middlewares share (billing store, limiter of failed authentications) to the new state
    and an answer; a middleware maps a handler to a handler.  The store is the in-memory
    one, whose reads and writes fail only as its methods do. *)

From S2P Require Import Prelude Reliability Billing Http.
From Stdlib Require Import QArith.
#[local] Open Scope Z_scope.

(** What a request takes from the outside: the clock, and the randomness of [NewTenant]
    ([he_seed] is [None] when reading random bytes fails). *)
Record HttpEnv := { he_now : Z; he_newID : string; he_seed : option string }.

Record Gate := { g_store : BillingStore; g_limiter : authLimiter }.

Definition with_store (g : Gate) (s : BillingStore) : Gate := {| g_store := s; g_limiter := g_limiter g |}.
Definition with_limiter (g : Gate) (al : authLimiter) : Gate := {| g_store := g_store g; g_limiter := al |}.

Record OAuthClaims := { oc_Subject : string; oc_Issuer : string; oc_Email : string }.

Definition fail (code : Z) (text : string) : HTTPError := {| http_code := code; http_text := text |}.

(** [baseURL] is the value of MSG2AGENT_PUBLIC_BASE_URL. *)
Definition paymentRequiredMessage (baseURL : string) : string :=
  let prefix := "payment required: update your payment method"%string in
  let base := trim_right_by is_slash baseURL in
  if decide (base = EmptyString) then prefix else prefix +:+ " at " +:+ base +:+ "/app/".

Section middleware.
(** SHA-256 in hexadecimal, BILLING_QUOTAS_FILE, and what the innermost handler answers. *)
Context (hashKey : string → string) (overrides : gmap string QuotaConfig) {R : Type}.

Inductive Answer := Refused (e : HTTPError) | Answered (r : R).

Definition Handler := HttpEnv → option Tenant → Request → Gate → Gate * Answer.

(** The token of the Authorization header, when the header has the form [Bearer <token>]. *)
Definition bearer_token (r : Request) : option string :=
  match cut_space (rq_Authorization r) with
  | Some (scheme, tok) => if EqualFold scheme "bearer" then Some tok else None
  | None => None
  end.

(** The tenant of an API key.  The flag of an error says whether the failure is counted by
    the limiter. *)
Definition api_key_tenant (now : Z) (s : BillingStore) (plaintext : string) : result (bool * HTTPError) Tenant :=
  match HashAPIKey hashKey plaintext with
  | Err _ => Err (true, fail StatusUnauthorized "invalid API key format")
  | Ok hash =>
      match GetAPIKeyByHash s hash with
      | Err _ => Err (true, fail StatusUnauthorized "invalid or unknown API key")
      | Ok key =>
          if negb (IsValid now key) then Err (true, fail StatusUnauthorized "API key has been revoked")
          else match GetTenant s (k_TenantID key) with
               | Err _ => Err (false, fail StatusUnauthorized "tenant not found")
               | Ok t => Ok t
               end
      end
  end.

(** The switch of [BearerMiddleware] over the kinds of token. *)
Definition bearer_tenant (jwtVal : option (Z → string → option string)) (now : Z) (s : BillingStore) (tok : string)
  : result (bool * HTTPError) Tenant :=
  match jwtVal with
  | Some ValidateClaims =>
      if HasPrefix tok "eyJ" then
        match ValidateClaims now tok with
        | None => Err (true, fail StatusUnauthorized "invalid or expired access token")
        | Some tenantID =>
            match GetTenant s tenantID with
            | Err _ => Err (true, fail StatusUnauthorized "tenant not found")
            | Ok t => Ok t
            end
        end
      else if IsAPIKeyToken tok then api_key_tenant now s tok
      else Err (true, fail StatusUnauthorized "unrecognized token format")
  | None => if IsAPIKeyToken tok then api_key_tenant now s tok
            else Err (true, fail StatusUnauthorized "unrecognized token format")
  end.

(** The checks between the resolution of the tenant and the next handler. *)
Definition admit_tenant (baseURL : string) (t : Tenant) : option HTTPError :=
  if decide (t_BillingStatus t = "incomplete"%string ∨ t_BillingStatus t = "past_due"%string)
  then Some (fail StatusPaymentRequired (paymentRequiredMessage baseURL))
  else if negb (IsActive t) then Some (fail StatusForbidden "tenant account is suspended")
  else None.

(** From the Authorization header to the next handler: shared by the two middlewares that
    require a credential, which differ in [resolve] and in the text [expected]. *)
Definition authenticate (baseURL expected : string) (allowAnon : bool)
    (resolve : Z → BillingStore → string → result (bool * HTTPError) Tenant) (next : Handler) : Handler :=
  λ e ctx r g,
    let ip := realIP r in
    let '(ok, al) := auth_Allow (he_now e) (g_limiter g) ip in
    let g := with_limiter g al in
    if negb ok then (g, Refused (fail StatusTooManyRequests "too many failed authentication attempts"))
    else
      let failed := with_limiter g (Consume (he_now e) al ip) in
      if decide (rq_Authorization r = EmptyString) then
        if allowAnon then next e ctx r g else (g, Refused (fail StatusUnauthorized "missing Authorization header"))
      else
        match bearer_token r with
        | None => (failed, Refused (fail StatusUnauthorized expected))
        | Some tok =>
            match resolve (he_now e) (g_store g) tok with
            | Err (counted, err) => (if counted then failed else g, Refused err)
            | Ok t => match admit_tenant baseURL t with
                      | Some err => (g, Refused err)
                      | None => next e (Some t) r g
                      end
            end
        end.

Definition BearerMiddleware (baseURL : string) (jwtVal : option (Z → string → option string)) (allowAnon : bool)
    (next : Handler) : Handler :=
  λ e ctx r g,
    if HasPrefix (rq_Path r) "/health" || HasPrefix (rq_Path r) "/.well-known/" || HasPrefix (rq_Path r) "/oauth/"
    then next e ctx r g
    else authenticate baseURL "invalid Authorization format; expected: Bearer <token>" allowAnon (bearer_tenant jwtVal) next e ctx r g.

Definition APIKeyMiddleware (baseURL : string) (allowAnon : bool) (next : Handler) : Handler :=
  λ e ctx r g,
    if HasPrefix (rq_Path r) "/health" || HasPrefix (rq_Path r) "/.well-known/"
    then next e ctx r g
    else authenticate baseURL "invalid Authorization format; expected: Bearer sk_live_..." allowAnon api_key_tenant next e ctx r g.

(** The tenant an OpenID identity stands for; a first login creates one when
    [autoProvisionPlan] is set. *)
Definition resolve_identity (autoProvisionPlan : Plan) (e : HttpEnv) (s : BillingStore) (claims : OAuthClaims)
  : BillingStore * result HTTPError string :=
  match GetOAuthIdentityTenant s (oc_Issuer claims) (oc_Subject claims) with
  | Ok tenantID => (s, Ok tenantID)
  | Err err =>
      if bool_decide (err = ErrOAuthIdentityNotFound) && bool_decide (autoProvisionPlan ≠ EmptyString) then
        match he_seed e with
        | None => (s, Err (fail StatusInternalServerError "failed to create tenant"))
        | Some seed =>
            let tenant := NewTenant overrides (he_newID e) seed (he_now e) (oc_Email claims) (oc_Email claims) autoProvisionPlan in
            (PutOAuthIdentity (PutTenant s tenant) (oc_Issuer claims) (oc_Subject claims) (t_ID tenant), Ok (t_ID tenant))
        end
      else (s, Err (fail StatusForbidden "OAuth identity not registered; contact support"))
  end.

(** [validate] is [ValidateTokenToBillingClaims]; its error is a text. *)
Definition OAuth2Middleware (validate : string → result string OAuthClaims) (autoProvisionPlan : Plan) (next : Handler) : Handler :=
  λ e ctx r g,
    if decide (rq_Authorization r = EmptyString) then next e ctx r g
    else match bearer_token r with
    | None => next e ctx r g
    | Some token =>
        if IsAPIKeyToken token then next e ctx r g
        else match validate token with
        | Err text => (g, Refused (fail StatusUnauthorized ("invalid OAuth2 token: " +:+ text)))
        | Ok claims =>
            let '(s, rtenant) := resolve_identity autoProvisionPlan e (g_store g) claims in
            let g := with_store g s in
            match rtenant with
            | Err err => (g, Refused err)
            | Ok tenantID =>
                match GetTenant s tenantID with
                | Err _ => (g, Refused (fail StatusUnauthorized "tenant not found"))
                | Ok tenant => if negb (IsActive tenant) then (g, Refused (fail StatusForbidden "tenant account is suspended"))
                               else next e (Some tenant) r g
                end
            end
        end
    end.

(** What src/cmd/mcp-server/main.go wraps around the MCP endpoint: the bearer middleware
    alone, or inside the OpenID one when an issuer is configured. *)
Definition mcp_auth (oidc : option (string → result string OAuthClaims)) (autoProvisionPlan : Plan) (baseURL : string)
    (accessTokenVal : option (Z → string → option string)) (h : Handler) : Handler :=
  let bearerMW := BearerMiddleware baseURL accessTokenVal false in
  match oidc with
  | Some validator => OAuth2Middleware validator autoProvisionPlan (bearerMW h)
  | None => bearerMW h
  end.

(** ** Who is let in *)

(** The credentials [BearerMiddleware] accepts, and the tenant each stands for. *)
Inductive credential (jwtVal : option (Z → string → option string)) (now : Z) (s : BillingStore) (tok : string) (t : Tenant) : Prop :=
| cred_jwt validate id : jwtVal = Some validate → HasPrefix tok "eyJ" = true → validate now tok = Some id →
    tenants s !! id = Some t → credential jwtVal now s tok t
| cred_key k : IsAPIKeyToken tok = true → keys s !! hashKey tok = Some k → k_RevokedAt k = None →
    (∀ x, k_ExpiresAt k = Some x → now ≤ x) → tenants s !! k_TenantID k = Some t → credential jwtVal now s tok t.

(** A valid API key whose tenant is gone. *)
Definition orphan_key (now : Z) (s : BillingStore) (tok : string) : Prop :=
  ∃ k, IsAPIKeyToken tok = true ∧ keys s !! hashKey tok = Some k ∧ IsValid now k = true ∧ tenants s !! k_TenantID k = None.

Definition paid_up (t : Tenant) : Prop := t_BillingStatus t ≠ "incomplete"%string ∧ t_BillingStatus t ≠ "past_due"%string.

Definition admissible (t : Tenant) : Prop := paid_up t ∧ IsActive t = true.

Lemma IsValid_spec now k : IsValid now k = true ↔ k_RevokedAt k = None ∧ (∀ x, k_ExpiresAt k = Some x → now ≤ x).
Proof.
  unfold IsValid. destruct (k_RevokedAt k); [by split; [|intros [? _]]|]. destruct (k_ExpiresAt k) as [x|]; [|by split].
  rewrite negb_true_iff, Z.ltb_ge. split; [intros; split; [done|]; by intros ? [= <-] | intros [_ Hx]; by apply Hx].
Qed.

Lemma eyJ_not_key tok : HasPrefix tok "eyJ" = true → IsAPIKeyToken tok = false.
Proof. intros [rest ->]%HasPrefix_spec. reflexivity. Qed.

Lemma HashAPIKey_key tok : HashAPIKey hashKey tok = if IsAPIKeyToken tok then Ok (hashKey tok) else Err ErrInvalidAPIKey.
Proof. reflexivity. Qed.

Lemma GetTenant_Ok s id t : GetTenant s id = Ok t ↔ tenants s !! id = Some t.
Proof. unfold GetTenant. destruct (tenants s !! id); split; congruence. Qed.

Lemma api_key_tenant_spec now s tok t : IsAPIKeyToken tok = true →
  api_key_tenant now s tok = Ok t ↔ credential None now s tok t.
Proof.
  intros Hk. unfold api_key_tenant. rewrite HashAPIKey_key, Hk. unfold GetAPIKeyByHash. split.
  - destruct (keys s !! hashKey tok) as [k|] eqn:Hl; [|done]. destruct (IsValid now k) eqn:Hv; [|done]. simpl.
    apply IsValid_spec in Hv as [Hr Hx]. destruct (GetTenant s (k_TenantID k)) as [t'|] eqn:Ht; [|done]. intros [= ->].
    apply GetTenant_Ok in Ht. by eapply cred_key.
  - intros [validate id Hj|k _ Hl Hr Hx Ht]; [done|]. rewrite Hl, (proj2 (IsValid_spec now k)) by done. simpl.
    apply GetTenant_Ok in Ht. by rewrite Ht.
Qed.

Lemma credential_key jwtVal now s tok t : HasPrefix tok "eyJ" = false ∨ jwtVal = None →
  credential jwtVal now s tok t ↔ credential None now s tok t.
Proof.
  intros Hj. split; intros [validate id ? Hp|]; try done; try by eapply cred_key. destruct Hj; congruence.
Qed.

Lemma bearer_tenant_spec jwtVal now s tok t : bearer_tenant jwtVal now s tok = Ok t ↔ credential jwtVal now s tok t.
Proof.
  assert (Hkey : (if IsAPIKeyToken tok then api_key_tenant now s tok else Err (true, fail StatusUnauthorized "unrecognized token format")) = Ok t
                 ↔ credential None now s tok t).
  { destruct (IsAPIKeyToken tok) eqn:Hk; [by apply api_key_tenant_spec|]. split; [done|]. intros [|]; congruence. }
  unfold bearer_tenant. destruct jwtVal as [validate|]; [|exact Hkey]. destruct (HasPrefix tok "eyJ") eqn:Hp.
  - split.
    + destruct (validate now tok) as [id|] eqn:Hv; [|done]. destruct (GetTenant s id) as [t'|] eqn:Ht; [|done]. intros [= ->].
      apply GetTenant_Ok in Ht. by eapply cred_jwt.
    + intros [validate' id [= <-] _ -> Ht%GetTenant_Ok|k Hk]; [by rewrite Ht|]. rewrite (eyJ_not_key _ Hp) in Hk. done.
  - rewrite Hkey. symmetry. apply credential_key. by left.
Qed.

Lemma admit_tenant_spec base t : admit_tenant base t = None ↔ admissible t.
Proof.
  unfold admit_tenant, admissible, paid_up. case_decide as Hs; [split; [done | naive_solver]|].
  destruct (IsActive t); simpl; split; naive_solver.
Qed.

Lemma bearer_token_header r tok : bearer_token r = Some tok → rq_Authorization r ≠ EmptyString.
Proof. unfold bearer_token. intros Ht He. rewrite He in Ht. done. Qed.

(** A failure is counted unless it is that of a valid key without tenant. *)
Lemma bearer_tenant_counted jwtVal now s tok counted err : bearer_tenant jwtVal now s tok = Err (counted, err) →
  ¬ orphan_key now s tok → counted = true.
Proof.
  intros He Ho. assert (Hkey : api_key_tenant now s tok = Err (counted, err) → IsAPIKeyToken tok = true → counted = true).
  { unfold api_key_tenant. rewrite HashAPIKey_key. intros Ha Hk. rewrite Hk in Ha. unfold GetAPIKeyByHash in Ha.
    destruct (keys s !! hashKey tok) as [k|] eqn:Hl; [|congruence]. destruct (IsValid now k) eqn:Hv; simpl in Ha; [|congruence].
    unfold GetTenant in Ha. destruct (tenants s !! k_TenantID k) eqn:Ht; [congruence|]. destruct Ho. by exists k. }
  unfold bearer_tenant in He. destruct jwtVal as [validate|]; [destruct (HasPrefix tok "eyJ")|].
  - destruct (validate now tok); [|congruence]. destruct (GetTenant s _); congruence.
  - destruct (IsAPIKeyToken tok); [by apply Hkey | congruence].
  - destruct (IsAPIKeyToken tok); [by apply Hkey | congruence].
Qed.

Definition public_path (r : Request) : bool :=
  HasPrefix (rq_Path r) "/health" || HasPrefix (rq_Path r) "/.well-known/" || HasPrefix (rq_Path r) "/oauth/".

(** The request carries a credential of an admissible tenant. *)
Definition authorised (jwtVal : option (Z → string → option string)) (now : Z) (s : BillingStore) (r : Request) (t : Tenant) : Prop :=
  ∃ tok, bearer_token r = Some tok ∧ credential jwtVal now s tok t ∧ admissible t.

Lemma bearer_lets_in base jwtVal (next : Handler) e ctx r g t : public_path r = false →
  (auth_Allow (he_now e) (g_limiter g) (realIP r)).1 = true → authorised jwtVal (he_now e) (g_store g) r t →
  BearerMiddleware base jwtVal false next e ctx r g =
  next e (Some t) r (with_limiter g (auth_Allow (he_now e) (g_limiter g) (realIP r)).2).
Proof.
  intros Hp Hok (tok & Ht & Hc & Ha). unfold BearerMiddleware. unfold public_path in Hp. rewrite Hp. unfold authenticate.
  destruct (auth_Allow (he_now e) (g_limiter g) (realIP r)) as [ok al]. simpl in *. subst ok. simpl.
  rewrite decide_False by (by eapply bearer_token_header). rewrite Ht.
  apply bearer_tenant_spec in Hc. apply (admit_tenant_spec base) in Ha. by rewrite Hc, Ha.
Qed.

(** A valid credential of a tenant that is refused, for instance because it has not paid. *)
Lemma bearer_refuses_tenant base jwtVal (next : Handler) e ctx r g tok t err : public_path r = false →
  (auth_Allow (he_now e) (g_limiter g) (realIP r)).1 = true → bearer_token r = Some tok →
  credential jwtVal (he_now e) (g_store g) tok t → admit_tenant base t = Some err →
  BearerMiddleware base jwtVal false next e ctx r g =
  (with_limiter g (auth_Allow (he_now e) (g_limiter g) (realIP r)).2, Refused err).
Proof.
  intros Hp Hok Ht Hc Ha. unfold BearerMiddleware. unfold public_path in Hp. rewrite Hp. unfold authenticate.
  destruct (auth_Allow (he_now e) (g_limiter g) (realIP r)) as [ok al]. simpl in *. subst ok. simpl.
  rewrite decide_False by (by eapply bearer_token_header). rewrite Ht.
  apply bearer_tenant_spec in Hc. by rewrite Hc, Ha.
Qed.

(** C16. Outside the public paths the bearer middleware calls the handler exactly for the
    requests whose address still has attempts left and whose token is a valid access token
    or API key of a tenant that is active and paid up, with that tenant in the context;
    every other request is refused and changes nothing but the limiter; and a token that
    stands for no tenant costs the address one attempt. *)
Theorem bearer_admission base jwtVal (next : Handler) e ctx r g : public_path r = false →
  let ok := (auth_Allow (he_now e) (g_limiter g) (realIP r)).1 in
  let al := (auth_Allow (he_now e) (g_limiter g) (realIP r)).2 in
  let run := BearerMiddleware base jwtVal false next e ctx r g in
  (∀ t, ok = true → authorised jwtVal (he_now e) (g_store g) r t → run = next e (Some t) r (with_limiter g al)) ∧
  (ok = false ∨ (¬ ∃ t, authorised jwtVal (he_now e) (g_store g) r t) → ∃ err al', run = (with_limiter g al', Refused err)) ∧
  (∀ tok, ok = true → bearer_token r = Some tok → (¬ ∃ t, credential jwtVal (he_now e) (g_store g) tok t) →
     ¬ orphan_key (he_now e) (g_store g) tok → run.1 = with_limiter g (Consume (he_now e) al (realIP r))).
Proof.
  intros Hp ok al run. split; [intros t Hok Ha; by apply bearer_lets_in |].
  unfold run, BearerMiddleware. unfold public_path in Hp. rewrite Hp. unfold authenticate. unfold ok, al. clear run ok al Hp.
  destruct (auth_Allow (he_now e) (g_limiter g) (realIP r)) as [[] al]; simpl; [|split; [eauto | done]].
  split.
  - intros [|Hno]; [done|]. case_decide; [eauto|]. destruct (bearer_token r) as [tok|] eqn:Ht; [|unfold with_limiter; eauto].
    destruct (bearer_tenant jwtVal (he_now e) (g_store g) tok) as [t|[[] err]] eqn:Hb; [|unfold with_limiter; eauto..].
    destruct (admit_tenant base t) as [err|] eqn:Ha; [eauto|]. destruct Hno. exists t, tok.
    split_and!; [done | by apply bearer_tenant_spec | by apply (admit_tenant_spec base)].
  - intros tok _ Ht Hno Ho. rewrite decide_False by (by eapply bearer_token_header). rewrite Ht.
    destruct (bearer_tenant jwtVal (he_now e) (g_store g) tok) as [t|[counted err]] eqn:Hb.
    + destruct Hno. exists t. by apply bearer_tenant_spec.
    + by rewrite (bearer_tenant_counted _ _ _ _ _ _ Hb Ho).
Qed.

End middleware.

(** ** The OpenID middleware in front of the bearer middleware *)

Section chain.
Context (hashKey : string → string) (overrides : gmap string QuotaConfig) {R : Type}.
Implicit Types (next : Handler (R:=R)) (g : Gate) (r : Request).

Lemma OAuth2Middleware_login validate plan next e ctx r g tok claims id t :
  bearer_token r = Some tok → IsAPIKeyToken tok = false → validate tok = Ok claims →
  oauthIds (g_store g) !! oauth_key (oc_Issuer claims) (oc_Subject claims) = Some id →
  tenants (g_store g) !! id = Some t → IsActive t = true →
  OAuth2Middleware overrides validate plan next e ctx r g = next e (Some t) r g.
Proof.
  intros Hb Hk Hv Ho Ht Ha. unfold OAuth2Middleware. rewrite decide_False by (by eapply bearer_token_header). rewrite Hb, Hk, Hv.
  unfold resolve_identity, GetOAuthIdentityTenant. rewrite Ho. simpl. apply GetTenant_Ok in Ht. rewrite Ht, Ha. by destruct g.
Qed.

Lemma OAuth2Middleware_reject validate plan next e ctx r g tok text :
  bearer_token r = Some tok → IsAPIKeyToken tok = false → validate tok = Err text →
  OAuth2Middleware overrides validate plan next e ctx r g = (g, Refused (fail StatusUnauthorized ("invalid OAuth2 token: " +:+ text))).
Proof.
  intros Hb Hk Hv. unfold OAuth2Middleware. rewrite decide_False by (by eapply bearer_token_header). by rewrite Hb, Hk, Hv.
Qed.

Lemma OAuth2Middleware_key validate plan next e ctx r g tok :
  bearer_token r = Some tok → IsAPIKeyToken tok = true →
  OAuth2Middleware overrides validate plan next e ctx r g = next e ctx r g.
Proof.
  intros Hb Hk. unfold OAuth2Middleware. rewrite decide_False by (by eapply bearer_token_header). by rewrite Hb, Hk.
Qed.

(** With an OpenID issuer configured, only API keys get through to the MCP endpoint: a
    login that the OpenID middleware accepts for an active tenant is refused by the bearer
    middleware behind it unless the own authorization server vouches for the same token,
    and an access token of the own server that the issuer does not know is
    refused by the OpenID middleware before it. *)
Theorem oidc_chain_refuses_logins validator plan base accessTokenVal next e ctx r g tok :
  let mcp := mcp_auth hashKey overrides (Some validator) plan base accessTokenVal next e ctx r g in
  public_path r = false → bearer_token r = Some tok →
  (∀ claims id t, validator tok = Ok claims → IsAPIKeyToken tok = false →
     oauthIds (g_store g) !! oauth_key (oc_Issuer claims) (oc_Subject claims) = Some id →
     tenants (g_store g) !! id = Some t → IsActive t = true →
     (∀ validate, accessTokenVal = Some validate → validate (he_now e) tok = None) →
     ∃ err, mcp.2 = Refused err ∧ (http_code err = StatusUnauthorized ∨ http_code err = StatusTooManyRequests) ∧
            g_store mcp.1 = g_store g) ∧
  (∀ validate id text, accessTokenVal = Some validate → validate (he_now e) tok = Some id → IsAPIKeyToken tok = false →
     validator tok = Err text → mcp = (g, Refused (fail StatusUnauthorized ("invalid OAuth2 token: " +:+ text)))) ∧
  (∀ t, (auth_Allow (he_now e) (g_limiter g) (realIP r)).1 = true → IsAPIKeyToken tok = true →
     authorised hashKey accessTokenVal (he_now e) (g_store g) r t →
     mcp = next e (Some t) r (with_limiter g (auth_Allow (he_now e) (g_limiter g) (realIP r)).2)).
Proof.
  intros mcp Hp Hb. unfold mcp, mcp_auth. split_and!.
  - intros claims id t Hv Hk Ho Ht Ha Hj. rewrite (OAuth2Middleware_login _ _ _ _ _ _ _ _ _ _ _ Hb Hk Hv Ho Ht Ha).
    unfold BearerMiddleware. unfold public_path in Hp. rewrite Hp. unfold authenticate.
    destruct (auth_Allow (he_now e) (g_limiter g) (realIP r)) as [[] al]; simpl; [|eauto].
    rewrite decide_False by (by eapply bearer_token_header). rewrite Hb. unfold bearer_tenant. rewrite Hk.
    destruct accessTokenVal as [validate|]; [|eauto]. destruct (HasPrefix tok "eyJ"); [|eauto]. rewrite (Hj validate eq_refl). eauto.
  - intros validate id text _ _ Hk Hv. by apply (OAuth2Middleware_reject _ _ _ _ _ _ _ tok).
  - intros t Hok Hk Ha. rewrite (OAuth2Middleware_key _ _ _ _ _ _ _ _ Hb Hk).
    by apply bearer_lets_in.
Qed.

End chain.

(** ** Examples *)

Module GateExample.

Definition tenant : Tenant := NewTenant ∅ "t_1" "seed" 0 "Acme" "a@acme.test" PlanFree.
Definition key : APIKey := {|
  k_ID := "k_1"; k_TenantID := "t_1"; k_Name := "default"; k_KeyHash := "sk_live_abc"; k_Prefix := "abc";
  k_CreatedAt := 0; k_ExpiresAt := Some 100; k_RevokedAt := None |}.
Definition gate : Gate :=
  {| g_store := PutOAuthIdentity (PutAPIKey (PutTenant NewBillingStore tenant) key) "https://issuer" "bob" "t_1"; g_limiter := ∅ |}.
Definition request (authorization : string) : Request := {|
  rq_Method := "POST"; rq_Path := "/mcp"; rq_Authorization := authorization; rq_XRealIP := ""; rq_XForwardedFor := "";
  rq_RemoteAddr := "10.0.0.1:999" |}.
Definition env : HttpEnv := {| he_now := 7; he_newID := "t_2"; he_seed := Some "s" |}.

(** The handler answers with the tenant it was called for. *)
Definition whoami : Handler := λ _ ctx _ g, (g, Answered (t_ID <$> ctx)).

Definition issuer (tok : string) : result string OAuthClaims :=
  if decide (tok = "eyJbob"%string) then Ok {| oc_Subject := "bob"; oc_Issuer := "https://issuer"; oc_Email := "bob@acme.test" |}
  else Err "signature".
Definition own (now : Z) (tok : string) : option string := if decide (tok = "eyJown"%string) then Some "t_1"%string else None.

End GateExample.

Import GateExample.

Lemma bearer_admission_witness :
  (BearerMiddleware id "" (Some own) false whoami env None (request "bearer sk_live_abc") gate).2 = Answered (Some "t_1"%string) ∧
  ∃ err al, BearerMiddleware id "" (Some own) false whoami env None (request "Bearer eyJbob") gate = (with_limiter gate al, Refused err).
Proof.
  split.
  - rewrite (proj1 (bearer_admission id "" (Some own) whoami env None (request "bearer sk_live_abc") gate eq_refl) tenant); [done | by vm_compute |].
    exists "sk_live_abc"%string. split; [done|]. split; [|by split]. apply (cred_key _ _ _ _ _ _ key); [done | done | done | intros x [= <-]; simpl; lia | done].
  - apply (bearer_admission id "" (Some own) whoami env None (request "Bearer eyJbob") gate eq_refl). right.
    intros (t & tok & Htok & Hc & _). injection Htok as <-. destruct Hc as [validate i [= <-] _ Hv _|k Hk]; [by vm_compute in Hv | done].
Defined.

Lemma oidc_chain_refuses_logins_witness :
  let g' := mcp_auth id ∅ (Some issuer) PlanFree "" (Some own) whoami env None (request "Bearer eyJbob") gate in
  (∃ err, g'.2 = Refused err ∧ (http_code err = StatusUnauthorized ∨ http_code err = StatusTooManyRequests) ∧ g_store g'.1 = g_store gate) ∧
  mcp_auth id ∅ (Some issuer) PlanFree "" (Some own) whoami env None (request "Bearer eyJown") gate =
    (gate, Refused (fail StatusUnauthorized "invalid OAuth2 token: signature")).
Proof.
  intros g'. split.
  - apply (proj1 (oidc_chain_refuses_logins id ∅ issuer PlanFree "" (Some own) whoami env None (request "Bearer eyJbob") gate "eyJbob" eq_refl eq_refl)
             {| oc_Subject := "bob"; oc_Issuer := "https://issuer"; oc_Email := "bob@acme.test" |} "t_1" tenant); [by vm_compute.. |].
    by intros validate [= <-].
  - by apply (proj1 (proj2 (oidc_chain_refuses_logins id ∅ issuer PlanFree "" (Some own) whoami env None (request "Bearer eyJown") gate "eyJown" eq_refl eq_refl))
             own "t_1" "signature").
Defined.
