(* ===== verification/Metering.v ===== *)
(** * Metering of tool calls (src/pkg/billing: meter.go, notifier.go, errors.go)

    The usage meter around its counters (which are in [Billing]): quota notifications, the
    audit pipeline to the event store, the metering of MCP tool calls and the hourly check
    for billing periods that have ended.  The event store is an interface with the
    operations and errors the meter sees. *)

From S2P Require Import Prelude Reliability Billing.
From stdpp Require Import pretty relations.
From Stdlib Require Import QArith Qround Lqa.
#[local] Open Scope Z_scope.

(** ** The calendar of package time, in UTC *)

(** Year, month and day of an instant: [Time.Date]. *)
Definition Date (t : Z) : Z * Z * Z :=
  let z := t / (24 * Hour) + 719468 in
  let era := z / 146097 in
  let doe := z mod 146097 in
  let yoe := (doe - doe / 1460 + doe / 36524 - doe / 146096) / 365 in
  let doy := doe - (365 * yoe + yoe / 4 - yoe / 100) in
  let mp := (5 * doy + 2) / 153 in
  let month := if mp <? 10 then mp + 3 else mp - 9 in
  (yoe + era * 400 + (if month <=? 2 then 1 else 0), month, doy - (153 * mp + 2) / 5 + 1).

Definition hour_of_day (t : Z) : Z := t / Hour mod 24.

Definition pad (width : nat) (s : string) : string :=
  Nat.iter (width - String.length s) (String (Ascii.ascii_of_nat 48)) s.

(** [fmt.Sprintf("%04d-%02d", year, month)], for years from 0 on. *)
Definition periodKey (t : Z) : string :=
  let '(year, month, _) := Date t in pad 4 (pretty (Z.to_N year)) +:+ "-" +:+ pad 2 (pretty (Z.to_N month)).

(** ** The event store *)

Record AuditEvent := { ae_tenantID : string; ae_event : string; ae_toolName : string; ae_requestID : string }.

(** What recording an event takes from the outside: the clock and a random identifier. *)
Record EventEnv := { ee_now : Z; ee_id : string }.

Class EventStore (ES : Type) := {
  RecordEvent : EventEnv → ES → AuditEvent → ES * bool;
  LoadAggregates : ES → option (list UsageSnapshot);
  FlushAggregates : Z → ES → list UsageSnapshot → ES * bool;
}.

(** The in-memory store records nothing. *)
#[export] Instance MemoryEventStore : EventStore BillingStore := {|
  RecordEvent _ s _ := (s, true);
  LoadAggregates _ := Some [];
  FlushAggregates _ s _ := (s, true);
|}.

(** ** The meter *)

Record NotifyEvent := {
  ne_TenantID : string; ne_Period : string; ne_Event : UsageEvent; ne_EventType : string; ne_Current : Z; ne_Limit : Z;
  ne_Ratio : Q; ne_Timestamp : Z;
}.

(** [m_eventCh] is present once [WithStore] has run, [m_notified] (the last ratio notified
    per counter) once [WithNotifier] has; [m_outbox] are the events handed to the notifier
    and [m_dropped] counts the audit events that found the channel full. *)
Record Meter := {
  m_counters : UsageMeter;
  m_eventCh : option (list AuditEvent);
  m_dropped : nat;
  m_notified : option (gmap counterKey Q);
  m_outbox : list NotifyEvent;
}.

Definition NewMeter : Meter := {| m_counters := NewUsageMeter; m_eventCh := None; m_dropped := 0; m_notified := None; m_outbox := [] |}.

Definition with_counters (m : Meter) (c : UsageMeter) : Meter :=
  {| m_counters := c; m_eventCh := m_eventCh m; m_dropped := m_dropped m; m_notified := m_notified m; m_outbox := m_outbox m |}.
Definition with_channel (m : Meter) (ch : list AuditEvent) (dropped : nat) : Meter :=
  {| m_counters := m_counters m; m_eventCh := Some ch; m_dropped := dropped; m_notified := m_notified m; m_outbox := m_outbox m |}.
Definition with_notified (m : Meter) (last : gmap counterKey Q) (out : list NotifyEvent) : Meter :=
  {| m_counters := m_counters m; m_eventCh := m_eventCh m; m_dropped := m_dropped m; m_notified := Some last; m_outbox := out |}.

Definition WithNotifier (m : Meter) : Meter := with_notified m ∅ (m_outbox m).
Definition bufSize : nat := 1000.
Definition batchSize : nat := 100.
Definition WithStore (m : Meter) : Meter := with_channel m [] (m_dropped m).

(** ** Notifications *)

(** [warn] is the threshold of BILLING_QUOTA_WARN_RATIO, 0.8 by default. *)
Definition shouldNotify (warn : Q) (last : gmap counterKey Q) (k : counterKey) (ratio : Q) : gmap counterKey Q * option string :=
  let prev := default 0%Q (last !! k) in
  if Qle_bool 1 ratio && negb (Qle_bool 1 prev) then (<[k := ratio]> last, Some "quota_exceeded"%string)
  else if Qle_bool warn ratio && negb (Qle_bool 1 ratio) && negb (Qle_bool warn prev)
  then (<[k := ratio]> last, Some "quota_warning"%string)
  else (last, None).

Definition maybeNotify (warn : Q) (now : Z) (m : Meter) (tenantID event : string) (limit : Z) (ratio : Q) : Meter :=
  match m_notified m with
  | None => m
  | Some last =>
      let k := (tenantID, periodKey now, event) in
      match shouldNotify warn last k ratio with
      | (last, None) => with_notified m last (m_outbox m)
      | (last, Some evType) =>
          with_notified m last (m_outbox m ++ [{|
            ne_TenantID := tenantID; ne_Period := periodKey now; ne_Event := event; ne_EventType := evType;
            ne_Current := Qfloor (ratio * inject_Z limit); ne_Limit := limit; ne_Ratio := ratio; ne_Timestamp := now |}])
      end
  end.

(** [UsageMeter.TryConsume] with its notifications. *)
Definition meter_TryConsume (warn : Q) (now : Z) (m : Meter) (tenantID event : string) (limit delta : Z) : Meter * option BillingError :=
  let '(c, err) := TryConsume (m_counters m) tenantID (periodKey now) event limit delta in
  let m := with_counters m c in
  match err with
  | Some _ => (maybeNotify warn now m tenantID event limit 1, err)
  | None => (if 0 <? limit
             then maybeNotify warn now m tenantID event limit (inject_Z (Current c tenantID (periodKey now) event) / inject_Z limit)
             else m, None)
  end.

(** ** The audit queue *)

Definition queueAudit (m : Meter) (ev : AuditEvent) : Meter :=
  match m_eventCh m with
  | None => m
  | Some ch => if bool_decide (length ch < bufSize)%nat then with_channel m (ch ++ [ev]) (m_dropped m)
               else with_channel m ch (S (m_dropped m))
  end.

Definition RecordAudit (now : Z) (m : Meter) (tenantID event toolName requestID : string) (delta : Z) : Meter :=
  queueAudit (with_counters m (Record_ (m_counters m) tenantID (periodKey now) event delta))
    {| ae_tenantID := tenantID; ae_event := event; ae_toolName := toolName; ae_requestID := requestID |}.

(** The background writer: its batch, and whether it still runs. *)
Record Writer := { wr_batch : list AuditEvent; wr_running : bool }.

Section writer.
Context {ES : Type} `{EventStore ES}.

(** Errors of the store are logged and the event is given up. *)
Fixpoint record_all (envs : nat → EventEnv) (i : nat) (es : ES) (evs : list AuditEvent) : ES :=
  match evs with
  | [] => es
  | ev :: evs => record_all envs (S i) (RecordEvent (envs i) es ev).1 evs
  end.

(** [envs i] is the environment of the [i]-th event of the batch. *)
Definition flush (envs : nat → EventEnv) (now : Z) (m : Meter) (w : Writer) (es : ES) : Writer * ES :=
  match wr_batch w with
  | [] => (w, es)
  | batch => ({| wr_batch := []; wr_running := wr_running w |}, (FlushAggregates now (record_all envs 0 es batch) (Snapshot (m_counters m))).1)
  end.

Definition receive (envs : nat → EventEnv) (now : Z) (m : Meter) (w : Writer) (es : ES) : Meter * Writer * ES :=
  match m_eventCh m with
  | Some (ev :: ch) =>
      let m := with_channel m ch (m_dropped m) in
      let w := {| wr_batch := wr_batch w ++ [ev]; wr_running := wr_running w |} in
      if bool_decide (batchSize ≤ length (wr_batch w))%nat then (m, (flush envs now m w es).1, (flush envs now m w es).2) else (m, w, es)
  | _ => (m, w, es)
  end.

Definition stop_writer (envs : nat → EventEnv) (now : Z) (m : Meter) (w : Writer) (es : ES) : Writer * ES :=
  let '(w, es) := flush envs now m w es in ({| wr_batch := wr_batch w; wr_running := false |}, es).

(** [UsageMeter.RestoreFromAggregates]; [None] is the error of the store. *)
Definition restore (m : Meter) (es : ES) : option Meter :=
  match LoadAggregates es with
  | None => None
  | Some snaps => Some (with_counters m (RestoreFromAggregates (m_counters m) snaps))
  end.

End writer.

(** ** Metering of MCP tool calls *)

Record QuotaErrorData := { qe_Plan : string; qe_Current : Z; qe_Limit : Z; qe_UpgradeHint : string }.

Definition FormatQuotaErrorData (plan tenantID : string) (current limit : Z) : QuotaErrorData := {|
  qe_Plan := plan; qe_Current := current; qe_Limit := limit;
  qe_UpgradeHint := "billing-admin set-plan --tenant " +:+ tenantID +:+ " --plan team" |}.

Definition messageTools : list string := ["send_message"; "submit_task"; "send_task_input"]%string.

Section tools.
(** The rest of the state a tool handler works on, its results and its errors. *)
Context {W R E : Type}.

Inductive ToolResult := QuotaExceeded (event : UsageEvent) (data : QuotaErrorData) | ToolOutput (r : R).

(** The handler runs between two instants: [t_call] when it is called and [t_return] when it
    returns. *)
Record Call := { cl_tool : string; t_call : Z; t_return : Z }.

Definition ToolHandler := option Tenant → Call → Meter * W → (Meter * W) * result E ToolResult.

Definition tool_event (name : string) : UsageEvent := if bool_decide (name ∈ messageTools) then EventMessage else EventToolCall.
Definition tool_limit (t : Tenant) (event : UsageEvent) : Z :=
  if decide (event = EventMessage) then MaxMessagesPerMonth (t_Quota t) else MaxToolCallsPerMonth (t_Quota t).

Definition MCPToolMeterMiddleware (warn : Q) (next : ToolHandler) : ToolHandler :=
  λ ctx call '(m, w),
    match ctx with
    | None => next ctx call (m, w)
    | Some tenant =>
        let event := tool_event (cl_tool call) in
        let limit := tool_limit tenant event in
        match meter_TryConsume warn (t_call call) m (t_ID tenant) event limit 1 with
        | (m, Some _) =>
            let current := Current (m_counters m) (t_ID tenant) (periodKey (t_call call)) event in
            ((m, w), Ok (QuotaExceeded event (FormatQuotaErrorData (t_Plan tenant) (t_ID tenant) current limit)))
        | (m, None) =>
            match next ctx call (m, w) with
            | ((m, w), Err err) =>
                ((with_counters m (ReleaseQuota (m_counters m) (t_ID tenant) (periodKey (t_return call)) event 1), w), Err err)
            | ((m, w), Ok r) =>
                ((queueAudit m {| ae_tenantID := t_ID tenant; ae_event := event; ae_toolName := cl_tool call; ae_requestID := "" |}, w), Ok r)
            end
        end
    end.

End tools.

(** ** Billing periods *)

Definition rollover_due (now : Z) (t : Tenant) : bool :=
  match t_CurrentPeriodEnd t with
  | Some periodEnd => periodEnd <? now
  | None => (let '(_, _, day) := Date now in day =? 1) && (hour_of_day now =? 0)
  end.

(** One tick of the hourly checker. *)
Definition checkRollover (now : Z) (s : BillingStore) (m : Meter) : Meter :=
  foldl (λ m t, if rollover_due now t then with_counters m (ResetTenant (m_counters m) (t_ID t) (periodKey now)) else m) m (ListTenants s).

(** ** Delivery of a notification *)

Definition maxWebhookAttempts : nat := 3.
Definition backoff (attempt : nat) : Z := match attempt with 0%nat => 1 * Second | _ => 2 * Second end.

(** [answer] gives the status of each attempt, [None] for a failure of the transport; the
    result is the outcome, the number of requests made and the pauses between them. *)
Fixpoint notify_loop (answer : nat → option Z) (attempt fuel : nat) : bool * nat * list Z :=
  match fuel with
  | O => (false, attempt, [])
  | S fuel =>
      let retry := let '(ok, n, pauses) := notify_loop answer (S attempt) fuel in
                   (ok, n, if bool_decide (attempt < maxWebhookAttempts - 1)%nat then backoff attempt :: pauses else pauses) in
      match answer attempt with
      | Some status => if (200 <=? status) && (status <? 300) then (true, S attempt, [])
                       else if (400 <=? status) && (status <? 500) then (false, S attempt, [])
                       else retry
      | None => retry
      end
  end.

Definition Notify (answer : nat → option Z) : bool * nat * list Z := notify_loop answer 0 maxWebhookAttempts.

Example periodKey_example : periodKey (1767225599 * Second) = "2025-12"%string ∧ periodKey (1767225600 * Second) = "2026-01"%string.
Proof. by vm_compute. Qed.

(** ** The audit pipeline *)

Section pipeline.
Context {ES : Type} `{EventStore ES}.

(** The events are recorded one after the other, between flushes of the totals. *)
Inductive written (es0 : ES) : list AuditEvent → ES → Prop :=
| written_nil : written es0 [] es0
| written_event evs es e ev : written es0 evs es → written es0 (evs ++ [ev]) (RecordEvent e es ev).1
| written_flush evs es now snaps : written es0 evs es → written es0 evs (FlushAggregates now es snaps).1.

(** The meter with its writer and store, and the events that were accepted so far. *)
Record PipeState := { ps_meter : Meter; ps_writer : Writer; ps_store : ES; ps_accepted : list AuditEvent }.

Definition accept (m m' : Meter) (ev : AuditEvent) (accepted : list AuditEvent) : list AuditEvent :=
  if bool_decide (m_dropped m' = m_dropped m) then accepted ++ [ev] else accepted.

(** Requests and the writer interleave; the counters change at any time. *)
Inductive pipe_step : PipeState → PipeState → Prop :=
| pipe_count c m w es acc : pipe_step {| ps_meter := m; ps_writer := w; ps_store := es; ps_accepted := acc |}
    {| ps_meter := with_counters m c; ps_writer := w; ps_store := es; ps_accepted := acc |}
| pipe_queue ev m w es acc : pipe_step {| ps_meter := m; ps_writer := w; ps_store := es; ps_accepted := acc |}
    {| ps_meter := queueAudit m ev; ps_writer := w; ps_store := es; ps_accepted := accept m (queueAudit m ev) ev acc |}
| pipe_receive envs now m w es acc m' w' es' : wr_running w = true → receive envs now m w es = (m', w', es') →
    pipe_step {| ps_meter := m; ps_writer := w; ps_store := es; ps_accepted := acc |}
      {| ps_meter := m'; ps_writer := w'; ps_store := es'; ps_accepted := acc |}
| pipe_tick envs now m w es acc w' es' : wr_running w = true → flush envs now m w es = (w', es') →
    pipe_step {| ps_meter := m; ps_writer := w; ps_store := es; ps_accepted := acc |}
      {| ps_meter := m; ps_writer := w'; ps_store := es'; ps_accepted := acc |}
| pipe_cancel envs now m w es acc w' es' : wr_running w = true → stop_writer envs now m w es = (w', es') →
    pipe_step {| ps_meter := m; ps_writer := w; ps_store := es; ps_accepted := acc |}
      {| ps_meter := m; ps_writer := w'; ps_store := es'; ps_accepted := acc |}.

Definition pipe_start (m : Meter) (es : ES) : PipeState :=
  {| ps_meter := WithStore m; ps_writer := {| wr_batch := []; wr_running := true |}; ps_store := es; ps_accepted := [] |}.

Definition queued (st : PipeState) : list AuditEvent := default [] (m_eventCh (ps_meter st)).

Record pipe_ok (es0 : ES) (st : PipeState) : Prop := {
  po_order : ∃ evs, written es0 evs (ps_store st) ∧ evs ++ wr_batch (ps_writer st) ++ queued st = ps_accepted st;
  po_open : is_Some (m_eventCh (ps_meter st));
  po_batch : (length (wr_batch (ps_writer st)) < batchSize)%nat;
  po_queue : (length (queued st) ≤ bufSize)%nat;
  po_stopped : wr_running (ps_writer st) = false → wr_batch (ps_writer st) = [];
}.

Lemma record_all_written es0 envs evs : ∀ i es done, written es0 done es → written es0 (done ++ evs) (record_all envs i es evs).
Proof.
  induction evs as [|ev evs IH]; intros i es done Hw; simpl; [by rewrite app_nil_r|].
  rewrite (cons_middle ev done evs), (assoc_L (++)). apply IH. by apply written_event.
Qed.

Lemma flush_written es0 envs now m w es done : written es0 done es →
  written es0 (done ++ wr_batch w) (flush envs now m w es).2 ∧ wr_batch (flush envs now m w es).1 = [] ∧
  wr_running (flush envs now m w es).1 = wr_running w.
Proof.
  intros Hw. unfold flush. destruct (wr_batch w) as [|ev batch] eqn:Hb; simpl; [by rewrite app_nil_r|].
  split_and!; [|done..]. by apply written_flush, (record_all_written es0 envs (ev :: batch) 0).
Qed.

Lemma pipe_ok_step es0 st st' : pipe_ok es0 st → pipe_step st st' → pipe_ok es0 st'.
Proof.
  intros [(done & Hw & Ho) [ch Hch] Hb Hq Hs] Hstep. unfold queued in *. destruct Hstep as [c m w es acc|ev m w es acc|envs now m w es acc m' w' es' Hr Hrec|envs now m w es acc w' es' Hr Hf|envs now m w es acc w' es' Hr Hf]; simpl in *.
  - split; simpl; eauto.
  - unfold queueAudit, accept in *. rewrite Hch in *. simpl in *. case_bool_decide; simpl.
    + rewrite bool_decide_true by done. split; simpl; unfold queued; simpl; [|eauto|done|rewrite length_app; simpl; lia|done].
      exists done. split; [done|]. rewrite <- Ho. by rewrite !(assoc_L (++)).
    + rewrite bool_decide_false by lia. split; simpl; unfold queued; simpl; eauto.
  - unfold receive in Hrec. rewrite Hch in *. simpl in *. destruct ch as [|ev ch]; [injection Hrec as <- <- <-; split; simpl; unfold queued; simpl; rewrite ?Hch; eauto|].
    simpl in Hq. set (w1 := {| wr_batch := wr_batch w ++ [ev]; wr_running := wr_running w |}) in *. case_bool_decide as Hfull.
    + injection Hrec as <- <- <-. destruct (flush_written es0 envs now (with_channel m ch (m_dropped m)) w1 es done Hw) as (Hw' & Hb' & Hr').
      split; simpl; unfold queued; simpl; rewrite ?Hb'; [|eauto|apply Nat.lt_0_succ|lia|done].
      exists (done ++ wr_batch w1). split; [done|]. rewrite <- Ho. simpl. by rewrite <- !(assoc_L (++)).
    + injection Hrec as <- <- <-. split; simpl; unfold queued; simpl; [|eauto|lia|lia|congruence].
      exists done. split; [done|]. rewrite <- Ho. by rewrite <- !(assoc_L (++)).
  - destruct (flush_written es0 envs now m w es done Hw) as (Hw' & Hb' & Hr'). rewrite Hf in *. simpl in *.
    split; simpl; unfold queued; simpl; rewrite ?Hb'; [|eauto|apply Nat.lt_0_succ|done|done].
    exists (done ++ wr_batch w). split; [done|]. rewrite <- Ho. by rewrite <- (assoc_L (++)).
  - unfold stop_writer in Hf. destruct (flush_written es0 envs now m w es done Hw) as (Hw' & Hb' & Hr').
    destruct (flush envs now m w es) as [w1 es1]. injection Hf as <- <-. simpl in *.
    split; simpl; unfold queued; simpl; rewrite ?Hb'; [|eauto|apply Nat.lt_0_succ|done|done].
    exists (done ++ wr_batch w). split; [done|]. rewrite <- Ho. by rewrite <- (assoc_L (++)).
Qed.
Lemma pipe_ok_start es0 m : pipe_ok es0 (pipe_start m es0).
Proof. split; simpl; unfold queued; simpl; [exists []; split; [constructor | done] | eauto | apply Nat.lt_0_succ | apply Nat.le_0_l | done]. Qed.

Lemma pipe_reachable_ok es0 m st : rtc pipe_step (pipe_start m es0) st → pipe_ok es0 st.
Proof.
  intros Hr. cut (∀ st0, pipe_ok es0 st0 → rtc pipe_step st0 st → pipe_ok es0 st); [eauto using pipe_ok_start|].
  clear m Hr. intros st0 Hok Hr. induction Hr; eauto using pipe_ok_step.
Qed.

(** While the writer runs it can write out everything that is queued. *)
Lemma pipe_drain acc ch : ∀ m w es, m_eventCh m = Some ch → wr_running w = true →
  ∃ m' w' es', rtc pipe_step {| ps_meter := m; ps_writer := w; ps_store := es; ps_accepted := acc |}
                 {| ps_meter := m'; ps_writer := w'; ps_store := es'; ps_accepted := acc |} ∧
    m_eventCh m' = Some [] ∧ wr_batch w' = [].
Proof.
  set (envs := λ _ : nat, {| ee_now := 0; ee_id := EmptyString |}).
  induction ch as [|ev ch IH]; intros m w es Hch Hr.
  - destruct (flush envs 0 m w es) as [w' es'] eqn:Hf. exists m, w', es'. split_and!; [|done|].
    + by apply rtc_once, (pipe_tick envs 0).
    + destruct (flush_written es envs 0 m w es [] (written_nil es)) as (_ & Hb & _). by rewrite Hf in Hb.
  - destruct (receive envs 0 m w es) as [[m1 w1] es1] eqn:Hrec.
    assert (m_eventCh m1 = Some ch ∧ wr_running w1 = true) as [Hch1 Hr1].
    { unfold receive in Hrec. rewrite Hch in Hrec. case_bool_decide; injection Hrec as <- <- <-; split; try done.
      rewrite (proj2 (proj2 (flush_written es envs 0 _ _ es [] (written_nil es)))). done. }
    destruct (IH m1 w1 es1 Hch1 Hr1) as (m' & w' & es' & Hsteps & Hrest). exists m', w', es'. split; [|done].
    eapply rtc_l; [by apply (pipe_receive envs 0) | done].
Qed.

Lemma pipe_stopped_step st st' : wr_running (ps_writer st) = false → pipe_step st st' →
  wr_running (ps_writer st') = false ∧ ps_store st' = ps_store st.
Proof. intros Hr Hs. destruct Hs; simpl in *; try done; congruence. Qed.

(** The audit pipeline keeps the order of the events: at any time what the event store
    has recorded, the writer's batch and the channel are together the events accepted so
    far, each once; no more than 1099 of them are unwritten, and as long as the writer runs
    it can write all of them.  Once the writer has stopped nothing is written any more, so
    the events left in the channel are lost. *)
Theorem audit_pipeline m es0 st : rtc pipe_step (pipe_start m es0) st →
  (∃ evs, written es0 evs (ps_store st) ∧ evs ++ wr_batch (ps_writer st) ++ queued st = ps_accepted st) ∧
  (length (wr_batch (ps_writer st)) + length (queued st) ≤ 1099)%nat ∧
  (wr_running (ps_writer st) = true →
     ∃ st', rtc pipe_step st st' ∧ ps_accepted st' = ps_accepted st ∧ written es0 (ps_accepted st) (ps_store st')) ∧
  (wr_running (ps_writer st) = false → ∀ st', rtc pipe_step st st' → ps_store st' = ps_store st).
Proof.
  intros Hr. pose proof (pipe_reachable_ok _ _ _ Hr) as Hok. split_and!.
  - apply Hok.
  - pose proof (po_batch _ _ Hok) as Hb. pose proof (po_queue _ _ Hok) as Hq. unfold batchSize, bufSize in *. lia.
  - intros Hrun. destruct (po_open _ _ Hok) as [ch Hch]. destruct st as [ms w es acc]. simpl in *.
    destruct (pipe_drain acc ch ms w es Hch Hrun) as (m' & w' & es' & Hsteps & Hch' & Hb').
    eexists. split_and!; [exact Hsteps | done |]. simpl. pose proof (transitivity Hr Hsteps) as Hall.
    destruct (po_order _ _ (pipe_reachable_ok es0 m _ Hall)) as (evs & Hw & Ho).
    unfold queued in Ho. simpl in *. rewrite Hch', Hb', app_nil_r in Ho. by rewrite <- Ho.
  - intros Hrun st' Hsteps. clear Hr Hok. induction Hsteps as [|x y z Hs _ IH]; [done|].
    destruct (pipe_stopped_step x y Hrun Hs) as [Hy Hst]. by rewrite (IH Hy).
Qed.
End pipeline.

(** ** Tool calls *)

Definition used (m : Meter) (t : Tenant) (period : string) (event : UsageEvent) : Z := Current (m_counters m) (t_ID t) period event.

Lemma counter_Add_lookup m k delta k' : default 0 ((counter_Add m k delta).1 !! k') =
  if decide (k' = k) then int64 (default 0 (m !! k) + delta) else default 0 (m !! k').
Proof. simpl. case_decide as Hk; [subst; by rewrite lookup_insert_eq | by rewrite lookup_insert_ne]. Qed.

Lemma ReleaseQuota_Current m id p event delta q : Current (ReleaseQuota m id p event delta) id q event =
  if decide (q = p) then int64 (Current m id p event - delta) else Current m id q event.
Proof.
  unfold ReleaseQuota, Current. rewrite counter_Add_lookup. destruct (decide (q = p)) as [->|Hq].
  - by rewrite decide_True.
  - by rewrite decide_False by congruence.
Qed.

Lemma maybeNotify_counters warn now m tenantID event limit ratio :
  m_counters (maybeNotify warn now m tenantID event limit ratio) = m_counters m.
Proof. unfold maybeNotify. destruct (m_notified m); [|done]. by destruct (shouldNotify _ _ _ _) as [? []]. Qed.

Lemma queueAudit_counters m ev : m_counters (queueAudit m ev) = m_counters m.
Proof. unfold queueAudit. destruct (m_eventCh m); [|done]. by case_bool_decide. Qed.

(** [meter_TryConsume] consumes exactly when the limit allows it. *)
Lemma meter_TryConsume_spec warn now m id event limit delta :
  let before := Current (m_counters m) id (periodKey now) event in
  let '(m', err) := meter_TryConsume warn now m id event limit delta in
  - 2 ^ 63 ≤ before + delta < 2 ^ 63 → - 2 ^ 63 ≤ before < 2 ^ 63 →
  (over_limit limit (before + delta) = true → err = Some ErrQuotaExceeded ∧ ∀ p, Current (m_counters m') id p event = Current (m_counters m) id p event) ∧
  (over_limit limit (before + delta) = false → err = None ∧
     ∀ p, Current (m_counters m') id p event = if decide (p = periodKey now) then before + delta else Current (m_counters m) id p event).
Proof.
  intros before. destruct (meter_TryConsume warn now m id event limit delta) as [m' err] eqn:Hm. intros Hr Hb.
  unfold meter_TryConsume, TryConsume in Hm.
  set (k := (id, periodKey now, event)) in *. pose proof (counter_Add_lookup (m_counters m) k delta) as Hadd.
  destruct (counter_Add (m_counters m) k delta) as [c v] eqn:Hc. simpl in Hadd.
  assert (v = before + delta) as -> by (unfold counter_Add in Hc; injection Hc as _ <-; by apply int64_id).
  destruct (over_limit limit (before + delta)) eqn:Ho; injection Hm as <- <-; (split; [|done]) || (split; [done|]); intros _.
  - split; [done|]. intros p. rewrite maybeNotify_counters. simpl. unfold Current.
    rewrite (counter_Add_lookup c k (- delta)). case_decide as Hp.
    + rewrite Hadd, decide_True by done. injection Hp as ->. fold k. change (default 0 (m_counters m !! k)) with before.
      rewrite (int64_id (before + delta)) by done. rewrite int64_id; lia.
    + by rewrite Hadd, decide_False.
  - split; [done|]. intros p. assert (Hcur : Current c id p event = if decide (p = periodKey now) then before + delta else Current (m_counters m) id p event).
    { unfold Current. rewrite Hadd. destruct (decide (p = periodKey now)) as [->|Hp].
      - rewrite decide_True by done. by apply int64_id.
      - rewrite decide_False; [done|]. unfold k. congruence. }
    destruct (0 <? limit); [by rewrite maybeNotify_counters | done].
Qed.

Section tool_calls.
Context {W R E : Type}.

(** C17. A metered tool call: at the monthly limit the tool does not run, the call is
    answered with the usage and the limit, and nothing is billed; below it the tool runs
    once and decides the answer, and the call is billed exactly when the tool returns
    without an error.  The billing of a call that fails is taken back from the month in
    which it returns: across the end of a month the old month stays billed and the new one
    starts below zero. *)
Theorem tool_call_metered warn (next : ToolHandler (W:=W) (R:=R) (E:=E)) call t m w :
  let event := tool_event (cl_tool call) in
  let limit := tool_limit t event in
  let p := periodKey (t_call call) in
  let p' := periodKey (t_return call) in
  let run := MCPToolMeterMiddleware warn next (Some t) call (m, w) in
  (∀ m w, m_counters (next (Some t) call (m, w)).1.1 = m_counters m) →
  - 2 ^ 63 ≤ used m t p event < 2 ^ 63 - 1 → - 2 ^ 63 < used m t p' event < 2 ^ 63 →
  (0 < limit ≤ used m t p event →
     ∃ m', run = ((m', w), Ok (QuotaExceeded event (FormatQuotaErrorData (t_Plan t) (t_ID t) (used m t p event) limit))) ∧
     ∀ q, used m' t q event = used m t q event) ∧
  (limit ≤ 0 ∨ used m t p event < limit →
     ∃ m1, run.1.2 = (next (Some t) call (m1, w)).1.2 ∧ run.2 = (next (Some t) call (m1, w)).2 ∧
     match run.2 with
     | Ok _ => used run.1.1 t p event = used m t p event + 1
     | Err _ => if decide (p' = p) then used run.1.1 t p event = used m t p event
                else used run.1.1 t p event = used m t p event + 1 ∧ used run.1.1 t p' event = used m t p' event - 1
     end).
Proof.
  intros event limit p p' run Hnext Hb Hb'. unfold run, MCPToolMeterMiddleware. fold event limit p p'.
  pose proof (meter_TryConsume_spec warn (t_call call) m (t_ID t) event limit 1) as Hspec. cbn zeta in Hspec. fold p in Hspec.
  destruct (meter_TryConsume warn (t_call call) m (t_ID t) event limit 1) as [m1 err].
  change (Current (m_counters m) (t_ID t) p event) with (used m t p event) in Hspec.
  destruct Hspec as [Hover Hok]; [lia | lia |]. unfold over_limit in *. split.
  - intros Hl. destruct Hover as [-> Hsame]; [apply andb_true_iff; split; apply Z.ltb_lt; lia|].
    exists m1. split; [|exact Hsame]. by rewrite Hsame.
  - intros Hl. destruct Hok as [-> Hcur]; [apply andb_false_iff; rewrite !Z.ltb_ge; lia|]. exists m1.
    pose proof (Hnext m1 w) as Hc. destruct (next (Some t) call (m1, w)) as [[m2 w2] [r|x]]; simpl in *; split_and!; try done.
    + unfold used. rewrite queueAudit_counters, Hc. unfold used in Hcur. by rewrite Hcur, decide_True.
    + assert (Hused : ∀ q, used (with_counters m2 (ReleaseQuota (m_counters m2) (t_ID t) p' event 1)) t q event =
                if decide (q = p') then int64 (Current (m_counters m1) (t_ID t) p' event - 1) else Current (m_counters m1) (t_ID t) q event).
      { intros q. unfold used. simpl. by rewrite ReleaseQuota_Current, Hc. }
      case_decide as Hp.
      * rewrite Hused, decide_True, Hcur, decide_True by done. rewrite int64_id; lia.
      * rewrite !Hused, decide_False, (decide_True (P := p' = p')), !Hcur, decide_True, decide_False by done. split; [done|].
        change (Current (m_counters m) (t_ID t) p' event) with (used m t p' event). rewrite int64_id; lia.
Qed.
End tool_calls.

(** ** Notifications *)

(** The kinds of event sent for the counter [k] while the ratios [rs] are reported. *)
Fixpoint notices (warn : Q) (last : gmap counterKey Q) (k : counterKey) (rs : list (counterKey * Q)) : list string :=
  match rs with
  | [] => []
  | (k', ratio) :: rs =>
      let '(last', ev) := shouldNotify warn last k' ratio in
      (if decide (k' = k) then option_list ev else []) ++ notices warn last' k rs
  end.

Lemma Qle_bool_false x y : Qle_bool x y = false ↔ (y < x)%Q.
Proof.
  destruct (Qle_bool x y) eqn:Hb; split; try done.
  - apply Qle_bool_iff in Hb. intros Hlt. exfalso. lra.
  - intros _. apply Qnot_le_lt. rewrite <- Qle_bool_iff. congruence.
Qed.

Lemma shouldNotify_other warn last k k' ratio : k' ≠ k → (shouldNotify warn last k' ratio).1 !! k = last !! k.
Proof. intros Hk. unfold shouldNotify. repeat case_match; simpl; try done; by rewrite lookup_insert_ne. Qed.

Lemma notices_exceeded warn k rs : (warn < 1)%Q → ∀ last, (1 <= default 0 (last !! k))%Q → notices warn last k rs = [].
Proof.
  intros Hw. induction rs as [|[k' ratio] rs IH]; intros last Hl; simpl; [done|].
  destruct (shouldNotify warn last k' ratio) as [last' ev] eqn:Hs. destruct (decide (k' = k)) as [->|Hk].
  - unfold shouldNotify in Hs. rewrite (proj2 (Qle_bool_iff 1 _) Hl) in Hs.
    rewrite (proj2 (Qle_bool_iff warn (default 0%Q (last !! k)))) in Hs by lra.
    rewrite !andb_false_r in Hs. injection Hs as <- <-. simpl. by apply IH.
  - simpl. apply IH. replace last' with (shouldNotify warn last k' ratio).1 by (by rewrite Hs). by rewrite shouldNotify_other.
Qed.

Lemma notices_warned warn k rs : (warn < 1)%Q → ∀ last, (warn <= default 0 (last !! k))%Q →
  notices warn last k rs = [] ∨ notices warn last k rs = ["quota_exceeded"%string].
Proof.
  intros Hw. induction rs as [|[k' ratio] rs IH]; intros last Hl; simpl; [by left|].
  destruct (shouldNotify warn last k' ratio) as [last' ev] eqn:Hs. destruct (decide (k' = k)) as [->|Hk].
  - unfold shouldNotify in Hs. rewrite (proj2 (Qle_bool_iff warn _) Hl), andb_false_r in Hs.
    destruct (Qle_bool 1 ratio) eqn:Hr; simpl in Hs; [|injection Hs as <- <-; simpl; by apply IH].
    destruct (Qle_bool 1 (default 0%Q (last !! k))) eqn:Hp; simpl in Hs; injection Hs as <- <-; simpl; [by apply IH|].
    rewrite notices_exceeded; [by right | done |]. rewrite lookup_insert_eq. by apply Qle_bool_iff.
  - simpl. apply IH. replace last' with (shouldNotify warn last k' ratio).1 by (by rewrite Hs). by rewrite shouldNotify_other.
Qed.

(** Whatever the usage does, and whatever is reported for other counters, the notifier
    hears of one counter (tenant, month and event) at most one warning and then at most one
    exceeded quota. *)
Theorem notified_once_per_threshold warn k rs : (warn < 1)%Q → ∀ last,
  notices warn last k rs `sublist_of` ["quota_warning"; "quota_exceeded"]%string.
Proof.
  intros Hw. induction rs as [|[k' ratio] rs IH]; intros last; simpl; [apply sublist_nil_l|].
  destruct (shouldNotify warn last k' ratio) as [last' ev] eqn:Hs. destruct (decide (k' = k)) as [->|Hk]; [|apply IH].
  unfold shouldNotify in Hs. destruct (Qle_bool 1 ratio && negb (Qle_bool 1 (default 0%Q (last !! k)))) eqn:He.
  - injection Hs as <- <-. simpl. apply andb_true_iff in He as [He _]. rewrite notices_exceeded; [|done|].
    + apply sublist_cons, sublist_skip, sublist_nil_l.
    + rewrite lookup_insert_eq. by apply Qle_bool_iff.
  - destruct (Qle_bool warn ratio && negb (Qle_bool 1 ratio) && negb (Qle_bool warn (default 0%Q (last !! k)))) eqn:Hwn; injection Hs as <- <-; simpl; [|apply IH].
    apply andb_true_iff in Hwn as [[Hwn _]%andb_true_iff _].
    assert (Hl : (warn <= default 0 (<[k := ratio]> last !! k))%Q) by (rewrite lookup_insert_eq; by apply Qle_bool_iff).
    destruct (notices_warned warn k rs Hw _ Hl) as [-> | ->]; [apply sublist_skip, sublist_nil_l | reflexivity].
Qed.

(** ** Billing periods *)

Lemma ResetTenant_Current m id p id' q event : Current (ResetTenant m id p) id' q event =
  if decide ((id', q) = (id, p)) then 0 else Current m id' q event.
Proof.
  unfold Current, ResetTenant. rewrite map_lookup_imap. destruct (m !! (id', q, event)) as [v|]; simpl; [done|]. by case_decide.
Qed.

Definition rollover_one (now : Z) (m : Meter) (t : Tenant) : Meter :=
  if rollover_due now t then with_counters m (ResetTenant (m_counters m) (t_ID t) (periodKey now)) else m.

Lemma rollover_keeps_zero now ts : ∀ m id event, Current (m_counters m) id (periodKey now) event = 0 →
  Current (m_counters (foldl (rollover_one now) m ts)) id (periodKey now) event = 0.
Proof.
  induction ts as [|t ts IH]; intros m id event Hz; simpl; [done|]. apply IH. unfold rollover_one.
  destruct (rollover_due now t); [|done]. simpl. rewrite ResetTenant_Current. by case_decide.
Qed.

Lemma rollover_resets now ts t event : rollover_due now t = true → t ∈ ts →
  ∀ m, Current (m_counters (foldl (rollover_one now) m ts)) (t_ID t) (periodKey now) event = 0.
Proof.
  intros Hd. induction ts as [|t' ts IH]; intros Hin m; [by apply elem_of_nil in Hin|]. simpl.
  apply elem_of_cons in Hin as [->|Hin]; [|by apply IH]. apply rollover_keeps_zero. unfold rollover_one. rewrite Hd. simpl.
  by rewrite ResetTenant_Current, decide_True.
Qed.

(** Every hour the tenant uses up the whole monthly limit, after the checker has run. *)
Fixpoint hourly (warn : Q) (s : BillingStore) (id event : string) (limit : Z) (ticks : list Z) (m : Meter) : option Meter :=
  match ticks with
  | [] => Some m
  | now :: ticks =>
      match meter_TryConsume warn now (checkRollover now s m) id event limit limit with
      | (m, None) => hourly warn s id event limit ticks m
      | (_, Some _) => None
      end
  end.

(** A tenant whose stored period end has passed has its usage reset by every hourly
    check, because the check does not move the period end: after each of any number of
    ticks, all in one month or not, the whole monthly limit is granted again. *)
Theorem expired_period_refills_hourly warn s id t periodEnd event limit ticks m :
  tenants s !! id = Some t → t_ID t = id → t_CurrentPeriodEnd t = Some periodEnd → 0 < limit < 2 ^ 63 →
  Forall (λ now, periodEnd < now) ticks → is_Some (hourly warn s id event limit ticks m).
Proof.
  intros Ht Hid Hp Hl Hall. revert m. induction Hall as [|now ticks Hnow _ IH]; intros m; simpl; [eauto|].
  pose proof (meter_TryConsume_spec warn now (checkRollover now s m) id event limit limit) as Hspec. cbn zeta in Hspec.
  assert (Hz : Current (m_counters (checkRollover now s m)) id (periodKey now) event = 0).
  { rewrite <- Hid. apply rollover_resets; [unfold rollover_due; rewrite Hp; by apply Z.ltb_lt |].
    unfold ListTenants. apply list_elem_of_fmap. exists (id, t). split; [done|]. by apply elem_of_map_to_list. }
  rewrite Hz in Hspec. destruct (meter_TryConsume warn now (checkRollover now s m) id event limit limit) as [m' err].
  destruct Hspec as [_ Hok]; [lia | lia |]. destruct Hok as [-> _]; [|apply IH].
  unfold over_limit. apply andb_false_iff. rewrite !Z.ltb_ge. lia.
Qed.

(** ** Delivery *)

Definition success (o : option Z) : Prop := ∃ status, o = Some status ∧ 200 <= status < 300.

Lemma success_spec status : (200 <=? status) && (status <? 300) = true ↔ success (Some status).
Proof.
  rewrite andb_true_iff, Z.leb_le, Z.ltb_lt. split; [intros Hs; by exists status | by intros (x & [= <-] & Hr)].
Qed.

Lemma no_success_spec status : (200 <=? status) && (status <? 300) = false ↔ ¬ success (Some status).
Proof. rewrite <- success_spec. by rewrite not_true_iff_false. Qed.

Lemma no_success_None : ¬ success None.
Proof. by intros (x & ? & _). Qed.

(** At most three requests are made with a pause between two of them, and a success is
    reported only for a 2xx status of the last of them. *)
Lemma Notify_spec answer : let '(ok, n, pauses) := Notify answer in
  (1 ≤ n ≤ maxWebhookAttempts)%nat ∧ length pauses = (n - 1)%nat ∧ (ok = true ↔ success (answer (n - 1)%nat)).
Proof.
  pose proof no_success_None as Hnone. unfold Notify, maxWebhookAttempts. simpl.
  destruct (answer 0%nat) as [s0|] eqn:H0; [destruct ((200 <=? s0) && (s0 <? 300)) eqn:E0; [|destruct ((400 <=? s0) && (s0 <? 500)) eqn:F0]|];
  destruct (answer 1%nat) as [s1|] eqn:H1; try (destruct ((200 <=? s1) && (s1 <? 300)) eqn:E1; [|destruct ((400 <=? s1) && (s1 <? 500)) eqn:F1]);
  destruct (answer 2%nat) as [s2|] eqn:H2; try (destruct ((200 <=? s2) && (s2 <? 300)) eqn:E2; [|destruct ((400 <=? s2) && (s2 <? 500)) eqn:F2]);
  simpl; rewrite ?H0, ?H1, ?H2; (split_and!; [lia | lia | done |]);
  rewrite ?success_spec, ?no_success_spec in *; by split.
Qed.

(** ** Examples *)

Module MeterExample.

Definition tenant : Tenant := {|
  t_ID := "t_1"; t_Name := "Acme"; t_Email := "a@acme.test"; t_Plan := PlanFree; t_Status := TenantStatusActive;
  t_Quota := DefaultQuota ∅ PlanFree; t_CreatedAt := 0; t_UpdatedAt := 0; t_StripeCustomerID := ""; t_StripeSubscriptionID := "";
  t_CurrentPeriodEnd := Some 100; t_BillingStatus := "canceled"; t_DIDSeed := None; t_EmailVerifiedAt := None |}.
Definition store : BillingStore := PutTenant NewBillingStore tenant.

(** A tool that counts its calls and fails for one name. *)
Definition tool : ToolHandler (W:=nat) (R:=nat) (E:=string) :=
  λ _ call '(m, n), ((m, S n), if decide (cl_tool call = "broken"%string) then Err "no such agent"%string else Ok (ToolOutput n)).
Definition call (name : string) : Call := {| cl_tool := name; t_call := 0; t_return := Hour |}.

(** A store that keeps what it is told. *)
#[export] Instance log_store : EventStore (list AuditEvent) := {|
  RecordEvent _ es ev := (es ++ [ev], true); LoadAggregates _ := Some []; FlushAggregates _ es _ := (es, true) |}.
Definition event : AuditEvent := {| ae_tenantID := "t_1"; ae_event := "message"; ae_toolName := "send_message"; ae_requestID := "" |}.

End MeterExample.

Import MeterExample.

Lemma tool_call_metered_witness :
  let run := MCPToolMeterMiddleware (4 # 5) tool (Some tenant) (call "broken") (NewMeter, 0%nat) in
  used run.1.1 tenant (periodKey 0) EventToolCall = 0.
Proof.
  intros run. destruct (tool_call_metered (4 # 5) tool (call "broken") tenant NewMeter 0%nat) as [_ Hrun];
    [by intros m w | by vm_compute | by vm_compute |]. destruct Hrun as (m1 & _ & Hr & Hu); [right; by vm_compute |].
  rewrite Hr in Hu. exact Hu.
Defined.

Lemma notified_once_per_threshold_witness :
  notices (4 # 5) ∅ ("t_1", "2026-01", "message")%string [(("t_1", "2026-01", "message")%string, 9 # 10); (("t_1", "2026-01", "message")%string, 1%Q)]
  `sublist_of` ["quota_warning"; "quota_exceeded"]%string.
Proof. apply (notified_once_per_threshold (4 # 5)). lra. Defined.

Lemma expired_period_refills_hourly_witness :
  is_Some (hourly (4 # 5) store "t_1" EventMessage 1000 [101; Hour; 2 * Hour; 3 * Hour] NewMeter).
Proof.
  apply (expired_period_refills_hourly (4 # 5) store "t_1" tenant 100); [done | done | done | lia |].
  repeat constructor; unfold Hour, Minute, Second, Millisecond; lia.
Defined.

Lemma audit_pipeline_witness :
  let st := {| ps_meter := queueAudit (WithStore NewMeter) event; ps_writer := {| wr_batch := []; wr_running := true |};
               ps_store := [] : list AuditEvent; ps_accepted := [event] |} in
  ∃ st', rtc pipe_step st st' ∧ ps_accepted st' = [event] ∧ written ([] : list AuditEvent) [event] (ps_store st').
Proof.
  intros st. apply (audit_pipeline NewMeter [] st); [|done].
  apply rtc_once. exact (pipe_queue event (WithStore NewMeter) {| wr_batch := []; wr_running := true |} [] []).
Defined.
