(* ===== verification/Stripe.v ===== *)
(** * Subscriptions (src/pkg/billing: stripe_handlers.go, stripe_client.go, reconciler.go;
    stripe_webhook.go and stripe_checkout.go of src/cmd/relay)

    The events of the payment provider, the webhook that receives them, the reconciler, and
    the endpoints that send a tenant to the provider.  The decoding of the events, the
    signature check and the provider's own API are parameters. *)

From S2P Require Import Prelude Reliability Billing Http BillingHttp Metering.
From Stdlib Require Import QArith.
#[local] Open Scope Z_scope.

Definition EventStripeWebhook : UsageEvent := "stripe_webhook".

(** ** The provider's data, as far as the handlers read it *)

Record CheckoutSession := { cs_ClientReferenceID : string; cs_Customer : option string; cs_Subscription : option string }.
(** A price is its ID. *)
Record SubscriptionItem := { si_CurrentPeriodEnd : Z; si_Price : option string }.
Record Subscription := { sub_ID : string; sub_Items : option (list SubscriptionItem); sub_Status : string }.
Record Invoice := { inv_Customer : option string }.
Record StripeEvent := { sv_ID : string; sv_Type : string; sv_Raw : string }.

(** [json.Unmarshal] of the raw data of an event, and [webhook.ConstructEvent] on a payload
    and its signature header. *)
Class StripeCodec := {
  Unmarshal_session : string → option CheckoutSession;
  Unmarshal_subscription : string → option Subscription;
  Unmarshal_invoice : string → option Invoice;
  ConstructEvent : string → string → option StripeEvent;
}.

Record StripeConfig := { sc_PriceIDs : gmap Plan string }.

(** [plans] is the visit order of the range loop. *)
Definition PlanFromPriceID (plans : list Plan) (cfg : StripeConfig) (priceID : string) : option Plan :=
  List.find (λ plan, match sc_PriceIDs cfg !! plan with
                     | Some id => negb (String.eqb id EmptyString) && String.eqb id priceID
                     | None => false
                     end) plans.

(** The billing fields of a tenant. *)
Definition t_billing (t : Tenant) (plan : Plan) (quota : QuotaConfig) (customer subscription : string) (periodEnd : option Z)
    (status : string) : Tenant := {|
  t_ID := t_ID t; t_Name := t_Name t; t_Email := t_Email t; t_Plan := plan; t_Status := t_Status t; t_Quota := quota;
  t_CreatedAt := t_CreatedAt t; t_UpdatedAt := t_UpdatedAt t; t_StripeCustomerID := customer; t_StripeSubscriptionID := subscription;
  t_CurrentPeriodEnd := periodEnd; t_BillingStatus := status; t_DIDSeed := t_DIDSeed t; t_EmailVerifiedAt := t_EmailVerifiedAt t |}.

(** The clock, the visit orders of the two range loops, and the environment of the audit
    record. *)
Record StripeEnv := { se_now : Z; se_order : list string; se_plans : list Plan; se_audit : EventEnv }.

Inductive StripeError := UnmarshalFailed | MissingReference | GetFailed (e : BillingError) | UpdateFailed (e : BillingError).

(** Assigning the fields that the code assigns, one by one. *)
Definition set_status (status : string) (t : Tenant) : Tenant :=
  t_billing t (t_Plan t) (t_Quota t) (t_StripeCustomerID t) (t_StripeSubscriptionID t) (t_CurrentPeriodEnd t) status.
Definition set_customer (customer : string) (t : Tenant) : Tenant :=
  t_billing t (t_Plan t) (t_Quota t) customer (t_StripeSubscriptionID t) (t_CurrentPeriodEnd t) (t_BillingStatus t).
Definition set_subscription (subscription : string) (t : Tenant) : Tenant :=
  t_billing t (t_Plan t) (t_Quota t) (t_StripeCustomerID t) subscription (t_CurrentPeriodEnd t) (t_BillingStatus t).
Definition set_period_end (periodEnd : option Z) (t : Tenant) : Tenant :=
  t_billing t (t_Plan t) (t_Quota t) (t_StripeCustomerID t) (t_StripeSubscriptionID t) periodEnd (t_BillingStatus t).
Definition set_plan (plan : Plan) (quota : QuotaConfig) (t : Tenant) : Tenant :=
  t_billing t plan quota (t_StripeCustomerID t) (t_StripeSubscriptionID t) (t_CurrentPeriodEnd t) (t_BillingStatus t).

Section stripe.
Context `{StripeCodec} {ES : Type} `{EventStore ES} (overrides : gmap string QuotaConfig).

(** The tenants in the order [ListTenants] returns them. *)
Definition listed (order : list string) (s : BillingStore) : list Tenant := omap (λ k, tenants s !! k) order.

Definition findTenantByStripeCustomerID (order : list string) (s : BillingStore) (customerID : string) : option Tenant :=
  snd <$> list_find (λ t, t_StripeCustomerID t = customerID) (listed order s).

Definition findTenantByStripeSubscriptionID (order : list string) (s : BillingStore) (subscriptionID : string) : option Tenant :=
  snd <$> list_find (λ t, t_StripeSubscriptionID t = subscriptionID) (listed order s).

(** [UpdateTenant], then the audit record when there is an event store. *)
Definition save (e : StripeEnv) (s : BillingStore) (es : option ES) (event : StripeEvent) (t : Tenant)
  : BillingStore * option ES * option StripeError :=
  match UpdateTenant (se_now e) s t with
  | (s, Some err) => (s, es, Some (UpdateFailed err))
  | (s, None) =>
      (s, (λ es, (RecordEvent (se_audit e) es {| ae_tenantID := t_ID t; ae_event := EventStripeWebhook; ae_toolName := sv_Type event;
                                                 ae_requestID := sv_ID event |}).1) <$> es, None)
  end.

Definition nonempty (o : option string) : option string := match o with Some s => if decide (s = EmptyString) then None else Some s | None => None end.

Definition handleCheckoutCompleted (e : StripeEnv) (s : BillingStore) (es : option ES) (event : StripeEvent)
  : BillingStore * option ES * option StripeError :=
  match Unmarshal_session (sv_Raw event) with
  | None => (s, es, Some UnmarshalFailed)
  | Some sess =>
      let tenantID := cs_ClientReferenceID sess in
      if decide (tenantID = EmptyString) then (s, es, Some MissingReference)
      else match GetTenant s tenantID with
      | Err err => (s, es, Some (GetFailed err))
      | Ok tenant =>
          let tenant := match nonempty (cs_Customer sess) with Some id => set_customer id tenant | None => tenant end in
          let tenant := match nonempty (cs_Subscription sess) with Some id => set_subscription id tenant | None => tenant end in
          save e s es event (set_status "active" tenant)
      end
  end.

(** The part of [handleSubscriptionUpdated] that reads the first item. *)
Definition apply_item (e : StripeEnv) (cfg : option StripeConfig) (item : SubscriptionItem) (tenant : Tenant) : Tenant :=
  let tenant := if 0 <? si_CurrentPeriodEnd item then set_period_end (Some (si_CurrentPeriodEnd item * Second)) tenant else tenant in
  match cfg, nonempty (si_Price item) with
  | Some cfg, Some price =>
      match PlanFromPriceID (se_plans e) cfg price with
      | Some newPlan => if decide (newPlan = t_Plan tenant) then tenant else set_plan newPlan (DefaultQuota overrides newPlan) tenant
      | None => tenant
      end
  | _, _ => tenant
  end.

Definition handleSubscriptionUpdated (e : StripeEnv) (cfg : option StripeConfig) (s : BillingStore) (es : option ES) (event : StripeEvent)
  : BillingStore * option ES * option StripeError :=
  match Unmarshal_subscription (sv_Raw event) with
  | None => (s, es, Some UnmarshalFailed)
  | Some sub =>
      match findTenantByStripeSubscriptionID (se_order e) s (sub_ID sub) with
      | None => (s, es, None)
      | Some tenant =>
          let tenant := match sub_Items sub with Some (item :: _) => apply_item e cfg item tenant | _ => tenant end in
          save e s es event (set_status (sub_Status sub) tenant)
      end
  end.

Definition handleSubscriptionDeleted (e : StripeEnv) (s : BillingStore) (es : option ES) (event : StripeEvent)
  : BillingStore * option ES * option StripeError :=
  match Unmarshal_subscription (sv_Raw event) with
  | None => (s, es, Some UnmarshalFailed)
  | Some sub =>
      match findTenantByStripeSubscriptionID (se_order e) s (sub_ID sub) with
      | None => (s, es, None)
      | Some tenant =>
          save e s es event (set_subscription EmptyString (set_status "canceled" (set_plan PlanFree (DefaultQuota overrides PlanFree) tenant)))
      end
  end.

Definition handleInvoicePaymentFailed (e : StripeEnv) (s : BillingStore) (es : option ES) (event : StripeEvent)
  : BillingStore * option ES * option StripeError :=
  match Unmarshal_invoice (sv_Raw event) with
  | None => (s, es, Some UnmarshalFailed)
  | Some inv =>
      match nonempty (inv_Customer inv) with
      | None => (s, es, None)
      | Some customerID =>
          match findTenantByStripeCustomerID (se_order e) s customerID with
          | None => (s, es, None)
          | Some tenant => save e s es event (set_status "past_due" tenant)
          end
      end
  end.

Definition HandleStripeEventWithConfig (e : StripeEnv) (cfg : option StripeConfig) (s : BillingStore) (es : option ES) (event : StripeEvent)
  : BillingStore * option ES * option StripeError :=
  if decide (sv_Type event = "checkout.session.completed"%string) then handleCheckoutCompleted e s es event
  else if decide (sv_Type event = "customer.subscription.updated"%string) then handleSubscriptionUpdated e cfg s es event
  else if decide (sv_Type event = "customer.subscription.deleted"%string) then handleSubscriptionDeleted e s es event
  else if decide (sv_Type event = "invoice.payment_failed"%string) then handleInvoicePaymentFailed e s es event
  else (s, es, None).

(** [body] is what reading at most 1 MB of the body gave, [None] when reading failed. *)
Definition stripeWebhookHandler (e : StripeEnv) (cfg : StripeConfig) (method : string) (body : option string) (signature : string)
    (s : BillingStore) (es : option ES) : BillingStore * option ES * Z :=
  if negb (String.eqb method "POST") then (s, es, StatusMethodNotAllowed)
  else match body with
  | None => (s, es, StatusBadRequest)
  | Some body =>
      match ConstructEvent body signature with
      | None => (s, es, StatusBadRequest)
      | Some event =>
          match MarkStripeEventProcessed s (sv_ID event) with
          | (s, false) => (s, es, 200)
          | (s, true) => let '(s, es, _) := HandleStripeEventWithConfig e (Some cfg) s es event in (s, es, 200)
          end
      end
  end.

(** ** Reconciliation *)

Record StripeSubscriptionState := { ss_Status : string; ss_CurrentPeriodEnd : option Z }.

(** [fetch] is [GetSubscription], [None] when it fails. *)
Definition reconcile_one (now : Z) (fetch : string → option StripeSubscriptionState) (autoFix : bool) (s : BillingStore) (t : Tenant)
  : BillingStore :=
  if decide (t_StripeSubscriptionID t = EmptyString) then s
  else match fetch (t_StripeSubscriptionID t) with
  | None => s
  | Some state =>
      if bool_decide (t_BillingStatus t ≠ ss_Status state) && autoFix
      then (UpdateTenant now s (set_period_end (ss_CurrentPeriodEnd state) (set_status (ss_Status state) t))).1 else s
  end.

Definition runReconciliation (now : Z) (order : list string) (fetch : string → option StripeSubscriptionState) (autoFix : bool)
    (s : BillingStore) : BillingStore := foldl (reconcile_one now fetch autoFix) s (listed order s).

(** ** The endpoints that send a tenant to the provider *)

Record CheckoutRequest := { kr_Plan : string; kr_SuccessURL : string; kr_CancelURL : string }.

Definition checkoutValidPlans (plan : string) : option Plan :=
  if decide (plan = "starter"%string) then Some PlanStarter else if decide (plan = "team"%string) then Some PlanTeam else None.

(** The provider's API: [None] is an error. *)
Record StripeClient := {
  CreateCustomer : string → string → string → option string;
  checkout_session : string → string → string → string → option string;
  portal_session : string → string → option string;
  client_config : StripeConfig;
}.

Definition CreateCheckoutSession (c : StripeClient) (tenantID : string) (plan : Plan) (successURL cancelURL : string) : option string :=
  match sc_PriceIDs (client_config c) !! plan with
  | Some priceID => if decide (priceID = EmptyString) then None else checkout_session c tenantID priceID successURL cancelURL
  | None => None
  end.

(** [req] is the decoded body, [None] when reading or decoding failed; the answer is the URL
    the tenant is sent to. *)
Definition checkoutHandler (now : Z) (c : StripeClient) (method : string) (req : option CheckoutRequest) (ctx : option Tenant)
    (s : BillingStore) : BillingStore * result HTTPError string :=
  if negb (String.eqb method "POST") then (s, Err (fail StatusMethodNotAllowed "method not allowed"))
  else match req with
  | None => (s, Err (fail StatusBadRequest "invalid JSON"))
  | Some req =>
      match checkoutValidPlans (kr_Plan req) with
      | None => (s, Err (fail StatusBadRequest "plan must be one of: starter, team"))
      | Some plan =>
          if decide (kr_SuccessURL req = EmptyString) then (s, Err (fail StatusBadRequest "success_url is required"))
          else if decide (kr_CancelURL req = EmptyString) then (s, Err (fail StatusBadRequest "cancel_url is required"))
          else match ctx with
          | None => (s, Err (fail StatusUnauthorized "authentication required"))
          | Some tenant =>
              let session s := match CreateCheckoutSession c (t_ID tenant) plan (kr_SuccessURL req) (kr_CancelURL req) with
                               | None => (s, Err (fail StatusInternalServerError "failed to create checkout session"))
                               | Some url => (s, Ok url)
                               end in
              if decide (t_StripeCustomerID tenant = EmptyString) then
                match CreateCustomer c (t_ID tenant) (t_Email tenant) (t_Name tenant) with
                | None => (s, Err (fail StatusInternalServerError "failed to create Stripe customer"))
                | Some id =>
                    match UpdateTenant now s (set_customer id tenant) with
                    | (s, Some _) => (s, Err (fail StatusInternalServerError "failed to update tenant"))
                    | (s, None) => session s
                    end
                end
              else session s
          end
      end
  end.

Definition portalHandler (c : StripeClient) (method : string) (returnURL : option string) (ctx : option Tenant) : result HTTPError string :=
  if negb (String.eqb method "POST") then Err (fail StatusMethodNotAllowed "method not allowed")
  else match returnURL with
  | None => Err (fail StatusBadRequest "invalid JSON")
  | Some url =>
      if decide (url = EmptyString) then Err (fail StatusBadRequest "return_url is required")
      else match ctx with
      | None => Err (fail StatusUnauthorized "authentication required")
      | Some tenant =>
          if decide (t_StripeCustomerID tenant = EmptyString) then Err (fail StatusBadRequest "no Stripe customer associated with this account")
          else match portal_session c (t_StripeCustomerID tenant) url with
               | None => Err (fail StatusInternalServerError "failed to create billing portal session")
               | Some url => Ok url
               end
      end
  end.

(** ** What the operations keep *)

(** Quotas go with the plan, and every tenant is stored under its ID. *)
Definition plans_ok (s : BillingStore) : Prop :=
  ∀ id t, tenants s !! id = Some t → t_ID t = id ∧ t_Quota t = DefaultQuota overrides (t_Plan t).

(** The account itself, apart from its billing fields. *)
Definition same_account (t t' : Tenant) : Prop :=
  t_ID t' = t_ID t ∧ t_Name t' = t_Name t ∧ t_Email t' = t_Email t ∧ t_Status t' = t_Status t ∧ t_CreatedAt t' = t_CreatedAt t ∧
  t_DIDSeed t' = t_DIDSeed t ∧ t_EmailVerifiedAt t' = t_EmailVerifiedAt t.

Definition quota_ok (t : Tenant) : Prop := t_Quota t = DefaultQuota overrides (t_Plan t).

(** A change of the store by billing: no account appears, disappears or changes hands. *)
Definition billing_change (s s' : BillingStore) : Prop :=
  keys s' = keys s ∧ oauthIds s' = oauthIds s ∧ emailTokens s' = emailTokens s ∧
  (∀ id, option_relation same_account (λ _, False) (λ _, False) (tenants s !! id) (tenants s' !! id)) ∧
  (plans_ok s → plans_ok s').

Lemma same_account_refl t : same_account t t.
Proof. by split_and!. Qed.

Lemma same_account_trans t1 t2 t3 : same_account t1 t2 → same_account t2 t3 → same_account t1 t3.
Proof. unfold same_account. intros (?&?&?&?&?&?&?) (?&?&?&?&?&?&?). split_and!; congruence. Qed.

Lemma same_account_billing t plan quota customer subscription periodEnd status :
  same_account t (t_billing t plan quota customer subscription periodEnd status).
Proof. by split_and!. Qed.

#[local] Hint Resolve same_account_refl same_account_billing : core.

Lemma billing_change_refl s : billing_change s s.
Proof. split_and!; try done. intros id. destruct (tenants s !! id); simpl; auto. Qed.

Lemma billing_change_trans s1 s2 s3 : billing_change s1 s2 → billing_change s2 s3 → billing_change s1 s3.
Proof.
  intros (K1 & O1 & E1 & A1 & P1) (K2 & O2 & E2 & A2 & P2). split_and!; [congruence..| |auto].
  intros id. specialize (A1 id). specialize (A2 id).
  destruct (tenants s1 !! id), (tenants s2 !! id), (tenants s3 !! id); simpl in *; try done. by eapply same_account_trans.
Qed.

Lemma billing_change_marked s id : billing_change s (MarkStripeEventProcessed s id).1.
Proof.
  unfold MarkStripeEventProcessed. case_decide; [apply billing_change_refl|]. split_and!; simpl; try done.
  intros k. destruct (tenants s !! k); simpl; auto.
Qed.

(** Writing back a tenant that was read from the store. *)
Lemma UpdateTenant_change now s id t t' : tenants s !! id = Some t → same_account t t' → (quota_ok t → quota_ok t') →
  t_ID t = id → billing_change s (UpdateTenant now s t').1.
Proof.
  intros Ht Ha Hq Hid. assert (t_ID t' = id) as Hid' by (destruct Ha as [-> _]; done). unfold UpdateTenant. rewrite Hid', Ht. simpl.
  split_and!; simpl; try done.
  - intros k. destruct (decide (k = id)) as [->|Hk]; [|rewrite lookup_insert_ne by done; destruct (tenants s !! k); simpl; auto].
    rewrite lookup_insert_eq, Ht. simpl. destruct Ha as (?&?&?&?&?&?&?). by split_and!.
  - intros Hok k u. simpl. destruct (decide (k = id)) as [->|Hk]; [|rewrite lookup_insert_ne by done; apply Hok].
    rewrite lookup_insert_eq. intros [= <-]. simpl. split; [done|]. apply Hq. by apply (Hok id t).
Qed.

(** A tenant that was found is the one stored under its ID. *)
Lemma find_stored (P : Tenant → Prop) `{∀ t, Decision (P t)} order s t : plans_ok s →
  snd <$> list_find P (listed order s) = Some t → tenants s !! t_ID t = Some t ∧ P t.
Proof.
  intros Hok. destruct (list_find P (listed order s)) as [[i u]|] eqn:Hf; [|done]. simpl. intros [= ->].
  apply list_find_Some in Hf as (Hi & HP & _). apply list_elem_of_lookup_2 in Hi. unfold listed in Hi.
  apply list_elem_of_omap in Hi as (id & _ & Hl). split; [|done]. by destruct (Hok id t Hl) as [-> _].
Qed.

Lemma save_change e s es event t t' : tenants s !! t_ID t = Some t → same_account t t' → (quota_ok t → quota_ok t') →
  billing_change s (save e s es event t').1.1.
Proof.
  intros Ht Ha Hq. pose proof (UpdateTenant_change (se_now e) s _ _ _ Ht Ha Hq eq_refl) as Hc. unfold save.
  by destruct (UpdateTenant (se_now e) s t') as [s' []].
Qed.

Lemma apply_item_account e cfg item t : same_account t (apply_item e cfg item t) ∧ (quota_ok t → quota_ok (apply_item e cfg item t)).
Proof.
  unfold apply_item. set (t1 := if 0 <? si_CurrentPeriodEnd item then _ else t).
  assert (same_account t t1 ∧ (quota_ok t → quota_ok t1)) as [Ha Hq] by (unfold t1; destruct (0 <? _); by split).
  destruct cfg as [cfg|]; [|by split]. destruct (nonempty (si_Price item)) as [price|]; [|by split].
  destruct (PlanFromPriceID (se_plans e) cfg price) as [plan|]; [|by split]. case_decide; [by split|].
  split; [by apply (same_account_trans _ _ _ Ha), same_account_billing | done].
Qed.

Lemma event_change e cfg s es event : plans_ok s → billing_change s (HandleStripeEventWithConfig e cfg s es event).1.1.
Proof.
  intros Hok. pose proof (billing_change_refl s) as Hrefl. unfold HandleStripeEventWithConfig. repeat case_decide; [| | | |done].
  - unfold handleCheckoutCompleted. destruct (Unmarshal_session _) as [sess|]; [|done]. case_decide; [done|].
    destruct (GetTenant s (cs_ClientReferenceID sess)) as [t|] eqn:Ht; [|done]. apply GetTenant_Ok in Ht.
    destruct (Hok _ _ Ht) as [Hid _]. apply (save_change _ _ _ _ t); [by rewrite Hid | |];
      destruct (nonempty (cs_Customer sess)), (nonempty (cs_Subscription sess)); done.
  - unfold handleSubscriptionUpdated. destruct (Unmarshal_subscription _) as [sub|]; [|done].
    destruct (findTenantByStripeSubscriptionID (se_order e) s (sub_ID sub)) as [t|] eqn:Ht; [|done]. apply find_stored in Ht as [Ht _]; [|done].
    assert (Ha : ∀ u, same_account t u ∧ (quota_ok t → quota_ok u) → billing_change s (save e s es event (set_status (sub_Status sub) u)).1.1).
    { intros u [Ha Hq]. apply (save_change _ _ _ _ t); [done | by apply (same_account_trans _ _ _ Ha), same_account_billing | exact Hq]. }
    apply Ha. destruct (sub_Items sub) as [[|item items]|]; [by split | apply apply_item_account | by split].
  - unfold handleSubscriptionDeleted. destruct (Unmarshal_subscription _) as [sub|]; [|done].
    destruct (findTenantByStripeSubscriptionID (se_order e) s (sub_ID sub)) as [t|] eqn:Ht; [|done]. apply find_stored in Ht as [Ht _]; [|done].
    by apply (save_change _ _ _ _ t).
  - unfold handleInvoicePaymentFailed. destruct (Unmarshal_invoice _) as [inv|]; [|done].
    destruct (nonempty (inv_Customer inv)) as [c|]; [|done].
    destruct (findTenantByStripeCustomerID (se_order e) s c) as [t|] eqn:Ht; [|done]. apply find_stored in Ht as [Ht _]; [|done].
    by apply (save_change _ _ _ _ t).
Qed.
Lemma plans_ok_change s s' : billing_change s s' → plans_ok s → plans_ok s'.
Proof. intros (_ & _ & _ & _ & Hp). exact Hp. Qed.

Lemma UpdateTenant_other now s t id : id ≠ t_ID t → tenants (UpdateTenant now s t).1 !! id = tenants s !! id.
Proof. intros Hid. unfold UpdateTenant. destruct (tenants s !! t_ID t); simpl; [by rewrite lookup_insert_ne | done]. Qed.

Lemma reconcile_one_other now fetch autoFix s t id : id ≠ t_ID t → tenants (reconcile_one now fetch autoFix s t) !! id = tenants s !! id.
Proof.
  intros Hid. unfold reconcile_one. case_decide; [done|]. destruct (fetch _); [|done]. destruct (bool_decide _ && autoFix); [|done].
  by apply UpdateTenant_other.
Qed.

Lemma reconcile_one_change now fetch autoFix s t : tenants s !! t_ID t = Some t → billing_change s (reconcile_one now fetch autoFix s t).
Proof.
  intros Ht. unfold reconcile_one. case_decide; [apply billing_change_refl|]. destruct (fetch _); [|apply billing_change_refl].
  destruct (bool_decide _ && autoFix); [|apply billing_change_refl]. by apply (UpdateTenant_change _ _ (t_ID t) t).
Qed.

Lemma reconcile_others now fetch autoFix ts : ∀ s id, id ∉ t_ID <$> ts →
  tenants (foldl (reconcile_one now fetch autoFix) s ts) !! id = tenants s !! id.
Proof.
  induction ts as [|t ts IH]; intros s id Hid; simpl; [done|]. simpl in Hid. apply not_elem_of_cons in Hid as [Hne Hin].
  rewrite IH by done. by apply reconcile_one_other.
Qed.

Lemma reconcile_fold_change now fetch autoFix ts : ∀ s, (∀ t, t ∈ ts → tenants s !! t_ID t = Some t) → NoDup (t_ID <$> ts) →
  billing_change s (foldl (reconcile_one now fetch autoFix) s ts).
Proof.
  induction ts as [|t ts IH]; intros s Hts Hnd; simpl; [apply billing_change_refl|].
  simpl in Hnd. apply NoDup_cons in Hnd as [Hin Hnd].
  eapply billing_change_trans; [apply reconcile_one_change, Hts; by left|]. apply IH; [|done]. intros u Hu.
  rewrite reconcile_one_other; [by apply Hts; right|]. intros Heq. apply Hin. rewrite <- Heq. by apply list_elem_of_fmap_2.
Qed.

(** The tenants are listed once each, under their IDs. *)
Lemma listed_spec order s : RangeOrder (tenants s) order → plans_ok s →
  NoDup (t_ID <$> listed order s) ∧ ∀ t, t ∈ listed order s ↔ tenants s !! t_ID t = Some t.
Proof.
  intros Ho Hok. split.
  - assert (Hids : ∀ ks, (∀ k, k ∈ ks → is_Some (tenants s !! k)) → t_ID <$> listed ks s = ks).
    { induction ks as [|k ks IH]; intros Hks; [done|]. unfold listed in *. simpl. destruct (Hks k) as [t Ht]; [by left|]. rewrite Ht. simpl.
      destruct (Hok _ _ Ht) as [-> _]. f_equal. apply IH. intros k' Hk'. apply Hks. by right. }
    rewrite Hids by (intros k Hk; by apply (range_order_elem_of (tenants s) order)). by eapply range_order_NoDup.
  - intros t. unfold listed. rewrite list_elem_of_omap. split.
    + intros (id & _ & Ht). by destruct (Hok _ _ Ht) as [-> _].
    + intros Ht. exists (t_ID t). split; [|done]. apply (range_order_elem_of (tenants s) order); [done | eauto].
Qed.

Lemma reconcile_change now order fetch autoFix s : RangeOrder (tenants s) order → plans_ok s →
  billing_change s (runReconciliation now order fetch autoFix s).
Proof.
  intros Ho Hok. destruct (listed_spec order s Ho Hok) as [Hnd Hin]. apply reconcile_fold_change; [|done]. intros t. apply Hin.
Qed.

(** What reconciliation makes of one tenant. *)
Definition reconciled (now : Z) (fetch : string → option StripeSubscriptionState) (autoFix : bool) (t : Tenant) : Tenant :=
  if decide (t_StripeSubscriptionID t = EmptyString) then t
  else match fetch (t_StripeSubscriptionID t) with
  | Some state =>
      if bool_decide (t_BillingStatus t ≠ ss_Status state) && autoFix
      then t_with (set_period_end (ss_CurrentPeriodEnd state) (set_status (ss_Status state) t)) (t_Status t) now (t_EmailVerifiedAt t) else t
  | None => t
  end.

(** Reconciliation treats every tenant on its own, whatever the order. *)
Lemma reconcile_lookup now order fetch autoFix s id t : RangeOrder (tenants s) order → plans_ok s → tenants s !! id = Some t →
  tenants (runReconciliation now order fetch autoFix s) !! id = Some (reconciled now fetch autoFix t).
Proof.
  intros Ho Hok Ht. destruct (Hok _ _ Ht) as [Hid _]. subst id. destruct (listed_spec order s Ho Hok) as [Hnd Hin].
  pose proof (proj2 (Hin t) Ht) as Hmem. unfold runReconciliation. clear Hin.
  assert (Hgen : ∀ ts s, t ∈ ts → NoDup (t_ID <$> ts) → tenants s !! t_ID t = Some t →
    tenants (foldl (reconcile_one now fetch autoFix) s ts) !! t_ID t = Some (reconciled now fetch autoFix t)); [|by apply Hgen].
  clear. induction ts as [|u ts IH]; intros s Hin Hnd Ht; [by apply elem_of_nil in Hin|]. simpl in *.
  apply NoDup_cons in Hnd as [Hu Hnd]. apply elem_of_cons in Hin as [->|Hin].
  - rewrite reconcile_others by done. unfold reconcile_one, reconciled. case_decide; [done|]. destruct (fetch _); [|done].
    destruct (bool_decide _ && autoFix); [|done]. unfold UpdateTenant. simpl. rewrite Ht. simpl. by rewrite lookup_insert_eq.
  - apply IH; [done..|]. rewrite reconcile_one_other; [done|]. intros Heq. apply Hu. rewrite <- Heq. by apply list_elem_of_fmap_2.
Qed.

Lemma checkout_change now c method req ctx s : (∀ t, ctx = Some t → tenants s !! t_ID t = Some t) →
  billing_change s (checkoutHandler now c method req ctx s).1.
Proof.
  intros Hctx. pose proof (billing_change_refl s) as Hrefl. unfold checkoutHandler.
  destruct (negb (String.eqb method "POST")); [done|]. destruct req as [req|]; [|done]. destruct (checkoutValidPlans (kr_Plan req)) as [p|]; [|done].
  case_decide; [done|]. case_decide; [done|]. destruct ctx as [t|]; [|done].
  destruct (CreateCheckoutSession c (t_ID t) p (kr_SuccessURL req) (kr_CancelURL req)); (case_decide; [|done]); destruct (CreateCustomer c (t_ID t) (t_Email t) (t_Name t)) as [id|]; try done;
  pose proof (UpdateTenant_change now s (t_ID t) t (set_customer id t) (Hctx t eq_refl)) as Hu;
  destruct (UpdateTenant now s (set_customer id t)) as [s' []]; by apply Hu.
Qed.

(** The steps of billing: webhooks, reconciliation runs and checkouts of a tenant that was
    just read from the store. *)
Inductive billing_step : BillingStore * option ES → BillingStore * option ES → Prop :=
| step_webhook e cfg method body signature s es s' es' code :
    stripeWebhookHandler e cfg method body signature s es = (s', es', code) → billing_step (s, es) (s', es')
| step_reconcile now order fetch autoFix s es : RangeOrder (tenants s) order →
    billing_step (s, es) (runReconciliation now order fetch autoFix s, es)
| step_checkout now c method req ctx s es : (∀ t, ctx = Some t → tenants s !! t_ID t = Some t) →
    billing_step (s, es) ((checkoutHandler now c method req ctx s).1, es).

Lemma webhook_change e cfg method body signature s es : plans_ok s →
  billing_change s (stripeWebhookHandler e cfg method body signature s es).1.1.
Proof.
  intros Hok. pose proof (billing_change_refl s) as Hrefl. unfold stripeWebhookHandler.
  destruct (negb (String.eqb method "POST")); [done|]. destruct body as [body|]; [|done].
  destruct (ConstructEvent body signature) as [event|]; [|done]. pose proof (billing_change_marked s (sv_ID event)) as Hm.
  destruct (MarkStripeEventProcessed s (sv_ID event)) as [s1 []]; [|done]. simpl in Hm.
  pose proof (event_change e (Some cfg) s1 es event (plans_ok_change _ _ Hm Hok)) as Hc.
  destruct (HandleStripeEventWithConfig e (Some cfg) s1 es event) as [[s2 es2] err]. by apply (billing_change_trans _ _ _ Hm).
Qed.

(** C20. Billing never creates, removes or renames an account and never changes its e-mail
    address, status or keys: webhooks in any order and number, reconciliation runs and
    checkouts change the plan, quota and subscription fields of existing tenants only, and
    every tenant keeps the quota that belongs to its plan. *)
Theorem billing_keeps_accounts st st' : plans_ok st.1 → rtc billing_step st st' → billing_change st.1 st'.1 ∧ plans_ok st'.1.
Proof.
  intros Hok Hsteps. cut (billing_change st.1 st'.1); [intros Hc; split; [done | by apply (plans_ok_change _ _ Hc)]|].
  induction Hsteps as [st|st st1 st' Hs _ IH]; [apply billing_change_refl|].
  assert (billing_change st.1 st1.1) as Hc.
  { destruct Hs as [e cfg method body signature s es s' es' code Hw| |]; simpl in *;
      [|by apply reconcile_change | by apply checkout_change].
    pose proof (webhook_change e cfg method body signature s es Hok) as Hc. by rewrite Hw in Hc. }
  apply (billing_change_trans _ _ _ Hc), IH. by apply (plans_ok_change _ _ Hc).
Qed.
(** ** What single events do *)

(** The only listed tenant with a property is the one that is found. *)
Lemma find_unique (P : Tenant → Prop) `{∀ t, Decision (P t)} order s t : RangeOrder (tenants s) order → plans_ok s →
  tenants s !! t_ID t = Some t → P t → (∀ t', tenants s !! t_ID t' = Some t' → P t' → t' = t) →
  snd <$> list_find P (listed order s) = Some t.
Proof.
  intros Ho Hok Ht HP Hu. destruct (listed_spec order s Ho Hok) as [_ Hin].
  destruct (list_find P (listed order s)) as [[i u]|] eqn:Hf.
  - apply list_find_Some in Hf as (Hi & Pu & _). simpl. f_equal. apply Hu; [|done]. by apply Hin, list_elem_of_lookup_2 with i.
  - exfalso. rewrite list_find_None, Forall_forall in Hf. by apply (Hf t); [apply Hin|].
Qed.

Lemma find_none (P : Tenant → Prop) `{∀ t, Decision (P t)} order s : plans_ok s →
  (∀ t, tenants s !! t_ID t = Some t → ¬ P t) → snd <$> list_find P (listed order s) = None.
Proof.
  intros Hok Hno. destruct (snd <$> list_find P (listed order s)) as [t|] eqn:Hf; [|done].
  apply find_stored in Hf as [Ht HP]; [|done]. by destruct (Hno t).
Qed.

Lemma save_tenants e s es event t t' : tenants s !! t_ID t = Some t → t_ID t' = t_ID t →
  tenants (save e s es event t').1.1 = <[t_ID t := t_with t' (t_Status t') (se_now e) (t_EmailVerifiedAt t')]> (tenants s).
Proof. intros Ht Hid. unfold save, UpdateTenant. by rewrite Hid, Ht. Qed.

(** The tenant under [id] subscribed as [X], and nobody else did. *)
Definition subscriber (s : BillingStore) (X : string) (t : Tenant) : Prop :=
  tenants s !! t_ID t = Some t ∧ t_StripeSubscriptionID t = X ∧
  ∀ t', tenants s !! t_ID t' = Some t' → t_StripeSubscriptionID t' = X → t' = t.

Definition updates (event : StripeEvent) (sub : Subscription) : Prop :=
  sv_Type event = "customer.subscription.updated"%string ∧ Unmarshal_subscription (sv_Raw event) = Some sub.
Definition deletes (event : StripeEvent) (sub : Subscription) : Prop :=
  sv_Type event = "customer.subscription.deleted"%string ∧ Unmarshal_subscription (sv_Raw event) = Some sub.
Definition completes (event : StripeEvent) (sess : CheckoutSession) : Prop :=
  sv_Type event = "checkout.session.completed"%string ∧ Unmarshal_session (sv_Raw event) = Some sess.

Lemma updated_effect e cfg s es event sub t : RangeOrder (tenants s) (se_order e) → plans_ok s →
  updates event sub → subscriber s (sub_ID sub) t →
  let t' := set_status (sub_Status sub) (match sub_Items sub with Some (item :: _) => apply_item e cfg item t | _ => t end) in
  tenants (HandleStripeEventWithConfig e cfg s es event).1.1 !! t_ID t = Some (t_with t' (t_Status t) (se_now e) (t_EmailVerifiedAt t)) ∧
  ∀ id, id ≠ t_ID t → tenants (HandleStripeEventWithConfig e cfg s es event).1.1 !! id = tenants s !! id.
Proof.
  intros Ho Hok (Hty & Hun) (Ht & Hs & Hu) t'. unfold HandleStripeEventWithConfig. rewrite Hty. simpl.
  unfold handleSubscriptionUpdated. rewrite Hun. unfold findTenantByStripeSubscriptionID. rewrite (find_unique _ _ _ t) by done. fold t'.
  assert (Ha : same_account t t').
  { unfold t'. destruct (sub_Items sub) as [[|item items]|]; try done.
    apply (same_account_trans _ _ _ (proj1 (apply_item_account e cfg item t))), same_account_billing. }
  destruct Ha as (Hid & _ & _ & Hst & _ & _ & Hev). rewrite (save_tenants _ _ _ _ t) by done. rewrite Hst, Hev.
  split; [by rewrite lookup_insert_eq | intros id Hne; by rewrite lookup_insert_ne].
Qed.

Lemma updated_unknown e cfg s es event sub : plans_ok s → updates event sub →
  (∀ t, tenants s !! t_ID t = Some t → t_StripeSubscriptionID t ≠ sub_ID sub) →
  HandleStripeEventWithConfig e cfg s es event = (s, es, None).
Proof.
  intros Hok (Hty & Hun) Hno. unfold HandleStripeEventWithConfig. rewrite Hty. simpl. unfold handleSubscriptionUpdated. rewrite Hun.
  unfold findTenantByStripeSubscriptionID. by rewrite find_none.
Qed.

Lemma completed_effect e cfg s es event sess t X : completes event sess → tenants s !! t_ID t = Some t →
  cs_ClientReferenceID sess = t_ID t → t_ID t ≠ EmptyString → cs_Subscription sess = Some X → X ≠ EmptyString →
  ∃ customer, tenants (HandleStripeEventWithConfig e cfg s es event).1.1 =
    <[t_ID t := t_with (t_billing t (t_Plan t) (t_Quota t) customer X (t_CurrentPeriodEnd t) "active") (t_Status t) (se_now e) (t_EmailVerifiedAt t)]> (tenants s).
Proof.
  intros (Hty & Hun) Ht Href Hne Hsub HX. unfold HandleStripeEventWithConfig. rewrite Hty. simpl.
  unfold handleCheckoutCompleted. rewrite Hun, Href, decide_False by done. rewrite (proj2 (GetTenant_Ok _ _ _) Ht), Hsub. simpl.
  rewrite decide_False by done. destruct (nonempty (cs_Customer sess)) as [c|]; rewrite (save_tenants _ _ _ _ t) by done; eauto.
Qed.

Lemma same_keys_insert {A} (m : gmap string A) k v x : m !! k = Some v → ∀ k', is_Some (m !! k') ↔ is_Some (<[k := x]> m !! k').
Proof.
  intros Hk k'. destruct (decide (k' = k)) as [->|]; [rewrite lookup_insert_eq, Hk; by split; eauto | by rewrite lookup_insert_ne].
Qed.

(** The events of an upgrade: the tenant [t] has paid for the plan [plan] through the
    subscription [X], of which the store does not know yet. *)
Record upgrade (e : StripeEnv) (cfg : StripeConfig) (s : BillingStore) (t : Tenant) (plan : Plan) (X : string)
    (completed updated : StripeEvent) : Prop := {
  up_stored : tenants s !! t_ID t = Some t;
  up_named : t_ID t ≠ EmptyString ∧ X ≠ EmptyString;
  up_new : ∀ t', tenants s !! t_ID t' = Some t' → t_StripeSubscriptionID t' ≠ X;
  up_completed : ∃ sess, completes completed sess ∧ cs_ClientReferenceID sess = t_ID t ∧ cs_Subscription sess = Some X;
  up_updated : ∃ sub item rest price, updates updated sub ∧ sub_ID sub = X ∧ sub_Status sub = "active"%string ∧
    sub_Items sub = Some (item :: rest) ∧ si_Price item = Some price ∧ price ≠ EmptyString ∧
    PlanFromPriceID (se_plans e) cfg price = Some plan;
}.

Definition handle_all (e : StripeEnv) (cfg : StripeConfig) (st : BillingStore * option ES) (events : list StripeEvent) : BillingStore * option ES :=
  foldl (λ st event, (HandleStripeEventWithConfig e (Some cfg) st.1 st.2 event).1) st events.

(** What a checkout buys depends on the order of its events: when the completed
    checkout is handled before the update of the subscription the tenant ends on the plan it
    paid for, with that plan's quota; when the update comes first it is dropped, and the
    tenant is active and subscribed but stays on the plan and quota it had. *)
Theorem upgrade_depends_on_event_order e cfg s es t plan X completed updated :
  plans_ok s → RangeOrder (tenants s) (se_order e) → upgrade e cfg s t plan X completed updated →
  (∃ t', tenants (handle_all e cfg (s, es) [completed; updated]).1 !! t_ID t = Some t' ∧
     t_Plan t' = plan ∧ t_Quota t' = DefaultQuota overrides plan ∧ t_BillingStatus t' = "active"%string ∧ t_StripeSubscriptionID t' = X) ∧
  (∃ t', tenants (handle_all e cfg (s, es) [updated; completed]).1 !! t_ID t = Some t' ∧
     t_Plan t' = t_Plan t ∧ t_Quota t' = t_Quota t ∧ t_BillingStatus t' = "active"%string ∧ t_StripeSubscriptionID t' = X).
Proof.
  intros Hok Ho [Ht (Hid & HX) Hnew (sess & Hc & Href & Hsub) (sub & item & rest & price & Hu & HsX & Hact & Hit & Hpr & Hpne & Hplan)].
  unfold handle_all. simpl. split.
  - destruct (completed_effect e (Some cfg) s es completed sess t X Hc Ht Href Hid Hsub HX) as (customer & Hts).
    pose proof (plans_ok_change _ _ (event_change e (Some cfg) s es completed Hok) Hok) as Hok1.
    destruct (HandleStripeEventWithConfig e (Some cfg) s es completed) as [[s1 es1] err]. simpl in *.
    set (t1 := t_with _ _ _ _) in Hts. assert (t_ID t1 = t_ID t) as Hid1 by done.
    assert (Hs1 : subscriber s1 (sub_ID sub) t1).
    { split_and!; [by rewrite Hid1, Hts, lookup_insert_eq | by rewrite HsX |]. intros u Hl Hx. rewrite Hts in Hl.
      destruct (decide (t_ID u = t_ID t)) as [Heq|Hne]; [rewrite Heq, lookup_insert_eq in Hl; congruence|].
      rewrite lookup_insert_ne in Hl by done. exfalso. apply (Hnew u Hl). congruence. }
    assert (Ho1 : RangeOrder (tenants s1) (se_order e)) by (rewrite Hts; by eapply range_order_same_keys; [apply (same_keys_insert _ _ t)|]).
    destruct (updated_effect e (Some cfg) s1 es1 updated sub t1 Ho1 Hok1 Hu Hs1) as [Hl _]. rewrite Hid1 in Hl. rewrite Hl, Hit.
    eexists. split; [done|]. simpl. unfold apply_item. rewrite Hpr. simpl. rewrite decide_False by done. rewrite Hplan.
    destruct (0 <? si_CurrentPeriodEnd item); simpl; (case_decide as Hsame; simpl; [subst plan|]; split_and!; try done;
      by destruct (Hok _ _ Ht)).
  - rewrite (updated_unknown e (Some cfg) s es updated sub Hok Hu) by (rewrite HsX; done). simpl.
    destruct (completed_effect e (Some cfg) s es completed sess t X Hc Ht Href Hid Hsub HX) as (customer & Hts).
    rewrite Hts, lookup_insert_eq. eexists. split; [done|]. by split_and!.
Qed.
(** A credential still stands for its tenant after the tenant's record changed. *)
Lemma credential_updated hashKey jwtVal now s s' tok t t' : plans_ok s → credential hashKey jwtVal now s tok t →
  keys s' = keys s → tenants s' !! t_ID t = Some t' → credential hashKey jwtVal now s' tok t'.
Proof.
  intros Hok [validate id Hj Hp Hv Ht|k Hk Hl Hr Hx Ht] Hkeys Hts; destruct (Hok _ _ Ht) as [Hid _]; rewrite Hid in Hts.
  - by eapply cred_jwt.
  - eapply cred_key; try done. by rewrite Hkeys.
Qed.

(** A tenant whose payment is past due is turned away, until the provider gives up on
    the invoice: as soon as its subscription is reported unpaid, expired or in any state but
    incomplete and past due, the same credential is let in again, on the same plan. *)
Theorem unpaid_subscription_served hashKey base jwtVal {R} (next : Handler (R:=R)) env ctx r g tok e cfg es event sub t :
  let s := g_store g in
  let g' := with_store g (HandleStripeEventWithConfig e cfg s es event).1.1 in
  let al := (auth_Allow (he_now env) (g_limiter g) (realIP r)).2 in
  plans_ok s → RangeOrder (tenants s) (se_order e) → subscriber s (sub_ID sub) t →
  t_BillingStatus t = "past_due"%string → IsActive t = true →
  updates event sub → sub_Items sub = None → sub_Status sub ∉ ["incomplete"; "past_due"]%string →
  public_path r = false → (auth_Allow (he_now env) (g_limiter g) (realIP r)).1 = true →
  bearer_token r = Some tok → credential hashKey jwtVal (he_now env) s tok t →
  BearerMiddleware hashKey base jwtVal false next env ctx r g =
    (with_limiter g al, Refused (fail StatusPaymentRequired (paymentRequiredMessage base))) ∧
  ∃ t', t_ID t' = t_ID t ∧ t_Plan t' = t_Plan t ∧ t_Quota t' = t_Quota t ∧ t_BillingStatus t' = sub_Status sub ∧
    BearerMiddleware hashKey base jwtVal false next env ctx r g' = next env (Some t') r (with_limiter g' al).
Proof.
  intros s g' al Hok Ho Hs Hst Ha Hu Hit Hno Hp Hal Htok Hc. split.
  - apply (bearer_refuses_tenant _ _ _ _ _ _ _ _ tok t); [done..|]. unfold admit_tenant. rewrite decide_True; [done | by right].
  - destruct (updated_effect e cfg s es event sub t Ho Hok Hu Hs) as [Hl _]. rewrite Hit in Hl.
    eexists. split_and!; [.. | apply bearer_lets_in; [done | done |]].
    5:{ exists tok. split; [done|]. split; [apply (credential_updated _ _ _ s _ _ t); [done | done | | exact Hl] |].
        - apply (event_change e cfg s es event Hok).
        - split; [|done]. simpl. rewrite not_elem_of_cons, list_elem_of_singleton in Hno. exact Hno. }
    all: done.
Qed.

(** When a subscription is deleted its tenant falls back to the free plan and is
    unsubscribed, so that later updates of that subscription are ignored; but the stored end
    of the billing period stays, and once it has passed every hourly check grants the whole
    monthly quota of the free plan again. *)
Theorem deleted_subscription warn e cfg s es event sub t periodEnd event_kind limit ticks m :
  let s' := (HandleStripeEventWithConfig e cfg s es event).1.1 in
  plans_ok s → RangeOrder (tenants s) (se_order e) → subscriber s (sub_ID sub) t → sub_ID sub ≠ EmptyString → deletes event sub →
  t_CurrentPeriodEnd t = Some periodEnd → 0 < limit < 2 ^ 63 → Forall (λ now, periodEnd < now) ticks →
  (∃ t', tenants s' !! t_ID t = Some t' ∧ t_Plan t' = PlanFree ∧ t_Quota t' = DefaultQuota overrides PlanFree ∧
     t_BillingStatus t' = "canceled"%string ∧ t_StripeSubscriptionID t' = EmptyString) ∧
  (∀ e' cfg' es' event' sub', updates event' sub' → sub_ID sub' = sub_ID sub →
     HandleStripeEventWithConfig e' cfg' s' es' event' = (s', es', None)) ∧
  is_Some (hourly warn s' (t_ID t) event_kind limit ticks m).
Proof.
  intros s' Hok Ho (Ht & Hs & Hu) Hne (Hty & Hun) Hpe Hlim Hticks.
  assert (Hts : tenants s' = <[t_ID t := t_with (t_billing t PlanFree (DefaultQuota overrides PlanFree) (t_StripeCustomerID t) EmptyString
                  (Some periodEnd) "canceled") (t_Status t) (se_now e) (t_EmailVerifiedAt t)]> (tenants s)).
  { unfold s', HandleStripeEventWithConfig. rewrite Hty. simpl. unfold handleSubscriptionDeleted. rewrite Hun.
    unfold findTenantByStripeSubscriptionID. rewrite (find_unique _ _ _ t) by done. rewrite (save_tenants _ _ _ _ t) by done.
    unfold set_subscription, set_status, set_plan. simpl. by rewrite Hpe. }
  split_and!.
  - rewrite Hts, lookup_insert_eq. eexists. by split_and!.
  - intros e' cfg' es' event' sub' Hup Hid. apply (updated_unknown e' cfg' s' es' event' sub'); [|done|].
    + by apply (plans_ok_change _ _ (event_change e cfg s es event Hok)).
    + rewrite Hid, Hts. intros u Hl Hx. destruct (decide (t_ID u = t_ID t)) as [Heq|Hd].
      * rewrite Heq, lookup_insert_eq in Hl. injection Hl as <-. by simpl in Hx.
      * rewrite lookup_insert_ne in Hl by done. apply Hd. by rewrite (Hu u Hl Hx).
  - eapply expired_period_refills_hourly; [by rewrite Hts, lookup_insert_eq | done | done | done | done].
Qed.

(** A reconciliation run that may repair brings the billing status of every subscribed
    tenant, whose subscription could be fetched, to the provider's, each tenant on its own
    and in any order; without leave to repair it changes nothing.  But a tenant whose status
    already agrees keeps its old period end. *)
Theorem reconciliation_repairs_status now order fetch s :
  RangeOrder (tenants s) order → plans_ok s →
  (∀ id t state, tenants s !! id = Some t → t_StripeSubscriptionID t ≠ EmptyString → fetch (t_StripeSubscriptionID t) = Some state →
     ∃ t', tenants (runReconciliation now order fetch true s) !! id = Some t' ∧ t_BillingStatus t' = ss_Status state ∧
       t_CurrentPeriodEnd t' = if decide (t_BillingStatus t = ss_Status state) then t_CurrentPeriodEnd t else ss_CurrentPeriodEnd state) ∧
  (∀ id t, tenants s !! id = Some t → t_StripeSubscriptionID t = EmptyString ∨ fetch (t_StripeSubscriptionID t) = None →
     tenants (runReconciliation now order fetch true s) !! id = Some t) ∧
  runReconciliation now order fetch false s = s.
Proof.
  intros Ho Hok. split_and!.
  - intros id t state Ht Hs Hf. rewrite (reconcile_lookup now order fetch true s id t Ho Hok Ht). eexists. split; [done|].
    unfold reconciled. rewrite decide_False, Hf by done. case_bool_decide as Hd; simpl; (split; [|case_decide]; congruence || done).
  - intros id t Ht Hs. rewrite (reconcile_lookup now order fetch true s id t Ho Hok Ht). unfold reconciled.
    case_decide; [done|]. destruct Hs as [Hs|Hs]; [done | by rewrite Hs].
  - unfold runReconciliation. induction (listed order s) as [|t ts IH]; simpl; [done|].
    replace (reconcile_one now fetch false s t) with s; [done|]. unfold reconcile_one. case_decide; [done|].
    destruct (fetch _); [|done]. by rewrite andb_false_r.
Qed.

Lemma save_keys e s es event t : keys (save e s es event t).1.1 = keys s.
Proof. unfold save, UpdateTenant. by destruct (tenants s !! t_ID t). Qed.

Lemma save_seen e s es event t : stripeEventsSeen (save e s es event t).1.1 = stripeEventsSeen s.
Proof. unfold save, UpdateTenant. by destruct (tenants s !! t_ID t). Qed.

Lemma event_seen e cfg s es event : stripeEventsSeen (HandleStripeEventWithConfig e cfg s es event).1.1 = stripeEventsSeen s.
Proof.
  unfold HandleStripeEventWithConfig, handleCheckoutCompleted, handleSubscriptionUpdated, handleSubscriptionDeleted,
    handleInvoicePaymentFailed. repeat (case_decide || case_match); try done; apply save_seen.
Qed.

(** What a delivered event leaves in the table of seen events. *)
Lemma webhook_seen e cfg method body signature s es id :
  id ∈ stripeEventsSeen s ∨ (method = "POST"%string ∧ ∃ b event, body = Some b ∧ ConstructEvent b signature = Some event ∧ sv_ID event = id) →
  id ∈ stripeEventsSeen (stripeWebhookHandler e cfg method body signature s es).1.1.
Proof.
  intros Hin. unfold stripeWebhookHandler. destruct (String.eqb_spec method "POST") as [->|Hm]; simpl; [|by destruct Hin as [|[? _]]].
  destruct body as [b|]; [|destruct Hin as [|(_ & ? & ? & ? & _)]; done].
  destruct (ConstructEvent b signature) as [event|] eqn:Hc; [|destruct Hin as [|(_ & b' & ? & [= <-] & ? & _)]; [done | congruence]].
  assert (Hid : id ∈ stripeEventsSeen s ∨ sv_ID event = id).
  { destruct Hin as [|(_ & b' & event' & [= <-] & He & Hid)]; [by left|]. right. congruence. }
  unfold MarkStripeEventProcessed. case_decide as Hseen; [destruct Hid as [|<-]; done|].
  pose proof (event_seen e (Some cfg) {| tenants := tenants s; keys := keys s; oauthIds := oauthIds s;
    stripeEventsSeen := {[sv_ID event]} ∪ stripeEventsSeen s; emailTokens := emailTokens s |} es event) as He.
  destruct (HandleStripeEventWithConfig _ _ _ _ _) as [[s2 es2] err]. simpl in *. rewrite He, elem_of_union, elem_of_singleton.
  destruct Hid; auto.
Qed.

(** One delivery to the webhook: the environment, the request and its signature. *)
Record Delivery := { dl_env : StripeEnv; dl_method : string; dl_body : option string; dl_signature : string }.

Definition deliver (cfg : StripeConfig) (st : BillingStore * option ES) (d : Delivery) : BillingStore * option ES :=
  (stripeWebhookHandler (dl_env d) cfg (dl_method d) (dl_body d) (dl_signature d) st.1 st.2).1.

(** The webhook handles every event once: a delivery without a valid signature changes
    nothing and is answered 400, and after the first delivery of an event, whatever comes in
    between and whether or not handling it failed, another delivery of it is answered 200
    and changes nothing. *)
Theorem webhook_handles_once cfg d1 ds d2 s es body1 body2 event1 event2 :
  dl_method d1 = "POST"%string → dl_body d1 = Some body1 → ConstructEvent body1 (dl_signature d1) = Some event1 →
  dl_method d2 = "POST"%string → dl_body d2 = Some body2 → ConstructEvent body2 (dl_signature d2) = Some event2 →
  sv_ID event1 = sv_ID event2 →
  (let st := foldl (deliver cfg) (deliver cfg (s, es) d1) ds in
   stripeWebhookHandler (dl_env d2) cfg "POST" (Some body2) (dl_signature d2) st.1 st.2 = (st, 200)) ∧
  (∀ e signature body, ConstructEvent body signature = None →
     stripeWebhookHandler e cfg "POST" (Some body) signature s es = ((s, es), StatusBadRequest)).
Proof.
  intros M1 B1 C1 M2 B2 C2 Hid. split; [|intros e signature body Hc; unfold stripeWebhookHandler; simpl; by rewrite Hc].
  assert (Hin : sv_ID event2 ∈ stripeEventsSeen (deliver cfg (s, es) d1).1) by (apply webhook_seen; right; eauto 10).
  intros st. assert (Hst : sv_ID event2 ∈ stripeEventsSeen st.1).
  { unfold st. revert Hin. generalize (deliver cfg (s, es) d1). induction ds as [|d ds IH]; intros st0 Hin; simpl; [done|]. apply IH. apply webhook_seen. by left. }
  unfold stripeWebhookHandler. simpl. rewrite C2. unfold MarkStripeEventProcessed. rewrite decide_True by done. by destruct st.
Qed.
End stripe.

(** ** Examples *)

Module StripeExample.

Definition tenant (status subscription : string) (periodEnd : option Z) : Tenant := {|
  t_ID := "t_1"; t_Name := "Acme"; t_Email := "a@acme.test"; t_Plan := PlanFree; t_Status := TenantStatusActive;
  t_Quota := DefaultQuota ∅ PlanFree; t_CreatedAt := 0; t_UpdatedAt := 0; t_StripeCustomerID := "cus_1";
  t_StripeSubscriptionID := subscription; t_CurrentPeriodEnd := periodEnd; t_BillingStatus := status; t_DIDSeed := None;
  t_EmailVerifiedAt := None |}.
Definition key : APIKey := {|
  k_ID := "k_1"; k_TenantID := "t_1"; k_Name := "default"; k_KeyHash := "sk_live_abc"; k_Prefix := "abc";
  k_CreatedAt := 0; k_ExpiresAt := None; k_RevokedAt := None |}.
Definition store (t : Tenant) : BillingStore := PutAPIKey (PutTenant NewBillingStore t) key.

Definition delivered (payload : string) : StripeEvent :=
  {| sv_ID := payload; sv_Type := "customer.subscription.updated"; sv_Raw := payload |}.

(** Three texts and what they decode to; a payload is its own event. *)
#[export] Instance codec : StripeCodec := {|
  Unmarshal_session raw := if decide (raw = "paid"%string)
    then Some {| cs_ClientReferenceID := "t_1"; cs_Customer := None; cs_Subscription := Some "sub_1"%string |} else None;
  Unmarshal_subscription raw :=
    if decide (raw = "team"%string)
    then Some {| sub_ID := "sub_1"; sub_Items := Some [{| si_CurrentPeriodEnd := 0; si_Price := Some "price_team"%string |}]; sub_Status := "active" |}
    else if decide (raw = "unpaid"%string) then Some {| sub_ID := "sub_1"; sub_Items := None; sub_Status := "unpaid" |} else None;
  Unmarshal_invoice raw := None;
  ConstructEvent payload signature := if decide (signature = "ok"%string)
    then Some (delivered payload) else None;
|}.

Definition event (type raw : string) : StripeEvent := {| sv_ID := "evt"; sv_Type := type; sv_Raw := raw |}.
Definition config : StripeConfig := {| sc_PriceIDs := {[PlanTeam := "price_team"%string]} |}.
Definition env : StripeEnv := {| se_now := 9; se_order := ["t_1"%string]; se_plans := [PlanTeam]; se_audit := {| ee_now := 9; ee_id := "e" |} |}.

Lemma store_order t : t_ID t = "t_1"%string → RangeOrder (tenants (store t)) (se_order env).
Proof. intros Hid. unfold store, PutAPIKey, PutTenant. simpl. rewrite Hid. unfold RangeOrder. by rewrite map_to_list_insert, map_to_list_empty. Qed.

Lemma store_ok status subscription periodEnd : plans_ok ∅ (store (tenant status subscription periodEnd)).
Proof.
  intros id t Ht. unfold store in Ht. simpl in Ht. apply lookup_insert_Some in Ht as [[<- <-]|[_ Ht]]; [done|]. by rewrite lookup_empty in Ht.
Qed.

Lemma store_only t0 t : t_ID t0 = "t_1"%string → tenants (store t0) !! t_ID t = Some t → t = t0.
Proof.
  intros Hid Ht. unfold store in Ht. simpl in Ht. apply lookup_insert_Some in Ht as [[_ ->]|[_ Ht]]; [done|]. by rewrite lookup_empty in Ht.
Qed.

Lemma sub_1_subscriber status periodEnd : subscriber (store (tenant status "sub_1" periodEnd)) "sub_1" (tenant status "sub_1" periodEnd).
Proof. split_and!; [done..|]. intros t Ht _. by apply store_only in Ht. Qed.

End StripeExample.

Import StripeExample.

Definition fetched : string → option StripeSubscriptionState := λ _, Some {| ss_Status := "active"; ss_CurrentPeriodEnd := Some 7 |}.

Lemma billing_keeps_accounts_witness :
  plans_ok ∅ (runReconciliation 5 ["t_1"%string] fetched true (store (tenant "past_due" "sub_1" None))).
Proof.
  refine (proj2 (billing_keeps_accounts (ES:=BillingStore) ∅ (store (tenant "past_due" "sub_1" None), None)
    (runReconciliation 5 ["t_1"%string] fetched true (store (tenant "past_due" "sub_1" None)), None) (store_ok _ _ _) _)).
  apply rtc_once, (step_reconcile ∅ 5 ["t_1"%string] fetched true). by apply (store_order (tenant "past_due" "sub_1" None)).
Defined.

Lemma upgrade_depends_on_event_order_witness :
  ∃ t', tenants (handle_all (ES:=BillingStore) ∅ env config (store (tenant "active" "" None), None)
                   [event "customer.subscription.updated" "team"; event "checkout.session.completed" "paid"]).1 !! "t_1"%string = Some t' ∧
    t_Plan t' = PlanFree ∧ t_Quota t' = DefaultQuota ∅ PlanFree ∧ t_BillingStatus t' = "active"%string ∧ t_StripeSubscriptionID t' = "sub_1"%string.
Proof.
  apply (upgrade_depends_on_event_order (ES:=BillingStore) ∅ env config (store (tenant "active" "" None)) None (tenant "active" "" None) PlanTeam "sub_1");
    [apply store_ok | by apply (store_order (tenant "active" "" None)) |].
  split; [done | done | | |].
  - intros t Ht. by rewrite (store_only (tenant "active" "" None) t eq_refl Ht).
  - eexists. by split_and!.
  - do 4 eexists. split_and!; try done; by vm_compute.
Defined.

Lemma unpaid_subscription_served_witness :
  let g := {| g_store := store (tenant "past_due" "sub_1" None); g_limiter := ∅ |} in
  let r := GateExample.request "Bearer sk_live_abc" in
  BearerMiddleware id "" None false GateExample.whoami GateExample.env None r g =
    (with_limiter g (auth_Allow 7 ∅ (realIP r)).2, Refused (fail StatusPaymentRequired (paymentRequiredMessage ""))).
Proof.
  intros g r. apply (unpaid_subscription_served (ES:=BillingStore) ∅ id "" None GateExample.whoami GateExample.env None r g "sk_live_abc" env None None
    (event "customer.subscription.updated" "unpaid") {| sub_ID := "sub_1"; sub_Items := None; sub_Status := "unpaid" |} (tenant "past_due" "sub_1" None));
    try done; [apply store_ok | by apply (store_order (tenant "past_due" "sub_1" None)) | apply sub_1_subscriber | set_solver |].
  by apply (cred_key _ _ _ _ _ _ key).
Defined.

Lemma deleted_subscription_witness :
  is_Some (hourly (4 # 5) (HandleStripeEventWithConfig (ES:=BillingStore) ∅ env None (store (tenant "active" "sub_1" (Some 100))) None
             (event "customer.subscription.deleted" "unpaid")).1.1 "t_1" EventMessage 1000 [101; 102; 103] NewMeter).
Proof.
  apply (deleted_subscription (ES:=BillingStore) ∅ (4 # 5) env None (store (tenant "active" "sub_1" (Some 100))) None
    (event "customer.subscription.deleted" "unpaid") {| sub_ID := "sub_1"; sub_Items := None; sub_Status := "unpaid" |}
    (tenant "active" "sub_1" (Some 100)) 100);
    [apply store_ok | by apply (store_order (tenant "active" "sub_1" (Some 100))) | apply sub_1_subscriber | done | done | done | lia |].
  repeat constructor; lia.
Defined.

Lemma reconciliation_repairs_status_witness :
  ∃ t', tenants (runReconciliation 5 ["t_1"%string] fetched true
                   (store (tenant "past_due" "sub_1" None))) !! "t_1"%string = Some t' ∧
    t_BillingStatus t' = "active"%string ∧ t_CurrentPeriodEnd t' = Some 7.
Proof.
  apply (reconciliation_repairs_status ∅ 5 ["t_1"%string] fetched
    (store (tenant "past_due" "sub_1" None)) (store_order (tenant "past_due" "sub_1" None) eq_refl) (store_ok _ _ _)) with
    (t := tenant "past_due" "sub_1" None) (state := {| ss_Status := "active"; ss_CurrentPeriodEnd := Some 7 |}); done.
Defined.

Lemma webhook_handles_once_witness :
  let d payload := {| dl_env := env; dl_method := "POST"; dl_body := Some payload; dl_signature := "ok" |} in
  let st := foldl (deliver ∅ config) (deliver (ES:=BillingStore) ∅ config (store (tenant "active" "sub_1" None), None) (d "team")) [d "unpaid"] in
  stripeWebhookHandler ∅ env config "POST" (Some "team"%string) "ok" st.1 st.2 = (st, 200).
Proof.
  intros d st. by apply (webhook_handles_once (ES:=BillingStore) ∅ config (d "team") [d "unpaid"] (d "team") (store (tenant "active" "sub_1" None)) None
    "team" "team" (delivered "team") (delivered "team")).
Defined.
