(* ===== verification/Hub.v ===== *)
(** * The relay hub (src/cmd/relay/hub.go, config.go and the routing half of channel.go)

    The hub's state, sending to a connection, the connection table, routing of messages to
    one recipient, to a channel or to everybody, and delivery acknowledgements.

    A [*Client] is a reference: [h_objs] maps a connection ID (a fresh UUID text, never
    reassigned) to the connection's fields and [h_clients], the [clients] map of the hub,
    maps connection IDs and DIDs to such references, so two keys may lead to one object.
    A buffered channel [SendCh] is the list of frames not yet written to the socket.  A
    frame is either bytes that are forwarded untouched or the value handed to
    [protocol.Encode].  Sending on a closed channel panics: [h_panicked] records it. *)

From S2P Require Import Prelude Queue Registry Acl Channel Messaging Reliability Billing.
From Stdlib Require Import QArith.
#[local] Open Scope Z_scope.

(** ** The choices of one handler run *)

(** The instant, the fresh UUIDs, the iteration orders of the maps a handler walks and
    the sort it uses. *)
Record Env := {
  now : Z;
  fresh : nat → uuid;
  queue_order : gmap string (list QueuedMessage) → list string;
  client_order : gmap string string → list string;
  sub_order : gmap string (gset string) → list string;
  queue_sort : list QueuedMessage → list QueuedMessage;
}.

Class EnvOk (e : Env) : Prop := {
  queue_order_ok m :: RangeOrder m (queue_order e m);
  client_order_ok m :: RangeOrder m (client_order e m);
  sub_order_ok m :: RangeOrder m (sub_order e m);
  queue_sort_ok :: SortFunc (key_le qm_QueuedAt) (queue_sort e);
}.

(** An environment with an executable choice of everything. *)
Definition demo_env (t : Z) : Env := {|
  now := t; fresh := uuid_lit; queue_order := keys_of; client_order := keys_of;
  sub_order := keys_of; queue_sort := merge_sort_by qm_QueuedAt;
|}.

#[export] Instance demo_env_ok t : EnvOk (demo_env t).
Proof. split; apply _. Qed.

(** ** JSON-RPC *)

Definition CodeInvalidParams : Z := -32602.
Definition CodeInternalError : Z := -32603.
Definition CodeAccessDenied : Z := -32001.
Definition CodeRoutingError : Z := -32002.
Definition CodeSignatureInvalid : Z := -32003.
Definition CodeSenderNotRegistered : Z := -32005.
Definition CodeSenderMismatch : Z := -32006.
Definition CodeRateLimited : Z := -32007.
Definition CodeQuotaExceeded : Z := -32008.
Definition CodeDelegationInvalid : Z := -32009.

Record JSONRPCRequest := {
  req_JSONRPC : string;
  req_ID : any;
  req_Method : string;
  req_Params : option string;
}.

Record QuotaErrorData := {
  qe_Plan : string;
  qe_Current : Z;
  qe_Limit : Z;
  qe_UpgradeHint : string;
}.

Definition FormatQuotaErrorData (plan tenantID : string) (current limit : Z) : QuotaErrorData := {|
  qe_Plan := plan; qe_Current := current; qe_Limit := limit;
  qe_UpgradeHint := "billing-admin set-plan --tenant " +:+ tenantID +:+ " --plan team";
|}.

(** ** Errors of the relay *)

Inductive RouteError :=
| RouteQueueFailed (e : QueueError)
| RouteNotFound (to : string)
| RouteBufferFull
| RouteChannel (e : ChannelError).

(** The text of an error response: a literal, or the error it renders. *)
Inductive ErrorText :=
| Text (s : string)
| DelegationDenied (from namespace : string)
| DelegationProofInvalid (actor from : string)
| ErrSenderMismatch (from did : string)
| ErrDIDProofRequired
| ErrNoSigningKey
| ErrProofTimestamp
| ErrDIDProofInvalid
| ErrDIDKeyMismatch
| ErrInvalidDIDFormat
| TextValidation (e : ValidationError)
| TextRoute (e : RouteError)
| TextStore (e : StoreError)
| TextChannel (e : ChannelError).

(** ** Frames *)

Inductive Payload :=
| PJson (v : any)
| PAgents (l : list Agent)
| PAgent (a : option Agent).

Inductive Frame :=
| FRaw (data : string)
| FResult (id : any) (r : Payload)
| FError (id : any) (code : Z) (message : ErrorText) (data : option QuotaErrorData)
| FNotify (method : string) (params : Payload).

(** ** Configuration *)

Record RelayConfig := {
  MaxConnections : Z;
  MessageRateLimit : Q;
  MessageBurstSize : Q;
  RegisterRateLimit : Q;
  DiscoverRateLimit : Q;
  ReadTimeout : Z;
  WriteTimeout : Z;
  IdleTimeout : Z;
  EnableOfflineQueue : bool;
  QueueConfig : Config;
  AllowedOrigins : list string;
  RequireDIDProof : bool;
  PinDIDKeys : bool;
}.

Definition DefaultRelayConfig : RelayConfig := {|
  MaxConnections := 1000; MessageRateLimit := 100; MessageBurstSize := 200;
  RegisterRateLimit := 1; DiscoverRateLimit := 10; ReadTimeout := 5 * Minute;
  WriteTimeout := 10 * Second; IdleTimeout := 5 * Minute; EnableOfflineQueue := true;
  QueueConfig := DefaultConfig; AllowedOrigins := []; RequireDIDProof := true;
  PinDIDKeys := false;
|}.

(** [Validate]; the field whose check fails first. *)
Definition RelayConfig_Validate (c : RelayConfig) : option string :=
  if MaxConnections c <=? 0 then Some "max_connections"
  else if Qle_bool (MessageRateLimit c) 0 then Some "message_rate_limit"
  else if Qle_bool (MessageBurstSize c) 0 then Some "message_burst_size"
  else if Qle_bool (RegisterRateLimit c) 0 then Some "register_rate_limit"
  else if Qle_bool (DiscoverRateLimit c) 0 then Some "discover_rate_limit"
  else if ReadTimeout c <=? 0 then Some "read_timeout"
  else if WriteTimeout c <=? 0 then Some "write_timeout"
  else None.

Definition wsSendBufferSize : nat := 256.

(** ** State *)

Record Client := {
  c_ID : string;
  c_DID : string;
  c_TenantID : string;
  c_SendCh : list Frame;
  c_msgLimiter : RateLimiter;
  c_registerLimiter : RateLimiter;
  c_discoverLimiter : RateLimiter;
  c_lastActivity : Z;
  c_stopped : bool;
  c_gatewayNamespace : string;
  c_gatewaySigningKey : option string;
}.

(** A presence manager: the state per DID, who watches whom, and who is typing where. *)
Record PresenceManager := {
  presence : gmap string PresenceInfo;
  subscriptions : gmap string (gset string);
  typingState : gmap string (gmap string Z);
}.

Definition NewPresenceManager : PresenceManager :=
  {| presence := ∅; subscriptions := ∅; typingState := ∅ |}.

Record RelayHub {St : Type} := {
  h_config : RelayConfig;
  h_store : St;
  h_queue : option Queue.MemoryStore;
  h_presence : PresenceManager;
  h_channels : MemoryChannelStore;
  h_clients : gmap string string;
  h_objs : gmap string Client;
  h_connections : Z;
  h_allowlistACL : option ACLPolicy;
  h_billingStore : option BillingStore;
  h_tenantPool : option TenantRateLimiterPool;
  h_panicked : bool;
}.
Arguments RelayHub : clear implicits.

(** [NewRelayHubWithStore]; billing and the allowlist are assigned by [main] afterwards. *)
Definition NewRelayHubWithStore {St} (c : RelayConfig) (store : St) (queueStore : option Queue.MemoryStore)
  : RelayHub St := {|
  h_config := c; h_store := store;
  h_queue := match queueStore with
             | Some q => Some q
             | None => if EnableOfflineQueue c then Some (Queue.NewMemoryStore (QueueConfig c)) else None
             end;
  h_presence := NewPresenceManager; h_channels := NewMemoryChannelStore;
  h_clients := ∅; h_objs := ∅; h_connections := 0; h_allowlistACL := None;
  h_billingStore := None; h_tenantPool := None; h_panicked := false;
|}.

(** ** Field updates *)

Section setters.
Context {St : Type}.
Implicit Type h : RelayHub St.

Definition h_with (h : RelayHub St) (store : St) (q : option Queue.MemoryStore) (p : PresenceManager)
    (ch : MemoryChannelStore) (cl : gmap string string) (o : gmap string Client)
    (pool : option TenantRateLimiterPool) (panicked : bool) : RelayHub St := {|
  h_config := h_config h; h_store := store; h_queue := q; h_presence := p; h_channels := ch;
  h_clients := cl; h_objs := o; h_connections := h_connections h;
  h_allowlistACL := h_allowlistACL h; h_billingStore := h_billingStore h; h_tenantPool := pool;
  h_panicked := panicked;
|}.

Definition set_store h (s : St) : RelayHub St :=
  h_with h s (h_queue h) (h_presence h) (h_channels h) (h_clients h) (h_objs h) (h_tenantPool h) (h_panicked h).
Definition set_queue h q : RelayHub St :=
  h_with h (h_store h) (Some q) (h_presence h) (h_channels h) (h_clients h) (h_objs h) (h_tenantPool h) (h_panicked h).
Definition set_presence h p : RelayHub St :=
  h_with h (h_store h) (h_queue h) p (h_channels h) (h_clients h) (h_objs h) (h_tenantPool h) (h_panicked h).
Definition set_channels h ch : RelayHub St :=
  h_with h (h_store h) (h_queue h) (h_presence h) ch (h_clients h) (h_objs h) (h_tenantPool h) (h_panicked h).
Definition set_clients h cl : RelayHub St :=
  h_with h (h_store h) (h_queue h) (h_presence h) (h_channels h) cl (h_objs h) (h_tenantPool h) (h_panicked h).
Definition set_objs h o : RelayHub St :=
  h_with h (h_store h) (h_queue h) (h_presence h) (h_channels h) (h_clients h) o (h_tenantPool h) (h_panicked h).
Definition set_pool h p : RelayHub St :=
  h_with h (h_store h) (h_queue h) (h_presence h) (h_channels h) (h_clients h) (h_objs h) (Some p) (h_panicked h).
Definition set_panicked h : RelayHub St :=
  h_with h (h_store h) (h_queue h) (h_presence h) (h_channels h) (h_clients h) (h_objs h) (h_tenantPool h) true.

End setters.

Definition c_with (c : Client) (did tenant : string) (buf : list Frame) (m r d : RateLimiter)
    (stopped : bool) (ns : string) (key : option string) : Client := {|
  c_ID := c_ID c; c_DID := did; c_TenantID := tenant; c_SendCh := buf; c_msgLimiter := m;
  c_registerLimiter := r; c_discoverLimiter := d; c_lastActivity := c_lastActivity c;
  c_stopped := stopped; c_gatewayNamespace := ns; c_gatewaySigningKey := key;
|}.

Definition set_SendCh (c : Client) (buf : list Frame) : Client :=
  c_with c (c_DID c) (c_TenantID c) buf (c_msgLimiter c) (c_registerLimiter c) (c_discoverLimiter c)
    (c_stopped c) (c_gatewayNamespace c) (c_gatewaySigningKey c).

(** ** Operations *)

Section hub.
Context {St : Type} `{Store St} `{Runtime}.
Implicit Types (h : RelayHub St) (e : Env) (cid : string).

(** [select { case client.SendCh <- f: ... default: ... }] on the connection [cid]. *)
Definition send h cid (f : Frame) : RelayHub St * bool :=
  match h_objs h !! cid with
  | None => (h, false)
  | Some c =>
      if c_stopped c then (set_panicked h, false)
      else if (length (c_SendCh c) <? wsSendBufferSize)%nat
      then (set_objs h (<[cid := set_SendCh c (c_SendCh c ++ [f])]> (h_objs h)), true)
      else (h, false)
  end.

Definition client_of h cid : option Client := h_objs h !! cid.

(** [Register]: the object is in the heap under its ID. *)
Definition Register h cid : RelayHub St :=
  match client_of h cid with
  | None => h
  | Some c =>
      let m := <[cid := cid]> (h_clients h) in
      set_clients h (if decide (c_DID c = EmptyString) then m else <[c_DID c := cid]> m)
  end.

Definition Unregister h cid : RelayHub St :=
  match client_of h cid with
  | None => h
  | Some c =>
      let m := delete cid (h_clients h) in
      set_clients h (if decide (c_DID c = EmptyString) then m else delete (c_DID c) m)
  end.

Definition stop_client (c : Client) : Client :=
  c_with c (c_DID c) (c_TenantID c) (c_SendCh c) (c_msgLimiter c) (c_registerLimiter c)
    (c_discoverLimiter c) true (c_gatewayNamespace c) (c_gatewaySigningKey c).

(** [Stop], as far as the state goes: every connection in the table is closed once, and
    the queue is closed. *)
Definition Stop e h : RelayHub St :=
  let o := foldl (λ o k, match h_clients h !! k with
                         | Some cid => alter stop_client cid o
                         | None => o
                         end) (h_objs h) (client_order e (h_clients h)) in
  let h1 := set_objs h o in
  match h_queue h1 with
  | Some q => set_queue h1 (Queue.Close q)
  | None => h1
  end.

(** One tick of [queueCleanupLoop]. *)
Definition queueCleanup e h : RelayHub St :=
  match h_queue h with
  | Some q => set_queue h (Cleanup (queue_order e (queues q)) (now e) q).1
  | None => h
  end.

Definition sendDeliveryAck e h (sender : string) (messageID : uuid) (delivered : bool) (status : string)
  : RelayHub St :=
  (send h sender (FNotify "relay.ack" (PJson (JObject [
     ("message_id", JString (uuid_String messageID));
     ("delivered", JBool delivered);
     ("status", JString status);
     ("timestamp", JString (Format_RFC3339 (now e)))])))).1.

(** [if msg.RequestAck && senderClient != nil { h.sendDeliveryAck(...) }] *)
Definition ack_if e h (msg : Message) (sender : option string) (delivered : bool) (status : string)
  : RelayHub St :=
  match sender with
  | Some s => if RequestAck msg then sendDeliveryAck e h s (ID msg) delivered status else h
  | None => h
  end.

(** Broadcast visits the clients map; a client that appears under two keys is sent once. *)
Fixpoint broadcast_loop h (senderID : string) (f : Frame) (seen : list string) (ks : list string)
  : RelayHub St :=
  match ks with
  | [] => h
  | k :: ks' =>
      match h_clients h !! k with
      | None => broadcast_loop h senderID f seen ks'
      | Some cid =>
          if decide (cid = senderID ∨ cid ∈ seen) then broadcast_loop h senderID f seen ks'
          else
            let seen' := cid :: seen in
            match client_of h cid with
            | None => broadcast_loop h senderID f seen' ks'
            | Some c =>
                if c_stopped c then broadcast_loop h senderID f seen' ks'
                else broadcast_loop (send h cid f).1 senderID f seen' ks'
            end
      end
  end.

Definition Broadcast e h (senderID : string) (f : Frame) : RelayHub St :=
  broadcast_loop h senderID f [] (client_order e (h_clients h)).

(** The queue entry for an offline recipient. *)
Definition queued_message e h (id : uuid) (from to data : string) : QueuedMessage := {|
  qm_ID := id; qm_RecipientDID := to; qm_Data := data; qm_QueuedAt := now e;
  qm_ExpiresAt := now e + MessageTTL (QueueConfig (h_config h)); qm_DeliveryAttempts := 0;
  qm_LastAttempt := None; qm_SenderDID := from;
|}.

Definition enqueue e h (q : Queue.MemoryStore) (m : QueuedMessage) : RelayHub St * option QueueError :=
  let '(q', err) := Enqueue (queue_order e (queues q)) q m in (set_queue h q', err).

(** ** Channels *)

Definition IsChannelURI (to : string) : bool := HasPrefix to "channel:".

(** The queue a message for an absent recipient goes to. *)
Definition offline_queue h : option Queue.MemoryStore :=
  if EnableOfflineQueue (h_config h) then h_queue h else None.

(** [queueForOffline]: the error of a full queue is only logged. *)
Definition queueForOffline e h (q : Queue.MemoryStore) (id : uuid) (msg : Message) (data recipientDID : string)
  : RelayHub St := (enqueue e h q (queued_message e h id (From msg) recipientDID data)).1.

(** One iteration of the fan-out: member number [i]. *)
Definition fan_out_member e (msg : Message) (data : string) h (i : nat) (did : string) : RelayHub St :=
  if decide (did = From msg) then h
  else match h_clients h !! did with
       | Some cid => (send h cid (FRaw data)).1
       | None => match offline_queue h with
                 | Some q => queueForOffline e h q (fresh e i) msg data did
                 | None => h
                 end
       end.

Fixpoint fan_out e (msg : Message) (data : string) (i : nat) (members : list string) h : RelayHub St :=
  match members with
  | [] => h
  | did :: members' => fan_out e msg data (S i) members' (fan_out_member e msg data h i did)
  end.

Definition RouteToChannel e h (msg : Message) (data : string) : RelayHub St * option RouteError :=
  match GetChannelByName (h_channels h) (To msg) with
  | Err err => (h, Some (RouteChannel err))
  | Ok channel =>
      if CanSend channel (From msg) then (fan_out e msg data 0 (MemberDIDs channel) h, None)
      else (h, Some (RouteChannel ErrNotChannelMember))
  end.

(** ** Routing *)

Definition Route e h (msg : Message) (data : string) : RelayHub St * option RouteError :=
  if IsChannelURI (To msg) then RouteToChannel e h msg data
  else
    let senderClient := h_clients h !! From msg in
    match h_clients h !! To msg with
    | None =>
        match offline_queue h with
        | Some q =>
            match enqueue e h q (queued_message e h (ID msg) (From msg) (To msg) data) with
            | (h1, Some err) =>
                (ack_if e h1 msg senderClient false "queue failed", Some (RouteQueueFailed err))
            | (h1, None) => (ack_if e h1 msg senderClient true "queued", None)
            end
        | None =>
            (ack_if e h msg senderClient false "recipient not found", Some (RouteNotFound (To msg)))
        end
    | Some cid =>
        match send h cid (FRaw data) with
        | (h1, true) => (ack_if e h1 msg senderClient true "delivered", None)
        | (h1, false) => (ack_if e h1 msg senderClient false "buffer full", Some RouteBufferFull)
        end
    end.

End hub.

(** ** What routing can change *)

Section hub_facts.
Context {St : Type} `{Store St} `{Runtime}.
Implicit Types (h : RelayHub St) (e : Env) (cid : string).

Definition frames_of h cid : list Frame := from_option c_SendCh [] (h_objs h !! cid).

(** The bytes forwarded to a connection, and everything else it is sent. *)
Definition raws (l : list Frame) : list string :=
  omap (λ f, match f with FRaw d => Some d | _ => None end) l.

(** Everything but the buffers and the queue. *)
Record same_static h h' : Prop := {
  ss_config : h_config h' = h_config h;
  ss_store : h_store h' = h_store h;
  ss_presence : h_presence h' = h_presence h;
  ss_channels : h_channels h' = h_channels h;
  ss_clients : h_clients h' = h_clients h;
  ss_allow : h_allowlistACL h' = h_allowlistACL h;
  ss_billing : h_billingStore h' = h_billingStore h;
  ss_pool : h_tenantPool h' = h_tenantPool h;
  ss_conn : h_connections h' = h_connections h;
  ss_objs cid : (λ c, set_SendCh c []) <$> (h_objs h' !! cid) = (λ c, set_SendCh c []) <$> (h_objs h !! cid);
}.

#[export] Instance same_static_equiv : Equivalence same_static.
Proof.
  split.
  - done.
  - intros h h' []. by split.
  - intros h1 h2 h3 [] []. split; congruence.
Qed.

(** A hub that has not been stopped. *)
Definition running h : Prop := ∀ cid c, h_objs h !! cid = Some c → c_stopped c = false.

Lemma same_static_obj h h' cid c' :
  same_static h h' → h_objs h' !! cid = Some c' → ∃ c, h_objs h !! cid = Some c ∧ c' = set_SendCh c (c_SendCh c').
Proof.
  intros Hs Hc'. pose proof (ss_objs _ _ Hs cid) as Ho. rewrite Hc' in Ho. simpl in Ho.
  destruct (h_objs h !! cid) as [c|]; [|done]. simpl in Ho. injection Ho as Hc. exists c. split; [done |].
  destruct c, c'; simpl in *. unfold set_SendCh, c_with in *; simpl in *. by simplify_eq.
Qed.

Lemma same_static_running h h' : same_static h h' → running h → running h'.
Proof.
  intros Hs Hr cid c' Hc'. destruct (same_static_obj h h' cid c' Hs Hc') as (c & Hc & ->). simpl. eauto.
Qed.

Lemma send_static h cid f : same_static h (send h cid f).1.
Proof.
  unfold send. destruct (h_objs h !! cid) as [c|] eqn:Hc; [|done].
  destruct (c_stopped c); [done |]. destruct (_ <? _)%nat; [|done]. split; try done.
  intros cid'. simpl. destruct (decide (cid = cid')) as [<-|Hne].
  - by rewrite lookup_insert_eq, Hc.
  - by rewrite lookup_insert_ne.
Qed.

Lemma send_queue h cid f : h_queue (send h cid f).1 = h_queue h.
Proof. unfold send. by repeat case_match. Qed.

Lemma send_panicked h cid f : running h → h_panicked (send h cid f).1 = h_panicked h.
Proof.
  intros Hr. unfold send. destruct (h_objs h !! cid) as [c|] eqn:Hc; [|done].
  rewrite (Hr cid c Hc). by case_match.
Qed.

Definition has_room h cid : Prop :=
  is_Some (h_objs h !! cid) ∧ (length (frames_of h cid) < wsSendBufferSize)%nat.

Lemma send_accepted h cid f : running h → (send h cid f).2 = true ↔ has_room h cid.
Proof.
  intros Hr. unfold send, has_room, frames_of. destruct (h_objs h !! cid) as [c|] eqn:Hc; simpl.
  - rewrite (Hr cid c Hc). destruct (Nat.ltb_spec (length (c_SendCh c)) wsSendBufferSize); simpl.
    + split; [eauto | done].
    + split; [done | intros [_ ?]; lia].
  - split; [done | by intros [[? ?] _]].
Qed.

Lemma send_frames h cid f cid' :
  frames_of (send h cid f).1 cid' =
    frames_of h cid' ++ (if decide (cid' = cid ∧ (send h cid f).2 = true) then [f] else []).
Proof.
  unfold send, frames_of. destruct (h_objs h !! cid) as [c|] eqn:Hc; simpl.
  2: { rewrite decide_False by (by intros []). by rewrite app_nil_r. }
  destruct (c_stopped c); simpl; [rewrite decide_False by (by intros []); by rewrite app_nil_r |].
  destruct (_ <? _)%nat; simpl; [|rewrite decide_False by (by intros []); by rewrite app_nil_r].
  destruct (decide (cid' = cid)) as [->|Hne].
  - rewrite lookup_insert_eq, Hc. by rewrite decide_True.
  - rewrite lookup_insert_ne by done. rewrite decide_False by tauto. by rewrite app_nil_r.
Qed.

Lemma set_queue_static h q : same_static h (set_queue h q).
Proof. by split. Qed.

(** The acknowledgement [Route] may send. *)
Definition ack_frame e (msg : Message) (delivered : bool) (status : string) : Frame :=
  FNotify "relay.ack" (PJson (JObject [
    ("message_id", JString (uuid_String (ID msg))); ("delivered", JBool delivered);
    ("status", JString status); ("timestamp", JString (Format_RFC3339 (now e)))])).

(** Where an acknowledgement goes. *)
Definition acked h (msg : Message) (sender : option string) (cid : string) : Prop :=
  sender = Some cid ∧ RequestAck msg = true ∧ has_room h cid.

Lemma ack_if_spec e h msg sender delivered status :
  running h →
  let h' := ack_if e h msg sender delivered status in
  same_static h h' ∧ h_queue h' = h_queue h ∧ h_panicked h' = h_panicked h ∧
  ∀ cid, (acked h msg sender cid ∧ frames_of h' cid = frames_of h cid ++ [ack_frame e msg delivered status]) ∨
         (¬ acked h msg sender cid ∧ frames_of h' cid = frames_of h cid).
Proof.
  intros Hr. unfold ack_if, sendDeliveryAck. fold (ack_frame e msg delivered status).
  destruct sender as [s|].
  - destruct (RequestAck msg) eqn:Hack.
    + split_and!; [apply send_static | apply send_queue | by apply send_panicked |].
      intros cid. rewrite send_frames. case_decide as Hd.
      * left. destruct Hd as [-> Hs]. split; [|done]. split_and!; [done.. |]. by apply send_accepted in Hs.
      * right. rewrite app_nil_r. split; [|done]. intros ([= ->] & _ & Hroom). apply Hd. split; [done |].
        by apply send_accepted.
    + split_and!; [done.. |]. intros cid. right. split; [|done]. intros (_ & ? & _). congruence.
  - split_and!; [done.. |]. intros cid. right. split; [|done]. by intros (? & _).
Qed.

Lemma raws_app l l' : raws (l ++ l') = raws l ++ raws l'.
Proof. apply omap_app. Qed.

(** ** Direct routing *)

(** What was forwarded between two states, per connection. *)
Definition forwarded h h' (new : string → list string) : Prop :=
  ∀ cid, raws (frames_of h' cid) = raws (frames_of h cid) ++ new cid.

(** The acknowledgements sent between two states are to the sender and say [ok]; a sender
    that asked for one and has room left gets it. *)
Definition truthful_ack e h h' (msg : Message) (data : string) (ok : bool) : Prop :=
  (∀ cid, ∃ fs, frames_of h' cid = frames_of h cid ++ fs ∧
     ∀ f, f ∈ fs → f = FRaw data ∨
       (RequestAck msg = true ∧ h_clients h !! From msg = Some cid ∧
        ∃ status, f = ack_frame e msg ok status)) ∧
  (∀ s, RequestAck msg = true → h_clients h !! From msg = Some s → is_Some (h_objs h !! s) →
     (length (frames_of h s) + 1 < wsSendBufferSize)%nat →
     ∃ status fs, frames_of h' s = fs ++ [ack_frame e msg ok status]).

(** The common end of every branch of [Route]: at most one forwarded frame to [to], then
    the acknowledgement. *)
Lemma ack_after e h h1 msg data ok status (to : option string) :
  running h1 → same_static h h1 →
  (∀ cid, frames_of h1 cid = frames_of h cid ++ if decide (to = Some cid) then [FRaw data] else []) →
  let h' := ack_if e h1 msg (h_clients h !! From msg) ok status in
  same_static h h' ∧ h_queue h' = h_queue h1 ∧ h_panicked h' = h_panicked h1 ∧
  forwarded h h' (λ cid, if decide (to = Some cid) then [data] else []) ∧
  truthful_ack e h h' msg data ok.
Proof.
  intros Hr Hs Hf h'.
  destruct (ack_if_spec e h1 msg (h_clients h !! From msg) ok status Hr) as (Hs' & Hq & Hp & Hfr).
  fold h' in Hs', Hq, Hp, Hfr. split_and!; [by etrans | done | done | |].
  - intros cid. destruct (Hfr cid) as [[_ ->]|[_ ->]]; rewrite Hf, !raws_app; simpl;
      rewrite ?app_nil_r; by case_decide.
  - split.
    + intros cid. destruct (Hfr cid) as [[(Hc & Ha & _) ->]|[_ ->]]; rewrite Hf, <- ?app_assoc.
      * eexists. split; [reflexivity |]. intros f [Hin|Hin]%elem_of_app.
        -- left. case_decide; [by apply list_elem_of_singleton in Hin | by apply elem_of_nil in Hin].
        -- right. apply list_elem_of_singleton in Hin. eauto.
      * eexists. split; [reflexivity |]. intros f Hin. left.
        case_decide; [by apply list_elem_of_singleton in Hin | by apply elem_of_nil in Hin].
    + intros s Ha Hc Ho Hlen. destruct (Hfr s) as [[_ ->]|[Hn _]]; [eauto |]. exfalso. apply Hn.
      split_and!; [done.. |]. split.
      * pose proof (ss_objs _ _ Hs s) as Heq. destruct Ho as [c Ho]. rewrite Ho in Heq.
        destruct (h_objs h1 !! s); [eauto | done].
      * rewrite Hf, length_app. case_decide; simpl; lia.
Qed.

End hub_facts.

(** C1. Routing to one recipient: on a running hub a message whose destination is not a
    channel is handed to exactly one connection (the one the table holds for the recipient,
    when its buffer has room), or else queued exactly once (recipient absent, queue enabled
    and not full), and Route returns nil exactly in these cases; otherwise it returns the
    matching error and nothing was forwarded or queued.  Nothing else of the hub changes,
    and a sender that asked for an acknowledgement is told the truth, and is told whenever
    its own buffer has room. *)
Theorem route_delivers_once `{Store St} `{Runtime} e (h : RelayHub St) msg data h' r :
  running h → IsChannelURI (To msg) = false → Route e h msg data = (h', r) →
  same_static h h' ∧ h_panicked h' = h_panicked h ∧
  truthful_ack e h h' msg data (bool_decide (r = None)) ∧
  match h_clients h !! To msg with
  | Some cid =>
      h_queue h' = h_queue h ∧
      ((r = None ∧ has_room h cid ∧ forwarded h h' (λ c, if decide (Some cid = Some c) then [data] else [])) ∨
       (r = Some RouteBufferFull ∧ ¬ has_room h cid ∧ forwarded h h' (λ _, [])))
  | None =>
      forwarded h h' (λ _, []) ∧
      match offline_queue h with
      | None => r = Some (RouteNotFound (To msg)) ∧ h_queue h' = h_queue h
      | Some q =>
          let '(q', err) := Enqueue (queue_order e (queues q)) q
                              (queued_message e h (ID msg) (From msg) (To msg) data) in
          h_queue h' = Some q' ∧ r = RouteQueueFailed <$> err ∧ (err ≠ None → q' = q)
      end
  end.
Proof.
  intros Hr Hch. unfold Route. rewrite Hch.
  assert (Hnone : ∀ cid, frames_of h cid = frames_of h cid ++ if decide (@None string = Some cid) then [FRaw data] else []).
  { intros cid. by rewrite decide_False, app_nil_r. }
  destruct (h_clients h !! To msg) as [cid|] eqn:Hto.
  - pose proof (send_frames h cid (FRaw data)) as Hfr. pose proof (send_accepted h cid (FRaw data) Hr) as Hacc.
    pose proof (send_static h cid (FRaw data)) as Hst. pose proof (send_queue h cid (FRaw data)) as Hqu.
    pose proof (send_panicked h cid (FRaw data) Hr) as Hpa.
    pose proof (same_static_running _ _ Hst Hr) as Hr1.
    destruct (send h cid (FRaw data)) as [h1 [|]]; simpl in *; intros [= <- <-].
    + destruct (ack_after e h h1 msg data true "delivered" (Some cid) Hr1 Hst) as (H1 & H2 & H3 & H4 & H5).
      { intros c. rewrite Hfr. f_equal. destruct (decide (c = cid)) as [->|Hne]; [by rewrite !decide_True |].
        rewrite decide_False by (by intros []). by rewrite decide_False by congruence. }
      split_and!; [done | congruence | done | congruence |]. left. split_and!; [done | by apply Hacc | done].
    + destruct (ack_after e h h1 msg data false "buffer full" None Hr1 Hst) as (H1 & H2 & H3 & H4 & H5).
      { intros c. rewrite Hfr. f_equal. rewrite decide_False by (by intros []). by rewrite decide_False. }
      split_and!; [done | congruence | done | congruence |]. right.
      split_and!; [done | rewrite <- Hacc; congruence | done].
  - destruct (offline_queue h) as [q|] eqn:Hq.
    + unfold enqueue. destruct (Enqueue _ q _) as [q' err] eqn:HE.
      assert (Hkeep : err ≠ None → q' = q).
      { unfold Enqueue in HE. repeat case_match; simplify_eq; done. }
      destruct err as [err|]; intros [= <- <-].
      * destruct (ack_after e h (set_queue h q') msg data false "queue failed" None Hr (set_queue_static h q') Hnone)
          as (H1 & H2 & H3 & H4 & H5). split_and!; done.
      * destruct (ack_after e h (set_queue h q') msg data true "queued" None Hr (set_queue_static h q') Hnone)
          as (H1 & H2 & H3 & H4 & H5). split_and!; done.
    + intros [= <- <-].
      destruct (ack_after e h h msg data false "recipient not found" None Hr ltac:(done) Hnone)
        as (H1 & H2 & H3 & H4 & H5). split_and!; done.
Qed.

(** ** A small running hub *)

#[export] Instance demo_runtime : Runtime := {|
  uuid_String := λ _, "id"; uuid_Parse := λ s, if decide (s = "id") then Some (uuid_lit 9) else None;
  ed25519_Verify := λ k d s, String.eqb s ("signed:" +:+ d);
  ParseDID := λ s, if HasPrefix s "did:wba:" then Some "wba" else None;
  Format_RFC3339 := λ _, "now";
|}.

Definition demo_client (cid did : string) (key : option string) : Client := {|
  c_ID := cid; c_DID := did; c_TenantID := ""; c_SendCh := [];
  c_msgLimiter := NewRateLimiter 0 100 200; c_registerLimiter := NewRateLimiter 0 1 2;
  c_discoverLimiter := NewRateLimiter 0 10 20; c_lastActivity := 0; c_stopped := false;
  c_gatewayNamespace := ""; c_gatewaySigningKey := key;
|}.

(** Connections of Alice and Bob. *)
Definition demo_hub : RelayHub Registry.MemoryStore :=
  let h0 := NewRelayHubWithStore DefaultRelayConfig Registry.NewMemoryStore None in
  let h1 := set_objs h0 {[ "c1" := demo_client "c1" "did:wba:alice" None;
                           "c2" := demo_client "c2" "did:wba:bob" None ]} in
  Register (Register h1 "c1") "c2".

Lemma demo_hub_running : running demo_hub.
Proof.
  intros cid c Hc. apply elem_of_map_to_list in Hc. vm_compute in Hc.
  repeat (apply elem_of_cons in Hc as [Hc|Hc]; [injection Hc as _ ->; reflexivity |]).
  by apply elem_of_nil in Hc.
Qed.

Definition demo_message (to : string) : Message :=
  WithRequestAck (NewMessage (uuid_lit 5) 0 "did:wba:alice" to TypeChat "chat").

Lemma route_delivers_once_witness :
  (Route (demo_env 1) demo_hub (demo_message "did:wba:bob") "hello").2 = None ∧
  forwarded demo_hub (Route (demo_env 1) demo_hub (demo_message "did:wba:bob") "hello").1
    (λ c, if decide (Some "c2" = Some c) then ["hello"] else []).
Proof.
  destruct (route_delivers_once (demo_env 1) demo_hub (demo_message "did:wba:bob") "hello" _ _
    demo_hub_running ltac:(reflexivity) (surjective_pairing _)) as (_ & _ & _ & Hm).
  assert (Hc : h_clients demo_hub !! To (demo_message "did:wba:bob") = Some "c2") by (vm_compute; reflexivity).
  assert (Hok : (Route (demo_env 1) demo_hub (demo_message "did:wba:bob") "hello").2 = None) by (vm_compute; reflexivity).
  rewrite Hc, Hok in Hm. split; [exact Hok |].
  destruct Hm as [_ [(_ & _ & Hf)|(He & _)]]; [exact Hf | discriminate He].
Defined.

(** ** Fan-out to a channel *)

Section fan_out_facts.
Context {St : Type} `{Store St} `{Runtime}.
Implicit Types (h : RelayHub St) (e : Env) (cid : string).

(** Appending to a bounded buffer until it is full. *)
Definition append_frames (l fs : list Frame) : list Frame := l ++ take (wsSendBufferSize - length l) fs.

Lemma append_frames_nil l : append_frames l [] = l.
Proof. unfold append_frames. by rewrite take_nil, app_nil_r. Qed.

Lemma append_frames_app l fs fs' : append_frames (append_frames l fs) fs' = append_frames l (fs ++ fs').
Proof.
  unfold append_frames. rewrite <- app_assoc. f_equal. rewrite take_app. f_equal.
  rewrite length_app, length_take. f_equal. lia.
Qed.

(** Every entry of the connection table leads to a connection. *)
Definition clients_valid h : Prop := ∀ k cid, h_clients h !! k = Some cid → is_Some (h_objs h !! cid).

Definition queue_open h : Prop := ∀ q, h_queue h = Some q → Queue.Inv q ∧ closed q = false.

Lemma same_static_valid h h' : same_static h h' → clients_valid h → clients_valid h'.
Proof.
  intros Hs Hv k cid. rewrite (ss_clients _ _ Hs). intros Hk. destruct (Hv k cid Hk) as [c Hc].
  pose proof (ss_objs _ _ Hs cid) as Ho. rewrite Hc in Ho. destruct (h_objs h' !! cid); [eauto | done].
Qed.

Lemma send_append h cid f cid' :
  running h → is_Some (h_objs h !! cid) →
  frames_of (send h cid f).1 cid' =
    append_frames (frames_of h cid') (if decide (cid' = cid) then [f] else []).
Proof.
  intros Hr Ho. rewrite send_frames. pose proof (send_accepted h cid f Hr) as Ha. unfold has_room in Ha.
  destruct (decide (cid' = cid)) as [->|Hne].
  - unfold append_frames. case_decide as Hd.
    + destruct Hd as [_ Hd]. apply Ha in Hd as [_ Hd].
      by rewrite take_ge by (simpl; lia).
    + assert (¬ (length (frames_of h cid) < wsSendBufferSize)%nat) by (intros Hl; apply Hd; tauto).
      by replace (wsSendBufferSize - _)%nat with O by lia.
  - rewrite decide_False by (by intros []). by rewrite append_frames_nil, app_nil_r.
Qed.

(** How many copies a connection is offered: one per member DID it is known by. *)
Definition copies h (from : string) (members : list string) (cid : string) : nat :=
  length (filter (λ did, did ≠ from ∧ h_clients h !! did = Some cid) members).

(** The members a message is queued for. *)
Definition absent h (from : string) (members : list string) : list string :=
  filter (λ did, did ≠ from ∧ h_clients h !! did = None) members.

Definition unlimited h : Prop :=
  MaxQueueSize (QueueConfig (h_config h)) ≤ 0 ∧ MaxTotalMessages (QueueConfig (h_config h)) ≤ 0.

Definition pending h : list QueuedMessage := from_option (λ q, flatten (queues q)) [] (h_queue h).

(** The message waits for [did] on behalf of the sender. *)
Definition queued_for (msg : Message) (data : string) (m : QueuedMessage) (dids : list string) : Prop :=
  qm_RecipientDID m ∈ dids ∧ qm_Data m = data ∧ qm_SenderDID m = From msg.

Lemma enqueue_pending e h q m h1 err :
  EnvOk e → queue_open h → h_queue h = Some q → enqueue e h q m = (h1, err) →
  queue_open h1 ∧ (∀ x, x ∈ pending h1 → x ∈ pending h ∨ (err = None ∧ x = m)) ∧
  (MaxQueueSize (config q) ≤ 0 → MaxTotalMessages (config q) ≤ 0 → pending h1 ≡ₚ m :: pending h) ∧
  ∃ q1, h1 = set_queue h q1 ∧ config q1 = config q.
Proof.
  intros He Hopen Hq. unfold enqueue. destruct (Enqueue _ q m) as [q1 er] eqn:HE. intros [= <- <-].
  destruct (Hopen q Hq) as [HI Hc].
  pose proof (step_enqueue _ _ _ _ _ (queue_order_ok (queues q)) HE) as Hst.
  destruct (Enqueue_spec _ _ _ _ _ HI Hc (queue_order_ok (queues q)) HE) as [HI' Hsp].
  assert (Hc' : closed q1 = false).
  { unfold Enqueue in HE. rewrite Hc in HE. pose proof (evictOldestLocked_frame (queue_order e (queues q)) q) as (_ & Hf & _).
    repeat case_match; simplify_eq; simpl; try done. congruence. }
  unfold pending. rewrite Hq. simpl. split_and!.
  - intros q' [= <-]. done.
  - intros x Hx. inversion Hsp as [? ?|? ? ? ? Hp|? ? ? ? ? ? ? ? Hp0 Hp| | | | | | | |]; subst.
    + left; congruence.
    + rewrite Hp in Hx. apply elem_of_cons in Hx as [->|Hx]; [by right | by left].
    + rewrite Hp in Hx. apply elem_of_cons in Hx as [->|Hx]; [by right | left]. rewrite Hp0. by right.
  - intros Hm Ht. inversion Hsp as [? Hl|? ? ? ? Hp|? ? ? ? ? Hu| | | | | | | |]; subst.
    + destruct Hl. lia.
    + done.
    + destruct Hu. lia.
  - exists q1. split; [done |]. by rewrite (step_config _ _ _ Hst).
Qed.

Lemma copies_one h from did c :
  copies h from [did] c = if decide (did ≠ from ∧ h_clients h !! did = Some c) then 1%nat else 0%nat.
Proof. unfold copies. rewrite filter_cons. by case_decide. Qed.

Lemma absent_one h from did :
  absent h from [did] = if decide (did ≠ from ∧ h_clients h !! did = None) then [did] else [].
Proof. unfold absent. rewrite filter_cons. by case_decide. Qed.

Lemma fan_out_member_spec e msg data h i did :
  EnvOk e → running h → clients_valid h → queue_open h →
  let h1 := fan_out_member e msg data h i did in
  same_static h h1 ∧ h_panicked h1 = h_panicked h ∧ queue_open h1 ∧
  (config <$> h_queue h1 = config <$> h_queue h) ∧
  (∀ c, frames_of h1 c =
     append_frames (frames_of h c) (replicate (copies h (From msg) [did] c) (FRaw data))) ∧
  (∀ m, m ∈ pending h1 → m ∈ pending h ∨ queued_for msg data m (absent h (From msg) [did])) ∧
  ((∀ q, offline_queue h = Some q → MaxQueueSize (config q) ≤ 0 ∧ MaxTotalMessages (config q) ≤ 0) →
   is_Some (offline_queue h) →
   ∃ new, pending h1 ≡ₚ new ++ pending h ∧ qm_RecipientDID <$> new = absent h (From msg) [did]).
Proof.
  intros He Hr Hv Hq h1. rewrite absent_one. subst h1.
  assert (Hnone : ∀ c, ¬ (did ≠ From msg ∧ h_clients h !! did = Some c) → frames_of h c =
    append_frames (frames_of h c) (replicate (copies h (From msg) [did] c) (FRaw data))).
  { intros c HP. by rewrite copies_one, decide_False, append_frames_nil. }
  unfold fan_out_member. destruct (decide (did = From msg)) as [->|Hne].
  { rewrite (decide_False (P := _ ∧ _)) by (by intros []). split_and!; try done.
    - intros c. apply Hnone. intros []; congruence.
    - intros m Hm. by left.
    - intros _ _. by exists []. }
  destruct (h_clients h !! did) as [cid|] eqn:Hdid.
  - rewrite (decide_False (P := _ ∧ _)) by (by intros []).
    split_and!; [apply send_static | by apply send_panicked | | by rewrite send_queue | | |].
    + intros q. rewrite send_queue. apply Hq.
    + intros c. rewrite send_append by (done || by apply (Hv did)). f_equal. rewrite copies_one.
      destruct (decide (c = cid)) as [->|Hc].
      * by rewrite (decide_True (P := _ ∧ _)).
      * by rewrite (decide_False (P := _ ∧ _)) by (intros []; congruence).
    + unfold pending. rewrite send_queue. intros m Hm. by left.
    + unfold pending. rewrite send_queue. intros _ _. by exists [].
  - rewrite (decide_True (P := _ ∧ _)) by done.
    destruct (offline_queue h) as [q|] eqn:Hoff.
    2: { split_and!; try done.
         - intros c. apply Hnone. intros []; congruence.
         - intros m Hm. by left. }
    assert (Hq' : h_queue h = Some q) by (unfold offline_queue in Hoff; by case_match).
    unfold queueForOffline. destruct (enqueue e h q _) as [h1 err] eqn:HE.
    destruct (enqueue_pending _ _ _ _ _ _ He Hq Hq' HE) as (Hq1 & Hsound & Hcompl & q1 & -> & Hcf).
    split_and!; [apply set_queue_static | done | done | simpl; rewrite Hq'; simpl; by rewrite Hcf | | |].
    + intros c. apply Hnone. intros []; congruence.
    + intros m Hm. destruct (Hsound m Hm) as [?|[_ ->]]; [by left | right].
      split_and!; [simpl; by left | done | done].
    + intros Hun _. destruct (Hun q eq_refl) as [H1 H2]. eexists [_]. split; [by apply Hcompl | done].
Qed.

Lemma same_static_offline h h' :
  same_static h h' → is_Some (h_queue h) → is_Some (h_queue h') →
  is_Some (offline_queue h) → is_Some (offline_queue h').
Proof. intros Hs ? ?. unfold offline_queue. rewrite (ss_config _ _ Hs). by case_match. Qed.

Lemma fan_out_spec e msg data i members h :
  EnvOk e → running h → clients_valid h → queue_open h →
  let h' := fan_out e msg data i members h in
  same_static h h' ∧ h_panicked h' = h_panicked h ∧ queue_open h' ∧
  (∀ c, frames_of h' c =
     append_frames (frames_of h c) (replicate (copies h (From msg) members c) (FRaw data))) ∧
  (∀ m, m ∈ pending h' → m ∈ pending h ∨ queued_for msg data m (absent h (From msg) members)) ∧
  ((∀ q, offline_queue h = Some q → MaxQueueSize (config q) ≤ 0 ∧ MaxTotalMessages (config q) ≤ 0) →
   is_Some (offline_queue h) →
   ∃ new, pending h' ≡ₚ new ++ pending h ∧ qm_RecipientDID <$> new ≡ₚ absent h (From msg) members).
Proof.
  intros He. revert i h. induction members as [|did members IH]; intros i h Hr Hv Hq.
  { simpl. split_and!; try done.
    - intros c. by rewrite append_frames_nil.
    - intros m Hm. by left.
    - intros _ _. by exists []. }
  cbn [fan_out]. destruct (fan_out_member_spec e msg data h i did He Hr Hv Hq)
    as (Hs1 & Hp1 & Hq1 & Hcf & Hf1 & Hsnd1 & Hcmp1).
  set (h1 := fan_out_member e msg data h i did) in *.
  destruct (IH (S i) h1 (same_static_running _ _ Hs1 Hr) (same_static_valid _ _ Hs1 Hv) Hq1)
    as (Hs2 & Hp2 & Hq2 & Hf2 & Hsnd2 & Hcmp2).
  assert (Hcop : ∀ c, copies h1 (From msg) members c = copies h (From msg) members c).
  { intros c. unfold copies. by rewrite (ss_clients _ _ Hs1). }
  assert (Habs : absent h1 (From msg) members = absent h (From msg) members).
  { unfold absent. by rewrite (ss_clients _ _ Hs1). }
  assert (Hsplit : absent h (From msg) (did :: members) = absent h (From msg) [did] ++ absent h (From msg) members).
  { unfold absent. rewrite <- filter_app. done. }
  split_and!; [by etrans | congruence | done | | |].
  - intros c. rewrite Hf2, Hf1, append_frames_app, <- replicate_add, Hcop. do 2 f_equal.
    unfold copies. by rewrite <- length_app, <- filter_app.
  - intros m Hm. rewrite Hsplit. destruct (Hsnd2 m Hm) as [Hm1|(Hm1 & ? & ?)].
    + destruct (Hsnd1 m Hm1) as [?|(Hm2 & ? & ?)]; [by left | right].
      split_and!; [apply elem_of_app; by left | done | done].
    + right. rewrite Habs in Hm1. split_and!; [apply elem_of_app; by right | done | done].
  - intros Hun Hsome. destruct (Hcmp1 Hun Hsome) as (new1 & Hn1 & Hr1).
    assert (Hq' : is_Some (h_queue h1)).
    { destruct Hsome as [q Hoff]. unfold offline_queue in Hoff. case_match; [|done]. rewrite Hoff in Hcf.
      destruct (h_queue h1); [eauto | done]. }
    assert (Hcfg : ∀ q, offline_queue h1 = Some q → MaxQueueSize (config q) ≤ 0 ∧ MaxTotalMessages (config q) ≤ 0).
    { intros q Hoff. destruct Hsome as [q0 Hoff0]. specialize (Hun q0 Hoff0).
      unfold offline_queue in *. repeat case_match; try done. rewrite Hoff, Hoff0 in Hcf. simpl in Hcf.
      injection Hcf as ->. done. }
    destruct (Hcmp2 Hcfg) as (new2 & Hn2 & Hr2).
    { apply (same_static_offline h); try done. destruct Hsome as [q Hoff]. unfold offline_queue in Hoff.
      case_match; [eauto | done]. }
    exists (new2 ++ new1). split; [by rewrite Hn2, Hn1, app_assoc |].
    rewrite fmap_app, Hr1, Hr2, Hsplit, Habs. apply Permutation_app_comm.
Qed.

End fan_out_facts.

(** C3. Fan-out: a message to a channel URI is refused without any effect unless the
    channel exists and its sender may send; otherwise every connection is offered one copy
    per member DID it is registered under, the sender's own DID excepted, and takes as many
    as its buffer has room for; connections of non-members get nothing.  New queue entries
    are only for absent members other than the sender, carry the message and its sender,
    and without queue limits every such member gets exactly one. *)
Theorem channel_fan_out `{Store St} `{Runtime} e `{EnvOk e} (h : RelayHub St) msg data h' r :
  running h → clients_valid h → queue_open h → IsChannelURI (To msg) = true →
  Route e h msg data = (h', r) →
  match GetChannelByName (h_channels h) (To msg) with
  | Err err => r = Some (RouteChannel err) ∧ h' = h
  | Ok ch =>
      if CanSend ch (From msg) then
        r = None ∧ same_static h h' ∧ h_panicked h' = h_panicked h ∧
        (∀ c, frames_of h' c = append_frames (frames_of h c)
                (replicate (copies h (From msg) (MemberDIDs ch) c) (FRaw data))) ∧
        (∀ m, m ∈ pending h' → m ∈ pending h ∨
           queued_for msg data m (absent h (From msg) (MemberDIDs ch))) ∧
        ((∀ q, offline_queue h = Some q → MaxQueueSize (config q) ≤ 0 ∧ MaxTotalMessages (config q) ≤ 0) →
         is_Some (offline_queue h) →
         ∃ new, pending h' ≡ₚ new ++ pending h ∧
                qm_RecipientDID <$> new ≡ₚ absent h (From msg) (MemberDIDs ch))
      else r = Some (RouteChannel ErrNotChannelMember) ∧ h' = h
  end.
Proof.
  intros Hr Hv Hq Hch. unfold Route. rewrite Hch. unfold RouteToChannel.
  destruct (GetChannelByName _ _) as [ch|err]; [|by intros [= <- <-]].
  destruct (CanSend ch (From msg)); [|by intros [= <- <-]]. intros [= <- <-].
  destruct (fan_out_spec e msg data 0 (MemberDIDs ch) h ltac:(done) Hr Hv Hq) as (Hs & Hp & _ & Hf & Hsnd & Hcmp).
  split_and!; done.
Qed.

(** A channel with Alice (owner), Bob and the absent Carol. *)
Definition demo_room : Channel :=
  let c := NewChannel (uuid_lit 7) 0 "channel:demo:room" ChannelGroup "did:wba:alice" in
  match AddMember 0 c "did:wba:bob" RoleMember with
  | Ok c1 => match AddMember 0 c1 "did:wba:carol" RoleMember with Ok c2 => c2 | Err _ => c1 end
  | Err _ => c
  end.

Definition demo_hub_room : RelayHub Registry.MemoryStore :=
  set_channels demo_hub (CreateChannel (h_channels demo_hub) demo_room).1.

Lemma channel_fan_out_witness :
  frames_of (Route (demo_env 1) demo_hub_room (demo_message "channel:demo:room") "hi").1 "c2" = [FRaw "hi"].
Proof.
  pose proof (channel_fan_out (demo_env 1) demo_hub_room (demo_message "channel:demo:room") "hi" _ _
    demo_hub_running
    ltac:(intros k cid Hk; apply elem_of_map_to_list in Hk; vm_compute in Hk;
          repeat (apply elem_of_cons in Hk as [Hk|Hk]; [injection Hk as _ ->; vm_compute; eauto |]);
          by apply elem_of_nil in Hk)
    ltac:(intros q Hq; injection Hq as <-; split; [apply Inv_new | reflexivity])
    ltac:(reflexivity) (surjective_pairing _)) as Hm.
  assert (Hg : GetChannelByName (h_channels demo_hub_room) (To (demo_message "channel:demo:room")) = Ok demo_room)
    by (vm_compute; reflexivity).
  rewrite Hg in Hm. destruct Hm as (_ & _ & _ & Hf & _).
  rewrite (Hf "c2"). vm_compute. reflexivity.
Defined.

(** ** Replies to a request *)

Section replies.
Context {St : Type}.
Implicit Types (h : RelayHub St) (cid : string).

Definition sendResult h cid (id : any) (r : Payload) : RelayHub St := (send h cid (FResult id r)).1.

Definition sendErrorWithData h cid (id : any) (code : Z) (message : ErrorText) (errData : option QuotaErrorData)
  : RelayHub St := (send h cid (FError id code message errData)).1.

Definition sendError h cid (id : any) (code : Z) (message : ErrorText) : RelayHub St :=
  sendErrorWithData h cid id code message None.

(** [ParseParams]: absent params leave the zero value; otherwise [dec] is what
    encoding/json makes of the bytes for the type at hand. *)
Definition ParseParams {T} (dec : string → option T) (zero : T) (req : JSONRPCRequest) : option T :=
  match req_Params req with None => Some zero | Some raw => dec raw end.

Definition status_result (s : string) : Payload := PJson (JObject [("status", JString s)]).

(** A reply only touches the buffer of its connection. *)
Definition only_reply h h' cid : Prop :=
  same_static h h' ∧ h_queue h' = h_queue h ∧ ∀ cid', cid' ≠ cid → frames_of h' cid' = frames_of h cid'.

Lemma send_only_reply h cid f : only_reply h (send h cid f).1 cid.
Proof.
  split_and!; [apply send_static | apply send_queue |]. intros cid' Hne.
  rewrite send_frames, decide_False by (by intros []). apply app_nil_r.
Qed.

Lemma only_reply_refl h cid : only_reply h h cid.
Proof. by split_and!. Qed.

Lemma only_reply_trans h1 h2 h3 cid : only_reply h1 h2 cid → only_reply h2 h3 cid → only_reply h1 h3 cid.
Proof.
  intros (S1 & Q1 & F1) (S2 & Q2 & F2). split_and!; [by etrans | congruence |].
  intros cid' Hne. by rewrite F2, F1.
Qed.

End replies.
#[export] Hint Resolve send_only_reply only_reply_refl : go.
