(* ===== verification/Presence.v ===== *)
(** * Presence and typing indicators (src/cmd/relay/presence.go)

    The presence manager keeps the status of every DID, who watches whom and who is typing
    in which thread; its updates are pushed to the watchers' connections.  Typing states
    expire after ten seconds and a ticker removes them. *)

From S2P Require Import Prelude Queue Registry Acl Channel Messaging Reliability Billing Hub.
#[local] Open Scope Z_scope.

(** ** The manager *)

Definition typing_ttl : Z := 10 * Second.

Definition p_with (pm : PresenceManager) (p : gmap string PresenceInfo) (s : gmap string (gset string))
    (t : gmap string (gmap string Z)) : PresenceManager :=
  {| presence := p; subscriptions := s; typingState := t |}.

(** The state change of [UpdatePresence]; the notification is sent by the caller. *)
Definition set_presence_info (now : Z) (pm : PresenceManager) (did : string) (status : AgentStatus)
    (statusText : string) : PresenceManager * PresenceInfo :=
  let info := default (NewPresenceInfo now) (presence pm !! did) in
  let info' := UpdateActivity now {| p_Status := status; p_StatusText := statusText;
                                     p_LastActivity := p_LastActivity info; p_IdleSince := p_IdleSince info |} in
  (p_with pm (<[did := info']> (presence pm)) (subscriptions pm) (typingState pm), info').

Definition GetPresence (pm : PresenceManager) (did : string) : option PresenceInfo := presence pm !! did.

Definition Subscribe (pm : PresenceManager) (subscriberDID targetDID : string) : PresenceManager :=
  p_with pm (presence pm)
    (<[subscriberDID := {[targetDID]} ∪ default ∅ (subscriptions pm !! subscriberDID)]> (subscriptions pm))
    (typingState pm).

Definition Unsubscribe (pm : PresenceManager) (subscriberDID targetDID : string) : PresenceManager :=
  match subscriptions pm !! subscriberDID with
  | Some subs => p_with pm (presence pm) (<[subscriberDID := subs ∖ {[targetDID]}]> (subscriptions pm)) (typingState pm)
  | None => pm
  end.

Definition UnsubscribeAll (pm : PresenceManager) (subscriberDID : string) : PresenceManager :=
  p_with pm (presence pm) (delete subscriberDID (subscriptions pm)) (typingState pm).

Definition SetTyping (now : Z) (pm : PresenceManager) (senderDID threadID : string) (typing : bool)
  : PresenceManager :=
  if typing then
    p_with pm (presence pm) (subscriptions pm)
      (<[senderDID := <[threadID := now + typing_ttl]> (default ∅ (typingState pm !! senderDID))]> (typingState pm))
  else match typingState pm !! senderDID with
       | Some threads => p_with pm (presence pm) (subscriptions pm)
                           (<[senderDID := delete threadID threads]> (typingState pm))
       | None => pm
       end.

(** [PresenceManager.IsTyping] *)
Definition pm_IsTyping (now : Z) (pm : PresenceManager) (senderDID threadID : string) : bool :=
  match typingState pm !! senderDID with
  | Some threads => match threads !! threadID with
                    | Some expiry => now <? expiry
                    | None => false
                    end
  | None => false
  end.

(** Deleting from a map while ranging over it visits every entry that is kept: the two
    nested loops filter the inner maps and drop the empty ones. *)
Definition cleanupExpiredTyping (now : Z) (pm : PresenceManager) : PresenceManager :=
  p_with pm (presence pm) (subscriptions pm)
    (omap (λ threads : gmap string Z,
             let left_ := filter (λ kv, ¬ kv.2 < now) threads in
             if decide (left_ = ∅) then None else Some left_) (typingState pm)).

(** [targets[targetDID]], where an absent subscriber has no targets. *)
Definition watches (pm : PresenceManager) (subscriberDID targetDID : string) : Prop :=
  targetDID ∈ default ∅ (subscriptions pm !! subscriberDID).

#[export] Instance watches_dec pm s t : Decision (watches pm s t).
Proof. unfold watches. apply _. Defined.

(** ** Notifications and handlers *)

Class PresenceCodec := {
  Unmarshal_presence : string → option (string * string);
  Unmarshal_dids : string → option (list string);
  Unmarshal_typing : string → option bool;
}.

Section presence.
Context {St : Type} `{Store St} `{Runtime} `{PresenceCodec}.
Implicit Types (h : RelayHub St) (e : Env) (cid : string).

Definition PresenceNotification (did : string) (info : PresenceInfo) : any :=
  JObject [("did", JString did); ("status", JString (p_Status info)); ("status_text", JString (p_StatusText info))].

Definition sendPresenceNotification h (subscriberDID targetDID : string) (info : PresenceInfo) : RelayHub St :=
  match h_clients h !! subscriberDID with
  | None => h
  | Some cid => (send h cid (FNotify "relay.presence.update" (PJson (PresenceNotification targetDID info)))).1
  end.

Definition notifyPresenceChange e h (targetDID : string) (info : PresenceInfo) : RelayHub St :=
  foldl (λ h subscriberDID,
           if decide (watches (h_presence h) subscriberDID targetDID)
           then sendPresenceNotification h subscriberDID targetDID info else h)
    h (sub_order e (subscriptions (h_presence h))).

Definition UpdatePresence e h (did : string) (status : AgentStatus) (statusText : string) : RelayHub St :=
  let '(pm, info) := set_presence_info (now e) (h_presence h) did status statusText in
  notifyPresenceChange e (set_presence h pm) did info.

Definition valid_status (s : string) : bool :=
  bool_decide (s ∈ [StatusOnline; StatusOffline; StatusBusy; StatusAway; StatusDND]).

Definition handlePresenceUpdate e h (c : Client) (req : JSONRPCRequest) : RelayHub St :=
  let cid := c_ID c in
  if decide (c_DID c = EmptyString)
  then sendError h cid (req_ID req) CodeSenderNotRegistered (Text "must register first")
  else match ParseParams Unmarshal_presence ("", "") req with
       | None => sendError h cid (req_ID req) CodeInvalidParams (Text "invalid params")
       | Some (status, text) =>
           if valid_status status
           then sendResult (UpdatePresence e h (c_DID c) status text) cid (req_ID req) (status_result "updated")
           else sendError h cid (req_ID req) CodeInvalidParams (Text "invalid status")
       end.

Definition handlePresenceSubscribe h (c : Client) (req : JSONRPCRequest) : RelayHub St :=
  let cid := c_ID c in
  if decide (c_DID c = EmptyString)
  then sendError h cid (req_ID req) CodeSenderNotRegistered (Text "must register first")
  else match ParseParams Unmarshal_dids [] req with
       | None => sendError h cid (req_ID req) CodeInvalidParams (Text "invalid params")
       | Some dids =>
           sendResult (set_presence h (foldl (λ pm t, Subscribe pm (c_DID c) t) (h_presence h) dids))
             cid (req_ID req) (status_result "subscribed")
       end.

Definition handlePresenceUnsubscribe h (c : Client) (req : JSONRPCRequest) : RelayHub St :=
  let cid := c_ID c in
  if decide (c_DID c = EmptyString)
  then sendError h cid (req_ID req) CodeSenderNotRegistered (Text "must register first")
  else match ParseParams Unmarshal_dids [] req with
       | None => sendError h cid (req_ID req) CodeInvalidParams (Text "invalid params")
       | Some dids =>
           sendResult (set_presence h (foldl (λ pm t, Unsubscribe pm (c_DID c) t) (h_presence h) dids))
             cid (req_ID req) (status_result "unsubscribed")
       end.

(** The result is a JSON object keyed by DID; a DID asked twice is one entry. *)
Definition handlePresenceQuery h (c : Client) (req : JSONRPCRequest) : RelayHub St :=
  let cid := c_ID c in
  if decide (c_DID c = EmptyString)
  then sendError h cid (req_ID req) CodeSenderNotRegistered (Text "must register first")
  else match ParseParams Unmarshal_dids [] req with
       | None => sendError h cid (req_ID req) CodeInvalidParams (Text "invalid params")
       | Some dids =>
           let results := omap (λ t, info ← GetPresence (h_presence h) t; Some (t, PresenceNotification t info))
                            (remove_dups dids) in
           sendResult h cid (req_ID req) (PJson (JObject results))
       end.

Definition handleTypingIndicator e h (msg : Message) (data : string) : RelayHub St :=
  match Unmarshal_typing (default EmptyString (Body msg)) with
  | None => h
  | Some typing =>
      let threadID := match ThreadID msg with Some t => uuid_String t | None => EmptyString end in
      let h1 := set_presence h (SetTyping (now e) (h_presence h) (From msg) threadID typing) in
      (Route e h1 msg data).1
  end.

End presence.

(** ** What watchers see *)

Section presence_facts.
Context {St : Type} `{Store St} `{Runtime} `{PresenceCodec}.
Implicit Types (h : RelayHub St) (e : Env) (cid : string).

(** The watchers of [target], in the order [ks], that the connection [cid] answers for. *)
Definition watcher_copies h (target cid : string) (ks : list string) : nat :=
  length (filter (λ s, watches (h_presence h) s target ∧ h_clients h !! s = Some cid) ks).

Abbreviation update_frame target info :=
  (FNotify "relay.presence.update" (PJson (PresenceNotification target info))).

Lemma notify_loop target info ks h :
  running h → clients_valid h →
  let h' := foldl (λ h s, if decide (watches (h_presence h) s target)
                          then sendPresenceNotification h s target info else h) h ks in
  same_static h h' ∧ h_queue h' = h_queue h ∧
  ∀ cid, frames_of h' cid = append_frames (frames_of h cid)
           (replicate (watcher_copies h target cid ks) (update_frame target info)).
Proof.
  revert h. induction ks as [|s ks IH]; intros h Hr Hv; simpl.
  { split_and!; [done.. |]. intros cid. by rewrite append_frames_nil. }
  assert (Hstep : let h1 := if decide (watches (h_presence h) s target)
                            then sendPresenceNotification h s target info else h in
    same_static h h1 ∧ h_queue h1 = h_queue h ∧
    ∀ cid, frames_of h1 cid = append_frames (frames_of h cid)
             (replicate (watcher_copies h target cid [s]) (update_frame target info))).
  { assert (Hw : ∀ cid, watcher_copies h target cid [s] =
      if decide (watches (h_presence h) s target ∧ h_clients h !! s = Some cid) then 1%nat else 0%nat).
    { intros cid. unfold watcher_copies. rewrite filter_cons. by case_decide. }
    unfold sendPresenceNotification. case_decide as Hwat.
    - destruct (h_clients h !! s) as [c|] eqn:Hc.
      + split_and!; [apply send_static | apply send_queue |]. intros cid.
        rewrite send_append by (done || by apply (Hv s)). f_equal. rewrite Hw.
        destruct (decide (cid = c)) as [->|Hne]; [by rewrite decide_True |].
        by rewrite decide_False by (intros []; congruence).
      + split_and!; [done.. |]. intros cid. by rewrite Hw, decide_False, append_frames_nil by (by intros []).
    - split_and!; [done.. |]. intros cid. by rewrite Hw, decide_False, append_frames_nil by (by intros []). }
  simpl in Hstep. set (h1 := if decide _ then _ else _) in *. destruct Hstep as (Hs1 & Hq1 & Hf1).
  destruct (IH h1 (same_static_running _ _ Hs1 Hr) (same_static_valid _ _ Hs1 Hv)) as (Hs2 & Hq2 & Hf2).
  split_and!; [by etrans | congruence |]. intros cid. rewrite Hf2, Hf1, append_frames_app, <- replicate_add.
  do 2 f_equal. unfold watcher_copies. rewrite (ss_clients _ _ Hs1), (ss_presence _ _ Hs1).
  by rewrite <- length_app, <- filter_app.
Qed.

End presence_facts.

(** A presence update is stored and pushed: on a running hub, after an update of a
    DID's status a query returns the new text and the new status (except that away is
    stored as online), and every connection receives one notification per watching DID it
    is registered under, as far as its buffer has room, and nothing else; nothing is queued. *)
Theorem presence_update_pushed `{Store St} `{Runtime} `{PresenceCodec} e `{EnvOk e}
    (h : RelayHub St) did status text :
  running h → clients_valid h →
  let h' := UpdatePresence e h did status text in
  ∃ info, GetPresence (h_presence h') did = Some info ∧ p_StatusText info = text ∧
    p_Status info = (if decide (status = StatusAway) then StatusOnline else status) ∧
    h_queue h' = h_queue h ∧ h_clients h' = h_clients h ∧
    (∀ did', did' ≠ did → GetPresence (h_presence h') did' = GetPresence (h_presence h) did') ∧
    ∀ cid, frames_of h' cid = append_frames (frames_of h cid)
      (replicate (watcher_copies h did cid (sub_order e (subscriptions (h_presence h))))
         (FNotify "relay.presence.update" (PJson (PresenceNotification did info)))).
Proof.
  intros Hr Hv. unfold UpdatePresence, set_presence_info.
  set (info := UpdateActivity _ _). set (h1 := set_presence h _).
  destruct (notify_loop did info (sub_order e (subscriptions (h_presence h1))) h1 Hr Hv) as (Hs & Hq & Hf).
  exists info. unfold notifyPresenceChange, GetPresence. rewrite (ss_presence _ _ Hs), (ss_clients _ _ Hs), Hq.
  split_and!; try done.
  - simpl. by rewrite lookup_insert_eq.
  - intros did' Hne. simpl. by rewrite lookup_insert_ne.
Qed.

Definition demo_presence_codec : PresenceCodec := {|
  Unmarshal_presence := λ s, Some (s, ""); Unmarshal_dids := λ s, Some [s]; Unmarshal_typing := λ _, Some true;
|}.

(** Alice is watched by Bob. *)
Definition demo_watched : RelayHub Registry.MemoryStore :=
  set_presence demo_hub (Subscribe NewPresenceManager "did:wba:bob" "did:wba:alice").

Lemma presence_update_pushed_witness :
  length (frames_of (UpdatePresence (demo_env 3) demo_watched "did:wba:alice" StatusBusy "call") "c2") = 1%nat.
Proof.
  destruct (presence_update_pushed (H1 := demo_presence_codec) (demo_env 3) demo_watched "did:wba:alice" StatusBusy "call"
    demo_hub_running
    ltac:(intros k cid Hk; apply elem_of_map_to_list in Hk; vm_compute in Hk;
          repeat (apply elem_of_cons in Hk as [Hk|Hk]; [injection Hk as _ ->; vm_compute; eauto |]);
          by apply elem_of_nil in Hk)) as (info & _ & _ & _ & _ & _ & _ & Hf).
  rewrite (Hf "c2"). vm_compute. reflexivity.
Defined.

(** ** Typing *)

Lemma cleanup_lookup now pm s :
  typingState (cleanupExpiredTyping now pm) !! s =
    threads ← typingState pm !! s;
    let left_ := filter (λ kv, ¬ kv.2 < now) threads in
    if decide (left_ = ∅) then None else Some left_.
Proof. unfold cleanupExpiredTyping. simpl. by rewrite lookup_omap. Qed.

(** Typing indicators: after SetTyping(true) a sender is typing in that thread for
    exactly ten seconds, after SetTyping(false) it is not, other threads are unaffected,
    and the cleanup ticker never changes what IsTyping answers from then on. *)
Theorem typing_window now pm s t now' now'' s' t' :
  now' ≤ now'' → (s', t') ≠ (s, t) →
  pm_IsTyping now' (SetTyping now pm s t true) s t = (now' <? now + typing_ttl) ∧
  pm_IsTyping now' (SetTyping now pm s t false) s t = false ∧
  (∀ b, pm_IsTyping now' (SetTyping now pm s t b) s' t' = pm_IsTyping now' pm s' t') ∧
  pm_IsTyping now'' (cleanupExpiredTyping now' pm) s' t' = pm_IsTyping now'' pm s' t'.
Proof.
  intros Hle Hne. unfold pm_IsTyping. split_and!.
  - simpl. by rewrite !lookup_insert_eq.
  - simpl. destruct (typingState pm !! s) as [threads|] eqn:Hs; simpl; [|by rewrite Hs].
    by rewrite lookup_insert_eq, lookup_delete_eq.
  - intros [|]; simpl.
    + destruct (decide (s' = s)) as [->|Hs]; [|by rewrite lookup_insert_ne].
      rewrite lookup_insert_eq, lookup_insert_ne by congruence.
      destruct (typingState pm !! s); simpl; [done | by rewrite lookup_empty].
    + destruct (typingState pm !! s) as [threads|] eqn:Hst; [|done]. simpl.
      destruct (decide (s' = s)) as [->|Hs]; [|by rewrite lookup_insert_ne].
      by rewrite lookup_insert_eq, lookup_delete_ne, Hst by congruence.
  - rewrite cleanup_lookup. destruct (typingState pm !! s') as [threads|]; simpl; [|done].
    assert (Hfil : match filter (λ kv : string * Z, ¬ kv.2 < now') threads !! t' with
                   | Some expiry => now'' <? expiry | None => false end =
                   match threads !! t' with Some expiry => now'' <? expiry | None => false end).
    { destruct (threads !! t') as [ex|] eqn:Ht.
      - destruct (decide (ex < now')).
        + rewrite map_lookup_filter_None_2 by (right; intros x Hx; simplify_eq; simpl; tauto).
          symmetry. apply Z.ltb_ge. lia.
        + by rewrite (map_lookup_filter_Some_2 _ threads t' ex).
      - by rewrite map_lookup_filter_None_2 by (by left). }
    case_decide as Hemp; [|exact Hfil]. rewrite <- Hfil, Hemp. by rewrite lookup_empty.
Qed.

Lemma typing_window_witness :
  pm_IsTyping (5 * Second) (SetTyping 0 NewPresenceManager "did:wba:alice" "th" true) "did:wba:alice" "th" = true.
Proof.
  destruct (typing_window 0 NewPresenceManager "did:wba:alice" "th" (5 * Second) (6 * Second) "did:wba:bob" "th"
    ltac:(vm_compute; discriminate) ltac:(discriminate)) as [H _].
  rewrite H. vm_compute. reflexivity.
Defined.
