(* ===== verification/ChannelApi.v ===== *)
(** * The channel methods of the relay (the relay.channel.* handlers of src/cmd/relay/channel.go)

    Each handler looks a channel up, which copies it out of the store, checks the caller's
    rights, changes the copy and writes it back, and answers on the caller's connection. *)

From S2P Require Import Prelude Queue Registry Acl Channel Messaging Reliability Billing Hub.
#[local] Open Scope Z_scope.

(** What encoding/json makes of the parameters of each method. *)
Record ChannelRef := { cr_ChannelID : string; cr_Name : string }.
Record CreateParams := { cp_Name : string; cp_Type : string; cp_Description : string }.
Record SenderKeyParams := { sp_Ref : ChannelRef; sp_ChainKey : string; sp_SignatureKey : string }.

Class ChannelCodec := {
  Unmarshal_ref : string → option ChannelRef;
  Unmarshal_create : string → option CreateParams;
  Unmarshal_sender_key : string → option SenderKeyParams;
}.

Definition zero_ref : ChannelRef := {| cr_ChannelID := ""; cr_Name := "" |}.
Definition zero_create : CreateParams := {| cp_Name := ""; cp_Type := ""; cp_Description := "" |}.
Definition zero_sender_key : SenderKeyParams := {| sp_Ref := zero_ref; sp_ChainKey := ""; sp_SignatureKey := "" |}.

Definition ParseChannelType (s : string) : option ChannelType :=
  if decide (s = "group") then Some ChannelGroup
  else if decide (s = "broadcast") then Some ChannelBroadcast
  else if decide (s = "topic") then Some ChannelTopic
  else None.

Definition ChannelType_text (t : ChannelType) : string :=
  match t with ChannelGroup => "group" | ChannelBroadcast => "broadcast" | ChannelTopic => "topic" end.

Definition ChannelRole_text (r : ChannelRole) : string :=
  match r with RoleOwner => "owner" | RoleAdmin => "admin" | RoleMember => "member" end.

Section channel_api.
Context {St : Type} `{Store St} `{Runtime} `{ChannelCodec}.
Implicit Types (h : RelayHub St) (e : Env) (c : Client) (req : JSONRPCRequest).

(** The lookup every handler but create and list performs. *)
Definition find_channel h (p : ChannelRef) : result string Channel :=
  let of_store r := match r with Ok ch => Ok ch | Err _ => Err "channel not found" end in
  if decide (cr_ChannelID p ≠ EmptyString) then
    match uuid_Parse (cr_ChannelID p) with
    | None => Err "invalid channel_id"
    | Some id => of_store (GetChannel (h_channels h) id)
    end
  else if decide (cr_Name p ≠ EmptyString) then of_store (GetChannelByName (h_channels h) (cr_Name p))
  else Err "channel_id or name required".

(** [if c.DID == "" { sendError(...); return }; ParseParams...] around a handler's body. *)
Definition with_params {T} h c req (dec : string → option T) (zero : T) (k : T → RelayHub St) : RelayHub St :=
  if decide (c_DID c = EmptyString)
  then sendError h (c_ID c) (req_ID req) CodeSenderNotRegistered (Text "must register first")
  else match ParseParams dec zero req with
       | None => sendError h (c_ID c) (req_ID req) CodeInvalidParams (Text "invalid params")
       | Some p => k p
       end.

Definition with_channel h c req (p : ChannelRef) (k : Channel → RelayHub St) : RelayHub St :=
  match find_channel h p with
  | Err text => sendError h (c_ID c) (req_ID req) CodeInvalidParams (Text text)
  | Ok ch => k ch
  end.

Definition handleChannelCreate e h c req : RelayHub St :=
  with_params h c req Unmarshal_create zero_create (λ p,
    match ParseChannelType (cp_Type p) with
    | None => sendError h (c_ID c) (req_ID req) CodeInvalidParams (Text "invalid channel type")
    | Some ty =>
        let channel := with_description (NewChannel (fresh e 0) (now e) (cp_Name p) ty (c_DID c))
                         (cp_Description p) in
        match CreateChannel (h_channels h) channel with
        | (_, Some ErrChannelExists) =>
            sendError h (c_ID c) (req_ID req) CodeInvalidParams (Text "channel already exists")
        | (_, Some err) => sendError h (c_ID c) (req_ID req) CodeInternalError (TextChannel err)
        | (s, None) =>
            sendResult (set_channels h s) (c_ID c) (req_ID req)
              (PJson (JObject [("id", JString (uuid_String (ch_ID channel))); ("name", JString (ch_Name channel))]))
        end
    end).

Definition handleChannelJoin e h c req : RelayHub St :=
  with_params h c req Unmarshal_ref zero_ref (λ p,
    with_channel h c req p (λ channel,
      match AddMember (now e) channel (c_DID c) RoleMember with
      | Err ErrMemberAlreadyAdded => sendResult h (c_ID c) (req_ID req) (status_result "already_member")
      | Err err => sendError h (c_ID c) (req_ID req) CodeInternalError (TextChannel err)
      | Ok channel' =>
          match UpdateChannel (h_channels h) channel' with
          | (_, Some err) => sendError h (c_ID c) (req_ID req) CodeInternalError (TextChannel err)
          | (s, None) => sendResult (set_channels h s) (c_ID c) (req_ID req) (status_result "joined")
          end
      end)).

Definition handleChannelLeave e h c req : RelayHub St :=
  with_params h c req Unmarshal_ref zero_ref (λ p,
    with_channel h c req p (λ channel,
      if IsOwner channel (c_DID c)
      then sendError h (c_ID c) (req_ID req) CodeInvalidParams (Text "owner cannot leave, delete channel instead")
      else match RemoveMember (now e) channel (c_DID c) with
           | (_, false) => sendResult h (c_ID c) (req_ID req) (status_result "not_member")
           | (channel', true) =>
               match UpdateChannel (h_channels h) channel' with
               | (_, Some err) => sendError h (c_ID c) (req_ID req) CodeInternalError (TextChannel err)
               | (s, None) => sendResult (set_channels h s) (c_ID c) (req_ID req) (status_result "left")
               end
           end)).

Definition channel_info (ch : Channel) : any :=
  JObject [("id", JString (uuid_String (ch_ID ch))); ("name", JString (ch_Name ch));
           ("type", JString (ChannelType_text (ch_Type ch))); ("owner", JString (ch_OwnerDID ch));
           ("description", JString (ch_Description ch));
           ("member_count", JNumber (Z.of_nat (length (ch_Members ch))))].

Definition handleChannelList h c req : RelayHub St :=
  if decide (c_DID c = EmptyString)
  then sendError h (c_ID c) (req_ID req) CodeSenderNotRegistered (Text "must register first")
  else sendResult h (c_ID c) (req_ID req)
         (PJson (JArray (channel_info <$> ListChannels (h_channels h) (c_DID c)))).

Definition member_info (m : ChannelMember) : any :=
  JObject [("did", JString (m_DID m)); ("role", JString (ChannelRole_text (m_Role m)));
           ("joined_at", JNumber (m_JoinedAt m))].

Definition handleChannelMembers h c req : RelayHub St :=
  with_params h c req Unmarshal_ref zero_ref (λ p,
    with_channel h c req p (λ channel,
      if IsMember channel (c_DID c)
      then sendResult h (c_ID c) (req_ID req) (PJson (JArray (member_info <$> ch_Members channel)))
      else sendError h (c_ID c) (req_ID req) CodeAccessDenied (Text "not a member"))).

(** Send a frame to every listed member that is connected. *)
Definition notify_members h (f : Frame) (dids : list string) : RelayHub St :=
  foldl (λ h did, match h_clients h !! did with
                  | Some cid => (send h cid f).1
                  | None => h
                  end) h dids.

Definition handleChannelDelete h c req : RelayHub St :=
  with_params h c req Unmarshal_ref zero_ref (λ p,
    with_channel h c req p (λ channel,
      if IsOwner channel (c_DID c)
      then match DeleteChannel (h_channels h) (ch_ID channel) with
           | (_, Some err) => sendError h (c_ID c) (req_ID req) CodeInternalError (TextChannel err)
           | (s, None) =>
               let note := FNotify "relay.channel.deleted" (PJson (JObject [
                 ("channel_id", JString (uuid_String (ch_ID channel))); ("name", JString (ch_Name channel));
                 ("event", JString "deleted")])) in
               sendResult (notify_members (set_channels h s) note (MemberDIDs channel))
                 (c_ID c) (req_ID req) (status_result "deleted")
           end
      else sendError h (c_ID c) (req_ID req) CodeAccessDenied (Text "only owner can delete channel"))).

Definition handleSenderKeyDistribute e h c req : RelayHub St :=
  with_params h c req Unmarshal_sender_key zero_sender_key (λ p,
    with_channel h c req (sp_Ref p) (λ channel,
      if IsMember channel (c_DID c)
      then let key := {| sk_ChainKey := sp_ChainKey p; sk_SignatureKey := sp_SignatureKey p; sk_Iteration := 0 |} in
           let channel' := (SetSenderKey (now e) channel (c_DID c) (Some key)).1 in
           match UpdateChannel (h_channels h) channel' with
           | (_, Some err) => sendError h (c_ID c) (req_ID req) CodeInternalError (TextChannel err)
           | (s, None) =>
               let note := FNotify "relay.channel.sender_key" (PJson (JObject [
                 ("channel_id", JString (uuid_String (ch_ID channel))); ("sender_did", JString (c_DID c));
                 ("chain_key", JString (sp_ChainKey p)); ("signature_key", JString (sp_SignatureKey p))])) in
               sendResult (notify_members (set_channels h s) note
                             (filter (λ d, d ≠ c_DID c) (MemberDIDs channel')))
                 (c_ID c) (req_ID req) (status_result "distributed")
           end
      else sendError h (c_ID c) (req_ID req) CodeAccessDenied (Text "not a member"))).

(** The channel methods, as [handleMessage] dispatches them. *)
Inductive ChannelMethod := MCreate | MJoin | MLeave | MList | MMembers | MDelete | MSenderKey.

Definition channel_method (m : ChannelMethod) e h c req : RelayHub St :=
  match m with
  | MCreate => handleChannelCreate e h c req
  | MJoin => handleChannelJoin e h c req
  | MLeave => handleChannelLeave e h c req
  | MList => handleChannelList h c req
  | MMembers => handleChannelMembers h c req
  | MDelete => handleChannelDelete h c req
  | MSenderKey => handleSenderKeyDistribute e h c req
  end.

End channel_api.

(** ** What a caller may change *)

(** The first element that satisfies a predicate, as the lookups of the code find it. *)
Lemma find_skip {A} (P : A → Prop) `{∀ x, Decision (P x)} l1 x l2 :
  ¬ P x → snd <$> list_find P (l1 ++ x :: l2) = snd <$> list_find P (l1 ++ l2).
Proof.
  intros Hx. induction l1 as [|y l1 IH]; simpl.
  - rewrite decide_False by done. by destruct (list_find P l2) as [[??]|].
  - case_decide; [done |]. destruct (list_find P (l1 ++ x :: l2)) as [[??]|],
      (list_find P (l1 ++ l2)) as [[??]|]; simpl in *; congruence.
Qed.

Lemma find_replace {A} (P : A → Prop) `{∀ x, Decision (P x)} l i x y :
  l !! i = Some x → ¬ P x → ¬ P y →
  snd <$> list_find P (<[i := y]> l) = snd <$> list_find P l ∧
  snd <$> list_find P (slices_Delete i l) = snd <$> list_find P l.
Proof.
  intros Hi Hx Hy. pose proof (lookup_lt_Some _ _ _ Hi) as Hlt.
  rewrite insert_take_drop by done. unfold slices_Delete.
  rewrite <- (take_drop_middle l i x Hi) at 3 6. by rewrite !find_skip.
Qed.

Lemma AddMember_other now ch d role ch' did :
  AddMember now ch d role = Ok ch' → did ≠ d → GetMember ch' did = GetMember ch did.
Proof.
  unfold AddMember. destruct (IsMember ch d); [done |]. intros [= <-] Hne. unfold GetMember. simpl.
  rewrite find_skip by (simpl; congruence). by rewrite app_nil_r.
Qed.

Lemma RemoveMember_other now ch d did :
  did ≠ d → GetMember (RemoveMember now ch d).1 did = GetMember ch did.
Proof.
  intros Hne. unfold RemoveMember. destruct (list_find _ _) as [[i m]|] eqn:Hf; [|done].
  apply list_find_Some in Hf as (Hi & Hm & _). unfold GetMember. simpl.
  by apply (find_replace _ _ i m m); [|congruence..].
Qed.

Lemma SetSenderKey_other now ch d key did :
  did ≠ d → GetMember (SetSenderKey now ch d key).1 did = GetMember ch did.
Proof.
  intros Hne. unfold SetSenderKey. destruct (list_find _ _) as [[i m]|] eqn:Hf; [|done].
  apply list_find_Some in Hf as (Hi & Hm & _). unfold GetMember. simpl.
  by apply (find_replace _ _ i m); [|simpl; congruence..].
Qed.

(** The change a caller [d] may make to the channel store. *)
Record authorized (d : string) (s s' : MemoryChannelStore) : Prop := {
  (** a channel is only deleted by its owner; otherwise it keeps its owner, name and type,
      and the entries of all members but the caller *)
  auth_kept id ch : channels s !! id = Some ch →
    (channels s' !! id = None ∧ d = ch_OwnerDID ch) ∨
    (∃ ch', channels s' !! id = Some ch' ∧ ch_OwnerDID ch' = ch_OwnerDID ch ∧
       ch_Name ch' = ch_Name ch ∧ ch_Type ch' = ch_Type ch ∧
       ∀ did, did ≠ d → GetMember ch' did = GetMember ch did);
  (** a new channel belongs to the caller, its only member *)
  auth_new id ch' : channels s' !! id = Some ch' → channels s !! id = None →
    ch_OwnerDID ch' = d ∧ MemberDIDs ch' = [d];
}.

Lemma authorized_refl d s : authorized d s s.
Proof. split; [|congruence]. intros id ch Hid. right. by exists ch. Qed.

Lemma authorized_update d s ch ch' :
  channels s !! ch_ID ch' = Some ch → ch_OwnerDID ch' = ch_OwnerDID ch → ch_Name ch' = ch_Name ch →
  ch_Type ch' = ch_Type ch → (∀ did, did ≠ d → GetMember ch' did = GetMember ch did) →
  authorized d s (UpdateChannel s ch').1.
Proof.
  intros Hch Ho Hn Ht Hm. unfold UpdateChannel. rewrite Hch. split; simpl.
  - intros id c Hid. right. destruct (decide (id = ch_ID ch')) as [->|Hne].
    + exists ch'. rewrite lookup_insert_eq. simplify_eq. done.
    + exists c. by rewrite lookup_insert_ne.
  - intros id c. destruct (decide (id = ch_ID ch')) as [->|Hne].
    + congruence.
    + rewrite lookup_insert_ne by done. congruence.
Qed.

Lemma authorized_create d s ch :
  channels s !! ch_ID ch = None → ch_OwnerDID ch = d → MemberDIDs ch = [d] →
  authorized d s (CreateChannel s ch).1.
Proof.
  intros Hf Ho Hm. unfold CreateChannel. destruct (byName s !! _); [apply authorized_refl |].
  split; simpl.
  - intros id c Hid. right. exists c. rewrite lookup_insert_ne; [done |]. congruence.
  - intros id c. destruct (decide (id = ch_ID ch)) as [->|Hne].
    + rewrite lookup_insert_eq. by intros [= <-].
    + rewrite lookup_insert_ne by done. congruence.
Qed.

Lemma authorized_delete d s ch :
  channels s !! ch_ID ch = Some ch → d = ch_OwnerDID ch → authorized d s (DeleteChannel s (ch_ID ch)).1.
Proof.
  intros Hch Ho. unfold DeleteChannel. rewrite Hch. split; simpl.
  - intros id c Hid. destruct (decide (id = ch_ID ch)) as [->|Hne].
    + left. rewrite lookup_delete_eq. simplify_eq. done.
    + right. exists c. by rewrite lookup_delete_ne.
  - intros id c [_ Hc]%lookup_delete_Some. congruence.
Qed.

#[export] Hint Resolve authorized_refl : go.

Section channel_api_facts.
Context {St : Type} `{Store St} `{Runtime} `{ChannelCodec}.
Implicit Types (h : RelayHub St) (e : Env) (c : Client) (req : JSONRPCRequest).

Lemma send_channels h cid f : h_channels (send h cid f).1 = h_channels h.
Proof. apply (ss_channels _ _ (send_static h cid f)). Qed.

Lemma notify_members_static h f dids : same_static h (notify_members h f dids).
Proof.
  unfold notify_members. revert h. induction dids as [|did dids IH]; intros h; simpl; [done |].
  etrans; [|apply IH]. destruct (h_clients h !! did); [apply send_static | done].
Qed.

Lemma notify_members_channels h f dids : h_channels (notify_members h f dids) = h_channels h.
Proof. apply (ss_channels _ _ (notify_members_static h f dids)). Qed.

Lemma with_params_channels (P : MemoryChannelStore → Prop) {T} h c req (dec : string → option T) zero k :
  P (h_channels h) → (∀ p, P (h_channels (k p))) → P (h_channels (with_params h c req dec zero k)).
Proof.
  intros Hst Hk. unfold with_params, sendError, sendErrorWithData.
  case_decide; [by rewrite send_channels |]. destruct (ParseParams _ _ _); [done | by rewrite send_channels].
Qed.

Lemma with_channel_channels (P : MemoryChannelStore → Prop) h c req p k :
  store_ok (h_channels h) → P (h_channels h) →
  (∀ ch, channels (h_channels h) !! ch_ID ch = Some ch → P (h_channels (k ch))) →
  P (h_channels (with_channel h c req p k)).
Proof.
  intros [Hs Hc _] Hst Hk. unfold with_channel, sendError, sendErrorWithData.
  assert (Hget : ∀ id ch, GetChannel (h_channels h) id = Ok ch → channels (h_channels h) !! ch_ID ch = Some ch).
  { intros id ch. unfold GetChannel. destruct (channels _ !! id) as [ch'|] eqn:Hid; [|done].
    intros [= <-]. by destruct (Hc id ch' Hid) as [-> _]. }
  destruct (find_channel h p) as [ch|] eqn:Hf; [|by rewrite send_channels].
  apply Hk. unfold find_channel in Hf. repeat case_match; simplify_eq; try (by eapply Hget).
  unfold GetChannelByName in *. case_match; [|done]. by eapply Hget.
Qed.

(** A changed copy of a stored channel is written back. *)
Lemma update_run d (s : MemoryChannelStore) ch ch' :
  channel_run s → channels s !! ch_ID ch = Some ch → channel_ok ch' →
  ch_ID ch' = ch_ID ch → ch_OwnerDID ch' = ch_OwnerDID ch → ch_Name ch' = ch_Name ch → ch_Type ch' = ch_Type ch →
  (∀ did, did ≠ d → GetMember ch' did = GetMember ch did) →
  channel_run (UpdateChannel s ch').1 ∧ authorized d s (UpdateChannel s ch').1.
Proof.
  intros Hrun Hch Hok Hid Ho Hn Ht Hm. rewrite <- Hid in Hch. split.
  - by eapply chan_update.
  - by eapply authorized_update.
Qed.

(** The store after a method is well formed and an authorized change. *)
Definition allowed h c (s' : MemoryChannelStore) : Prop :=
  channel_run s' ∧ authorized (c_DID c) (h_channels h) s'.

Context (e : Env) (h : RelayHub St) (c : Client) (req : JSONRPCRequest).
Hypothesis Hrun : channel_run (h_channels h).
Hypothesis Hfresh : channels (h_channels h) !! fresh e 0 = None.

Lemma unchanged_allowed : allowed h c (h_channels h).
Proof. split; [done | apply authorized_refl]. Qed.

(** Answering does not touch the store; neither does a failed lookup. *)
Ltac api_start :=
  pose proof unchanged_allowed; pose proof (channel_run_ok _ Hrun);
  apply (with_params_channels (allowed h c)); [done |]; intros p;
  try (apply (with_channel_channels (allowed h c)); [done | done |]; intros ch Hch);
  unfold sendError, sendErrorWithData, sendResult.
Ltac api_done := rewrite ?send_channels, ?notify_members_channels; simpl; done.

Lemma create_allowed : allowed h c (h_channels (handleChannelCreate e h c req)).
Proof.
  unfold handleChannelCreate. api_start. destruct (ParseChannelType _) as [ty|]; [|api_done]. set (ch := with_description _ _).
  assert (HC : allowed h c (CreateChannel (h_channels h) ch).1).
  { split; [apply chan_create; [done | | done]; eauto with go | by apply authorized_create]. }
  destruct (CreateChannel _ ch) as [s [err|]]; [destruct err |]; api_done.
Qed.

Lemma join_allowed : allowed h c (h_channels (handleChannelJoin e h c req)).
Proof.
  unfold handleChannelJoin. api_start. destruct (AddMember _ _ _ _) as [ch'|err] eqn:HA; [|destruct err; api_done].
  assert (HU : allowed h c (UpdateChannel (h_channels h) ch').1).
  { apply (update_run _ _ ch); try done; try (unfold AddMember in HA; by case_match; simplify_eq).
    - eapply channel_ok_add; [by eapply members_ok | done].
    - intros did. by apply AddMember_other with (1 := HA). }
  destruct (UpdateChannel _ ch') as [s [err|]]; api_done.
Qed.

Lemma leave_allowed : allowed h c (h_channels (handleChannelLeave e h c req)).
Proof.
  unfold handleChannelLeave. api_start. destruct (IsOwner ch (c_DID c)) eqn:Hown; [api_done |]. apply String.eqb_neq in Hown.
  destruct (RemoveMember _ _ _) as [ch' [|]] eqn:HR; [|api_done].
  assert (HU : allowed h c (UpdateChannel (h_channels h) ch').1).
  { assert (ch' = (RemoveMember (now e) ch (c_DID c)).1) as -> by (by rewrite HR).
    apply (update_run _ _ ch); try done; try (unfold RemoveMember; by repeat case_match).
    - apply channel_ok_remove; [by eapply members_ok | done].
    - intros did. apply RemoveMember_other. }
  destruct (UpdateChannel _ ch') as [s [err|]]; api_done.
Qed.

Lemma delete_allowed : allowed h c (h_channels (handleChannelDelete h c req)).
Proof.
  unfold handleChannelDelete. api_start. destruct (IsOwner ch (c_DID c)) eqn:Hown; [|api_done]. apply String.eqb_eq in Hown.
  assert (HD : allowed h c (DeleteChannel (h_channels h) (ch_ID ch)).1).
  { split; [by apply chan_delete | by apply authorized_delete]. }
  destruct (DeleteChannel _ _) as [s [err|]]; api_done.
Qed.

Lemma sender_key_allowed : allowed h c (h_channels (handleSenderKeyDistribute e h c req)).
Proof.
  unfold handleSenderKeyDistribute. api_start. destruct (IsMember ch _); [|api_done]. set (ch' := (SetSenderKey _ _ _ _).1).
  assert (HU : allowed h c (UpdateChannel (h_channels h) ch').1).
  { apply (update_run _ _ ch); try done; try (unfold ch', SetSenderKey; by repeat case_match).
    - apply channel_ok_sender_key. by eapply members_ok.
    - intros did. apply SetSenderKey_other. }
  destruct (UpdateChannel _ ch') as [s [err|]]; api_done.
Qed.

Lemma members_allowed : allowed h c (h_channels (handleChannelMembers h c req)).
Proof. unfold handleChannelMembers. api_start. destruct (IsMember ch _); api_done. Qed.

Lemma list_allowed : allowed h c (h_channels (handleChannelList h c req)).
Proof.
  pose proof unchanged_allowed. unfold handleChannelList, sendError, sendErrorWithData, sendResult.
  case_decide; api_done.
Qed.

End channel_api_facts.

(** C28. Channel rights: whatever a registered or unregistered client asks of any of the
    channel methods, the channel store stays well formed (names unique, members distinct,
    owner a member), only the owner of a channel can make it disappear, the other channels
    keep owner, name and type, nobody's membership, role or sender key changes except the
    caller's own, and a created channel belongs to the caller alone. *)
Theorem channel_method_authorized `{Store St} `{Runtime} `{ChannelCodec} m e (h : RelayHub St) c req :
  channel_run (h_channels h) → channels (h_channels h) !! fresh e 0 = None →
  let h' := channel_method m e h c req in
  channel_run (h_channels h') ∧ authorized (c_DID c) (h_channels h) (h_channels h').
Proof.
  intros Hrun Hfresh. destruct m; simpl.
  - by apply create_allowed.
  - by apply join_allowed.
  - by apply leave_allowed.
  - by apply list_allowed.
  - by apply members_allowed.
  - by apply delete_allowed.
  - by apply sender_key_allowed.
Qed.

Definition demo_channel_codec : ChannelCodec := {|
  Unmarshal_ref := λ s, Some {| cr_ChannelID := ""; cr_Name := s |};
  Unmarshal_create := λ s, Some {| cp_Name := s; cp_Type := "group"; cp_Description := "" |};
  Unmarshal_sender_key := λ s, None;
|}.

Definition demo_request (params : string) : JSONRPCRequest :=
  {| req_JSONRPC := "2.0"; req_ID := JNumber 1; req_Method := "m"; req_Params := Some params |}.

Lemma channel_method_authorized_witness :
  authorized "did:wba:alice" (h_channels demo_hub)
    (h_channels (channel_method (H1 := demo_channel_codec) MCreate (demo_env 1) demo_hub
       (demo_client "c1" "did:wba:alice" None) (demo_request "channel:x:y"))).
Proof.
  destruct (channel_method_authorized (H1 := demo_channel_codec) MCreate (demo_env 1) demo_hub
    (demo_client "c1" "did:wba:alice" None) (demo_request "channel:x:y")
    ltac:(constructor) ltac:(reflexivity)) as [_ H]. exact H.
Defined.

(** A member can be lost: two clients that join at the same time both read the
    channel, then both write their copy back; both writes succeed (each client is told it
    joined) and the member of the first write is gone. *)
Theorem concurrent_join_loses_member now1 now2 (s : MemoryChannelStore) ch d1 d2 ch1 ch2 :
  channels s !! ch_ID ch = Some ch → d1 ≠ d2 →
  AddMember now1 ch d1 RoleMember = Ok ch1 → AddMember now2 ch d2 RoleMember = Ok ch2 →
  let s1 := (UpdateChannel s ch1).1 in
  let s2 := (UpdateChannel s1 ch2).1 in
  (UpdateChannel s ch1).2 = None ∧ (UpdateChannel s1 ch2).2 = None ∧
  GetChannel s2 (ch_ID ch) = Ok ch2 ∧ IsMember ch2 d1 = false ∧ IsMember ch2 d2 = true.
Proof.
  intros Hch Hne. unfold AddMember.
  destruct (IsMember ch d1) eqn:H1; [done |]. destruct (IsMember ch d2) eqn:H2; [done |].
  intros [= <-] [= <-]. unfold UpdateChannel, GetChannel. simpl. rewrite Hch. simpl.
  rewrite lookup_insert_eq. simpl. rewrite lookup_insert_eq.
  unfold IsMember in *. simpl. rewrite !existsb_app, H1, H2. simpl.
  rewrite String.eqb_refl. apply not_eq_sym, String.eqb_neq in Hne. by rewrite Hne.
Qed.

Lemma concurrent_join_loses_member_witness :
  IsMember (with_members demo_room 2 (ch_Members demo_room ++
     [{| m_DID := "did:wba:erin"; m_JoinedAt := 2; m_Role := RoleMember; m_SenderKey := None |}])) "did:wba:dan" = false.
Proof.
  destruct (concurrent_join_loses_member 1 2 (h_channels demo_hub_room) demo_room "did:wba:dan" "did:wba:erin" _ _
    ltac:(vm_compute; reflexivity) ltac:(discriminate) ltac:(reflexivity) ltac:(reflexivity)) as (_ & _ & _ & H & _).
  exact H.
Defined.
