(* ===== verification/Relay.v ===== *)
(** * The connections of the relay (src/cmd/relay/client.go and handleWebSocket of hub.go)

    What a connected client may ask: registration with its checks, subordinate
    registration by gateways, discovery, and messages, which are validated and routed.
    [handleMessage] is the dispatch of one frame read from the socket. *)

From stdpp Require Import pretty.
From S2P Require Import Prelude Crypto Queue Registry Acl Channel Messaging Reliability Billing Hub Presence ChannelApi.
From Stdlib Require Import QArith.
#[local] Open Scope Z_scope.

(** ** Requests *)

Record RegistrationRequest := {
  rr_Agent : Agent;
  rr_Proof : option string;
  rr_Timestamp : Z;
}.

Record SubordinateRegisterRequest := {
  sr_DID : string;
  sr_TenantID : string;
  sr_PublicKeys : list PublicKey;
}.

(** What encoding/json makes of a frame and of the parameters of each method; a partial
    result is kept where the code ignores the error. *)
Class RelayCodec := {
  Unmarshal_request : string → option JSONRPCRequest;
  Unmarshal_message : string → option Message;
  Unmarshal_registration : string → option RegistrationRequest;
  Unmarshal_subordinate : string → option SubordinateRegisterRequest;
  Unmarshal_capability : string → string;
  Unmarshal_did : string → option string;
}.

Definition zero_message : Message := NewMessage uuid_Nil 0 "" "" "" "".

Definition zero_agent : Agent := {|
  a_ID := uuid_Nil; a_DID := ""; a_TenantID := ""; a_DisplayName := ""; a_PublicKeys := [];
  a_Endpoints := []; a_Capabilities := []; a_ACL := None; a_Status := ""; a_LastSeen := 0;
  a_Metadata := []; a_Presence := None; a_PresenceCfg := None; a_Role := ""; a_DelegationNamespace := "";
|}.

Definition zero_registration : RegistrationRequest :=
  {| rr_Agent := zero_agent; rr_Proof := None; rr_Timestamp := 0 |}.

Definition zero_subordinate : SubordinateRegisterRequest :=
  {| sr_DID := ""; sr_TenantID := ""; sr_PublicKeys := [] |}.

(** [DecodeRequest]; both of its errors make [handleMessage] drop the frame. *)
Definition DecodeRequest `{RelayCodec} (data : string) : option JSONRPCRequest :=
  match Unmarshal_request data with
  | None => None
  | Some req =>
      if decide (req_JSONRPC req ≠ "2.0") then None
      else if decide (req_Method req = EmptyString) then None
      else Some req
  end.

(** ** Signatures and namespaces *)

Definition didMatchesNamespace (did namespace : string) : bool :=
  if HasSuffix namespace "*"
  then HasPrefix did (String.substring 0 (String.length namespace - 1) namespace)
  else String.eqb did namespace.

Inductive SenderError := ErrClientNotRegistered | SenderRefused (text : ErrorText).

(** The bytes a gateway signs to speak for another DID. *)
Definition proofInput `{Runtime} (c : Client) (msg : Message) : string :=
  c_DID c +:+ ":" +:+ From msg +:+ ":" +:+ uuid_String (ID msg).

Definition validateSender `{Runtime} (c : Client) (msg : Message) : option SenderError :=
  if decide (c_DID c = EmptyString) then Some ErrClientNotRegistered
  else if decide (From msg = c_DID c) then None
  else if decide (ActorDID msg ≠ EmptyString ∧ ActorDID msg = c_DID c ∧ c_gatewayNamespace c ≠ EmptyString) then
    if negb (didMatchesNamespace (From msg) (c_gatewayNamespace c))
    then Some (SenderRefused (DelegationDenied (From msg) (c_gatewayNamespace c)))
    else if negb (VerifySignature (c_gatewaySigningKey c) (proofInput c msg) (ActorProof msg))
    then Some (SenderRefused (DelegationProofInvalid (c_DID c) (From msg)))
    else None
  else Some (SenderRefused (ErrSenderMismatch (From msg) (c_DID c))).

(** ** Updates of one connection *)

Definition set_msgLimiter (c : Client) (l : RateLimiter) : Client :=
  c_with c (c_DID c) (c_TenantID c) (c_SendCh c) l (c_registerLimiter c) (c_discoverLimiter c)
    (c_stopped c) (c_gatewayNamespace c) (c_gatewaySigningKey c).
Definition set_registerLimiter (c : Client) (l : RateLimiter) : Client :=
  c_with c (c_DID c) (c_TenantID c) (c_SendCh c) (c_msgLimiter c) l (c_discoverLimiter c)
    (c_stopped c) (c_gatewayNamespace c) (c_gatewaySigningKey c).
Definition set_discoverLimiter (c : Client) (l : RateLimiter) : Client :=
  c_with c (c_DID c) (c_TenantID c) (c_SendCh c) (c_msgLimiter c) (c_registerLimiter c) l
    (c_stopped c) (c_gatewayNamespace c) (c_gatewaySigningKey c).
Definition set_identity (c : Client) (did ns : string) (key : option string) : Client :=
  c_with c did (c_TenantID c) (c_SendCh c) (c_msgLimiter c) (c_registerLimiter c) (c_discoverLimiter c)
    (c_stopped c) ns key.

Definition update_client {St} (h : RelayHub St) (cid : string) (f : Client → Client) : RelayHub St :=
  set_objs h (alter f cid (h_objs h)).

Section relay.
Context {St : Type} `{Store St} `{Runtime} `{PresenceCodec} `{ChannelCodec} `{RelayCodec}.
Implicit Types (h : RelayHub St) (e : Env) (cid : string) (c : Client) (req : JSONRPCRequest).

(** ** Registration *)

Definition verifyDIDProof e (r : RegistrationRequest) : option ErrorText :=
  if decide (default EmptyString (rr_Proof r) = EmptyString) then Some ErrDIDProofRequired
  else match GetSigningKey (rr_Agent r) with
       | None => Some ErrNoSigningKey
       | Some k =>
           let proofAge := int64 (now e / Second - rr_Timestamp r) in
           if (proofAge <? -60) || (300 <? proofAge) then Some ErrProofTimestamp
           else if negb (VerifySignature (pk_Key k)
                           (a_DID (rr_Agent r) +:+ ":" +:+ pretty (rr_Timestamp r)) (rr_Proof r))
           then Some ErrDIDProofInvalid
           else None
       end.

(** The key of the first signing key, nil when there is none. *)
Definition signing_bytes (a : Agent) : option string := GetSigningKey a ≫= pk_Key.

Definition checkPinnedKey h (r : RegistrationRequest) : option ErrorText :=
  match GetByDID (h_store h) (a_DID (rr_Agent r)) with
  | Ok (Some existing) =>
      match signing_bytes existing with
      | None => None
      | Some pinned =>
          match GetSigningKey (rr_Agent r) with
          | None => Some ErrDIDKeyMismatch
          | Some k => if decide (default EmptyString (pk_Key k) = pinned) then None else Some ErrDIDKeyMismatch
          end
      end
  | _ => None
  end.

Definition MethodWBA : string := "wba".

Definition is_wba (did : string) : bool := bool_decide (ParseDID did = Some MethodWBA).

(** The allowlist, checked with a throwaway agent that carries it. *)
Definition allowlisted h (did : string) : bool :=
  match h_allowlistACL h with
  | None => true
  | Some acl => bool_decide (CheckAccess (allowlist_agent acl) did "register" = None)
  end.

(** The quota check: the count and the tenant when the limit is reached. *)
Definition did_quota_exceeded h c : option (Tenant * Z) :=
  if decide (c_TenantID c = EmptyString) then None
  else match h_billingStore h with
       | None => None
       | Some b =>
           match GetTenant b (c_TenantID c) with
           | Err _ => None
           | Ok tenant =>
               let count := CountByTenant (h_store h) (c_TenantID c) in
               if MaxAgentDIDs (t_Quota tenant) <=? count then Some (tenant, count) else None
           end
       end.

(** The checks of [handleRegister], in order; the error response when one fails. *)
Definition register_checks e h c (r : RegistrationRequest) : option (Z * ErrorText * option QuotaErrorData) :=
  let did := a_DID (rr_Agent r) in
  if negb (is_wba did) then Some (CodeInvalidParams, ErrInvalidDIDFormat, None)
  else match (if RequireDIDProof (h_config h) then verifyDIDProof e r else None) with
  | Some err => Some (CodeSignatureInvalid, err, None)
  | None =>
  match (if PinDIDKeys (h_config h) then checkPinnedKey h r else None) with
  | Some err => Some (CodeAccessDenied, err, None)
  | None =>
  if negb (allowlisted h did) then Some (CodeAccessDenied, Text "DID not allowed to register", None)
  else match did_quota_exceeded h c with
  | Some (tenant, count) =>
      Some (CodeQuotaExceeded, Text "DID quota exceeded for this tenant",
            Some (FormatQuotaErrorData (t_Plan tenant) (c_TenantID c) count (MaxAgentDIDs (t_Quota tenant))))
  | None => None
  end end end.

(** The agent that is stored. *)
Definition registered_agent e h c (a : Agent) : Agent :=
  let tenant := if decide (c_TenantID c ≠ EmptyString ∧ h_billingStore h ≠ None) then c_TenantID c else a_TenantID a in
  SetOnline (now e) (a_with_parts a tenant (a_PublicKeys a) (a_Endpoints a) (a_Capabilities a)).

(** The connection after a registration: its DID, and its delegation when it registered as
    a gateway. *)
Definition registered_client c (a : Agent) : Client :=
  if decide (a_Role a = "gateway" ∧ a_DelegationNamespace a ≠ EmptyString)
  then set_identity c (a_DID a) (a_DelegationNamespace a) (signing_bytes a)
  else set_identity c (a_DID a) (c_gatewayNamespace c) (c_gatewaySigningKey c).

(** The inner loop of [deliverQueuedMessages]: [false] when the buffer was full. *)
Fixpoint deliver_batch e h cid (msgs : list QueuedMessage) : RelayHub St * bool :=
  match msgs with
  | [] => (h, true)
  | msg :: msgs' =>
      if IsExpired (now e) msg then deliver_batch e h cid msgs'
      else match send h cid (FRaw (qm_Data msg)) with
           | (h1, true) => deliver_batch e h1 cid msgs'
           | (h1, false) =>
               (match h_queue h1 with
                | Some q => (enqueue e h1 q msg).1
                | None => h1
                end, false)
           end
  end.

Definition batchSize : Z := 100.

(** The outer loop; every round that goes on has taken a full batch out of the queue. *)
Fixpoint deliver_loop (fuel : nat) e h cid (did : string) : RelayHub St :=
  match fuel with
  | O => h
  | Datatypes.S fuel' =>
      match h_queue h with
      | None => h
      | Some q =>
          match Dequeue (queue_sort e) (now e) q did batchSize with
          | (_, Err _) => h
          | (q', Ok []) => set_queue h q'
          | (q', Ok msgs) =>
              match deliver_batch e (set_queue h q') cid msgs with
              | (h1, false) => h1
              | (h1, true) => if Z.of_nat (length msgs) <? batchSize then h1 else deliver_loop fuel' e h1 cid did
              end
          end
      end
  end.

Definition deliverQueuedMessages e h cid : RelayHub St :=
  match h_objs h !! cid, h_queue h with
  | Some c, Some q =>
      if decide (c_DID c = EmptyString) then h
      else deliver_loop (Datatypes.S (length (get_slice (queues q) (c_DID c)))) e h cid (c_DID c)
  | _, _ => h
  end.

(** From [c.DID = agent.DID] to the end. *)
Definition register_commit e h cid c req (a : Agent) : RelayHub St :=
  let agent := registered_agent e h c a in
  let h1 := update_client h cid (λ c, registered_client c agent) in
  let h2 := set_store h1 (Put (h_store h1) agent).1 in
  let h3 := set_clients h2 (<[a_DID agent := cid]> (h_clients h2)) in
  let h4 := Broadcast e h3 cid (FNotify "discovery.announce" (PAgent (Some agent))) in
  let h5 := sendResult h4 cid (req_ID req) (status_result "registered") in
  deliverQueuedMessages e h5 cid.

Definition handleRegister e h cid c req : RelayHub St :=
  let '(ok, l) := Allow (now e) (c_registerLimiter c) in
  let h0 := update_client h cid (λ c, set_registerLimiter c l) in
  if negb ok
  then sendError h0 cid (req_ID req) CodeRateLimited (Text "registration rate limit exceeded")
  else match ParseParams Unmarshal_registration zero_registration req with
       | None => sendError h0 cid (req_ID req) CodeInvalidParams (Text "invalid agent data")
       | Some r =>
           match register_checks e h0 c r with
           | Some (code, text, data) => sendErrorWithData h0 cid (req_ID req) code text data
           | None => register_commit e h0 cid c req (rr_Agent r)
           end
       end.

Definition handleRegisterSubordinate e h cid c req : RelayHub St :=
  if decide (c_DID c = EmptyString)
  then sendError h cid (req_ID req) CodeSenderNotRegistered (Text "client must register before registering subordinates")
  else if decide (c_gatewayNamespace c = EmptyString)
  then sendError h cid (req_ID req) CodeAccessDenied (Text "client is not registered as a gateway")
  else match ParseParams Unmarshal_subordinate zero_subordinate req with
  | None => sendError h cid (req_ID req) CodeInvalidParams (Text "invalid subordinate data")
  | Some s =>
      if negb (is_wba (sr_DID s))
      then sendError h cid (req_ID req) CodeInvalidParams ErrInvalidDIDFormat
      else if negb (didMatchesNamespace (sr_DID s) (c_gatewayNamespace c))
      then sendError h cid (req_ID req) CodeDelegationInvalid (Text "subordinate DID not in gateway namespace")
      else if negb (allowlisted h (sr_DID s))
      then sendError h cid (req_ID req) CodeAccessDenied (Text "DID not allowed to register")
      else
        let agent := a_with_parts (NewAgent (fresh e 0) (now e) (sr_DID s) (sr_DID s))
                       (c_TenantID c) (sr_PublicKeys s) [] [] in
        sendResult (set_store h (Put (h_store h) agent).1) cid (req_ID req)
          (PJson (JObject [("status", JString "registered"); ("did", JString (sr_DID s))]))
  end.

(** ** Discovery *)

Definition handleDiscover e h cid c req : RelayHub St :=
  let '(ok, l) := Allow (now e) (c_discoverLimiter c) in
  let h0 := update_client h cid (λ c, set_discoverLimiter c l) in
  if negb ok
  then sendError h0 cid (req_ID req) CodeRateLimited (Text "discovery rate limit exceeded")
  else
    let capability := match req_Params req with None => EmptyString | Some raw => Unmarshal_capability raw end in
    let agents := if decide (capability = EmptyString) then ListAgents (h_store h0)
                  else Search (h_store h0) capability in
    sendResult h0 cid (req_ID req) (PAgents agents).

Definition handleLookup e h cid c req : RelayHub St :=
  let '(ok, l) := Allow (now e) (c_discoverLimiter c) in
  let h0 := update_client h cid (λ c, set_discoverLimiter c l) in
  if negb ok
  then sendError h0 cid (req_ID req) CodeRateLimited (Text "rate limit exceeded")
  else match ParseParams Unmarshal_did EmptyString req with
       | None | Some EmptyString => sendError h0 cid (req_ID req) CodeInvalidParams (Text "missing 'did' parameter")
       | Some did =>
           match GetByDID (h_store h0) did with
           | Err err => sendError h0 cid (req_ID req) CodeInternalError (TextStore err)
           | Ok agent => sendResult h0 cid (req_ID req) (PAgent agent)
           end
       end.

(** ** Messages *)

(** The tenant's own limit, when there is billing. *)
Definition tenant_allows e h c : bool * RelayHub St :=
  match h_tenantPool h with
  | Some p =>
      if decide (c_TenantID c = EmptyString) then (true, h)
      else let '(ok, p') := pool_Allow (now e) (default NewBillingStore (h_billingStore h)) p (c_TenantID c) in
           (ok, set_pool h p')
  | None => (true, h)
  end.

(** From the rate limits to the routing. *)
Definition handle_routed e h cid c req (data : string) : RelayHub St :=
  let '(ok, l) := Allow (now e) (c_msgLimiter c) in
  let h0 := update_client h cid (λ c, set_msgLimiter c l) in
  if negb ok
  then sendError h0 cid (req_ID req) CodeRateLimited (Text "rate limit exceeded")
  else
    let '(tok, h1) := tenant_allows e h0 c in
    if negb tok
    then sendError h1 cid (req_ID req) CodeRateLimited (Text "tenant rate limit exceeded")
    else match ParseParams Unmarshal_message zero_message req with
         | None => sendError h1 cid (req_ID req) CodeInvalidParams (Text "invalid params")
         | Some msg =>
             match Validate msg with
             | Some err => sendError h1 cid (req_ID req) CodeInvalidParams (TextValidation err)
             | None =>
                 match validateSender c msg with
                 | Some ErrClientNotRegistered =>
                     sendError h1 cid (req_ID req) CodeSenderNotRegistered
                       (Text "client must register before sending messages")
                 | Some (SenderRefused text) => sendError h1 cid (req_ID req) CodeSenderMismatch text
                 | None =>
                     if decide (Type_ msg = TypeTyping) then handleTypingIndicator e h1 msg data
                     else match Route e h1 msg data with
                          | (h2, Some err) => sendError h2 cid (req_ID req) CodeRoutingError (TextRoute err)
                          | (h2, None) => h2
                          end
                 end
             end
         end.

Definition channel_methods : list (string * ChannelMethod) :=
  [("relay.channel.create", MCreate); ("relay.channel.join", MJoin); ("relay.channel.leave", MLeave);
   ("relay.channel.list", MList); ("relay.channel.members", MMembers); ("relay.channel.delete", MDelete);
   ("relay.channel.sender_key", MSenderKey)].

Definition is_relay_method (m : string) : bool :=
  bool_decide (m ∈ ["keepalive"; "relay.register"; "relay.discover"; "relay.lookup"; "relay.presence.update";
    "relay.presence.subscribe"; "relay.presence.unsubscribe"; "relay.presence.query"; "relay.register_subordinate"]
    ++ channel_methods.*1).

(** The switch of [handleMessage]. *)
Definition dispatch e h cid c req (data : string) : RelayHub St :=
  let m := req_Method req in
  if decide (m = "keepalive") then h
  else if decide (m = "relay.register") then handleRegister e h cid c req
  else if decide (m = "relay.discover") then handleDiscover e h cid c req
  else if decide (m = "relay.lookup") then handleLookup e h cid c req
  else if decide (m = "relay.presence.update") then handlePresenceUpdate e h c req
  else if decide (m = "relay.presence.subscribe") then handlePresenceSubscribe h c req
  else if decide (m = "relay.presence.unsubscribe") then handlePresenceUnsubscribe h c req
  else if decide (m = "relay.presence.query") then handlePresenceQuery h c req
  else match list_find (λ p, p.1 = m) channel_methods with
       | Some (_, (_, cm)) => channel_method cm e h c req
       | None =>
           if decide (m = "relay.register_subordinate") then handleRegisterSubordinate e h cid c req
           else handle_routed e h cid c req data
       end.

Definition handleMessage e h cid (data : string) : RelayHub St :=
  match h_objs h !! cid, DecodeRequest data with
  | Some c, Some req => dispatch e h cid c req data
  | _, _ => h
  end.

Definition updateActivity e c : Client := {|
  c_ID := c_ID c; c_DID := c_DID c; c_TenantID := c_TenantID c; c_SendCh := c_SendCh c;
  c_msgLimiter := c_msgLimiter c; c_registerLimiter := c_registerLimiter c;
  c_discoverLimiter := c_discoverLimiter c; c_lastActivity := now e; c_stopped := c_stopped c;
  c_gatewayNamespace := c_gatewayNamespace c; c_gatewaySigningKey := c_gatewaySigningKey c;
|}.

(** One turn of [readPump]: a frame was read. *)
Definition readPump e h cid (data : string) : RelayHub St :=
  handleMessage e (update_client h cid (updateActivity e)) cid data.

(** One turn of [writePump]: the oldest frame leaves the buffer. *)
Definition writePump h cid : RelayHub St * option Frame :=
  match h_objs h !! cid with
  | Some c => match c_SendCh c with
              | f :: fs => (update_client h cid (λ c, set_SendCh c fs), Some f)
              | [] => (h, None)
              end
  | None => (h, None)
  end.

End relay.

(** ** Effects of a request on others *)

(** Nothing outside the caller's own connection has changed. *)
Definition unaffected {St} (h h' : RelayHub St) (cid : string) : Prop :=
  h_queue h' = h_queue h ∧ h_presence h' = h_presence h ∧ h_clients h' = h_clients h ∧
  h_store h' = h_store h ∧ h_channels h' = h_channels h ∧
  ∀ cid', cid' ≠ cid → h_objs h' !! cid' = h_objs h !! cid'.

Lemma unaffected_refl {St} (h : RelayHub St) cid : unaffected h h cid.
Proof. by split_and!. Qed.

Lemma unaffected_trans {St} (h1 h2 h3 : RelayHub St) cid :
  unaffected h1 h2 cid → unaffected h2 h3 cid → unaffected h1 h3 cid.
Proof.
  intros (?&?&?&?&?&F1) (?&?&?&?&?&F2). split_and!; try congruence.
  intros cid' Hne. by rewrite F2, F1.
Qed.

Lemma unaffected_update {St} (h : RelayHub St) cid f : unaffected h (update_client h cid f) cid.
Proof. split_and!; try done. intros cid' Hne. simpl. by rewrite lookup_alter_ne. Qed.

Lemma unaffected_send {St} (h : RelayHub St) cid f : unaffected h (send h cid f).1 cid.
Proof.
  destruct (send_static h cid f). split_and!; try done; [apply send_queue |].
  intros cid' Hne. unfold send. destruct (h_objs h !! cid); [|done].
  destruct (c_stopped _); [done |]. destruct (_ <? _)%nat; [|done]. simpl. by rewrite lookup_insert_ne.
Qed.

Lemma unaffected_update_send {St} (h : RelayHub St) cid f fr :
  unaffected h (send (update_client h cid f) cid fr).1 cid.
Proof. eapply unaffected_trans; [apply unaffected_update | apply unaffected_send]. Qed.

#[export] Hint Resolve unaffected_refl unaffected_update unaffected_send unaffected_update_send : go.

Lemma tenant_allows_unaffected `{Store St} `{Runtime} e (h : RelayHub St) c cid :
  unaffected h (tenant_allows e h c).2 cid.
Proof.
  unfold tenant_allows. destruct (h_tenantPool h); [|apply unaffected_refl]. case_decide; [apply unaffected_refl |].
  destruct (pool_Allow _ _ _ _). by split_and!.
Qed.

(** ** Who may speak for whom *)

Lemma didMatchesNamespace_spec did ns :
  didMatchesNamespace did ns = true ↔
  (∃ prefix rest, ns = prefix +:+ "*" ∧ did = prefix +:+ rest) ∨
  ((¬ ∃ prefix, ns = prefix +:+ "*") ∧ did = ns).
Proof.
  unfold didMatchesNamespace. destruct (HasSuffix ns "*") eqn:Hs.
  - apply HasSuffix_spec in Hs as [p ->].
    rewrite string_app_length. simpl. replace (String.length p + 1 - 1)%nat with (String.length p) by lia.
    rewrite substring_app, HasPrefix_spec. split.
    + intros [r ->]. left. by exists p, r.
    + intros [(p' & r & Heq & ->)|[Hn _]]; [|by destruct Hn; exists p].
      exists r. f_equal. apply (f_equal (λ s, TrimSuffix s "*")) in Heq. by rewrite !TrimSuffix_app in Heq.
  - rewrite String.eqb_eq. split.
    + intros ->. right. split; [|done]. rewrite <- HasSuffix_spec. congruence.
    + intros [(p & r & -> & _)|[_ ->]]; [|done].
      assert (HasSuffix (p +:+ "*") "*" = true) by (apply HasSuffix_spec; by exists p). congruence.
Qed.

(** The connection [c] may send [msg] under the sender it names: its own DID, or one inside
    the namespace it registered as a gateway for, with its signature. *)
Definition authentic `{Runtime} (c : Client) (msg : Message) : Prop :=
  c_DID c ≠ EmptyString ∧
  (From msg = c_DID c ∨
   (ActorDID msg = c_DID c ∧ c_gatewayNamespace c ≠ EmptyString ∧
    didMatchesNamespace (From msg) (c_gatewayNamespace c) = true ∧
    VerifySignature (c_gatewaySigningKey c) (proofInput c msg) (ActorProof msg) = true)).

Lemma validateSender_authentic `{Runtime} c msg : validateSender c msg = None ↔ authentic c msg.
Proof.
  unfold validateSender, authentic. destruct (decide (c_DID c = EmptyString)) as [He|He].
  { split; [done | by intros []]. }
  destruct (decide (From msg = c_DID c)) as [Hf|Hf]; [tauto |].
  case_decide as Hd.
  - destruct (didMatchesNamespace _ _); simpl; [|split; [done | intros (_ & [?|(_ & _ & ? & _)]); congruence]].
    destruct (VerifySignature _ _ _); simpl; [|split; [done | intros (_ & [?|(_ & _ & _ & ?)]); congruence]].
    split; [intros _; split; [done |]; right; tauto | done].
  - split; [done |]. intros (_ & [?|(Ha & Hn & _)]); [congruence |]. exfalso. apply Hd.
    split_and!; [congruence | done | done].
Qed.

Lemma dispatch_routed `{Store St} `{Runtime} `{PresenceCodec} `{ChannelCodec} `{RelayCodec}
    e (h : RelayHub St) cid c req data :
  is_relay_method (req_Method req) = false →
  dispatch e h cid c req data = handle_routed e h cid c req data.
Proof.
  unfold is_relay_method. rewrite bool_decide_eq_false. intros Hn. simpl in Hn.
  rewrite !not_elem_of_cons in Hn. destruct_and!. unfold dispatch.
  rewrite !decide_False by done. simpl. by rewrite !decide_False by congruence.
Qed.

(** The hub after the rate limits were charged for one message of connection [cid]. *)
Definition charged `{Store St} e (h : RelayHub St) cid c : RelayHub St :=
  (tenant_allows e (update_client h cid (λ c', set_msgLimiter c' (Allow (now e) (c_msgLimiter c)).2)) c).2.

(** [req] is a message that connection [cid] may send now: both rate limits admit it, it
    decodes, it is within the length limits, and its sender is authentic. *)
Definition acceptable `{Store St} `{Runtime} `{RelayCodec} e (h : RelayHub St) cid c req msg : Prop :=
  (Allow (now e) (c_msgLimiter c)).1 = true ∧
  (tenant_allows e (update_client h cid (λ c', set_msgLimiter c' (Allow (now e) (c_msgLimiter c)).2)) c).1 = true ∧
  ParseParams Unmarshal_message zero_message req = Some msg ∧ Validate msg = None ∧ authentic c msg.

Lemma charged_unaffected `{Store St} `{Runtime} e (h : RelayHub St) cid c :
  h_objs h !! cid = Some c → unaffected h (charged e h cid c) cid ∧ frames_of (charged e h cid c) cid = frames_of h cid.
Proof.
  intros Hc. unfold charged. set (h0 := update_client _ _ _). split.
  - eapply unaffected_trans; [apply unaffected_update | apply tenant_allows_unaffected].
  - assert (Ho : h_objs (tenant_allows e h0 c).2 = h_objs h0).
    { unfold tenant_allows. destruct (h_tenantPool h0); [|done]. case_decide; [done |]. by destruct (pool_Allow _ _ _ _). }
    unfold frames_of. rewrite Ho. simpl. by rewrite lookup_alter_eq, Hc.
Qed.


Definition demo_relay_codec (msg : Message) (r : RegistrationRequest) (s : SubordinateRegisterRequest) : RelayCodec := {|
  Unmarshal_request := λ d, Some {| req_JSONRPC := "2.0"; req_ID := JNumber 1; req_Method := d; req_Params := Some d |};
  Unmarshal_message := λ _, Some msg; Unmarshal_registration := λ _, Some r;
  Unmarshal_subordinate := λ _, Some s; Unmarshal_capability := λ s, s; Unmarshal_did := Some;
|}.


(** ** Registration *)

Section registration.
Context {St : Type} `{Store St} `{Runtime}.
Implicit Types (h : RelayHub St) (e : Env) (cid : string).

Lemma broadcast_static h sender f seen ks : same_static h (broadcast_loop h sender f seen ks).
Proof.
  revert h seen. induction ks as [|k ks IH]; intros h seen; simpl; [done |].
  destruct (h_clients h !! k) as [cid|]; [|apply IH]. case_decide; [apply IH |].
  destruct (client_of h cid) as [c|]; [|apply IH]. destruct (c_stopped c); [apply IH |].
  etrans; [apply send_static | apply IH].
Qed.

Lemma enqueue_static e h q m : same_static h (enqueue e h q m).1.
Proof. unfold enqueue. destruct (Enqueue _ _ _). apply set_queue_static. Qed.

Lemma deliver_batch_static e h cid msgs : same_static h (deliver_batch e h cid msgs).1.
Proof.
  revert h. induction msgs as [|m msgs IH]; intros h; simpl; [done |]. destruct (IsExpired _ _); [apply IH |].
  pose proof (send_static h cid (FRaw (qm_Data m))) as Hs.
  destruct (send h cid _) as [h1 [|]]; simpl in *; [by etrans |].
  destruct (h_queue h1); [|done]. etrans; [exact Hs | apply enqueue_static].
Qed.

Lemma deliver_loop_static fuel e h cid did : same_static h (deliver_loop fuel e h cid did).
Proof.
  revert h. induction fuel as [|fuel IH]; intros h; simpl; [done |]. destruct (h_queue h) as [q|]; [|done].
  destruct (Dequeue _ _ _ _ _) as [q' [[|m msgs]|]]; [apply set_queue_static | | done].
  pose proof (deliver_batch_static e (set_queue h q') cid (m :: msgs)) as Hb.
  destruct (deliver_batch _ _ _ _) as [h1 [|]]; simpl in Hb; [|by etrans; [apply set_queue_static |]].
  assert (same_static h h1) by (by etrans; [apply set_queue_static |]).
  destruct (_ <? _); [done |]. by etrans.
Qed.

Lemma deliverQueued_static e h cid : same_static h (deliverQueuedMessages e h cid).
Proof.
  unfold deliverQueuedMessages. destruct (h_objs h !! cid); [|done]. destruct (h_queue h); [|done].
  case_decide; [done | apply deliver_loop_static].
Qed.

(** The hub right after the registration is recorded; what follows only sends frames and
    empties the queue. *)
Definition recorded e h cid c (a : Agent) : RelayHub St :=
  let agent := registered_agent e h c a in
  let h1 := update_client h cid (λ c, registered_client c agent) in
  let h2 := set_store h1 (Put (h_store h1) agent).1 in
  set_clients h2 (<[a_DID agent := cid]> (h_clients h2)).

Lemma register_commit_static e h cid c req a : same_static (recorded e h cid c a) (register_commit e h cid c req a).
Proof.
  unfold register_commit. etrans; [|apply deliverQueued_static]. etrans; [|apply send_static].
  apply broadcast_static.
Qed.

Lemma register_commit_client e h cid c req a c0 :
  h_objs h !! cid = Some c0 →
  ∃ c', h_objs (register_commit e h cid c req a) !! cid = Some c' ∧
    c' = set_SendCh (registered_client c0 (registered_agent e h c a)) (c_SendCh c').
Proof.
  intros Hc. pose proof (register_commit_static e h cid c req a) as Hs.
  assert (Hr : h_objs (recorded e h cid c a) !! cid = Some (registered_client c0 (registered_agent e h c a))).
  { simpl. by rewrite lookup_alter_eq, Hc. }
  pose proof (ss_objs _ _ Hs cid) as Ho. rewrite Hr in Ho.
  destruct (h_objs (register_commit e h cid c req a) !! cid) as [c'|] eqn:Hc'; [|done].
  exists c'. split; [done |]. destruct (same_static_obj _ _ _ _ Hs Hc') as (c1 & Hc1 & Heq).
  rewrite Hr in Hc1. injection Hc1 as <-. exact Heq.
Qed.

Lemma registered_agent_same e h c a :
  a_DID (registered_agent e h c a) = a_DID a ∧ a_ID (registered_agent e h c a) = a_ID a ∧
  a_PublicKeys (registered_agent e h c a) = a_PublicKeys a ∧ a_Role (registered_agent e h c a) = a_Role a ∧
  a_DelegationNamespace (registered_agent e h c a) = a_DelegationNamespace a ∧
  a_Status (registered_agent e h c a) = StatusOnline.
Proof. done. Qed.

(** What the checks establish, in terms of the request, the stores and the clock. *)
Record checked e h c (r : RegistrationRequest) : Prop := {
  chk_method : ParseDID (a_DID (rr_Agent r)) = Some MethodWBA;
  chk_proof : RequireDIDProof (h_config h) = true →
    default EmptyString (rr_Proof r) ≠ EmptyString ∧
    ∃ k, GetSigningKey (rr_Agent r) = Some k ∧
      VerifySignature (pk_Key k) (a_DID (rr_Agent r) +:+ ":" +:+ pretty (rr_Timestamp r)) (rr_Proof r) = true ∧
      -60 ≤ now e / Second - rr_Timestamp r ≤ 300;
  chk_pin old pinned : PinDIDKeys (h_config h) = true →
    GetByDID (h_store h) (a_DID (rr_Agent r)) = Ok (Some old) → signing_bytes old = Some pinned →
    ∃ k, GetSigningKey (rr_Agent r) = Some k ∧ default EmptyString (pk_Key k) = pinned;
  chk_allow acl : h_allowlistACL h = Some acl → CheckAccess (allowlist_agent acl) (a_DID (rr_Agent r)) "register" = None;
  chk_quota b t : h_billingStore h = Some b → c_TenantID c ≠ EmptyString → GetTenant b (c_TenantID c) = Ok t →
    CountByTenant (h_store h) (c_TenantID c) < MaxAgentDIDs (t_Quota t);
}.

(** The clock and the timestamp of the request are int64 values: the clock counts
    nanoseconds from 1970, which fit in 64 bits until 2262. *)
Definition clock_range e (r : RegistrationRequest) : Prop :=
  0 ≤ now e < 2 ^ 63 ∧ - 2 ^ 63 ≤ rr_Timestamp r < 2 ^ 63.

(** The wrap-around of the subtraction never brings an old timestamp into the window. *)
Lemma proofAge_window e r :
  clock_range e r →
  (int64 (now e / Second - rr_Timestamp r) <? -60) || (300 <? int64 (now e / Second - rr_Timestamp r)) = false ↔
  -60 ≤ now e / Second - rr_Timestamp r ≤ 300.
Proof.
  intros [Hn Ht]. rewrite orb_false_iff, !Z.ltb_ge.
  assert (Hs : 0 ≤ now e / Second ≤ 2 ^ 34).
  { unfold Second, Millisecond. split; [apply Z.div_pos; lia |]. apply Z.div_le_upper_bound; lia. }
  unfold int64. set (s := now e / Second) in *. clearbody s.
  destruct (decide (s - rr_Timestamp r < 2 ^ 63)).
  - rewrite Z.mod_small by lia. lia.
  - replace ((s - rr_Timestamp r + 2 ^ 63) mod 2 ^ 64) with (s - rr_Timestamp r + 2 ^ 63 - 2 ^ 64); [lia |].
    apply (Z.mod_unique _ _ 1); lia.
Qed.

Lemma verifyDIDProof_spec e r :
  clock_range e r →
  verifyDIDProof e r = None ↔
  default EmptyString (rr_Proof r) ≠ EmptyString ∧
  ∃ k, GetSigningKey (rr_Agent r) = Some k ∧
    VerifySignature (pk_Key k) (a_DID (rr_Agent r) +:+ ":" +:+ pretty (rr_Timestamp r)) (rr_Proof r) = true ∧
    -60 ≤ now e / Second - rr_Timestamp r ≤ 300.
Proof.
  intros Hr. pose proof (proofAge_window e r Hr) as Hw. unfold verifyDIDProof.
  case_decide as Hne; [split; [done | by intros [? _]] |].
  destruct (GetSigningKey _) as [k|]; [|split; [done | by intros (_ & ? & ? & _)]].
  destruct (_ || _) eqn:Hage; [split; [done |]; intros (_ & ? & _ & _ & Hx); by apply Hw in Hx |].
  destruct (VerifySignature _ _ _) eqn:Hv; cbn [negb]; split; [| | done |].
  - intros _. split; [done |]. exists k. split_and!; [done | exact Hv | by apply Hw..].
  - done.
  - intros (_ & k' & [= <-] & Hv' & _). by rewrite Hv in Hv'.
Qed.

Lemma checkPinnedKey_spec h r :
  checkPinnedKey h r = None ↔
  ∀ old pinned, GetByDID (h_store h) (a_DID (rr_Agent r)) = Ok (Some old) → signing_bytes old = Some pinned →
    ∃ k, GetSigningKey (rr_Agent r) = Some k ∧ default EmptyString (pk_Key k) = pinned.
Proof.
  unfold checkPinnedKey. destruct (GetByDID _ _) as [[old|]|]; [|naive_solver..].
  destruct (signing_bytes old) as [pinned|] eqn:Hp; [|naive_solver].
  destruct (GetSigningKey _) as [k|]; [case_decide |]; split; intros Hx; try done; try naive_solver.
Qed.

Lemma allowlisted_spec h did :
  allowlisted h did = true ↔
  ∀ acl, h_allowlistACL h = Some acl → CheckAccess (allowlist_agent acl) did "register" = None.
Proof. unfold allowlisted. destruct (h_allowlistACL h); rewrite ?bool_decide_eq_true; naive_solver. Qed.

Lemma did_quota_spec h c :
  did_quota_exceeded h c = None ↔
  ∀ b t, h_billingStore h = Some b → c_TenantID c ≠ EmptyString → GetTenant b (c_TenantID c) = Ok t →
    CountByTenant (h_store h) (c_TenantID c) < MaxAgentDIDs (t_Quota t).
Proof.
  unfold did_quota_exceeded. case_decide; [by split |]. destruct (h_billingStore h) as [b|]; [|by split].
  destruct (GetTenant b (c_TenantID c)) as [t|] eqn:Hg.
  - destruct (Z.leb_spec (MaxAgentDIDs (t_Quota t)) (CountByTenant (h_store h) (c_TenantID c))) as [Hle|Hlt]; split.
    + done.
    + intros Hx. specialize (Hx b t eq_refl ltac:(done) Hg). lia.
    + intros _ b' t' [= <-] _ Hg'. rewrite Hg in Hg'. by injection Hg' as <-.
    + done.
  - split; [|done]. intros _ b' t' [= <-] _ Hg'. by rewrite Hg in Hg'.
Qed.

(** The checks pass exactly when the registration is in order. *)
Lemma register_checks_spec e h c r : clock_range e r → register_checks e h c r = None ↔ checked e h c r.
Proof.
  intros Hr. unfold register_checks. destruct (is_wba _) eqn:Hw; simpl; cycle 1.
  { apply bool_decide_eq_false in Hw. split; [done | by intros []]. }
  apply bool_decide_eq_true in Hw. pose proof (verifyDIDProof_spec e r Hr) as Hv.
  pose proof (checkPinnedKey_spec h r) as Hp. pose proof (allowlisted_spec h (a_DID (rr_Agent r))) as Ha.
  pose proof (did_quota_spec h c) as Hq. split.
  - destruct (if RequireDIDProof _ then _ else _) eqn:Hreq; [done |].
    destruct (if PinDIDKeys _ then _ else _) eqn:Hpin; [done |].
    destruct (allowlisted _ _); simpl; [|done]. destruct (did_quota_exceeded h c) as [[]|]; [done |]. intros _.
    split; [done | | | by apply Ha | by apply Hq].
    + intros E. rewrite E in Hreq. by apply Hv.
    + intros old pinned E. rewrite E in Hpin. by apply Hp.
  - intros [_ Hc1 Hc2 Hc3 Hc4]. apply Ha in Hc3. apply Hq in Hc4. rewrite Hc3, Hc4. simpl.
    destruct (RequireDIDProof (h_config h)) eqn:E1; [apply Hv in Hc1; [rewrite Hc1 | done] |];
      (destruct (PinDIDKeys (h_config h)) eqn:E2; [rewrite (proj2 Hp) by (intros; by eapply Hc2); done | done]).
Qed.

End registration.

(** C27. Registration: a registration takes effect exactly when it is in order, that is,
    when it has a did:wba DID, a fresh ownership proof by the key it presents if proofs are
    required, the signing key the DID was stored with if keys are pinned, the allowlist's
    consent and room in the tenant's quota.  Then the DID routes to this connection, the
    other routes are unchanged, and a lookup of the DID returns the registered agent,
    online, with the keys it presented.  Otherwise nothing outside the caller's own
    connection changes, and no route does. *)
Theorem registration_checked `{StoreLaws St} `{Runtime} `{RC : RelayCodec}
    e (h : RelayHub St) cid c req r :
  h_objs h !! cid = Some c → (Allow (now e) (c_registerLimiter c)).1 = true →
  ParseParams Unmarshal_registration zero_registration req = Some r → clock_range e r →
  let h' := handleRegister e h cid c req in
  (¬ checked e h c r → unaffected h h' cid ∧ h_clients h' = h_clients h) ∧
  (checked e h c r →
   h_clients h' = <[a_DID (rr_Agent r) := cid]> (h_clients h) ∧
   (a_DID (rr_Agent r) ≠ EmptyString →
    ∃ a, GetByDID (h_store h') (a_DID (rr_Agent r)) = Ok (Some a) ∧ a_DID a = a_DID (rr_Agent r) ∧
      a_Status a = StatusOnline ∧ a_PublicKeys a = a_PublicKeys (rr_Agent r)) ∧
   ∃ c', h_objs h' !! cid = Some c' ∧ c_DID c' = a_DID (rr_Agent r)).
Proof.
  intros Hc Hal Hp Hr. pose proof (register_checks_spec e h c r Hr) as Hspec. unfold handleRegister.
  destruct (Allow _ _) as [ok l]. simpl in Hal. subst ok.
  cbn [negb]. rewrite Hp. set (h0 := update_client _ _ _).
  change (register_checks e h0 c r) with (register_checks e h c r).
  destruct (register_checks e h c r) as [[[code text] data]|] eqn:Hchk.
  { split; [intros _ | intros Hx; by apply Hspec in Hx].
    unfold sendErrorWithData. assert (Hu := unaffected_update_send h cid (λ c, set_registerLimiter c l)
      (FError (req_ID req) code text data)). split; [exact Hu |]. by destruct Hu as (_ & _ & ? & _). }
  split; [intros Hx; destruct Hx; by apply Hspec | intros _].
  pose proof (register_commit_static e h0 cid c req (rr_Agent r)) as Hs.
  assert (Hc0 : h_objs h0 !! cid = Some (set_registerLimiter c l)) by (simpl; by rewrite lookup_alter_eq, Hc).
  destruct (register_commit_client e h0 cid c req (rr_Agent r) _ Hc0) as (c' & Hc' & Heq).
  split_and!.
  - rewrite (ss_clients _ _ Hs). done.
  - intros Hne. exists (registered_agent e h0 c (rr_Agent r)). rewrite (ss_store _ _ Hs).
    split_and!; [|done..]. simpl. apply (put_getByDID _ (registered_agent e h0 c (rr_Agent r))). done.
  - exists c'. split; [done |]. rewrite Heq. unfold registered_client. by case_decide.
Qed.

Definition demo_registration (did ns : string) : RegistrationRequest := {|
  rr_Agent := {| a_ID := uuid_lit 3; a_DID := did; a_TenantID := ""; a_DisplayName := did;
    a_PublicKeys := [{| pk_ID := "k"; pk_Type := KeyTypeEd25519;
                        pk_Key := Some "0123456789abcdef0123456789abcdef"; pk_Purpose := "signing" |}];
    a_Endpoints := []; a_Capabilities := []; a_ACL := None; a_Status := ""; a_LastSeen := 0; a_Metadata := [];
    a_Presence := None; a_PresenceCfg := None; a_Role := "gateway"; a_DelegationNamespace := ns |};
  rr_Proof := Some ("signed:" +:+ did +:+ ":0"); rr_Timestamp := 0;
|}.

Abbreviation demo_codec ns := (demo_relay_codec (demo_message "did:wba:bob") (demo_registration "did:wba:mallory" ns)
  {| sr_DID := "did:wba:bob"; sr_TenantID := ""; sr_PublicKeys := [] |}).

(** A connection that has not registered yet joins the demo hub. *)
Definition demo_hub3 : RelayHub Registry.MemoryStore :=
  Register (set_objs demo_hub (<["c3" := demo_client "c3" "" None]> (h_objs demo_hub))) "c3".

Lemma registration_checked_witness :
  h_clients (handleRegister (H3 := demo_codec "did:wba:x:*") (demo_env Second) demo_hub3 "c3"
    (demo_client "c3" "" None) (demo_request "relay.register")) !! "did:wba:mallory" = Some "c3".
Proof.
  destruct (registration_checked (RC := demo_codec "did:wba:x:*")
    (demo_env Second) demo_hub3 "c3" (demo_client "c3" "" None) (demo_request "relay.register")
    (demo_registration "did:wba:mallory" "did:wba:x:*")
    ltac:(vm_compute; reflexivity) ltac:(vm_compute; reflexivity) ltac:(vm_compute; reflexivity)
    ltac:(vm_compute; split_and!; congruence))
    as [_ Hyes].
  destruct Hyes as [Hcl _]; [|rewrite Hcl; apply lookup_insert_eq].
  apply register_checks_spec; [vm_compute; split_and!; congruence | vm_compute; reflexivity].
Defined.

(** ** Gateways *)

(** Any client that passes registration can make itself a gateway for every DID: the
    namespace is taken from its own request, so after registering with the namespace "*" a
    message in the name of any sender whatever passes validateSender as long as the client
    signs it with its own key. *)
Theorem gateway_speaks_for_anyone `{Store St} `{Runtime} `{RC : RelayCodec}
    e (h : RelayHub St) cid c req r msg :
  h_objs h !! cid = Some c → (Allow (now e) (c_registerLimiter c)).1 = true →
  ParseParams Unmarshal_registration zero_registration req = Some r → register_checks e h c r = None →
  a_Role (rr_Agent r) = "gateway" → a_DelegationNamespace (rr_Agent r) = "*" → a_DID (rr_Agent r) ≠ EmptyString →
  ActorDID msg = a_DID (rr_Agent r) →
  VerifySignature (signing_bytes (rr_Agent r))
    (a_DID (rr_Agent r) +:+ ":" +:+ From msg +:+ ":" +:+ uuid_String (ID msg)) (ActorProof msg) = true →
  ∃ c', h_objs (handleRegister e h cid c req) !! cid = Some c' ∧ validateSender c' msg = None.
Proof.
  intros Hc Hal Hp Hchk Hrole Hns Hne Hact Hsig. unfold handleRegister.
  destruct (Allow _ _) as [ok l]. simpl in Hal. subst ok. cbn [negb]. rewrite Hp. set (h0 := update_client _ _ _).
  change (register_checks e h0 c r) with (register_checks e h c r). rewrite Hchk.
  assert (Hc0 : h_objs h0 !! cid = Some (set_registerLimiter c l)) by (simpl; by rewrite lookup_alter_eq, Hc).
  destruct (register_commit_client e h0 cid c req (rr_Agent r) _ Hc0) as (c' & Hc' & Heq).
  exists c'. split; [done |]. apply validateSender_authentic.
  unfold registered_client in Heq. rewrite decide_True in Heq by (simpl; split; [done | by rewrite Hns]).
  rewrite Heq. split; [done |]. right. split_and!; [done | simpl; by rewrite Hns | | done].
  simpl. rewrite Hns. apply didMatchesNamespace_spec. left. by exists "", (From msg).
Qed.

(** Mallory's message in Bob's name, and a hub on which she has just registered. *)
Definition demo_forged : Message := {|
  ID := uuid_lit 5; CorrelationID := None; From := "did:wba:bob"; To := "did:wba:alice"; Type_ := TypeChat;
  Method := "chat"; Body := None; Signature := None; Timestamp := 0; TraceID := ""; Encrypted := false;
  ThreadID := None; ParentID := None; ThreadSeqNo := 0; RequestAck := false; ActorDID := "did:wba:mallory";
  ActorProof := Some "signed:did:wba:mallory:did:wba:bob:id";
|}.

Lemma gateway_speaks_for_anyone_witness :
  ∃ c', h_objs (handleRegister (H3 := demo_codec "*") (demo_env Second) demo_hub3 "c3"
          (demo_client "c3" "" None) (demo_request "relay.register")) !! "c3" = Some c' ∧
        validateSender c' demo_forged = None.
Proof.
  apply (gateway_speaks_for_anyone (RC := demo_codec "*")
    (demo_env Second) demo_hub3 "c3" (demo_client "c3" "" None) (demo_request "relay.register")
    (demo_registration "did:wba:mallory" "*") demo_forged); vm_compute; (reflexivity || discriminate).
Defined.

(** Pinned keys do not survive a gateway: register_subordinate stores the keys it is
    given for any DID in the gateway's namespace, whatever key the DID is pinned to and
    whether or not PinDIDKeys is set, and takes the agent offline. *)
Theorem subordinate_replaces_pinned_key `{StoreLaws St} `{Runtime} `{RC : RelayCodec}
    e (h : RelayHub St) cid c req s :
  c_DID c ≠ EmptyString → c_gatewayNamespace c ≠ EmptyString →
  ParseParams Unmarshal_subordinate zero_subordinate req = Some s →
  ParseDID (sr_DID s) = Some MethodWBA → didMatchesNamespace (sr_DID s) (c_gatewayNamespace c) = true →
  h_allowlistACL h = None → sr_DID s ≠ EmptyString →
  ∃ a, GetByDID (h_store (handleRegisterSubordinate e h cid c req)) (sr_DID s) = Ok (Some a) ∧
    a_PublicKeys a = sr_PublicKeys s ∧ a_Status a = StatusOffline.
Proof.
  intros Hd Hn Hp Hw Hm Hal Hne. unfold handleRegisterSubordinate, is_wba, allowlisted.
  rewrite !decide_False, Hp, Hw, bool_decide_true, Hm, Hal by done. cbn [negb]. unfold sendResult.
  rewrite (ss_store _ _ (send_static _ _ _)). set (a := a_with_parts _ _ _ _ _).
  exists a. split_and!; [|done..]. by apply (put_getByDID _ a).
Qed.

Lemma subordinate_replaces_pinned_key_witness :
  ∃ a, GetByDID (h_store (handleRegisterSubordinate (H3 := demo_codec "*") (demo_env 1) demo_hub "c3"
         (set_identity (demo_client "c3" "" None) "did:wba:mallory" "*" None) (demo_request "x"))) "did:wba:bob" = Ok (Some a) ∧
       a_PublicKeys a = [] ∧ a_Status a = StatusOffline.
Proof.
  apply (subordinate_replaces_pinned_key (RC := demo_codec "*") (demo_env 1) demo_hub "c3"
    (set_identity (demo_client "c3" "" None) "did:wba:mallory" "*" None) (demo_request "x")
    {| sr_DID := "did:wba:bob"; sr_TenantID := ""; sr_PublicKeys := [] |}); vm_compute; (reflexivity || discriminate).
Defined.

(** ** Closing a connection *)

(** Closing an old connection cuts off the new one: when an agent reconnects (its DID
    now leads to the new connection) and the old connection then ends, Unregister removes
    the DID's entry, so messages to the DID are no longer delivered to the connection that
    is still open. *)
Theorem unregister_drops_newer_route {St} (h : RelayHub St) old c new c2 did :
  h_objs h !! old = Some c → c_DID c = did → did ≠ EmptyString → did ≠ new → old ≠ new →
  h_clients h !! did = Some new → h_objs h !! new = Some c2 → h_clients h !! new = Some new →
  let h' := Unregister h old in
  h_clients h' !! did = None ∧ h_clients h' !! new = Some new ∧ h_objs h' !! new = Some c2.
Proof.
  intros Hold Hd Hne Hdn Hon Hcl Hnew Hid. unfold Unregister, client_of. rewrite Hold. simpl.
  rewrite Hd, decide_False by done. split_and!; [apply lookup_delete_eq | | done].
  by rewrite !lookup_delete_ne.
Qed.

(** Alice reconnects as c3 while c1 is still open. *)
Definition demo_reconnected : RelayHub Registry.MemoryStore :=
  Register (set_objs demo_hub (<["c3" := demo_client "c3" "did:wba:alice" None]> (h_objs demo_hub))) "c3".

Lemma unregister_drops_newer_route_witness :
  h_clients (Unregister demo_reconnected "c1") !! "did:wba:alice" = None.
Proof.
  destruct (unregister_drops_newer_route demo_reconnected "c1" (demo_client "c1" "did:wba:alice" None) "c3"
    (demo_client "c3" "did:wba:alice" None) "did:wba:alice"
    ltac:(vm_compute; reflexivity) ltac:(reflexivity) ltac:(discriminate) ltac:(discriminate) ltac:(discriminate)
    ltac:(vm_compute; reflexivity) ltac:(vm_compute; reflexivity) ltac:(vm_compute; reflexivity)) as [H _].
  exact H.
Defined.

(** ** Delivery of queued messages *)

Lemma StronglySorted_app_le {A} (R : relation A) l l' :
  StronglySorted R l → StronglySorted R l' → (∀ b, b ∈ l' → Forall (λ a, R a b) l) → StronglySorted R (l ++ l').
Proof.
  intros Hl Hl' Hle. induction Hl as [|x l HS IH HF]; simpl; [done |]. constructor.
  - apply IH. intros b Hb. by apply Hle in Hb; inversion Hb.
  - apply Forall_app. split; [done |]. apply Forall_forall. intros b Hb. by apply Hle in Hb; inversion Hb.
Qed.

Section delivery.
Context {St : Type} `{Store St} `{Runtime}.
Implicit Types (h : RelayHub St) (e : Env) (cid : string).

Abbreviation frame_of := (λ m, FRaw (qm_Data m)).

Lemma deliver_batch_room e h cid msgs :
  running h → is_Some (h_objs h !! cid) → Forall (λ m, IsExpired (now e) m = false) msgs →
  (length (frames_of h cid) + length msgs ≤ wsSendBufferSize)%nat →
  ∃ h', deliver_batch e h cid msgs = (h', true) ∧ same_static h h' ∧ h_queue h' = h_queue h ∧
        frames_of h' cid = frames_of h cid ++ (frame_of <$> msgs) ∧
        ∀ cid', cid' ≠ cid → frames_of h' cid' = frames_of h cid'.
Proof.
  revert h. induction msgs as [|m msgs IH]; intros h Hr Ho Hl Hlen.
  { exists h. simpl. rewrite app_nil_r. done. }
  apply Forall_cons in Hl as [Hm Hl]. simpl in Hlen. cbn [deliver_batch]. rewrite Hm.
  assert (Hroom : has_room h cid) by (split; [done | lia]).
  apply (send_accepted h cid (frame_of m) Hr) in Hroom.
  pose proof (send_static h cid (frame_of m)) as Hs. pose proof (send_queue h cid (frame_of m)) as Hq.
  pose proof (send_frames h cid (frame_of m)) as Hf.
  destruct (send h cid (frame_of m)) as [h1 ok]. simpl in *. subst ok.
  destruct (IH h1) as (h' & Hd & Hs' & Hq' & Hf' & Hoth); [by apply (same_static_running h) | | done | |].
  - destruct Ho as [c Hc]. pose proof (ss_objs _ _ Hs cid) as Hobj. rewrite Hc in Hobj.
    destruct (h_objs h1 !! cid); [eauto | done].
  - rewrite Hf, decide_True, length_app by done. simpl. lia.
  - exists h'. split_and!; [done | by etrans | congruence | |].
    + rewrite Hf', Hf, decide_True by done. by rewrite <- app_assoc.
    + intros cid' Hne. rewrite Hoth, Hf, decide_False by (done || by intros []). apply app_nil_r.
Qed.

(** The part of the queue a batch leaves behind. *)
Lemma batch_split e q did rem :
  EnvOk e →
  let slice := get_slice (queues q) did in
  let out := cap batchSize (live (now e) (queue_sort e slice)) in
  slice ≡ₚ out ++ rem →
  Forall (λ m, IsExpired (now e) m = false) out ∧ live (now e) slice ≡ₚ out ++ live (now e) rem ∧
  StronglySorted (key_le qm_QueuedAt) out ∧
  (∀ b, b ∈ live (now e) rem → Z.of_nat (length out) = batchSize ∧ Forall (λ a, qm_QueuedAt a ≤ qm_QueuedAt b) out).
Proof.
  intros He slice out Hp.
  assert (Hlive : Forall (λ m, IsExpired (now e) m = false) out).
  { unfold out, cap. destruct (0 <? batchSize); [apply Forall_take |]; apply Forall_filter_self. }
  assert (Hlp : live (now e) slice ≡ₚ out ++ live (now e) rem).
  { rewrite Hp at 1. rewrite filter_app. by rewrite (filter_all _ out). }
  assert (Hs : live (now e) (queue_sort e slice) ≡ₚ out ++ live (now e) rem).
  { by rewrite (sort_Permutation (R := key_le qm_QueuedAt)). }
  destruct (cap_sorted batchSize (live (now e) (queue_sort e slice)) rem (now e)) as [Hsorted Hrest].
  - apply StronglySorted_filter, (sort_Sorted (R := key_le qm_QueuedAt)).
  - exact Hs.
  - split_and!; [done | done | done |]. intros b Hb. destruct (Hrest b Hb) as [[_ ?] ?]. done.
Qed.

(** What a complete delivery achieves. *)
Definition delivered e h h' cid did q : Prop :=
  ∃ dl q', frames_of h' cid = frames_of h cid ++ (frame_of <$> dl) ∧
    dl ≡ₚ live (now e) (get_slice (queues q) did) ∧ StronglySorted (key_le qm_QueuedAt) dl ∧
    h_queue h' = Some q' ∧ Forall (λ m, IsExpired (now e) m = true) (get_slice (queues q') did) ∧
    (∀ d, d ≠ did → get_slice (queues q') d = get_slice (queues q) d) ∧
    ∀ cid', cid' ≠ cid → frames_of h' cid' = frames_of h cid'.

Lemma live_nil_expired t l : live t l = [] → Forall (λ m, IsExpired t m = true) l.
Proof.
  induction l as [|m l IH]; [done |]. rewrite filter_cons. destruct (IsExpired t m) eqn:Hm.
  - rewrite decide_False by done. intros Hl. constructor; auto.
  - by rewrite decide_True.
Qed.

(** One round: the batch that is taken, and what it leaves in the queue. *)
Lemma dequeue_round e q did :
  EnvOk e → closed q = false →
  ∃ out q1, Dequeue (queue_sort e) (now e) q did batchSize = (q1, Ok out) ∧ closed q1 = false ∧
    (∀ d, d ≠ did → get_slice (queues q1) d = get_slice (queues q) d) ∧
    Forall (λ m, IsExpired (now e) m = false) out ∧ StronglySorted (key_le qm_QueuedAt) out ∧
    live (now e) (get_slice (queues q) did) ≡ₚ out ++ live (now e) (get_slice (queues q1) did) ∧
    (length (get_slice (queues q) did) = length out + length (get_slice (queues q1) did))%nat ∧
    (Z.of_nat (length out) < batchSize → Forall (λ m, IsExpired (now e) m = true) (get_slice (queues q1) did)) ∧
    (∀ b, b ∈ live (now e) (get_slice (queues q1) did) → Forall (λ a, qm_QueuedAt a ≤ qm_QueuedAt b) out).
Proof.
  intros He Hc.
  destruct (Dequeue_shape (queue_sort e) (now e) q did batchSize queue_sort_ok Hc) as [rem [[HD Hp]|[Hnil HD]]].
  2: { exists [], q. rewrite Hnil. split_and!; try done. constructor. }
  destruct (batch_split e q did rem He Hp) as (Hlive & Hlp & Hsorted & Hrest).
  eexists _, _. split; [exact HD |]. simpl. rewrite get_put_slice_eq. split_and!; try done.
  - intros d Hne. by apply get_put_slice_ne.
  - by rewrite Hp at 1; rewrite length_app.
  - intros Hlt. apply live_nil_expired. destruct (live (now e) rem) as [|b l] eqn:Hb; [done |].
    destruct (Hrest b) as [Hx _]; [left | lia].
  - intros b Hb. by apply Hrest.
Qed.

Lemma deliver_loop_all fuel e h cid did q :
  EnvOk e → running h → is_Some (h_objs h !! cid) → h_queue h = Some q → closed q = false →
  (length (get_slice (queues q) did) < fuel)%nat →
  (length (frames_of h cid) + length (live (now e) (get_slice (queues q) did)) ≤ wsSendBufferSize)%nat →
  delivered e h (deliver_loop fuel e h cid did) cid did q.
Proof.
  intros He. revert h q. induction fuel as [|fuel IH]; intros h q Hr Ho Hq Hc Hfuel Hroom; [lia |].
  cbn [deliver_loop]. rewrite Hq.
  destruct (dequeue_round e q did He Hc) as (out & q1 & -> & Hc1 & Hoth & Hlive & Hsorted & Hlp & Hsl & Hshort & Hrest).
  destruct out as [|m out].
  { exists [], q1. simpl. rewrite app_nil_r. simpl in Hlp. specialize (Hshort ltac:(done)).
    rewrite (filter_none _ (get_slice (queues q1) did)) in Hlp by (eapply Forall_impl; [exact Hshort | congruence]).
    split_and!; done. }
  assert (Hlen : length (live (now e) (get_slice (queues q) did)) =
    (length (m :: out) + length (live (now e) (get_slice (queues q1) did)))%nat) by (by rewrite Hlp, length_app).
  destruct (deliver_batch_room e (set_queue h q1) cid (m :: out) Hr Ho Hlive) as (h1 & Hd & Hst & Hq1 & Hf1 & Ho1).
  { change (frames_of (set_queue h q1) cid) with (frames_of h cid). lia. }
  change (frames_of (set_queue h q1)) with (frames_of h) in Hf1, Ho1. rewrite Hd.
  destruct (Z.ltb_spec (Z.of_nat (length (m :: out))) batchSize) as [Hlt|Hge].
  - exists (m :: out), q1. specialize (Hshort Hlt).
    rewrite (filter_none _ (get_slice (queues q1) did)), app_nil_r in Hlp
      by (eapply Forall_impl; [exact Hshort | congruence]).
    split_and!; done.
  - assert (Ho' : is_Some (h_objs h1 !! cid)).
    { destruct Ho as [c Hco]. pose proof (ss_objs _ _ Hst cid) as Hobj. simpl in Hobj. rewrite Hco in Hobj.
      destruct (h_objs h1 !! cid); [eauto | done]. }
    simpl in Hsl. destruct (IH h1 q1 (same_static_running _ _ Hst Hr) Ho' ltac:(by rewrite Hq1) Hc1 ltac:(lia))
      as (dl & q' & Hf & Hperm & Hso & Hq' & Hexp & Hoq & Hofr).
    { rewrite Hf1, length_app, length_fmap. lia. }
    exists ((m :: out) ++ dl), q'. split_and!; try done.
    + by rewrite Hf, Hf1, fmap_app, app_assoc.
    + by rewrite Hperm, Hlp.
    + apply StronglySorted_app_le; [done | done |]. intros b Hb. rewrite Hperm in Hb. by apply Hrest.
    + intros d Hne. rewrite Hoq, Hoth; done.
    + intros cid' Hne. rewrite Hofr, Ho1; done.
Qed.

End delivery.

(** Store and forward completes: when a registered connection's buffer has room for
    every unexpired message waiting for its DID, deliverQueuedMessages puts exactly those
    messages into its buffer, each once and oldest first, leaves only expired ones in the
    DID's queue, and touches no other queue or connection. *)
Theorem queued_delivery_complete `{Store St} `{Runtime} e `{EnvOk e} (h : RelayHub St) cid c q :
  running h → h_objs h !! cid = Some c → c_DID c ≠ EmptyString → h_queue h = Some q → closed q = false →
  (length (frames_of h cid) + length (live (now e) (get_slice (queues q) (c_DID c))) ≤ wsSendBufferSize)%nat →
  delivered e h (deliverQueuedMessages e h cid) cid (c_DID c) q.
Proof.
  intros Hr Hc Hd Hq Hcl Hroom. unfold deliverQueuedMessages. rewrite Hc, Hq, decide_False by done.
  apply deliver_loop_all; try done; eauto.
Qed.

(** The demo hub with two messages waiting for Bob. *)
Definition demo_waiting : RelayHub Registry.MemoryStore :=
  set_queue demo_hub
    (foldl (λ q m, (Enqueue (keys_of (queues q)) q m).1) (Queue.NewMemoryStore DefaultConfig)
       [demo_msg 2 "did:wba:bob" 20; demo_msg 1 "did:wba:bob" 10]).

Lemma queued_delivery_complete_witness :
  delivered (demo_env 1) demo_waiting (deliverQueuedMessages (demo_env 1) demo_waiting "c2") "c2" "did:wba:bob"
    (default (Queue.NewMemoryStore DefaultConfig) (h_queue demo_waiting)).
Proof.
  apply (queued_delivery_complete (demo_env 1) demo_waiting "c2" (demo_client "c2" "did:wba:bob" None)
    (default (Queue.NewMemoryStore DefaultConfig) (h_queue demo_waiting))).
  - exact demo_hub_running.
  - vm_compute. reflexivity.
  - discriminate.
  - reflexivity.
  - vm_compute. reflexivity.
  - vm_compute. lia.
Defined.

Lemma full_batch e q did :
  EnvOk e → closed q = false → let slice := get_slice (queues q) did in
  slice ≠ [] → Forall (λ m, IsExpired (now e) m = false) slice → (Z.of_nat (length slice) ≤ batchSize) →
  ∃ n, Dequeue (queue_sort e) (now e) q did batchSize =
    (with_queues q (put_slice (queues q) did []) n, Ok (queue_sort e slice)).
Proof.
  intros He Hc slice Hne Hl Hlen.
  assert (Hcap : cap batchSize (live (now e) (queue_sort e slice)) = queue_sort e slice).
  { rewrite filter_all by (by rewrite (sort_Permutation (R := key_le qm_QueuedAt))).
    unfold cap. destruct (0 <? batchSize); [|done]. apply take_ge.
    rewrite (Permutation_length (sort_Permutation (R := key_le qm_QueuedAt) slice)). lia. }
  destruct (Dequeue_shape (queue_sort e) (now e) q did batchSize queue_sort_ok Hc) as [rem [[HD Hp]|[Hnil _]]]; [|done].
  rewrite HD. fold slice in HD, Hp |- *. rewrite Hcap in Hp |- *. eexists.
  assert (rem = []) as ->; [|done].
  apply nil_length_inv. apply Permutation_length in Hp. rewrite length_app in Hp.
  rewrite (Permutation_length (sort_Permutation (R := key_le qm_QueuedAt) slice)) in Hp. lia.
Qed.

(** Queued messages are lost when the buffer is full: a batch is removed from the
    queue before it is sent, and when the first send fails only that message is put back.
    With a full buffer and up to a hundred live messages waiting, all but one of them are
    neither delivered nor queued afterwards. *)
Theorem queued_batch_lost `{Store St} `{Runtime} e `{EnvOk e} (h : RelayHub St) cid c q :
  running h → h_objs h !! cid = Some c → c_DID c ≠ EmptyString → ¬ has_room h cid →
  queue_open h → h_queue h = Some q →
  MaxQueueSize (config q) ≤ 0 → MaxTotalMessages (config q) ≤ 0 →
  get_slice (queues q) (c_DID c) ≠ [] →
  Forall (λ m, IsExpired (now e) m = false) (get_slice (queues q) (c_DID c)) →
  Z.of_nat (length (get_slice (queues q) (c_DID c))) ≤ batchSize →
  let h' := deliverQueuedMessages e h cid in
  (∀ cid', frames_of h' cid' = frames_of h cid') ∧
  length (pending h) = (length (pending h') + (length (get_slice (queues q) (c_DID c)) - 1))%nat.
Proof.
  intros Hr Hc Hd Hroom Hopen Hq Hms Hmt Hne Hl Hlen. set (slice := get_slice (queues q) (c_DID c)) in *.
  unfold deliverQueuedMessages. rewrite Hc, Hq, decide_False by done. fold slice. cbn [deliver_loop]. rewrite Hq.
  destruct (Hopen q Hq) as [HI Hcl].
  destruct (full_batch e q (c_DID c) ltac:(done) Hcl Hne Hl Hlen) as [n HD]. fold slice in HD. rewrite HD.
  destruct (Dequeue_spec _ _ _ _ _ _ _ HI Hcl queue_sort_ok HD) as [HI1 _]. set (q1 := with_queues _ _ n) in *.
  assert (Hps : queue_sort e slice ≡ₚ slice) by apply (sort_Permutation (R := key_le qm_QueuedAt)).
  destruct (queue_sort e slice) as [|m l] eqn:Hsort.
  { apply Permutation_nil_l in Hps. by destruct Hne. }
  assert (Hm : IsExpired (now e) m = false).
  { rewrite <- Hps in Hl. by apply Forall_cons in Hl as [? _]. }
  cbn [deliver_batch]. rewrite Hm.
  assert (Hr1 : running (set_queue h q1)) by done.
  assert (Hno : send (set_queue h q1) cid (FRaw (qm_Data m)) = (set_queue h q1, false)).
  { pose proof (send_accepted (set_queue h q1) cid (FRaw (qm_Data m)) Hr1) as Ha.
    unfold send in *. simpl in *. rewrite Hc in *. rewrite (Hr _ _ Hc) in *.
    destruct (_ <? _)%nat; [|done]. exfalso. apply Hroom. by apply Ha. }
  rewrite Hno. change (h_queue (set_queue h q1)) with (Some q1). cbn iota beta.
  destruct (enqueue e (set_queue h q1) q1 m) as [h2 err] eqn:HE.
  destruct (enqueue_pending e (set_queue h q1) q1 m h2 err ltac:(done)) as (_ & _ & Hp & q2 & -> & _); [|done | done |].
  { intros q' [= <-]. done. }
  specialize (Hp Hms Hmt). split; [done |].
  assert (Hp1 : pending h ≡ₚ slice ++ pending (set_queue h q1)).
  { unfold pending. rewrite Hq. simpl. by rewrite (flatten_delete _ (c_DID c)). }
  rewrite Hp1, Hp, length_app. simpl. destruct slice; [done |]. simpl. lia.
Qed.

(** Bob's buffer is full and two messages wait for him in a queue without limits. *)
Definition demo_full : RelayHub Registry.MemoryStore :=
  let q := {| config := {| MessageTTL := Hour; MaxQueueSize := 0; MaxTotalMessages := 0; MaxDeliveryAttempts := 3;
                           AckTimeout := 0; EnableDLQ := true |};
              queues := {[ "did:wba:bob" := [demo_msg 2 "did:wba:bob" 20; demo_msg 1 "did:wba:bob" 10] ]};
              dlq := ∅; totalCount := 2; closed := false |} in
  set_queue (update_client demo_hub "c2" (λ c, set_SendCh c (replicate wsSendBufferSize (FRaw "x")))) q.

Lemma queued_batch_lost_witness :
  length (pending demo_full) = 2%nat ∧ length (pending (deliverQueuedMessages (demo_env 1) demo_full "c2")) = 1%nat.
Proof.
  assert (HI : queue_open demo_full).
  { intros q Hq. injection Hq as <-. split; [|reflexivity]. split; simpl.
    - intros _. vm_compute. reflexivity.
    - intros did q Hl. apply lookup_singleton_Some in Hl as [<- <-]. split; [discriminate |]. repeat constructor.
    - intros did Hpos. lia.
    - discriminate. }
  destruct (queued_batch_lost (demo_env 1) demo_full "c2"
    (set_SendCh (demo_client "c2" "did:wba:bob" None) (replicate wsSendBufferSize (FRaw "x")))
    (default (Queue.NewMemoryStore DefaultConfig) (h_queue demo_full))
    ltac:(intros cid c Hc; apply elem_of_map_to_list in Hc; vm_compute in Hc;
          repeat (apply elem_of_cons in Hc as [Hc|Hc]; [injection Hc as _ ->; reflexivity |]); by apply elem_of_nil in Hc)
    ltac:(vm_compute; reflexivity) ltac:(discriminate)
    ltac:(intros [_ Hlt]; vm_compute in Hlt; lia) HI ltac:(reflexivity) ltac:(vm_compute; discriminate)
    ltac:(vm_compute; discriminate) ltac:(vm_compute; discriminate)
    ltac:(vm_compute; repeat constructor) ltac:(vm_compute; discriminate)) as [_ Hn].
  assert (H2 : length (pending demo_full) = 2%nat) by (vm_compute; reflexivity).
  split; [exact H2 |]. rewrite H2 in Hn. vm_compute in Hn |- *. lia.
Defined.
