(* ===== verification/Connect.v ===== *)
(** * Opening and closing connections (handleWebSocket of src/cmd/relay/hub.go)

    The connection limit, the authentication of a WebSocket request against the billing
    store (API key or OAuth2 token), and the life of the connection it creates. *)

From S2P Require Import Prelude Queue Registry Acl Channel Messaging Reliability Billing Http Hub Relay.
From Stdlib Require Import QArith.
#[local] Open Scope Z_scope.

Section connect.
Context {St : Type} `{Store St}.
(** SHA-256 in hexadecimal, and the OAuth2 validator (issuer and subject of a valid token). *)
Context (hashKey : string → string) (jwtValidator : option (string → option (string * string))).
Implicit Types (h : RelayHub St) (e : Env) (cid : string).

(** The tenant a token belongs to. *)
Definition resolve_tenant (t : Z) (b : BillingStore) (token : string) : result HTTPError string :=
  if IsAPIKeyToken token then
    match HashAPIKey hashKey token with
    | Err _ => Err {| http_code := StatusUnauthorized; http_text := "invalid API key format" |}
    | Ok hash =>
        match GetAPIKeyByHash b hash with
        | Ok key => if IsValid t key then Ok (k_TenantID key)
                    else Err {| http_code := StatusUnauthorized; http_text := "invalid or revoked API key" |}
        | Err _ => Err {| http_code := StatusUnauthorized; http_text := "invalid or revoked API key" |}
        end
    end
  else match jwtValidator with
  | None => Err {| http_code := StatusUnauthorized; http_text := "invalid authorization token" |}
  | Some validate =>
      match validate token with
      | None => Err {| http_code := StatusUnauthorized; http_text := "invalid OAuth2 token" |}
      | Some (issuer, subject) =>
          match GetOAuthIdentityTenant b issuer subject with
          | Err _ => Err {| http_code := StatusForbidden; http_text := "OAuth identity not registered; contact support" |}
          | Ok tid => Ok tid
          end
      end
  end.

(** The tenant of a connection, "" without billing or for the service token. *)
Definition authorize (t : Z) h (serviceToken authHeader : string) : result HTTPError string :=
  let isSvcConn := bool_decide (serviceToken ≠ EmptyString ∧ authHeader = "Bearer " +:+ serviceToken) in
  match h_billingStore h with
  | None => Ok EmptyString
  | Some b =>
      if isSvcConn then Ok EmptyString
      else if decide (authHeader = EmptyString)
      then Err {| http_code := StatusUnauthorized; http_text := "missing Authorization header" |}
      else match cut_space authHeader with
      | None => Err {| http_code := StatusUnauthorized; http_text := "invalid Authorization header format" |}
      | Some (scheme, token) =>
          if negb (EqualFold scheme "bearer")
          then Err {| http_code := StatusUnauthorized; http_text := "invalid Authorization header format" |}
          else match resolve_tenant t b token with
          | Err err => Err err
          | Ok tid =>
              match GetTenant b tid with
              | Ok tenant => if IsActive tenant then Ok (t_ID tenant)
                             else Err {| http_code := StatusForbidden; http_text := "tenant not found or suspended" |}
              | Err _ => Err {| http_code := StatusForbidden; http_text := "tenant not found or suspended" |}
              end
          end
      end
  end.

Definition with_connections h (n : Z) : RelayHub St := {|
  h_config := h_config h; h_store := h_store h; h_queue := h_queue h; h_presence := h_presence h;
  h_channels := h_channels h; h_clients := h_clients h; h_objs := h_objs h; h_connections := n;
  h_allowlistACL := h_allowlistACL h; h_billingStore := h_billingStore h; h_tenantPool := h_tenantPool h;
  h_panicked := h_panicked h;
|}.

Definition new_client (t : Z) (c : RelayConfig) (cid tenantID : string) : Client := {|
  c_ID := cid; c_DID := ""; c_TenantID := tenantID; c_SendCh := [];
  c_msgLimiter := NewRateLimiter t (MessageRateLimit c) (MessageBurstSize c);
  c_registerLimiter := NewRateLimiter t (RegisterRateLimit c) 2;
  c_discoverLimiter := NewRateLimiter t (DiscoverRateLimit c) 20;
  c_lastActivity := t; c_stopped := false; c_gatewayNamespace := ""; c_gatewaySigningKey := None;
|}.

(** Accepting: count the connection, create the client under its fresh ID, register it. *)
Definition accept (t : Z) h (cid tenantID : string) : RelayHub St :=
  let h1 := with_connections h (h_connections h + 1) in
  Register (set_objs h1 (<[cid := new_client t (h_config h) cid tenantID]> (h_objs h1))) cid.

(** The handler up to the start of the pumps; [ok] is the outcome of the upgrade. *)
Definition handleWebSocket (t : Z) h (cid serviceToken authHeader : string) (ok : bool)
  : result HTTPError (RelayHub St) :=
  if MaxConnections (h_config h) <=? h_connections h
  then Err {| http_code := StatusServiceUnavailable; http_text := "max connections reached" |}
  else match authorize t h serviceToken authHeader with
       | Err err => Err err
       | Ok tenantID => if ok then Ok (accept t h cid tenantID) else Ok h
       end.

(** The cleanup after [readPump] returns. *)
Definition disconnect h cid : RelayHub St :=
  let h1 := Unregister h cid in with_connections h1 (h_connections h1 - 1).

End connect.

(** ** Who gets in *)

(** A token proves membership of a tenant: it has the form of an API key and is a stored,
    unrevoked and unexpired one, or it is a valid OAuth2 token of an identity linked to the
    tenant. *)
Definition token_of (hashKey : string → string) (jwt : option (string → option (string * string)))
    (t : Z) (b : BillingStore) (token tid : string) : Prop :=
  if IsAPIKeyToken token
  then ∃ key, GetAPIKeyByHash b (hashKey token) = Ok key ∧ IsValid t key = true ∧ k_TenantID key = tid
  else ∃ validate issuer subject, jwt = Some validate ∧ validate token = Some (issuer, subject) ∧
         GetOAuthIdentityTenant b issuer subject = Ok tid.

(** The header carries the bearer token of an active tenant. *)
Definition entitled hashKey jwt (t : Z) (b : BillingStore) (auth : string) (tenant : Tenant) : Prop :=
  ∃ scheme token tid, cut_space auth = Some (scheme, token) ∧ EqualFold scheme "bearer" = true ∧
    token_of hashKey jwt t b token tid ∧ GetTenant b tid = Ok tenant ∧ t_Status tenant = TenantStatusActive.

Lemma resolve_tenant_spec hashKey jwt t b token tid :
  resolve_tenant hashKey jwt t b token = Ok tid ↔ token_of hashKey jwt t b token tid.
Proof.
  unfold resolve_tenant, token_of, HashAPIKey, IsAPIKeyToken. destruct (_ || _ || _).
  - split.
    + destruct (GetAPIKeyByHash b (hashKey token)) as [key|]; [|done].
      destruct (IsValid t key) eqn:Hv; [|done]. intros [= <-]. eauto.
    + intros (key & Hk & Hv & <-). by rewrite Hk, Hv.
  - split.
    + destruct jwt as [validate|]; [|done]. destruct (validate token) as [[issuer subject]|] eqn:Hval; [|done].
      destruct (GetOAuthIdentityTenant b issuer subject) eqn:Ho; [|done]. intros [= <-]. eauto 10.
    + intros (validate & issuer & subject & -> & Hval & Ho). by rewrite Hval, Ho.
Qed.

Lemma authorize_spec {St} hashKey jwt t (h : RelayHub St) b svc auth tid :
  h_billingStore h = Some b → ¬ (svc ≠ EmptyString ∧ auth = "Bearer " +:+ svc) →
  authorize hashKey jwt t h svc auth = Ok tid ↔ ∃ tenant, entitled hashKey jwt t b auth tenant ∧ tid = t_ID tenant.
Proof.
  intros Hb Hsvc. unfold authorize, entitled. rewrite Hb, bool_decide_false by done. split.
  - case_decide; [done |]. destruct (cut_space auth) as [[scheme token]|] eqn:Hcut; [|done].
    destruct (EqualFold scheme "bearer") eqn:Hf; cbn [negb]; [|done].
    destruct (resolve_tenant hashKey jwt t b token) as [rid|] eqn:Hres; [|done].
    destruct (GetTenant b rid) as [tenant|] eqn:Ht; [|done]. destruct (IsActive tenant) eqn:Hact; [|done].
    intros [= <-]. exists tenant. split; [|done]. exists scheme, token, rid. apply String.eqb_eq in Hact.
    split_and!; try done. by apply resolve_tenant_spec.
  - intros (tenant & (scheme & token & rid & Hcut & Hf & Htok & Ht & Hact) & ->).
    apply resolve_tenant_spec in Htok. rewrite decide_False by (intros ->; done).
    rewrite Hcut, Hf, Htok, Ht. unfold IsActive. by rewrite Hact.
Qed.

(** Admission: with billing enabled, a WebSocket request that does not present the
    service token is accepted exactly when the relay is below its connection limit and the
    request carries a bearer token that is a valid API key or OAuth2 identity of an active
    tenant.  The connection it opens belongs to that tenant, has no DID yet, an empty buffer
    and full rate buckets, and is reachable by its own ID alone: no existing route changes. *)
Theorem websocket_admission `{Store St} hashKey jwt t (h : RelayHub St) cid svc auth b :
  h_billingStore h = Some b → ¬ (svc ≠ EmptyString ∧ auth = "Bearer " +:+ svc) → h_objs h !! cid = None →
  (∀ h', handleWebSocket hashKey jwt t h cid svc auth true = Ok h' ↔
    h_connections h < MaxConnections (h_config h) ∧
    ∃ tenant, entitled hashKey jwt t b auth tenant ∧ h' = accept t h cid (t_ID tenant)) ∧
  (∀ tid, h_objs (accept t h cid tid) = <[cid := new_client t (h_config h) cid tid]> (h_objs h) ∧
    h_clients (accept t h cid tid) = <[cid := cid]> (h_clients h) ∧
    h_connections (accept t h cid tid) = h_connections h + 1).
Proof.
  intros Hb Hsvc Hfresh. split.
  - intros h'. unfold handleWebSocket.
    destruct (Z.leb_spec (MaxConnections (h_config h)) (h_connections h)) as [Hle|Hlt]; [split; [done | lia] |].
    pose proof (λ tid, authorize_spec hashKey jwt t h b svc auth tid Hb Hsvc) as Ha. split.
    + destruct (authorize hashKey jwt t h svc auth) as [tid|]; [|done]. intros [= <-]. split; [done |].
      destruct (proj1 (Ha tid) eq_refl) as (tenant & Hent & ->). eauto.
    + intros (_ & tenant & Hent & ->). by rewrite (proj2 (Ha (t_ID tenant))) by eauto.
  - intros tid. unfold accept, Register, client_of. simpl. rewrite lookup_insert_eq. done.
Qed.

Definition demo_key : APIKey := {|
  k_ID := "k1"; k_TenantID := "t1"; k_Name := "ci"; k_KeyHash := "sk_live_abc"; k_Prefix := "abc"; k_CreatedAt := 0;
  k_ExpiresAt := None; k_RevokedAt := None;
|}.

(** A hub with billing, one tenant and one key (the hash is the identity here). *)
Definition demo_billed : RelayHub Registry.MemoryStore := {|
  h_config := DefaultRelayConfig; h_store := Registry.NewMemoryStore; h_queue := None;
  h_presence := NewPresenceManager; h_channels := NewMemoryChannelStore; h_clients := ∅; h_objs := ∅;
  h_connections := 0; h_allowlistACL := None;
  h_billingStore := Some (PutAPIKey (PutTenant NewBillingStore demo_tenant) demo_key);
  h_tenantPool := Some ∅; h_panicked := false;
|}.

Lemma websocket_admission_witness :
  handleWebSocket (λ p, p) None 5 demo_billed "c9" "svc-token" "Bearer sk_live_abc" true =
  Ok (accept 5 demo_billed "c9" (t_ID demo_tenant)).
Proof.
  apply (websocket_admission (λ p, p) None 5 demo_billed "c9" "svc-token" "Bearer sk_live_abc" _
    ltac:(reflexivity) ltac:(intros [_ H]; vm_compute in H; discriminate H) ltac:(vm_compute; reflexivity)).
  split; [vm_compute; reflexivity |]. exists demo_tenant. split; [|reflexivity].
  exists "Bearer", "sk_live_abc", "t1". split_and!; try (vm_compute; reflexivity).
  exists demo_key. split_and!; vm_compute; reflexivity.
Defined.
