(* ===== verification/Agent.v ===== *)
(** * The agent runtime (src/pkg/agent/agent.go, peer_resolve.go)

    A client of the relay: its life cycle, the messages it sends (encrypted, signed, over a
    direct connection or through the relay), the frames it receives (verified, decrypted,
    checked against its access control list, handed to a method handler, answered), pending
    requests, deduplication and delivery acknowledgements.

    A transport is named by a text; a channel of capacity one is a cell of [ag_chans] (empty,
    or holding a pointer that may be nil), so that the waiting goroutine and the pending table
    share it.  [ag_trace] lists what the agent did
    to the outside: frames sent and callbacks run. *)

From S2P Require Import Prelude Crypto Registry Discovery Acl Messaging Reliability Billing Hub Relay.
#[local] Open Scope Z_scope.

(** ** Values *)

Definition DefaultShutdownTimeout : Z := 10 * Second.
Definition DefaultDedupTTL : Z := 5 * Minute.
Definition CodeMethodNotFound : Z := -32601.
Definition CodeDecryptionFailed : Z := -32004.

Inductive AgentError :=
| ErrNotStarted | ErrAlreadyStarted | ErrPeerNotFound | ErrSenderNotFound | ErrNoSigningKey
| ErrSignatureInvalid | ErrDecryption | ErrNoEncryptionKey | ErrRecipientNotFound | ErrSenderKeyNotFound
| ErrListenerFailed | ErrAlreadyListening | ErrEncryptionRequired (e : AgentError) | ErrAgentRateLimited
| ErrAgentQuotaExceeded | ErrRelayAnswered (message : string) | ErrCanceled | ErrMarshal | ErrSend
| ErrCrypto (e : CryptoError) | ErrUnmarshal_peers | ErrPutPeer (e : DiscoveryError) | ErrNilPointer.

Record JSONRPCError := { je_Code : Z; je_Message : string; je_Data : any }.

Record JSONRPCResponse := {
  rsp_JSONRPC : string;
  rsp_ID : any;
  rsp_Result : option string;
  rsp_Error : option JSONRPCError;
}.

Definition IsErrorResponse (r : JSONRPCResponse) : bool := bool_decide (is_Some (rsp_Error r)).

Record RelayAck := { ack_MessageID : string; ack_Delivered : bool; ack_Status : string }.
Record DiscoveredPeer := { dp_DID : string; dp_DisplayName : string; dp_PublicKeys : list PeerKey }.

(** What encoding/json and encoding/base64 do for the agent, besides [RelayCodec];
    [Unmarshal_result] keeps what could be decoded, as the code does. *)
Class AgentCodec := {
  Marshal_any : any → option string;
  Marshal_message : Message → option string;
  Marshal_rpc_error : JSONRPCError → option string;
  Encode_request : JSONRPCRequest → option string;
  Encode_response : JSONRPCResponse → option string;
  Unmarshal_response : string → option JSONRPCResponse;
  Unmarshal_result : string → Message;
  Unmarshal_announce : string → option DiscoveryMessage;
  Unmarshal_ack : string → option RelayAck;
  Unmarshal_peers : string → option (list DiscoveredPeer);
  base64_DecodeString : string → option string;
}.

(** A callback run or a frame sent. *)
Inductive Event :=
| EvSend (transport data : string)
| EvHandler (handler : nat) (msg : Message)
| EvNotification (handler : nat) (body : option string)
| EvAck (handler : nat) (id : uuid) (delivered : bool) (err : option string).

Inductive Context_ := CtxNone | CtxLive | CtxDone.

Record AgentConfig := {
  cf_Identity : Identity;
  cf_RelayAddr : string;
  cf_ListenAddr : string;
  cf_RequireEncryption : bool;
  cf_ShutdownTimeout : Z;
  cf_DedupTTL : Z;
  cf_TLSEnabled : bool;
}.

Record LocalAgent := {
  ag_conf : AgentConfig;
  ag_record : Agent;
  ag_store : MemoryStore;
  ag_handlers : gmap string nat;
  ag_peers : gmap string string;
  ag_pending : gmap uuid nat;
  ag_pendingRPC : gmap string nat;
  ag_chans : gmap nat (option (option Message));
  ag_rpcChans : gmap nat (option (option JSONRPCResponse));
  ag_nextChan : nat;
  ag_started : bool;
  ag_listening : bool;
  ag_stopping : bool;
  ag_ctx : Context_;
  ag_listener : option string;
  ag_seenMsgs : gmap string Z;
  ag_ackHandlers : list nat;
  ag_trace : list Event;
  ag_panicked : bool;
}.

(** The groups of fields that the operations write. *)
Definition ag_with_store (a : LocalAgent) (r : Agent) (s : MemoryStore) : LocalAgent :=
  {| ag_conf := ag_conf a; ag_record := r; ag_store := s; ag_handlers := ag_handlers a; ag_peers := ag_peers a;
     ag_pending := ag_pending a; ag_pendingRPC := ag_pendingRPC a; ag_chans := ag_chans a; ag_rpcChans := ag_rpcChans a; ag_nextChan := ag_nextChan a;
     ag_started := ag_started a; ag_listening := ag_listening a; ag_stopping := ag_stopping a; ag_ctx := ag_ctx a;
     ag_listener := ag_listener a; ag_seenMsgs := ag_seenMsgs a; ag_ackHandlers := ag_ackHandlers a;
     ag_trace := ag_trace a; ag_panicked := ag_panicked a |}.

Definition ag_with_pending (a : LocalAgent) (p : gmap uuid nat) (prpc : gmap string nat)
    (ch : gmap nat (option (option Message))) (rch : gmap nat (option (option JSONRPCResponse))) (next : nat) : LocalAgent :=
  {| ag_conf := ag_conf a; ag_record := ag_record a; ag_store := ag_store a; ag_handlers := ag_handlers a; ag_peers := ag_peers a;
     ag_pending := p; ag_pendingRPC := prpc; ag_chans := ch; ag_rpcChans := rch; ag_nextChan := next;
     ag_started := ag_started a; ag_listening := ag_listening a; ag_stopping := ag_stopping a; ag_ctx := ag_ctx a;
     ag_listener := ag_listener a; ag_seenMsgs := ag_seenMsgs a; ag_ackHandlers := ag_ackHandlers a;
     ag_trace := ag_trace a; ag_panicked := ag_panicked a |}.

Definition ag_with_callbacks (a : LocalAgent) (hs : gmap string nat) (acks : list nat) (seen : gmap string Z) : LocalAgent :=
  {| ag_conf := ag_conf a; ag_record := ag_record a; ag_store := ag_store a; ag_handlers := hs; ag_peers := ag_peers a;
     ag_pending := ag_pending a; ag_pendingRPC := ag_pendingRPC a; ag_chans := ag_chans a; ag_rpcChans := ag_rpcChans a; ag_nextChan := ag_nextChan a;
     ag_started := ag_started a; ag_listening := ag_listening a; ag_stopping := ag_stopping a; ag_ctx := ag_ctx a;
     ag_listener := ag_listener a; ag_seenMsgs := seen; ag_ackHandlers := acks;
     ag_trace := ag_trace a; ag_panicked := ag_panicked a |}.

Definition ag_with_life (a : LocalAgent) (r : Agent) (peers : gmap string string) (started listening stopping : bool)
    (ctx : Context_) (listener : option string) : LocalAgent :=
  {| ag_conf := ag_conf a; ag_record := r; ag_store := ag_store a; ag_handlers := ag_handlers a; ag_peers := peers;
     ag_pending := ag_pending a; ag_pendingRPC := ag_pendingRPC a; ag_chans := ag_chans a; ag_rpcChans := ag_rpcChans a; ag_nextChan := ag_nextChan a;
     ag_started := started; ag_listening := listening; ag_stopping := stopping; ag_ctx := ctx;
     ag_listener := listener; ag_seenMsgs := ag_seenMsgs a; ag_ackHandlers := ag_ackHandlers a;
     ag_trace := ag_trace a; ag_panicked := ag_panicked a |}.

Definition emit (a : LocalAgent) (evs : list Event) : LocalAgent :=
  {| ag_conf := ag_conf a; ag_record := ag_record a; ag_store := ag_store a; ag_handlers := ag_handlers a; ag_peers := ag_peers a;
     ag_pending := ag_pending a; ag_pendingRPC := ag_pendingRPC a; ag_chans := ag_chans a; ag_rpcChans := ag_rpcChans a; ag_nextChan := ag_nextChan a;
     ag_started := ag_started a; ag_listening := ag_listening a; ag_stopping := ag_stopping a; ag_ctx := ag_ctx a;
     ag_listener := ag_listener a; ag_seenMsgs := ag_seenMsgs a; ag_ackHandlers := ag_ackHandlers a;
     ag_trace := ag_trace a ++ evs; ag_panicked := ag_panicked a |}.

(** A nil pointer was followed: the process dies. *)
Definition panic (a : LocalAgent) : LocalAgent :=
  {| ag_conf := ag_conf a; ag_record := ag_record a; ag_store := ag_store a; ag_handlers := ag_handlers a; ag_peers := ag_peers a;
     ag_pending := ag_pending a; ag_pendingRPC := ag_pendingRPC a; ag_chans := ag_chans a; ag_rpcChans := ag_rpcChans a; ag_nextChan := ag_nextChan a;
     ag_started := ag_started a; ag_listening := ag_listening a; ag_stopping := ag_stopping a; ag_ctx := ag_ctx a;
     ag_listener := ag_listener a; ag_seenMsgs := ag_seenMsgs a; ag_ackHandlers := ag_ackHandlers a;
     ag_trace := ag_trace a; ag_panicked := true |}.

Definition set_seen (a : LocalAgent) (seen : gmap string Z) : LocalAgent :=
  ag_with_callbacks a (ag_handlers a) (ag_ackHandlers a) seen.
Definition set_peers (a : LocalAgent) (peers : gmap string string) : LocalAgent :=
  ag_with_life a (ag_record a) peers (ag_started a) (ag_listening a) (ag_stopping a) (ag_ctx a) (ag_listener a).

(** The text of a DID. *)
Definition ag_DID (a : LocalAgent) : string := i_DID (cf_Identity (ag_conf a)).
Definition ag_keys (a : LocalAgent) : AgentKeys := i_Keys (cf_Identity (ag_conf a)).

(** What the answer to a relay call turns out to be: the response taken from its channel
    (nil at shutdown), or a cancelled context. *)
Inductive RpcOutcome := RpcReply (r : option JSONRPCResponse) | RpcCtxDone.

(** The instant, fresh values, the order of a range over the peers, whether sending on a
    transport succeeds, the outcome of a relay call, and what a method handler returns for the
    sender and the method of its context and a body. *)
Record AgentEnv := {
  ae_now : Z;
  ae_fresh : nat → uuid;
  ae_nonce : option string;
  ae_peer_order : gmap string string → list string;
  ae_send : string → string → bool;
  ae_rpc : RpcOutcome;
  ae_handler : nat → string → string → option string → result string (option any);
}.

Section agent.
Context `{Runtime} `{Primitives} `{Box} `{RelayCodec} `{AgentCodec}.
Implicit Types (a : LocalAgent) (e : AgentEnv) (m : Message).

(** ** Construction and life cycle *)

(** [New] with a given identity (or a generated one); zero durations mean the defaults. *)
Definition NewLocalAgent (id : uuid) (now : Z) (displayName : string) (cfg : AgentConfig) : LocalAgent :=
  let ident := cf_Identity cfg in
  let record := NewAgent id now (i_DID ident) displayName in
  let record := AddPublicKey record "signing" KeyTypeEd25519 (Some (kp_PublicKey (ak_Signing (i_Keys ident)))) "signing" in
  let record := AddPublicKey record "encryption" KeyTypeX25519 (Some (kp_PublicKey (ak_Encryption (i_Keys ident)))) "encryption" in
  let record := if decide (cf_ListenAddr cfg = "") then record else AddEndpoint record "websocket" (cf_ListenAddr cfg) 1 in
  {| ag_conf := {| cf_Identity := ident; cf_RelayAddr := cf_RelayAddr cfg; cf_ListenAddr := cf_ListenAddr cfg;
                   cf_RequireEncryption := cf_RequireEncryption cfg;
                   cf_ShutdownTimeout := if decide (cf_ShutdownTimeout cfg = 0) then DefaultShutdownTimeout else cf_ShutdownTimeout cfg;
                   cf_DedupTTL := if decide (cf_DedupTTL cfg = 0) then DefaultDedupTTL else cf_DedupTTL cfg;
                   cf_TLSEnabled := cf_TLSEnabled cfg |};
     ag_record := record; ag_store := NewMemoryStore; ag_handlers := ∅; ag_peers := ∅; ag_pending := ∅; ag_pendingRPC := ∅;
     ag_chans := ∅; ag_rpcChans := ∅; ag_nextChan := 0; ag_started := false; ag_listening := false; ag_stopping := false; ag_ctx := CtxNone;
     ag_listener := None; ag_seenMsgs := ∅; ag_ackHandlers := []; ag_trace := []; ag_panicked := false |}.

Definition RegisterMethod a (method : string) (handler : nat) : LocalAgent :=
  ag_with_callbacks a (<[method := handler]> (ag_handlers a)) (ag_ackHandlers a) (ag_seenMsgs a).

Definition OnDeliveryAck a (handler : nat) : LocalAgent :=
  ag_with_callbacks a (ag_handlers a) (ag_ackHandlers a ++ [handler]) (ag_seenMsgs a).

Definition Agent_AddCapability a (name description : string) (methods : list string) : LocalAgent :=
  ag_with_store a (AddCapability (ag_record a) name description methods) (ag_store a).

Definition SetACL a (policy : ACLPolicy) : LocalAgent :=
  let r := ag_record a in
  ag_with_store a
    {| a_ID := a_ID r; a_DID := a_DID r; a_TenantID := a_TenantID r; a_DisplayName := a_DisplayName r;
       a_PublicKeys := a_PublicKeys r; a_Endpoints := a_Endpoints r; a_Capabilities := a_Capabilities r;
       a_ACL := Some policy; a_Status := a_Status r; a_LastSeen := a_LastSeen r; a_Metadata := a_Metadata r;
       a_Presence := a_Presence r; a_PresenceCfg := a_PresenceCfg r; a_Role := a_Role r;
       a_DelegationNamespace := a_DelegationNamespace r |} (ag_store a).

Definition Start (now : Z) a : LocalAgent * option AgentError :=
  if ag_started a then (a, Some ErrAlreadyStarted)
  else (ag_with_life a (SetOnline now (ag_record a)) (ag_peers a) true (ag_listening a) (ag_stopping a) CtxLive (ag_listener a), None).

(** [select { case ch <- v: default: }] on a channel of capacity one. *)
Definition offer {V} (chans : gmap nat (option V)) (ch : nat) (v : V) : gmap nat (option V) :=
  alter (λ cell, match cell with None => Some v | Some _ => cell end) ch chans.

Definition drainPendingChannels a : LocalAgent :=
  ag_with_pending a ∅ ∅
    (foldr (λ '(_, ch) chans, offer chans ch None) (ag_chans a) (map_to_list (ag_pending a)))
    (foldr (λ '(_, ch) chans, offer chans ch None) (ag_rpcChans a) (map_to_list (ag_pendingRPC a)))
    (ag_nextChan a).

(** Waiting for the goroutines changes nothing. *)
Definition Stop (now : Z) a : LocalAgent * option AgentError :=
  if negb (ag_started a) then (a, Some ErrNotStarted)
  else (drainPendingChannels
          (ag_with_life a (SetOffline now (ag_record a)) ∅ false false true CtxDone None), None).

(** [started] is the bound address, when the listener starts. *)
Definition Listen a (started : option string) : LocalAgent * option AgentError :=
  if ag_listening a then (a, Some ErrAlreadyListening)
  else if decide (cf_ListenAddr (ag_conf a) = "") then (a, None)
  else match started with
       | None => (a, Some ErrListenerFailed)
       | Some actualAddr =>
           let r := ag_record a in
           let cleared := {| a_ID := a_ID r; a_DID := a_DID r; a_TenantID := a_TenantID r; a_DisplayName := a_DisplayName r;
             a_PublicKeys := a_PublicKeys r; a_Endpoints := []; a_Capabilities := a_Capabilities r; a_ACL := a_ACL r;
             a_Status := a_Status r; a_LastSeen := a_LastSeen r; a_Metadata := a_Metadata r; a_Presence := a_Presence r;
             a_PresenceCfg := a_PresenceCfg r; a_Role := a_Role r; a_DelegationNamespace := a_DelegationNamespace r |} in
           let protocol := if cf_TLSEnabled (ag_conf a) then "wss://" else "ws://" in
           (ag_with_life a (AddEndpoint cleared "websocket" (protocol +:+ actualAddr) 1) (ag_peers a) (ag_started a) true
              (ag_stopping a) (ag_ctx a) (Some actualAddr), None)
       end.

(** The accept loop: a connection is accepted, and a peer is dropped when its loop ends. *)
Definition accept_peer a (peerID : uuid) (conn : string) : LocalAgent :=
  set_peers a (<["peer:" +:+ uuid_String peerID := conn]> (ag_peers a)).
Definition drop_peer a (addr : string) : LocalAgent := set_peers a (delete addr (ag_peers a)).

(** [Connect] once the connection is made. *)
Definition Connect a (addr conn : string) : LocalAgent := set_peers a (<[addr := conn]> (ag_peers a)).

Definition ListenAddr a : string := default "" (ag_listener a).
Definition IsListening a : bool := ag_listening a && bool_decide (is_Some (ag_listener a)).

(** ** Deduplication *)

Definition cleanupDedup (now : Z) a : LocalAgent :=
  set_seen a (filter (λ '(_, seenAt), ¬ cf_DedupTTL (ag_conf a) < now - seenAt) (ag_seenMsgs a)).

Definition isDuplicateMessage (now : Z) a (msgID : string) : bool * LocalAgent :=
  if decide (msgID = "") then (false, a)
  else match ag_seenMsgs a !! msgID with
       | Some _ => (true, a)
       | None => (false, set_seen a (<[msgID := now]> (ag_seenMsgs a)))
       end.

(** ** Agent cards *)

Record CardSkill := { skill_ID : string; skill_Name : string; skill_Description : string; skill_Methods : list string }.
Record CardKey := { ck_ID : string; ck_Type : string; ck_Purpose : string; ck_Key : string }.
Record Card := {
  card_Name : string; card_URL : string; card_Version : string; card_DID : string;
  card_Streaming : bool; card_EndToEndEncryption : bool;
  card_InputModes : list string; card_OutputModes : list string;
  card_Skills : list CardSkill; card_PublicKeys : list CardKey;
}.

Definition buildAgentCard a : Card :=
  let r := ag_record a in {|
  card_Name := a_DisplayName r; card_URL := match a_Endpoints r with ep :: _ => ep_URL ep | [] => "" end;
  card_Version := "1.0.0"; card_DID := ag_DID a; card_Streaming := true; card_EndToEndEncryption := true;
  card_InputModes := ["text"]; card_OutputModes := ["text"];
  card_Skills := (λ c, {| skill_ID := cap_Name c; skill_Name := cap_Name c; skill_Description := cap_Description c;
                          skill_Methods := cap_Methods c |}) <$> a_Capabilities r;
  card_PublicKeys := (λ k, {| ck_ID := pk_ID k; ck_Type := pk_Type k; ck_Purpose := pk_Purpose k;
                              ck_Key := encodeBase58 (default "" (pk_Key k)) |}) <$> a_PublicKeys r;
|}.

(** ** Sending *)

Inductive Route := RoutePanic | RouteNone | RouteVia (transport : string) (isRelay : bool).

(** The first endpoint with an open connection. *)
Fixpoint first_connected (peers : gmap string string) (eps : list Endpoint) : option string :=
  match eps with
  | [] => None
  | ep :: eps' => match peers !! ep_URL ep with Some t => Some t | None => first_connected peers eps' end
  end.

(** The first peer a range over the map visits. *)
Definition any_peer e (peers : gmap string string) : option string :=
  head (ae_peer_order e peers) ≫= (λ k, peers !! k).

Definition relay_transport a : option string :=
  if decide (cf_RelayAddr (ag_conf a) = "") then None else ag_peers a !! cf_RelayAddr (ag_conf a).

Definition relay_or_any e a : Route :=
  match relay_transport a with
  | Some t => RouteVia t true
  | None => match any_peer e (ag_peers a) with Some t => RouteVia t true | None => RouteNone end
  end.

Definition findTransportForRecipient e a (to : string) : Route :=
  match GetByDID (ag_store a) to with
  | Ok None => RoutePanic
  | Ok (Some agent) =>
      match first_connected (ag_peers a) (a_Endpoints agent) with
      | Some t => RouteVia t false
      | None => relay_or_any e a
      end
  | Err _ => relay_or_any e a
  end.

(** [t.Send(ctx, data)]: a frame that fails to go out is not in the trace. *)
Definition transport_Send e a (t data : string) : LocalAgent * bool :=
  if ae_send e t data then (emit a [EvSend t data], true) else (a, false).

(** The JSON-RPC request that carries a message. *)
Definition envelope m : option string :=
  params ← Marshal_message m;
  Encode_request {| req_JSONRPC := "2.0"; req_ID := JString (uuid_String (ID m)); req_Method := Method m;
                    req_Params := Some params |}.

Definition sendMessage e a m : LocalAgent * option AgentError :=
  match envelope m with
  | None => (a, Some ErrMarshal)
  | Some data =>
      match findTransportForRecipient e a (To m) with
      | RoutePanic => (panic a, Some ErrNilPointer)
      | RouteNone => (a, Some ErrPeerNotFound)
      | RouteVia t _ =>
          let '(a, ok) := transport_Send e a t data in (a, if ok then None else Some ErrSend)
      end
  end.

Definition with_security m (body : option string) (encrypted : bool) (signature : option string)
    (ack : bool) (actor : string) (proof : option string) : Message := {|
  ID := ID m; CorrelationID := CorrelationID m; From := From m; To := To m; Type_ := Type_ m; Method := Method m;
  Body := body; Signature := signature; Timestamp := Timestamp m; TraceID := TraceID m; Encrypted := encrypted;
  ThreadID := ThreadID m; ParentID := ParentID m; ThreadSeqNo := ThreadSeqNo m; RequestAck := ack;
  ActorDID := actor; ActorProof := proof |}.

Definition with_cipher m (body : option string) (encrypted : bool) : Message :=
  with_security m body encrypted (Signature m) (RequestAck m) (ActorDID m) (ActorProof m).

Definition with_signature m (signature : option string) : Message :=
  with_security m (Body m) (Encrypted m) signature (RequestAck m) (ActorDID m) (ActorProof m).

Definition encryptMessageBody e a m : result AgentError Message :=
  if decide (default "" (Body m) = "") then Ok m
  else match GetByDID (ag_store a) (To m) with
       | Err _ => Err ErrRecipientNotFound
       | Ok None => Err ErrNilPointer
       | Ok (Some recipient) =>
           match GetEncryptionKey recipient with
           | None => Err ErrNoEncryptionKey
           | Some encKey =>
               match Encrypt (ae_nonce e) (default "" (Body m)) (kp_PrivateKey (ak_Encryption (ag_keys a))) (default "" (pk_Key encKey)) with
               | Err x => Err (ErrCrypto x)
               | Ok encrypted => Ok (with_cipher m (Some encrypted) true)
               end
           end
       end.

(** [msgBytes, _ := json.Marshal(msg); msg.Signature = ident.Sign(msgBytes)] *)
Definition sign_message (ident : AgentKeys) m : Message :=
  with_signature m (Some (Sign (ak_Signing ident) (default "" (Marshal_message m)))).

(** The encryption step of the Send family: a failure is fatal only when encryption is
    required, and otherwise the message goes out as it is. *)
Definition secure e a m : result AgentError Message :=
  match encryptMessageBody e a m with
  | Ok m => Ok (sign_message (ag_keys a) m)
  | Err ErrNilPointer => Err ErrNilPointer
  | Err x => if cf_RequireEncryption (ag_conf a) then Err (ErrEncryptionRequired x) else Ok (sign_message (ag_keys a) m)
  end.

(** Following the nil pointer of the store panics before anything is sent. *)
Definition secure_and_send e a m : LocalAgent * result AgentError Message :=
  match secure e a m with
  | Err ErrNilPointer => (panic a, Err ErrNilPointer)
  | Err x => (a, Err x)
  | Ok m => let '(a, err) := sendMessage e a m in (a, match err with None => Ok m | Some x => Err x end)
  end.

(** [sendAndWait] up to the wait: the channel is registered under the message's ID, and
    unregistered when the message cannot be sent. *)
Definition sendAndWait_begin e a m : LocalAgent * result AgentError nat :=
  let ch := ag_nextChan a in
  let a := ag_with_pending a (<[ID m := ch]> (ag_pending a)) (ag_pendingRPC a) (<[ch := None]> (ag_chans a)) (ag_rpcChans a) (S ch) in
  match sendMessage e a m with
  | (a, None) => (a, Ok ch)
  | (a, Some x) =>
      (ag_with_pending a (delete (ID m) (ag_pending a)) (ag_pendingRPC a) (ag_chans a) (ag_rpcChans a) (ag_nextChan a), Err x)
  end.

(** The wait: [None] while nothing has arrived and the context is live. *)
Definition sendAndWait_end a m (ch : nat) (ctxDone : bool) : option (LocalAgent * result AgentError Message) :=
  let a' := ag_with_pending a (delete (ID m) (ag_pending a)) (ag_pendingRPC a) (ag_chans a) (ag_rpcChans a) (ag_nextChan a) in
  match ag_chans a !! ch with
  | Some (Some (Some resp)) => if ctxDone then Some (a', Err ErrCanceled) else Some (a', Ok resp)
  | Some (Some None) => Some (a', Err ErrCanceled)
  | _ => if ctxDone then Some (a', Err ErrCanceled) else None
  end.

Definition Send_begin e a (to method : string) (params : option any) : LocalAgent * result AgentError (Message * nat) :=
  match NewRequest Marshal_any (ae_fresh e 0) (ae_now e) (ag_DID a) to method params with
  | None => (a, Err ErrMarshal)
  | Some m =>
      match secure e a m with
      | Err ErrNilPointer => (panic a, Err ErrNilPointer)
      | Err x => (a, Err x)
      | Ok m => match sendAndWait_begin e a m with
                | (a, Ok ch) => (a, Ok (m, ch))
                | (a, Err x) => (a, Err x)
                end
      end
  end.

Definition Notify e a (to method : string) (params : option any) : LocalAgent * option AgentError :=
  match NewNotification Marshal_any (ae_fresh e 0) (ae_now e) (ag_DID a) to method params with
  | None => (a, Some ErrMarshal)
  | Some m => let '(a, r) := secure_and_send e a m in (a, result_error r)
  end.

Definition SendAsync e a (to method : string) (params : option any) : LocalAgent * result AgentError uuid :=
  match NewRequest Marshal_any (ae_fresh e 0) (ae_now e) (ag_DID a) to method params with
  | None => (a, Err ErrMarshal)
  | Some m => let '(a, r) := secure_and_send e a (WithRequestAck m) in (a, match r with Ok m => Ok (ID m) | Err x => Err x end)
  end.

(** A message for a tenant: signed with the tenant's key, then accompanied by the proof of
    this agent, the gateway. *)
Definition delegate a (tenant : Identity) m : Message :=
  let m := sign_message (i_Keys tenant) m in
  let proofInput := ag_DID a +:+ ":" +:+ i_DID tenant +:+ ":" +:+ uuid_String (ID m) in
  with_security m (Body m) (Encrypted m) (Signature m) (RequestAck m) (ag_DID a)
    (Some (Sign (ak_Signing (ag_keys a)) proofInput)).

Definition SendAs_begin e a (tenant : Identity) (to method : string) (params : option any) : LocalAgent * result AgentError (Message * nat) :=
  match NewRequest Marshal_any (ae_fresh e 0) (ae_now e) (i_DID tenant) to method params with
  | None => (a, Err ErrMarshal)
  | Some m =>
      let m := delegate a tenant m in
      match sendAndWait_begin e a m with
      | (a, Ok ch) => (a, Ok (m, ch))
      | (a, Err x) => (a, Err x)
      end
  end.

Definition SendAsAsync e a (tenant : Identity) (to method : string) (params : option any) : LocalAgent * result AgentError uuid :=
  match NewRequest Marshal_any (ae_fresh e 0) (ae_now e) (i_DID tenant) to method params with
  | None => (a, Err ErrMarshal)
  | Some m =>
      let m := delegate a tenant (WithRequestAck m) in
      let '(a, err) := sendMessage e a m in
      (a, match err with None => Ok (ID m) | Some x => Err x end)
  end.

Definition SendChat e a (to : string) (body : option any) : LocalAgent * result AgentError Message :=
  match NewChatMessage Marshal_any (ae_fresh e 0) (ae_now e) (ag_DID a) to body with
  | None => (a, Err ErrMarshal)
  | Some m => secure_and_send e a m
  end.

Definition SendChatReply e a (to : string) (threadID : uuid) (parentID : option uuid) (seqNo : Z) (body : option any)
  : LocalAgent * result AgentError Message :=
  match NewChatReply Marshal_any (ae_fresh e 0) (ae_now e) (ag_DID a) to threadID parentID seqNo body with
  | None => (a, Err ErrMarshal)
  | Some m => secure_and_send e a m
  end.

Definition SendTypingIndicator e a (to : string) (threadID : option uuid) (typing : bool) : LocalAgent * option AgentError :=
  sendMessage e a (sign_message (ag_keys a) (NewTypingIndicator Marshal_any (ae_fresh e 0) (ae_now e) (ag_DID a) to threadID typing)).

Definition SendReceipt e a (to messageID receiptType stamp : string) : LocalAgent * option AgentError :=
  sendMessage e a (sign_message (ag_keys a) (NewReceipt Marshal_any (ae_fresh e 0) (ae_now e) (ag_DID a) to messageID receiptType stamp)).

(** ** Calls to the relay *)

Definition CallRelay_begin e a (id method : string) (params : option any) : LocalAgent * result AgentError nat :=
  let encoded := match params with None => Some None | Some v => Some <$> Marshal_any v end in
  match (p ← encoded; Encode_request {| req_JSONRPC := "2.0"; req_ID := JString id; req_Method := method; req_Params := p |}) with
  | None => (a, Err ErrMarshal)
  | Some data =>
      let ch := ag_nextChan a in
      let registered := ag_with_pending a (ag_pending a) (<[id := ch]> (ag_pendingRPC a)) (ag_chans a) (<[ch := None]> (ag_rpcChans a)) (S ch) in
      let forget a := ag_with_pending a (ag_pending a) (delete id (ag_pendingRPC a)) (ag_chans a) (ag_rpcChans a) (ag_nextChan a) in
      match relay_or_any e a with
      | RouteVia t _ =>
          let '(a, ok) := transport_Send e registered t data in
          if ok then (a, Ok ch) else (forget a, Err ErrSend)
      | _ => (forget registered, Err ErrPeerNotFound)
      end
  end.

Definition CallRelay_result (outcome : RpcOutcome) : result AgentError (option string) :=
  match outcome with
  | RpcCtxDone | RpcReply None => Err ErrCanceled
  | RpcReply (Some resp) =>
      match rsp_Error resp with
      | None => Ok (rsp_Result resp)
      | Some err =>
          if decide (je_Code err = CodeRateLimited) then Err ErrAgentRateLimited
          else if decide (je_Code err = CodeQuotaExceeded) then Err ErrAgentQuotaExceeded
          else Err (ErrRelayAnswered (je_Message err))
      end
  end.

Definition CallRelay_end a (id : string) (outcome : RpcOutcome) : LocalAgent * result AgentError (option string) :=
  (ag_with_pending a (ag_pending a) (delete id (ag_pendingRPC a)) (ag_chans a) (ag_rpcChans a) (ag_nextChan a), CallRelay_result outcome).

(** The whole call; [ae_rpc e] is what its channel delivers. *)
Definition CallRelay e a (id method : string) (params : option any) : LocalAgent * result AgentError (option string) :=
  match CallRelay_begin e a id method params with
  | (a, Err x) => (a, Err x)
  | (a, Ok _) => CallRelay_end a id (ae_rpc e)
  end.

Definition maxAttempts : nat := 5.
Definition retry_delay (attempt : nat) : Z := Z.min (2 ^ Z.of_nat attempt * (500 * Millisecond)) (30 * Second).

(** One call per attempt; [ctxDone k] tells whether the context ends the wait after attempt
    [k].  The delays waited for are listed. *)
Fixpoint retry_loop (call : nat → LocalAgent → LocalAgent * result AgentError (option string)) (ctxDone : nat → bool)
    (attempt fuel : nat) a : LocalAgent * result AgentError (option string) * list Z :=
  match fuel with
  | O => (a, Err ErrAgentRateLimited, [])
  | S fuel =>
      match call attempt a with
      | (a, Err ErrAgentRateLimited) =>
          if ctxDone attempt then (a, Err ErrCanceled, [retry_delay attempt])
          else let '(a, r, delays) := retry_loop call ctxDone (S attempt) fuel a in (a, r, retry_delay attempt :: delays)
      | (a, r) => (a, r, [])
      end
  end.

(** [envs k] and [ids k] are those of attempt [k]. *)
Definition CallRelayWithRetry (envs : nat → AgentEnv) (ids : nat → string) (ctxDone : nat → bool) a (method : string) (params : option any) :=
  retry_loop (λ k a, CallRelay (envs k) a (ids k) method params) ctxDone 0 maxAttempts a.

(** ** Resolving an unknown sender *)

Definition resolvePeer e a (did : string) : LocalAgent * option AgentError :=
  match CallRelay e a (uuid_String (ae_fresh e 1)) "relay.discover" None with
  | (a, Err x) => (a, Some x)
  | (a, Ok discoverResult) =>
      match Unmarshal_peers (default "" discoverResult) with
      | None => (a, Some ErrUnmarshal_peers)
      | Some peers =>
          match List.find (λ p, bool_decide (dp_DID p = did)) peers with
          | None => (a, Some ErrSenderNotFound)
          | Some peer =>
              let '(d, err) := AddPeer (ae_now e) (ae_fresh e 2) base64_DecodeString
                                 (NewDiscovery (ag_store a) (ag_record a)) (dp_DID peer) (dp_DisplayName peer) (dp_PublicKeys peer) in
              (ag_with_store a (ag_record a) (disc_store d), ErrPutPeer <$> err)
          end
      end
  end.

(** [store.GetByDID(msg.From)], after resolving the sender when it is unknown. *)
Definition sender_record e a (from : string) : LocalAgent * result AgentError (option Agent) :=
  match GetByDID (ag_store a) from with
  | Ok s => (a, Ok s)
  | Err _ =>
      match resolvePeer e a from with
      | (a, Some _) => (a, Err ErrSenderNotFound)
      | (a, None) => (a, match GetByDID (ag_store a) from with Ok s => Ok s | Err _ => Err ErrSenderNotFound end)
      end
  end.

(** What a signature covers: the message without signature and delegation. *)
Definition signed_part m : Message := with_security m (Body m) (Encrypted m) None (RequestAck m) "" None.

Definition verifyMessageSignature e a m : LocalAgent * option AgentError :=
  if decide (default "" (Signature m) = "") then (a, Some ErrSignatureInvalid)
  else match sender_record e a (From m) with
       | (a, Err x) => (a, Some x)
       | (a, Ok None) => (panic a, Some ErrNilPointer)
       | (a, Ok (Some sender)) =>
           (a, match GetSigningKey sender with
               | None => Some ErrNoSigningKey
               | Some signingKey =>
                   match Marshal_message (signed_part m) with
                   | None => Some ErrMarshal
                   | Some msgBytes =>
                       if VerifySignature (pk_Key signingKey) msgBytes (Signature m) then None else Some ErrSignatureInvalid
                   end
               end)
       end.

Definition decryptMessageBody e a m : LocalAgent * result AgentError Message :=
  if negb (Encrypted m) || bool_decide (default "" (Body m) = "") then (a, Ok m)
  else match sender_record e a (From m) with
       | (a, Err x) => (a, Err x)
       | (a, Ok None) => (panic a, Err ErrNilPointer)
       | (a, Ok (Some sender)) =>
           (a, match GetEncryptionKey sender with
               | None => Err ErrSenderKeyNotFound
               | Some encKey =>
                   match Decrypt (default "" (Body m)) (kp_PrivateKey (ak_Encryption (ag_keys a))) (default "" (pk_Key encKey)) with
                   | Err _ => Err ErrDecryption
                   | Ok decrypted => Ok (with_cipher m (Some decrypted) false)
                   end
               end)
       end.

(** ** Answering *)

Definition sendErrorResponse e a (t : string) (id : any) (code : Z) (message : string) : LocalAgent :=
  match Encode_response {| rsp_JSONRPC := "2.0"; rsp_ID := id; rsp_Result := None;
                           rsp_Error := Some {| je_Code := code; je_Message := message; je_Data := JNull |} |} with
  | None => (transport_Send e a t "").1
  | Some data => (transport_Send e a t data).1
  end.

(** [relayT, hasRelay := a.peers[a.relayAddr]; isRelay := hasRelay && t == relayT] *)
Definition is_relay a (t : string) : bool := bool_decide (ag_peers a !! cf_RelayAddr (ag_conf a) = Some t).

Definition sendErrorToSender e a (t : string) (req : JSONRPCRequest) m (code : Z) (errMsg : string) : LocalAgent :=
  if is_relay a t then
    match NewErrorResponse Marshal_any (ae_fresh e 0) (ae_now e) m code errMsg with
    | None => a
    | Some errResp => (sendMessage e a (sign_message (ag_keys a) errResp)).1
    end
  else sendErrorResponse e a t (req_ID req) code errMsg.

(** The channel of the pending request, if any, gets the message unless it is full. *)
Definition deliver_pending a (id : uuid) m : LocalAgent :=
  match ag_pending a !! id with
  | None => a
  | Some ch => ag_with_pending a (ag_pending a) (ag_pendingRPC a) (offer (ag_chans a) ch (Some m)) (ag_rpcChans a) (ag_nextChan a)
  end.

Definition handleMessageResponse a m : LocalAgent :=
  match CorrelationID m with None => a | Some id => deliver_pending a id m end.

(** The handler of a method, or the one registered for every method. *)
Definition find_handler a (method : string) : option nat :=
  match ag_handlers a !! method with Some h => Some h | None => ag_handlers a !! "*" end.

Definition answer e a (t : string) (req : JSONRPCRequest) m (result : option any) : LocalAgent :=
  if is_relay a t then
    match NewResponse Marshal_any (ae_fresh e 0) (ae_now e) m result with
    | None => a
    | Some respMsg => (sendMessage e a (sign_message (ag_keys a) respMsg)).1
    end
  else
    match (match result with None => Some None | Some v => Some <$> Marshal_any v end) with
    | None => (transport_Send e a t "null").1
    | Some r =>
        (transport_Send e a t (default "" (Encode_response
           {| rsp_JSONRPC := "2.0"; rsp_ID := req_ID req; rsp_Result := r; rsp_Error := None |}))).1
    end.

(** ** Receiving *)

(** The steps of [handleRequest] once the message is decoded and is not a duplicate. *)
Definition handle_fresh e a (t : string) (req : JSONRPCRequest) m : LocalAgent :=
  if IsResponse m || Messaging.IsError m then handleMessageResponse a m
  else
    match verifyMessageSignature e a m with
    | (a, Some ErrNilPointer) => a
    | (a, Some _) => sendErrorToSender e a t req m CodeSignatureInvalid "signature verification failed"
    | (a, None) =>
        match decryptMessageBody e a m with
        | (a, Err ErrNilPointer) => a
        | (a, Err _) => sendErrorToSender e a t req m CodeDecryptionFailed "decryption failed"
        | (a, Ok m) =>
            match CheckAccess (ag_record a) (From m) (Method m) with
            | Some _ => sendErrorToSender e a t req m CodeAccessDenied "access denied"
            | None =>
                match find_handler a (Method m) with
                | None => sendErrorToSender e a t req m CodeMethodNotFound "method not found"
                | Some h =>
                    let a := emit a [EvHandler h m] in
                    match ae_handler e h (From m) (Method m) (Body m) with
                    | Err text => sendErrorToSender e a t req m CodeInternalError text
                    | Ok result => answer e a t req m result
                    end
                end
            end
        end
    end.

(** [req.ParseParams(&msg)]: no parameters leave the zero message. *)
Definition parse_message (req : JSONRPCRequest) : option Message :=
  match req_Params req with None => Some zero_message | Some p => Unmarshal_message p end.

Definition handleRequest e a (t : string) (req : JSONRPCRequest) : LocalAgent :=
  match parse_message req with
  | None => sendErrorResponse e a t (req_ID req) CodeInvalidParams "invalid params"
  | Some m =>
      match isDuplicateMessage (ae_now e) a (uuid_String (ID m)) with
      | (true, a) => a
      | (false, a) => handle_fresh e a t req m
      end
  end.

Definition notifyDeliveryAck a (messageID : uuid) (delivered : bool) (err : option string) : LocalAgent :=
  emit a ((λ h, EvAck h messageID delivered err) <$> ag_ackHandlers a).

Definition handleRelayAck a (req : JSONRPCRequest) : LocalAgent :=
  match (match req_Params req with None => Some {| ack_MessageID := ""; ack_Delivered := false; ack_Status := "" |}
         | Some p => Unmarshal_ack p end) with
  | None => a
  | Some ack =>
      match uuid_Parse (ack_MessageID ack) with
      | None => a
      | Some msgID => notifyDeliveryAck a msgID (ack_Delivered ack) (if ack_Delivered ack then None else Some (ack_Status ack))
      end
  end.

(** A registered handler gets the raw parameters. *)
Definition named_notification a (method : string) (req : JSONRPCRequest) : LocalAgent :=
  match ag_handlers a !! method with None => a | Some h => emit a [EvNotification h (req_Params req)] end.

Definition handlePresenceNotification a (req : JSONRPCRequest) : LocalAgent := named_notification a "relay.presence" req.
Definition handleTypingNotification a (req : JSONRPCRequest) : LocalAgent := named_notification a "relay.typing" req.

Definition handle_announce a (req : JSONRPCRequest) : LocalAgent :=
  match Unmarshal_announce (default "" (req_Params req)) with
  | None => a
  | Some msg =>
      match dm_Agent msg with
      | None => a
      | Some agent => if decide (a_DID agent = ag_DID a) then a else ag_with_store a (ag_record a) (put_agent (ag_store a) agent)
      end
  end.

Definition handleNotification a (req : JSONRPCRequest) : LocalAgent :=
  if decide (req_Method req = "relay.ack") then handleRelayAck a req
  else if decide (req_Method req = "relay.presence") then handlePresenceNotification a req
  else if decide (req_Method req = "relay.typing") then handleTypingNotification a req
  else if decide (req_Method req = "discovery.announce") then handle_announce a req
  else match parse_message req with
       | None => a
       | Some m => match find_handler a (Method m) with None => a | Some h => emit a [EvNotification h (Body m)] end
       end.

Definition handleResponse a (resp : JSONRPCResponse) : LocalAgent :=
  match rsp_ID resp with
  | JString idStr =>
      match ag_pendingRPC a !! idStr with
      | Some ch => ag_with_pending a (ag_pending a) (ag_pendingRPC a) (ag_chans a) (offer (ag_rpcChans a) ch (Some resp)) (ag_nextChan a)
      | None =>
          match uuid_Parse idStr with
          | None => a
          | Some id =>
              let m := match rsp_Error resp with
                       | Some err => with_body (NewMessage id 0 "" "" TypeError "") (Marshal_rpc_error err)
                       | None => match rsp_Result resp with None => zero_message | Some r => Unmarshal_result r end
                       end in
              deliver_pending a id m
          end
      end
  | _ => a
  end.

Definition DecodeResponse (data : string) : option JSONRPCResponse :=
  match Unmarshal_response data with
  | None => None
  | Some resp => if decide (rsp_JSONRPC resp ≠ "2.0") then None else Some resp
  end.

Definition handleIncoming e a (t data : string) : LocalAgent :=
  match DecodeRequest data with
  | Some req => match req_ID req with JNull => handleNotification a req | _ => handleRequest e a t req end
  | None => match DecodeResponse data with Some resp => handleResponse a resp | None => a end
  end.

(** One round of the receive loop, with the data that arrived: [None] when the loop ends. *)
Definition receiveLoop e a (t : string) (data : option string) : option LocalAgent :=
  if ag_stopping a then None
  else match ag_ctx a, data with
       | CtxLive, Some data => Some (handleIncoming e a t data)
       | _, _ => None
       end.

End agent.

(** ** An executable codec with the round trips of encoding/json, for the examples *)

(** The fields of a message, and a message from its fields. *)
Definition message_fields (m : Message) :=
  ((ID m, CorrelationID m, From m, To m), (Type_ m, Method m, Body m, Signature m),
   (Timestamp m, TraceID m, Encrypted m, ThreadID m), (ParentID m, ThreadSeqNo m, RequestAck m, ActorDID m, ActorProof m)).

Definition message_text (m : Message) : string := text_of (message_fields m).

Definition text_message (s : string) : option Message :=
  '((i, c, f, t), (ty, me, b, sg), (ts, tr, en, th), (pa, sq, ra, ad, ap)) ← of_text s;
  Some {| ID := i; CorrelationID := c; From := f; To := t; Type_ := ty; Method := me; Body := b; Signature := sg;
          Timestamp := ts; TraceID := tr; Encrypted := en; ThreadID := th; ParentID := pa; ThreadSeqNo := sq;
          RequestAck := ra; ActorDID := ad; ActorProof := ap |}.

Lemma text_message_text m : text_message (message_text m) = Some m.
Proof. unfold text_message, message_text. rewrite of_text_of. by destruct m. Qed.

(** Requests whose ID is a text. *)
Definition request_text (r : JSONRPCRequest) : option string :=
  match req_ID r with JString id => Some (text_of (req_JSONRPC r, id, req_Method r, req_Params r)) | _ => None end.

Definition text_request (s : string) : option JSONRPCRequest :=
  '(v, id, me, p) ← of_text s; Some {| req_JSONRPC := v; req_ID := JString id; req_Method := me; req_Params := p |}.

Definition relay_codec_example : RelayCodec := {|
  Unmarshal_request := text_request; Unmarshal_message := text_message; Unmarshal_registration s := None;
  Unmarshal_subordinate s := None; Unmarshal_capability s := ""; Unmarshal_did s := None |}.

Definition agent_codec_example : AgentCodec := {|
  Marshal_any v := match v with JString s => Some s | _ => None end;
  Marshal_message m := Some (message_text m);
  Marshal_rpc_error err := Some (je_Message err);
  Encode_request := request_text; Encode_response r := rsp_Result r; Unmarshal_response s := None;
  Unmarshal_result s := zero_message; Unmarshal_announce s := None; Unmarshal_ack s := None; Unmarshal_peers s := None;
  base64_DecodeString s := Some s |}.

(** UUIDs in the same digits, with a prefix. *)
Definition agent_runtime_example : Runtime := {|
  uuid_String u := "u" +:+ text_of u;
  uuid_Parse s := match s with String _ s => of_text s | EmptyString => None end;
  ed25519_Verify pub data sig := String.eqb ("!" +:+ data) sig;
  ParseDID s := Some "wba"; Format_RFC3339 z := "" |}.

Lemma agent_primitives_example_laws : @PrimitivesLaws agent_runtime_example primitives_example.
Proof. split; [done | | done]. intros seed data _. apply String.eqb_refl. Qed.

(** Identities and agents that know each other. *)
Definition keys_example (seed : string) : AgentKeys := {|
  ak_Signing := {| kp_PublicKey := seed; kp_PrivateKey := seed +:+ seed |};
  ak_Encryption := {| kp_PublicKey := seed; kp_PrivateKey := seed |} |}.

Definition identity_example (did seed : string) : Identity := {|
  i_DID := did; i_Document := buildDocument did (keys_example seed); i_Keys := keys_example seed |}.

Definition record_example (id : uuid) (did seed : string) : Agent :=
  AddPublicKey (AddPublicKey (NewAgent id 0 did "") "signing" KeyTypeEd25519 (Some seed) "signing")
    "encryption" KeyTypeX25519 (Some seed) "encryption".

(** The agent [did], connected to the relay, that knows the agent [peer] with the same seed. *)
Definition agent_example (did peer : string) (handlers : gmap string nat) : LocalAgent :=
  let a := NewLocalAgent (uuid_lit 1) 0 "" {| cf_Identity := identity_example did text32; cf_RelayAddr := "wss://relay";
    cf_ListenAddr := ""; cf_RequireEncryption := true; cf_ShutdownTimeout := 0; cf_DedupTTL := 0; cf_TLSEnabled := false |} in
  ag_with_callbacks (Connect (ag_with_store a (ag_record a) (put_agent NewMemoryStore (record_example (uuid_lit 2) peer text32))) "wss://relay" "ws")
    handlers [] ∅.

Definition env_example (n : nat) (t : Z) : AgentEnv := {|
  ae_now := t; ae_fresh k := uuid_lit (n + k); ae_nonce := Some "nonce-nonce-nonce-nonce-"; ae_peer_order := keys_of;
  ae_send _ _ := true; ae_rpc := RpcCtxDone; ae_handler _ _ _ _ := Ok (Some (JString "pong")) |}.
