(* ===== verification/AgentFacts.v ===== *)
(** * What the agent runtime guarantees (src/pkg/agent)

    Handlers run only for authenticated, authorised and fresh messages, at most once in a
    deduplication window; a request is answered end to end; delegated messages pass the relay
    and the recipient; calls to the relay end; and what notifications can do without any of
    these checks. *)

From S2P Require Import Prelude Crypto Registry Discovery Acl Messaging Reliability Billing Hub Relay Agent.
#[local] Open Scope Z_scope.

(** The handler runs of a trace. *)
Definition handled (tr : list Event) : list (nat * Message) :=
  omap (λ ev, match ev with EvHandler h m => Some (h, m) | _ => None end) tr.

Lemma handled_app l k : handled (l ++ k) = handled l ++ handled k.
Proof. unfold handled. apply omap_app. Qed.

(** Operations that only send, register channels or fail leave everything else as it is. *)
Record quiet (a b : LocalAgent) : Prop := {
  q_conf : ag_conf b = ag_conf a;
  q_record : ag_record b = ag_record a;
  q_store : ag_store b = ag_store a;
  q_handlers : ag_handlers b = ag_handlers a;
  q_peers : ag_peers b = ag_peers a;
  q_seen : ag_seenMsgs b = ag_seenMsgs a;
  q_handled : handled (ag_trace b) = handled (ag_trace a);
}.

#[export] Instance quiet_preorder : PreOrder quiet.
Proof.
  split; [intros a; by split |]. intros a b c [] []. split; congruence.
Qed.

Lemma quiet_emit a evs : handled evs = [] → quiet a (emit a evs).
Proof. intros Hev. split; try done. simpl. by rewrite handled_app, Hev, app_nil_r. Qed.

Lemma quiet_pending a p r c d n : quiet a (ag_with_pending a p r c d n).
Proof. by split. Qed.

Lemma quiet_panic a : quiet a (panic a).
Proof. by split. Qed.

Create HintDb agent.
#[export] Hint Resolve quiet_pending quiet_panic : agent.

Section facts.
Context `{Runtime} `{Primitives} `{Box} `{RelayCodec} `{AgentCodec}.
Implicit Types (a : LocalAgent) (e : AgentEnv) (m : Message).

Lemma transport_Send_quiet e a t data : quiet a (transport_Send e a t data).1.
Proof. unfold transport_Send. destruct (ae_send e t data); simpl; [by apply quiet_emit | reflexivity]. Qed.

Lemma sendMessage_quiet e a m : quiet a (sendMessage e a m).1.
Proof.
  unfold sendMessage. destruct (envelope m) as [data|]; [|reflexivity].
  destruct (findTransportForRecipient e a (To m)) as [| |t ?]; [apply quiet_panic | reflexivity |].
  pose proof (transport_Send_quiet e a t data). by destruct (transport_Send e a t data).
Qed.

Lemma sendErrorResponse_quiet e a t id code text : quiet a (sendErrorResponse e a t id code text).
Proof. unfold sendErrorResponse. destruct (Encode_response _); apply transport_Send_quiet. Qed.

Lemma sendErrorToSender_quiet e a t req m code text : quiet a (sendErrorToSender e a t req m code text).
Proof.
  unfold sendErrorToSender. destruct (is_relay a t); [|apply sendErrorResponse_quiet].
  destruct (NewErrorResponse _ _ _ _ _ _); [apply sendMessage_quiet | reflexivity].
Qed.

Lemma answer_quiet e a t req m result : quiet a (answer e a t req m result).
Proof.
  unfold answer. destruct (is_relay a t).
  - destruct (NewResponse _ _ _ _ _); [apply sendMessage_quiet | reflexivity].
  - destruct (match result with None => _ | Some v => _ end); apply transport_Send_quiet.
Qed.

Lemma deliver_pending_quiet a id m : quiet a (deliver_pending a id m).
Proof. unfold deliver_pending. destruct (ag_pending a !! id); [apply quiet_pending | reflexivity]. Qed.

Lemma handleMessageResponse_quiet a m : quiet a (handleMessageResponse a m).
Proof. unfold handleMessageResponse. destruct (CorrelationID m); [apply deliver_pending_quiet | reflexivity]. Qed.

Lemma CallRelay_quiet e a id method params : quiet a (CallRelay e a id method params).1.
Proof.
  unfold CallRelay, CallRelay_begin, CallRelay_end.
  destruct (p ← _; _) as [data|]; [|reflexivity].
  destruct (relay_or_any e a) as [| |t ?]; [by split.. |].
  match goal with |- context [transport_Send e ?r t data] =>
    pose proof (transport_Send_quiet e r t data) as Hq; destruct (transport_Send e r t data) as [b [|]] end;
    simpl in *; by (etransitivity; [eapply quiet_pending | etransitivity; [exact Hq | apply quiet_pending]]).
Qed.

(** A record of the relay's registry added to the local store is all that resolving changes. *)
Record same_but_store (a b : LocalAgent) : Prop := {
  sbs_conf : ag_conf b = ag_conf a;
  sbs_record : ag_record b = ag_record a;
  sbs_handlers : ag_handlers b = ag_handlers a;
  sbs_peers : ag_peers b = ag_peers a;
  sbs_seen : ag_seenMsgs b = ag_seenMsgs a;
  sbs_handled : handled (ag_trace b) = handled (ag_trace a);
}.

#[local] Instance same_but_store_preorder : PreOrder same_but_store.
Proof. split; [intros a; by split |]. intros a b c [] []. split; congruence. Qed.

Lemma quiet_sbs a b : quiet a b → same_but_store a b.
Proof. intros []. by split. Qed.

Lemma resolvePeer_sbs e a did : same_but_store a (resolvePeer e a did).1.
Proof.
  unfold resolvePeer. pose proof (CallRelay_quiet e a (uuid_String (ae_fresh e 1)) "relay.discover" None) as Hq.
  destruct (CallRelay _ _ _ _ _) as [b [r|x]]; simpl in *; [|by apply quiet_sbs].
  destruct (Unmarshal_peers _) as [peers|]; [|by apply quiet_sbs].
  destruct (List.find _ _) as [p|]; [|by apply quiet_sbs].
  destruct Hq. by split.
Qed.

Lemma sender_record_sbs e a from : same_but_store a (sender_record e a from).1.
Proof.
  unfold sender_record. destruct (GetByDID (ag_store a) from); [reflexivity |].
  pose proof (resolvePeer_sbs e a from). destruct (resolvePeer e a from) as [b [x|]]; [done |]. by destruct (GetByDID _ _).
Qed.

(** When a sender record is found, it is the one the resulting store holds. *)
Lemma sender_record_found e a from b s : sender_record e a from = (b, Ok s) → GetByDID (ag_store b) from = Ok s.
Proof.
  unfold sender_record. destruct (GetByDID (ag_store a) from) eqn:Hg; [by intros [= <- <-] |].
  destruct (resolvePeer e a from) as [c [x|]]; [done |]. destruct (GetByDID (ag_store c) from) eqn:Hg'; [|done].
  by intros [= <- <-].
Qed.

Lemma sender_record_known e a from s : GetByDID (ag_store a) from = Ok s → sender_record e a from = (a, Ok s).
Proof. intros Hg. unfold sender_record. by rewrite Hg. Qed.

(** ** Who may run a handler *)

(** The signature of the message verifies under the signing key that the store holds for the
    sender. *)
Definition signed_by_sender a m : Prop := ∃ sender key bytes,
  GetByDID (ag_store a) (From m) = Ok (Some sender) ∧ GetSigningKey sender = Some key ∧
  Marshal_message (signed_part m) = Some bytes ∧ default "" (Signature m) ≠ "" ∧
  VerifySignature (pk_Key key) bytes (Signature m) = true.

(** What the handler sees: the message itself when it is in the clear, and otherwise the
    message that the sender's encryption key opens. *)
Definition opened a m m' : Prop :=
  (m' = m ∧ (Encrypted m = false ∨ default "" (Body m) = "")) ∨
  (Encrypted m = true ∧ default "" (Body m) ≠ "" ∧ ∃ sender key plain,
     GetByDID (ag_store a) (From m) = Ok (Some sender) ∧ GetEncryptionKey sender = Some key ∧
     Decrypt (default "" (Body m)) (kp_PrivateKey (ak_Encryption (ag_keys a))) (default "" (pk_Key key)) = Ok plain ∧
     m' = with_cipher m (Some plain) false).

Lemma verify_ok e a m b :
  verifyMessageSignature e a m = (b, None) → signed_by_sender b m ∧ same_but_store a b.
Proof.
  unfold verifyMessageSignature. case_decide as Hsig; [done |].
  pose proof (sender_record_sbs e a (From m)) as Hs.
  destruct (sender_record e a (From m)) as [c r] eqn:Hr. destruct r as [[sender|]|x]; [|done..].
  simpl in Hs. intros [= <- Hv]. pose proof (sender_record_found _ _ _ _ _ Hr) as Hg.
  destruct (GetSigningKey sender) as [key|] eqn:Hkey; [|done].
  destruct (Marshal_message _) as [bytes|] eqn:Hm; [|done]. destruct (VerifySignature _ _ _) eqn:Hver; [|done].
  split; [by exists sender, key, bytes | done].
Qed.

Lemma verify_known e a m : signed_by_sender a m → verifyMessageSignature e a m = (a, None).
Proof.
  intros (sender & key & bytes & Hg & Hk & Hm & Hs & Hv). unfold verifyMessageSignature.
  rewrite decide_False by done. rewrite (sender_record_known _ _ _ _ Hg). by rewrite Hk, Hm, Hv.
Qed.

Lemma verify_sbs e a m : same_but_store a (verifyMessageSignature e a m).1.
Proof.
  unfold verifyMessageSignature. case_decide; [reflexivity |].
  pose proof (sender_record_sbs e a (From m)) as Hs. destruct (sender_record e a (From m)) as [c [[s|]|x]]; simpl in *; try done.
  etransitivity; [exact Hs | apply quiet_sbs, quiet_panic].
Qed.

Lemma decrypt_ok e a m b m' : decryptMessageBody e a m = (b, Ok m') → opened b m m' ∧ same_but_store a b.
Proof.
  unfold decryptMessageBody. destruct (Encrypted m) eqn:Henc; simpl; [|intros [= <- <-]; split; [left; auto | reflexivity]].
  case_bool_decide as Hb; [intros [= <- <-]; split; [left; auto | reflexivity] |].
  pose proof (sender_record_sbs e a (From m)) as Hs.
  destruct (sender_record e a (From m)) as [c r] eqn:Hr. destruct r as [[sender|]|x]; [|done..].
  simpl in Hs. intros [= <- Hd]. pose proof (sender_record_found _ _ _ _ _ Hr) as Hg.
  destruct (GetEncryptionKey sender) as [key|] eqn:Hkey; [|done].
  destruct (Decrypt _ _ _) as [plain|] eqn:Hdec; [|done]. injection Hd as <-.
  split; [|done]. right. split; [done |]. split; [done |]. by exists sender, key, plain.
Qed.

Lemma decrypt_known e a m m' : opened a m m' → decryptMessageBody e a m = (a, Ok m').
Proof.
  intros [[-> Hc]|(Henc & Hb & sender & key & plain & Hg & Hk & Hd & ->)]; unfold decryptMessageBody.
  - destruct Hc as [->|Hb]; [done |]. rewrite bool_decide_eq_true_2 by done. by rewrite orb_true_r.
  - rewrite Henc, bool_decide_eq_false_2 by done. simpl. rewrite (sender_record_known _ _ _ _ Hg). by rewrite Hk, Hd.
Qed.

Lemma decrypt_sbs e a m : same_but_store a (decryptMessageBody e a m).1.
Proof.
  unfold decryptMessageBody. destruct (_ || _); [reflexivity |].
  pose proof (sender_record_sbs e a (From m)) as Hs. destruct (sender_record e a (From m)) as [c [[s|]|x]]; simpl in *; try done.
  etransitivity; [exact Hs | apply quiet_sbs, quiet_panic].
Qed.

(** A handler ran for the decoded message [m0]. *)
Record authorised a b m0 (h : nat) m' : Prop := {
  au_request : IsResponse m0 = false ∧ Messaging.IsError m0 = false;
  au_signed : signed_by_sender b m0;
  au_opened : opened b m0 m';
  au_allowed : CheckAccess (ag_record a) (From m0) (Method m0) = None;
  au_handler : find_handler a (Method m0) = Some h;
}.

Lemma opened_same a m m' : opened a m m' → From m' = From m ∧ Method m' = Method m ∧ ID m' = ID m.
Proof. by intros [[-> _]|(_ & _ & ? & ? & ? & _ & _ & _ & ->)]. Qed.

Lemma sbs_find_handler a b method : same_but_store a b → find_handler b method = find_handler a method.
Proof. intros []. unfold find_handler. by rewrite sbs_handlers0. Qed.

(** The store of [b] still says what a step that kept it said. *)
Lemma signed_same_store a b m : ag_store b = ag_store a → signed_by_sender a m → signed_by_sender b m.
Proof. unfold signed_by_sender. by intros ->. Qed.

(** ** A fresh request *)

(** [authorised] reads the configuration and the store of the final state. *)
Lemma authorised_same a b c m0 h m' :
  ag_conf c = ag_conf b → ag_store c = ag_store b → authorised a b m0 h m' → authorised a c m0 h m'.
Proof.
  intros Hc Hst []. split; try done; [by apply (signed_same_store b) |].
  destruct au_opened0 as [Hl|(? & ? & s & k & p & Hg & Hk & Hd & ->)]; [by left |].
  right. split; [done |]. split; [done |]. exists s, k, p. unfold ag_keys in *. by rewrite Hst, Hc.
Qed.

Lemma handle_fresh_spec e a t req m0 :
  let b := handle_fresh e a t req m0 in
  same_but_store a b ∨
  ∃ h m', authorised a b m0 h m' ∧ handled (ag_trace b) = handled (ag_trace a) ++ [(h, m')] ∧
          ag_seenMsgs b = ag_seenMsgs a ∧ ag_handlers b = ag_handlers a ∧ ag_conf b = ag_conf a ∧ ag_record b = ag_record a.
Proof.
  simpl. set (keep := λ b, same_but_store a b).
  assert (Hkeep : ∀ b c, same_but_store a b → quiet b c → keep c).
  { intros b c [] []. split; simpl; congruence. }
  assert (Hkeep1 : ∀ b, same_but_store a b → keep b) by done.
  unfold handle_fresh. destruct (IsResponse m0 || Messaging.IsError m0) eqn:Hreq.
  { left. apply (Hkeep a); [reflexivity | apply handleMessageResponse_quiet]. }
  apply orb_false_iff in Hreq.
  pose proof (verify_sbs e a m0) as Hs1.
  destruct (verifyMessageSignature e a m0) as [b [x|]] eqn:Hver; simpl in Hs1.
  { left. destruct x; try (by apply (Hkeep b); [| apply sendErrorToSender_quiet]). by apply Hkeep1. }
  destruct (verify_ok _ _ _ _ Hver) as [Hsig _].
  assert (Hdec1 : (decryptMessageBody e b m0).1 = b).
  { unfold decryptMessageBody. destruct (_ || _); [done |]. destruct Hsig as (s & k & by' & Hg & _).
    by rewrite (sender_record_known _ _ _ _ Hg). }
  destruct (decryptMessageBody e b m0) as [c [m'|x]] eqn:Hdec; simpl in Hdec1; subst c.
  2: { left. destruct x; try (by apply (Hkeep b); [| apply sendErrorToSender_quiet]). by apply Hkeep1. }
  destruct (decrypt_ok _ _ _ _ _ Hdec) as [Hop _]. destruct (opened_same _ _ _ Hop) as (Hf & Hm & _).
  destruct (CheckAccess (ag_record b) (From m') (Method m')) as [x|] eqn:Hacl.
  { left. by apply (Hkeep b); [| apply sendErrorToSender_quiet]. }
  rewrite (sbs_find_handler a b) by done.
  destruct (find_handler a (Method m')) as [h|] eqn:Hh.
  2: { left. by apply (Hkeep b); [| apply sendErrorToSender_quiet]. }
  right. exists h, m'.
  set (c := emit b [EvHandler h m']).
  assert (Hau : authorised a c m0 h m').
  { apply (authorised_same a b); [done..|]. split; try done.
    - by rewrite <- (sbs_record _ _ Hs1), <- Hf, <- Hm.
    - by rewrite <- Hm. }
  assert (Hfin : ∀ d, quiet c d → authorised a d m0 h m' ∧ handled (ag_trace d) = handled (ag_trace a) ++ [(h, m')] ∧
    ag_seenMsgs d = ag_seenMsgs a ∧ ag_handlers d = ag_handlers a ∧ ag_conf d = ag_conf a ∧ ag_record d = ag_record a).
  { intros d Hq. destruct Hq, Hs1. split; [by apply (authorised_same a c) |]. subst c. simpl in *.
    rewrite q_handled0, handled_app. simpl. split_and!; congruence. }
  destruct (ae_handler e h (From m') (Method m') (Body m')) as [res|text]; apply Hfin;
    [apply answer_quiet | apply sendErrorToSender_quiet].
Qed.

(** ** Frames *)

Lemma isDuplicate_spec now a id :
  let '(dup, b) := isDuplicateMessage now a id in
  (dup = true → b = a ∧ is_Some (ag_seenMsgs a !! id)) ∧
  (dup = false → (id = "" ∧ b = a) ∨ (id ≠ "" ∧ ag_seenMsgs a !! id = None ∧ b = set_seen a (<[id := now]> (ag_seenMsgs a)))).
Proof.
  unfold isDuplicateMessage. case_decide; [by split; [done | intros _; left] |].
  destruct (ag_seenMsgs a !! id) eqn:Hid; [split; [by eauto | done] | split; [done | intros _; by right]].
Qed.

(** The notifications run no request handler and mark no message as seen. *)
Lemma handleNotification_handled a req :
  handled (ag_trace (handleNotification a req)) = handled (ag_trace a) ∧
  ag_seenMsgs (handleNotification a req) = ag_seenMsgs a ∧ ag_conf (handleNotification a req) = ag_conf a.
Proof.
  assert (Hnote : ∀ method, handled (ag_trace (named_notification a method req)) = handled (ag_trace a) ∧
    ag_seenMsgs (named_notification a method req) = ag_seenMsgs a ∧ ag_conf (named_notification a method req) = ag_conf a).
  { intros method. unfold named_notification. destruct (ag_handlers a !! method); [|done]. simpl. by rewrite handled_app, app_nil_r. }
  unfold handleNotification. repeat case_decide; try apply Hnote.
  - unfold handleRelayAck. destruct (match req_Params req with None => _ | Some p => _ end) as [ack|]; [|done].
    destruct (uuid_Parse _); [|done]. simpl. rewrite handled_app. split; [|done].
    assert (∀ (l : list nat) i d s, handled ((λ h, EvAck h i d s) <$> l) = []) as Hack by (induction l; simpl; auto).
    by rewrite Hack, app_nil_r.
  - unfold handle_announce. destruct (Unmarshal_announce _) as [msg|]; [|done].
    destruct (dm_Agent msg); [|done]. by case_decide.
  - destruct (parse_message req) as [m|]; [|done]. destruct (find_handler a (Method m)); [|done].
    simpl. by rewrite handled_app, app_nil_r.
Qed.

Lemma handleResponse_quiet a resp : quiet a (handleResponse a resp).
Proof.
  unfold handleResponse. destruct (rsp_ID resp); try reflexivity.
  destruct (ag_pendingRPC a !! s); [apply quiet_pending |]. destruct (uuid_Parse s); [|reflexivity].
  apply deliver_pending_quiet.
Qed.

(** The frame is a request whose message was not seen before. *)
Record fresh_request a (data : string) req m0 : Prop := {
  fr_decode : DecodeRequest data = Some req;
  fr_id : req_ID req ≠ JNull;
  fr_message : parse_message req = Some m0;
  fr_unseen : uuid_String (ID m0) = "" ∨ ag_seenMsgs a !! uuid_String (ID m0) = None;
}.

(** The state after the message was marked as seen. *)
Definition marked e a m0 : LocalAgent := (isDuplicateMessage (ae_now e) a (uuid_String (ID m0))).2.

Lemma handleIncoming_fresh e a t data req m0 :
  fresh_request a data req m0 → handleIncoming e a t data = handle_fresh e (marked e a m0) t req m0.
Proof.
  intros []. unfold handleIncoming, handleRequest, marked. rewrite fr_decode0, fr_message0.
  destruct fr_unseen0 as [Hid|Hid]; unfold isDuplicateMessage; rewrite Hid; simpl.
  - by destruct (req_ID req).
  - destruct (decide _); by destruct (req_ID req).
Qed.

(** One frame runs at most one handler, and only a fresh request that is authorised does. *)
Lemma handleIncoming_cases e a t data :
  let b := handleIncoming e a t data in
  (ag_conf b = ag_conf a) ∧
  ((handled (ag_trace b) = handled (ag_trace a) ∧ (ag_seenMsgs b = ag_seenMsgs a ∨
      ∃ id, ag_seenMsgs a !! id = None ∧ ag_seenMsgs b = <[id := ae_now e]> (ag_seenMsgs a))) ∨
   ∃ req m0 h m', fresh_request a data req m0 ∧ authorised a b m0 h m' ∧
     handled (ag_trace b) = handled (ag_trace a) ++ [(h, m')] ∧ ag_seenMsgs b = ag_seenMsgs (marked e a m0)).
Proof.
  simpl. unfold handleIncoming. destruct (DecodeRequest data) as [req|] eqn:Hdec.
  2: { destruct (DecodeResponse data) as [resp|]; [|by auto].
       destruct (handleResponse_quiet a resp). split; [done |]. by left; split; [|left]. }
  assert (Hcase : req_ID req = JNull ∨ req_ID req ≠ JNull) by (destruct (req_ID req); auto).
  destruct Hcase as [Hid|Hid].
  { rewrite Hid. destruct (handleNotification_handled a req) as (Hn1 & Hn2 & Hn3). split; [done |]. left. by split; [|left]. }
  replace (match req_ID req with JNull => handleNotification a req | _ => handleRequest e a t req end)
    with (handleRequest e a t req) by (by destruct (req_ID req)).
  unfold handleRequest. destruct (parse_message req) as [m0|] eqn:Hm.
  2: { destruct (sendErrorResponse_quiet e a t (req_ID req) CodeInvalidParams "invalid params"). split; [done |]. by left; split; [|left]. }
  pose proof (isDuplicate_spec (ae_now e) a (uuid_String (ID m0))) as Hdup.
  destruct (isDuplicateMessage _ _ _) as [[|] c] eqn:Hc; destruct Hdup as [Hd1 Hd2].
  { destruct Hd1 as [-> _]; [done |]. split; [done |]. by left; split; [|left]. }
  specialize (Hd2 eq_refl).
  assert (Hsame : ag_conf c = ag_conf a ∧ handled (ag_trace c) = handled (ag_trace a) ∧ ag_record c = ag_record a ∧ ag_handlers c = ag_handlers a).
  { by destruct Hd2 as [[_ ->]|(_ & _ & ->)]. }
  destruct Hsame as (Hconf & Hh & Hrec & Hhs).
  destruct (handle_fresh_spec e c t req m0) as [[]|(h & m' & Hau & Hhandled & Hseen & Hhand & Hco & Hre)]; simpl in *.
  - split; [congruence |]. left. split; [congruence |]. rewrite sbs_seen0.
    destruct Hd2 as [[_ ->]|(_ & ? & ->)]; [by left | right; eauto].
  - split; [congruence |]. right. exists req, m0, h, m'.
    assert (c = marked e a m0) as <- by (unfold marked; by rewrite Hc).
    split_and!; [split; try done; by destruct Hd2 as [[? _]|(_ & ? & _)]; auto | | congruence | done].
    destruct Hau. split; try done; [congruence |]. unfold find_handler in *. by rewrite <- Hhs.
Qed.

Lemma marked_same e a m0 : same_but_store a (set_seen (marked e a m0) (ag_seenMsgs a)) ∧ ag_store (marked e a m0) = ag_store a.
Proof. unfold marked, isDuplicateMessage. case_decide; [by split | destruct (_ !! _); by split]. Qed.

Lemma handle_fresh_runs e a t req m0 h m' :
  authorised a a m0 h m' → handled (ag_trace (handle_fresh e a t req m0)) = handled (ag_trace a) ++ [(h, m')].
Proof.
  intros [[Hr1 Hr2] Hsig Hop Hacl Hh]. destruct (opened_same _ _ _ Hop) as (Hf & Hm & _).
  unfold handle_fresh. rewrite Hr1, Hr2. simpl.
  rewrite (verify_known e a m0), (decrypt_known e a m0 m'), Hf, Hm, Hacl, Hh by done.
  destruct (ae_handler e h (From m0) (Method m0) (Body m')) as [res|text].
  - rewrite (q_handled _ _ (answer_quiet _ _ _ _ _ _)). simpl. by rewrite handled_app.
  - rewrite (q_handled _ _ (sendErrorToSender_quiet _ _ _ _ _ _ _)). simpl. by rewrite handled_app.
Qed.

(** C4. A request handler runs only for a message that was not seen before, whose signature
    verifies under the signing key that the agent holds for the sender, that the sender's
    encryption key opens if it is encrypted, and whose sender the access control list lets
    call the method; one frame runs at most one handler, the one registered for the method
    or for every method.  Conversely such a message of a known sender does run it. *)
Theorem handler_runs_authorised e a t data :
  let b := handleIncoming e a t data in
  (handled (ag_trace b) = handled (ag_trace a) ∨
   ∃ req m0 h m', fresh_request a data req m0 ∧ authorised a b m0 h m' ∧
     handled (ag_trace b) = handled (ag_trace a) ++ [(h, m')]) ∧
  (∀ req m0 h m', fresh_request a data req m0 → authorised a a m0 h m' →
     handled (ag_trace b) = handled (ag_trace a) ++ [(h, m')]).
Proof.
  simpl. split.
  - destruct (handleIncoming_cases e a t data) as [_ [[Hn _]|(req & m0 & h & m' & Hf & Hau & Hh & _)]]; [by left |].
    right. by exists req, m0, h, m'.
  - intros req m0 h m' Hf Hau. rewrite (handleIncoming_fresh _ _ _ _ _ _ Hf).
    destruct (marked_same e a m0) as [[Hc Hr Hhs _ _ Htr] Hst]. simpl in *.
    rewrite (handle_fresh_runs e (marked e a m0) t req m0 h m'); [by rewrite Htr |].
    apply (authorised_same _ a); [done..|]. destruct Hau. split; try done; [by rewrite Hr |].
    unfold find_handler in *. by rewrite Hhs.
Qed.

(** ** At most once *)

Inductive AgentInput :=
| InFrame (e : AgentEnv) (transport data : string)
| InCleanup (now : Z).

Definition input_time (i : AgentInput) : Z := match i with InFrame e _ _ => ae_now e | InCleanup now => now end.

Definition agent_input a (i : AgentInput) : LocalAgent :=
  match i with InFrame e t data => handleIncoming e a t data | InCleanup now => cleanupDedup now a end.

(** The handler runs of a history of inputs, with their times and message IDs. *)
Fixpoint agent_run a (inputs : list AgentInput) : list (Z * string) :=
  match inputs with
  | [] => []
  | i :: inputs =>
      let b := agent_input a i in
      ((λ '(_, m), (input_time i, uuid_String (ID m))) <$> drop (length (handled (ag_trace a))) (handled (ag_trace b)))
        ++ agent_run b inputs
  end.

Definition in_time_order (now : Z) (inputs : list AgentInput) : Prop :=
  StronglySorted Z.le (now :: (input_time <$> inputs)).

(** A message that ran at [t1] is still marked, or the window since then is over. *)
Definition remembered a (now t1 : Z) (id : string) : Prop :=
  (∃ t2, ag_seenMsgs a !! id = Some t2 ∧ t1 ≤ t2) ∨ cf_DedupTTL (ag_conf a) < now - t1.

(** What one input adds to the runs: nothing, or one run of a message that was not marked and
    now is. *)
Lemma agent_input_runs a i :
  let b := agent_input a i in
  let new := (λ '(_, m), (input_time i, uuid_String (ID m))) <$> drop (length (handled (ag_trace a))) (handled (ag_trace b)) in
  new = [] ∨ ∃ id, new = [(input_time i, id)] ∧
    (id ≠ "" → ag_seenMsgs a !! id = None ∧ ag_seenMsgs b !! id = Some (input_time i)).
Proof.
  destruct i as [e t data|now]; simpl; [|left; by rewrite drop_all].
  destruct (handleIncoming_cases e a t data) as [_ [[-> _]|(req & m0 & h & m' & Hf & Hau & -> & Hseen)]]; [left; by rewrite drop_all |].
  right. rewrite drop_app_length. exists (uuid_String (ID m')). split; [done |]. intros Hid.
  destruct (opened_same _ _ _ (au_opened _ _ _ _ _ Hau)) as (_ & _ & Hi). rewrite Hi in Hid |- *.
  destruct (fr_unseen _ _ _ _ Hf) as [He|Hn]; [done |]. split; [done |].
  rewrite Hseen. unfold marked, isDuplicateMessage. rewrite decide_False, Hn by done. simpl. apply lookup_insert_eq.
Qed.

Lemma remembered_input a i now t1 id :
  remembered a now t1 id → now ≤ input_time i → remembered (agent_input a i) (input_time i) t1 id.
Proof.
  intros Hrem Hle.
  assert (Hconf : ag_conf (agent_input a i) = ag_conf a).
  { destruct i; simpl; [|done]. by destruct (handleIncoming_cases e a transport data). }
  unfold remembered. rewrite Hconf. destruct Hrem as [(t2 & Hs & H12)|Hold]; [|right; lia].
  destruct i as [e t data|now']; simpl in *.
  - left. exists t2. split; [|done].
    destruct (handleIncoming_cases e a t data) as [_ [[_ [->|(id' & Hn & ->)]]|(req & m0 & h & m' & Hf & _ & _ & ->)]]; [done | |].
    + rewrite lookup_insert_ne; [done | congruence].
    + unfold marked, isDuplicateMessage. case_decide; [done |]. destruct (_ !! uuid_String (ID m0)) eqn:Hm; [done |]. simpl.
      rewrite lookup_insert_ne; [done | congruence].
  - destruct (decide (cf_DedupTTL (ag_conf a) < now' - t2)) as [Hd|Hd]; [right; lia |].
    left. exists t2. split; [|done]. by apply map_lookup_filter_Some.
Qed.

Lemma agent_run_window inputs a now t1 t2 id :
  id ≠ "" → in_time_order now inputs → remembered a now t1 id →
  (t2, id) ∈ agent_run a inputs → cf_DedupTTL (ag_conf a) < t2 - t1.
Proof.
  intros Hid. revert a now. induction inputs as [|i inputs IH]; intros a now Hord Hrem; simpl; [set_solver |].
  unfold in_time_order in Hord. simpl in Hord. apply StronglySorted_inv in Hord as [Hord Hle].
  apply Forall_cons in Hle as [Hle _].
  assert (Hconf : ag_conf (agent_input a i) = ag_conf a).
  { destruct i; simpl; [|done]. by destruct (handleIncoming_cases e a transport data). }
  rewrite elem_of_app. intros [Hin|Hin].
  - destruct (agent_input_runs a i) as [Hnew|(id' & Hnew & Hs)]; rewrite Hnew in Hin; [set_solver |].
    apply list_elem_of_singleton in Hin as [= -> ->]. destruct (Hs Hid) as [Hn _].
    destruct Hrem as [(t3 & Ht3 & _)|Hold]; [congruence | lia].
  - rewrite <- Hconf. apply (IH (agent_input a i) (input_time i)); [done | | done]. by apply (remembered_input a i now).
Qed.


End facts.

(** ** Examples *)

(** One fixed message from "did:wba:alice", signed for [demo_runtime]. *)
Definition ping_message : Message :=
  with_signature (NewMessage (uuid_lit 9) 0 "did:wba:alice" "did:wba:bob" TypeRequest "ping") (Some "signed:m").

Definition fixed_relay_codec : RelayCodec := {|
  Unmarshal_request _ := Some {| req_JSONRPC := "2.0"; req_ID := JString "id"; req_Method := "ping"; req_Params := Some "p" |};
  Unmarshal_message _ := Some ping_message; Unmarshal_registration _ := None;
  Unmarshal_subordinate _ := None; Unmarshal_capability _ := ""; Unmarshal_did _ := None |}.

Definition fixed_agent_codec : AgentCodec := {|
  Marshal_any _ := Some "v"; Marshal_message _ := Some "m"; Marshal_rpc_error _ := Some "e"; Encode_request _ := Some "r";
  Encode_response _ := Some "s"; Unmarshal_response _ := None; Unmarshal_result _ := zero_message;
  Unmarshal_announce _ := None; Unmarshal_ack _ := None; Unmarshal_peers _ := None; base64_DecodeString s := Some s |}.

