(* ===== verification/AgentFlow.v ===== *)
(** * Two agents and the relay between them (src/pkg/agent with src/cmd/relay)

    Under the documented laws of encoding/json, Ed25519 and NaCl: a request is answered end to
    end, and a message sent for a tenant passes the relay's sender check and the recipient's
    signature check.  Without any of these checks: what notifications do. *)

From S2P Require Import Prelude Crypto Registry Discovery Acl Messaging Reliability Billing Hub Relay Agent AgentFacts.
#[local] Open Scope Z_scope.

(** ** What encoding/json promises *)

(** Text that encoding/json neither replaces nor loses. *)
Definition ascii_text (s : string) : Prop := Forall (λ a, (Ascii.nat_of_ascii a < 128)%nat) (String.list_ascii_of_string s).

(** 9999-12-31, the last day that a time.Time can be marshalled. *)
Definition max_time : Z := 253402300799 * Second.

Record wire_ok (m : Message) : Prop := {
  wo_from : ascii_text (From m);
  wo_to : ascii_text (To m);
  wo_type : ascii_text (Type_ m);
  wo_method : ascii_text (Method m);
  wo_trace : ascii_text (TraceID m);
  wo_actor : ascii_text (ActorDID m);
  wo_time : 0 ≤ Timestamp m ≤ max_time;
  (* empty slices of these fields are omitted and come back as nil *)
  wo_signature : Signature m ≠ Some "";
  wo_proof : ActorProof m ≠ Some "";
}.

Class AgentCodecLaws `{Runtime} `{RelayCodec} `{AgentCodec} : Prop := {
  message_roundtrip m : wire_ok m → ∃ s, Marshal_message m = Some s ∧ Unmarshal_message s = Some m;
  envelope_roundtrip m params id : wire_ok m → Marshal_message m = Some params → ascii_text id →
    let req := {| req_JSONRPC := "2.0"; req_ID := JString id; req_Method := Method m; req_Params := Some params |} in
    ∃ d, Encode_request req = Some d ∧ Unmarshal_request d = Some req;
  uuid_text u : ascii_text (uuid_String u) ∧ uuid_String u ≠ "" ∧ uuid_Parse (uuid_String u) = Some u;
}.

(** Keys as [GenerateAgentKeys] makes them. *)
Record generated `{Primitives} `{Box} (k : AgentKeys) : Prop := {
  gen_seed : ∃ seed, String.length seed = 32%nat ∧ kp_PublicKey (ak_Signing k) = ed25519_public seed ∧
               kp_PrivateKey (ak_Signing k) = seed +:+ ed25519_public seed;
  gen_private : String.length (kp_PrivateKey (ak_Encryption k)) = X25519KeySize;
  gen_public : kp_PublicKey (ak_Encryption k) = x25519_public (kp_PrivateKey (ak_Encryption k));
}.

Section flow.
Context `{HR : Runtime} `{HP : Primitives} `{HB : Box} `{HRC : RelayCodec} `{HAC : AgentCodec}.
Context `{!PrimitivesLaws} `{!BoxLaws} `{!AgentCodecLaws}.
Implicit Types (a b : LocalAgent) (e : AgentEnv) (m : Message).

Lemma Sign_verifies k data : generated k →
  VerifySignature (Some (kp_PublicKey (ak_Signing k))) data (Some (Sign (ak_Signing k) data)) = true ∧
  Sign (ak_Signing k) data ≠ "".
Proof.
  intros [(seed & Hlen & Hpub & Hpriv) _ _].
  assert (Hv : ed25519_Verify (kp_PublicKey (ak_Signing k)) data (Sign (ak_Signing k) data) = true).
  { unfold Sign. rewrite Hpub, Hpriv. by apply ed25519_Verify_Sign. }
  split.
  - unfold VerifySignature. simpl. rewrite decide_False; [done |].
    rewrite Hpub, ed25519_public_length by done. unfold Ed25519PublicKeySize. lia.
  - intros He. by rewrite He, ed25519_Verify_empty in Hv.
Qed.

(** Before it is signed: neither signature nor delegation. *)
Record unsigned m : Prop := {
  un_signature : Signature m = None;
  un_actor : ActorDID m = "";
  un_proof : ActorProof m = None;
}.

Lemma signed_part_unsigned m s actor proof : unsigned m →
  signed_part (with_security m (Body m) (Encrypted m) s (RequestAck m) actor proof) = m.
Proof. intros []. destruct m. simpl in *. by subst. Qed.

Lemma sign_message_spec k m : generated k → unsigned m → wire_ok m →
  ∃ bytes s, Marshal_message m = Some bytes ∧ sign_message k m = with_signature m (Some s) ∧ s ≠ "" ∧
    VerifySignature (Some (kp_PublicKey (ak_Signing k))) bytes (Some s) = true.
Proof.
  intros Hk Hu Hw. destruct (message_roundtrip m Hw) as (bytes & Hm & _).
  exists bytes, (Sign (ak_Signing k) bytes). unfold sign_message. rewrite Hm. simpl.
  destruct (Sign_verifies k bytes Hk). done.
Qed.

Lemma with_signature_wire m s : wire_ok m → s ≠ "" → wire_ok (with_signature m (Some s)).
Proof. intros [] Hs. split; try done. simpl. congruence. Qed.

(** A signed message verifies wherever the signer's public key is known. *)
Lemma signed_verifies b k m s actor proof bytes rec key : unsigned m →
  Marshal_message m = Some bytes → s ≠ "" → VerifySignature (Some (kp_PublicKey (ak_Signing k))) bytes (Some s) = true →
  GetByDID (ag_store b) (From m) = Ok (Some rec) → GetSigningKey rec = Some key → pk_Key key = Some (kp_PublicKey (ak_Signing k)) →
  signed_by_sender b (with_security m (Body m) (Encrypted m) (Some s) (RequestAck m) actor proof).
Proof.
  intros Hu Hm Hs Hv Hg Hk Hpk. exists rec, key, bytes. rewrite signed_part_unsigned by done.
  split; [done |]. split; [done |]. split; [done |]. split; [done |]. by rewrite Hpk.
Qed.

(** The envelope of a message is read as a request with the message as its parameters. *)
Lemma envelope_spec m : wire_ok m → Method m ≠ "" →
  ∃ d req, envelope m = Some d ∧ DecodeRequest d = Some req ∧ req_ID req = JString (uuid_String (ID m)) ∧ parse_message req = Some m.
Proof.
  intros Hw Hmeth. destruct (message_roundtrip m Hw) as (params & Hm & Hum).
  destruct (uuid_text (ID m)) as (Hid & _ & _).
  destruct (envelope_roundtrip m params (uuid_String (ID m)) Hw Hm Hid) as (d & He & Hd).
  exists d, {| req_JSONRPC := "2.0"; req_ID := JString (uuid_String (ID m)); req_Method := Method m; req_Params := Some params |}.
  unfold envelope, DecodeRequest, parse_message. rewrite Hm. simpl. rewrite He, Hd. simpl.
  by rewrite decide_False.
Qed.

Lemma sendMessage_spec e a m d t relay : envelope m = Some d →
  findTransportForRecipient e a (To m) = RouteVia t relay → ae_send e t d = true →
  sendMessage e a m = (emit a [EvSend t d], None).
Proof. intros Hd Hr Hs. unfold sendMessage, transport_Send. by rewrite Hd, Hr, Hs. Qed.

(** ** Messages for a tenant *)

Lemma NewRequest_spec id now from to method body m :
  NewRequest Marshal_any id now from to method body = Some m →
  ID m = id ∧ From m = from ∧ To m = to ∧ Method m = method ∧ Type_ m = TypeRequest ∧ Timestamp m = now ∧
  Encrypted m = false ∧ TraceID m = "" ∧ unsigned m ∧ Body m = (body ≫= Marshal_any).
Proof.
  unfold NewRequest, attach_body. destruct body as [v|]; simpl.
  - destruct (Marshal_any v) as [data|]; simpl; [|done]. intros [= <-]. by split_and!.
  - intros [= <-]. by split_and!.
Qed.

Lemma NewRequest_wire id now from to method body m :
  ascii_text from → ascii_text to → ascii_text method → 0 ≤ now ≤ max_time →
  NewRequest Marshal_any id now from to method body = Some m → wire_ok m.
Proof.
  intros Hf Ht Hm Hn Hr. destruct (NewRequest_spec _ _ _ _ _ _ _ Hr) as (_ & Hfr & Hto & Hme & Hty & Htm & _ & Htr & [Hs Ha Hp] & _).
  split; rewrite ?Hfr, ?Hto, ?Hme, ?Hty, ?Htm, ?Htr, ?Hs, ?Ha, ?Hp; try done; by repeat constructor.
Qed.

(** A request that a gateway sends for a tenant is accepted by the relay on the gateway's
    connection exactly when the namespace granted to the gateway covers the tenant (or the
    tenant is the gateway itself), and every agent that knows the tenant's signing key
    accepts its signature, after the message went through JSON: the proof of delegation and
    the tenant's signature do not disturb each other. *)
Theorem delegated_request_accepted e a tenant to method params m0 (c : Client) b eb rec key :
  NewRequest Marshal_any (ae_fresh e 0) (ae_now e) (i_DID tenant) to method params = Some m0 →
  generated (ag_keys a) → generated (i_Keys tenant) →
  ascii_text (ag_DID a) → ascii_text (i_DID tenant) → ascii_text to → ascii_text method → method ≠ "" →
  0 ≤ ae_now e ≤ max_time → ag_DID a ≠ "" →
  c_DID c = ag_DID a → c_gatewayNamespace c ≠ "" →
  c_gatewaySigningKey c = Some (kp_PublicKey (ak_Signing (ag_keys a))) →
  GetByDID (ag_store b) (i_DID tenant) = Ok (Some rec) → GetSigningKey rec = Some key →
  pk_Key key = Some (kp_PublicKey (ak_Signing (i_Keys tenant))) →
  let m := delegate a tenant m0 in
  (validateSender c m = None ↔ i_DID tenant = ag_DID a ∨ didMatchesNamespace (i_DID tenant) (c_gatewayNamespace c) = true) ∧
  (∃ d req, envelope m = Some d ∧ DecodeRequest d = Some req ∧ parse_message req = Some m) ∧
  verifyMessageSignature eb b m = (b, None).
Proof.
  intros Hreq Hga Hgt Hta Htt Hto Htm Hmeth Hnow Hdid Hc Hns Hck Hg Hk Hpk m.
  pose proof (NewRequest_wire _ _ _ _ _ _ _ Htt Hto Htm Hnow Hreq) as Hw.
  destruct (NewRequest_spec _ _ _ _ _ _ _ Hreq) as (Hid & Hfrom & _ & Hme & _ & _ & _ & _ & Hun & _).
  destruct (sign_message_spec (i_Keys tenant) m0 Hgt Hun Hw) as (bytes & s & Hm & Hs & Hne & Hv).
  destruct (Sign_verifies (ag_keys a) (ag_DID a +:+ ":" +:+ i_DID tenant +:+ ":" +:+ uuid_String (ID m0)) Hga) as [Hpv Hpn].
  assert (Hmeq : m = with_security m0 (Body m0) (Encrypted m0) (Some s) (RequestAck m0) (ag_DID a)
    (Some (Sign (ak_Signing (ag_keys a)) (ag_DID a +:+ ":" +:+ i_DID tenant +:+ ":" +:+ uuid_String (ID m0))))).
  { unfold m, delegate. by rewrite Hs. }
  assert (HwM : wire_ok m).
  { rewrite Hmeq. destruct Hw. split; simpl; try done; intros [=]; done. }
  split; [|split].
  - unfold validateSender, proofInput. rewrite Hmeq. cbn [From ActorDID ActorProof ID with_security]. rewrite Hc, Hck, Hfrom, decide_False by done.
    destruct (decide (i_DID tenant = ag_DID a)) as [Heq|Hneq]; [by split; [left|] |].
    rewrite decide_True by done.
    rewrite Hpv. destruct (didMatchesNamespace _ _); cbn [negb]; [split; [by right | done] | split; [done | by intros [?|?]]].
  - destruct (envelope_spec m HwM) as (d & req & ? & ? & ? & ?); [rewrite Hmeq; simpl; congruence |]. by exists d, req.
  - apply verify_known. rewrite Hmeq. apply (signed_verifies _ (i_Keys tenant) _ _ _ _ bytes rec key); try done. by rewrite Hfrom.
Qed.

(** ** A request and its answer *)

Lemma encryptMessageBody_spec e a m nonce plain rec key kb : ae_nonce e = Some nonce → String.length nonce = NonceSize →
  Body m = Some plain → plain ≠ "" → generated (ag_keys a) → generated kb →
  GetByDID (ag_store a) (To m) = Ok (Some rec) → GetEncryptionKey rec = Some key →
  pk_Key key = Some (kp_PublicKey (ak_Encryption kb)) →
  ∃ c, encryptMessageBody e a m = Ok (with_cipher m (Some c) true) ∧ c ≠ "" ∧
       Decrypt c (kp_PrivateKey (ak_Encryption kb)) (kp_PublicKey (ak_Encryption (ag_keys a))) = Ok plain.
Proof.
  intros Hn Hnl Hb Hp Ha Hkb Hg Hk Hpk. unfold encryptMessageBody. rewrite Hb, Hn. cbn [from_option id].
  rewrite decide_False by done. rewrite Hg, Hk, Hpk. simpl.
  rewrite (gen_public _ Hkb), (gen_public _ Ha).
  destruct (Encrypt_spec nonce plain (kp_PrivateKey (ak_Encryption (ag_keys a))) (kp_PrivateKey (ak_Encryption kb)))
    as (c & -> & Hd & Hlen); [done | apply gen_private; done.. |].
  exists c. split_and!; try done. intros ->. simpl in Hlen. lia.
Qed.

(** What an agent must hold of its peer. *)
Record knows (s : MemoryStore) (did : string) (k : AgentKeys) : Prop := {
  kn_keys : ∃ rec sig enc, GetByDID s did = Ok (Some rec) ∧ GetSigningKey rec = Some sig ∧ GetEncryptionKey rec = Some enc ∧
    pk_Key sig = Some (kp_PublicKey (ak_Signing k)) ∧ pk_Key enc = Some (kp_PublicKey (ak_Encryption k));
}.

(** Sending a request to a known agent: it goes out encrypted and signed, and its channel
    waits under its ID. *)
Lemma Send_begin_spec e a kb nonce to method v plain t relay :
  ae_nonce e = Some nonce → String.length nonce = NonceSize → 0 ≤ ae_now e ≤ max_time →
  ascii_text (ag_DID a) → ascii_text to → ascii_text method → method ≠ "" →
  Marshal_any v = Some plain → plain ≠ "" → generated (ag_keys a) → generated kb → knows (ag_store a) to kb →
  findTransportForRecipient e a to = RouteVia t relay → (∀ d, ae_send e t d = true) →
  ∃ m d a1, Send_begin e a to method (Some v) = (a1, Ok (m, ag_nextChan a)) ∧
    envelope m = Some d ∧ DecodeRequest d ≠ None ∧ ag_trace a1 = ag_trace a ++ [EvSend t d] ∧ quiet a a1 ∧
    ag_pending a1 !! ID m = Some (ag_nextChan a) ∧ ag_chans a1 !! ag_nextChan a = Some None ∧
    wire_ok m ∧ Encrypted m = true ∧ ID m = ae_fresh e 0 ∧ From m = ag_DID a ∧ To m = to ∧ Method m = method ∧ Type_ m = TypeRequest ∧
    (∀ b, knows (ag_store b) (ag_DID a) (ag_keys a) → signed_by_sender b m) ∧
    (∀ b, ag_keys b = kb → knows (ag_store b) (ag_DID a) (ag_keys a) → opened b m (with_cipher m (Some plain) false)).
Proof.
  intros Hn Hnl Hnow Hda Hto Htm Hmeth Hv Hp Hga Hgb [(rec & sig & enc & Hg & _ & Henc & _ & Hpe)] Hroute Hsend.
  unfold Send_begin. destruct (NewRequest _ _ _ _ _ _ _) as [m0|] eqn:Hreq.
  2: { unfold NewRequest, attach_body in Hreq. by rewrite Hv in Hreq. }
  pose proof (NewRequest_wire _ _ _ _ _ _ _ Hda Hto Htm Hnow Hreq) as Hw0.
  destruct (NewRequest_spec _ _ _ _ _ _ _ Hreq) as (Hid & Hfrom & Hto' & Hme & Hty & Htime & Hen & _ & Hun & Hbody).
  simpl in Hbody. rewrite Hv in Hbody.
  destruct (encryptMessageBody_spec e a m0 nonce plain rec enc kb) as (c & Hec & Hcne & Hdec); try done; [by rewrite Hto' |].
  set (m1 := with_cipher m0 (Some c) true) in *.
  assert (Hw1 : wire_ok m1) by (destruct Hw0; by split).
  assert (Hun1 : unsigned m1) by (destruct Hun; by split).
  destruct (sign_message_spec (ag_keys a) m1 Hga Hun1 Hw1) as (bytes & s & Hm & Hs & Hsne & Hver).
  unfold secure. rewrite Hec. set (m := sign_message (ag_keys a) m1) in *.
  assert (Hw : wire_ok m) by (rewrite Hs; by apply with_signature_wire).
  destruct (envelope_spec m Hw) as (d & req & Hd & Hdr & _ & _); [rewrite Hs; simpl; congruence |].
  unfold sendAndWait_begin.
  rewrite (sendMessage_spec e _ m d t relay Hd); [|rewrite Hs; simpl; by rewrite Hto' | done].
  exists m, d. eexists. split; [reflexivity |]. split; [done |]. split; [congruence |].
  split; [done |]. split; [by split; simpl; rewrite ?handled_app, ?app_nil_r |].
  simpl. rewrite !lookup_insert_eq. rewrite Hs. simpl. rewrite <- Hs. split_and!; try done; try congruence.
  - intros b [(rb & sb & eb & Hgb' & Hsb & _ & Hpb & _)]. rewrite Hs.
    apply (signed_verifies b (ag_keys a) m1 s (ActorDID m1) (ActorProof m1) bytes rb sb); try done. simpl. by rewrite Hfrom.
  - intros b Hkb [(rb & sb & eb & Hgb' & _ & Heb & _ & Hpeb)]. right. rewrite Hs. simpl. split; [done |]. split; [done |].
    exists rb, eb, plain. rewrite Hfrom, Hpeb, Hkb. done.
Qed.

(** The answer to a request travels back as a message and reaches the waiting channel. *)
Lemma answer_reaches ea a m ch resp d t :
  ag_pending a !! ID m = Some ch → ag_chans a !! ch = Some None →
  wire_ok resp → Method resp ≠ "" → envelope resp = Some d → IsResponse resp = true → CorrelationID resp = Some (ID m) →
  ag_seenMsgs a !! uuid_String (ID resp) = None →
  ∃ a', sendAndWait_end (handleIncoming ea a t d) m ch false = Some (a', Ok resp) ∧ ag_pending a' !! ID m = None.
Proof.
  intros Hp Hc Hw Hme Hd Hty Hcor Hseen.
  destruct (envelope_spec resp Hw Hme) as (d' & req & Hd' & Hdr & Hid & Hparse). rewrite Hd in Hd'. injection Hd' as <-.
  rewrite (handleIncoming_fresh ea a t d req resp); [|split; [done | by rewrite Hid | done | by right]].
  unfold handle_fresh. rewrite Hty. simpl. unfold handleMessageResponse, deliver_pending. rewrite Hcor.
  unfold marked, isDuplicateMessage. destruct (uuid_text (ID resp)) as (_ & Hne & _). rewrite decide_False, Hseen by done. simpl.
  rewrite Hp. unfold sendAndWait_end. simpl. unfold offer. rewrite lookup_alter_eq, Hc. simpl.
  eexists. split; [done |]. simpl. apply lookup_delete_eq.
Qed.

(** Two agents that know each other and are both connected to the relay. *)
Record linked ea a ta eb b tb : Prop := {
  lk_a : generated (ag_keys a) ∧ ascii_text (ag_DID a);
  lk_b : generated (ag_keys b) ∧ ascii_text (ag_DID b);
  lk_a_knows : knows (ag_store a) (ag_DID b) (ag_keys b);
  lk_b_knows : knows (ag_store b) (ag_DID a) (ag_keys a);
  lk_route_a : ∃ relay, findTransportForRecipient ea a (ag_DID b) = RouteVia ta relay;
  lk_route_b : ∃ relay, findTransportForRecipient eb b (ag_DID a) = RouteVia tb relay;
  lk_relay_b : ag_peers b !! cf_RelayAddr (ag_conf b) = Some tb;
  lk_sends : (∀ d, ae_send ea ta d = true) ∧ (∀ d, ae_send eb tb d = true);
  lk_times : 0 ≤ ae_now ea ≤ max_time ∧ 0 ≤ ae_now eb ≤ max_time;
  lk_nonce : ∃ nonce, ae_nonce ea = Some nonce ∧ String.length nonce = NonceSize;
}.

(** C5. A request is answered end to end.  Between two agents that know each other's keys and
    are connected to the relay, when the recipient lets the sender call the method and its
    handler returns a value, then: the request goes out encrypted; the frame, forwarded
    untouched, runs the handler once, on the plain body; the frame that comes back is
    delivered to the waiting call, which returns the handler's value, from the recipient. *)
Theorem request_answered ea a ta eb b tb method v plain h r rbytes ea' :
  linked ea a ta eb b tb → ascii_text method → method ≠ "" →
  Marshal_any v = Some plain → plain ≠ "" →
  CheckAccess (ag_record b) (ag_DID a) method = None → find_handler b method = Some h →
  ae_handler eb h (ag_DID a) method (Some plain) = Ok (Some r) → Marshal_any r = Some rbytes →
  ag_seenMsgs b !! uuid_String (ae_fresh ea 0) = None → ag_seenMsgs a !! uuid_String (ae_fresh eb 0) = None →
  ∃ m ch a1 data answer a2 resp,
    Send_begin ea a (ag_DID b) method (Some v) = (a1, Ok (m, ch)) ∧ Encrypted m = true ∧
    ag_trace a1 = ag_trace a ++ [EvSend ta data] ∧
    (let b1 := handleIncoming eb b tb data in
     ag_trace b1 = ag_trace b ++ [EvHandler h (with_cipher m (Some plain) false); EvSend tb answer]) ∧
    sendAndWait_end (handleIncoming ea' a1 ta answer) m ch false = Some (a2, Ok resp) ∧
    Body resp = Some rbytes ∧ From resp = ag_DID b ∧ Type_ resp = TypeResponse ∧ ag_pending a2 !! ID m = None.
Proof.
  intros [[Hga Hta] [Hgb Htb] Hka Hkb [ra Hra] [rb Hrb] Hrelay [Hsa Hsb] [Hna Hnb] (nonce & Hno & Hnol)].
  intros Htm Hmeth Hv Hp Hacl Hh Hrun Hr Hseenb Hseena.
  destruct (Send_begin_spec ea a (ag_keys b) nonce (ag_DID b) method v plain ta ra)
    as (m & d & a1 & Hsend & Hd & _ & Htr & Hq & Hpend & Hchan & Hw & Henc & Hid & Hfrom & Hto & Hme & Hty & Hsig & Hop); try done.
  destruct (envelope_spec m Hw) as (d' & req & Hd' & Hdr & Hrid & Hparse); [by rewrite Hme |].
  rewrite Hd in Hd'. injection Hd' as <-.
  assert (Hfresh : fresh_request b d req m) by (split; [done | by rewrite Hrid | done | rewrite Hid; by right]).
  set (m' := with_cipher m (Some plain) false) in *.
  (* the answer *)
  set (resp0 := with_body (reply_to (ae_fresh eb 0) (ae_now eb) m' TypeResponse) (Some rbytes)).
  assert (Hresp : NewResponse Marshal_any (ae_fresh eb 0) (ae_now eb) m' (Some r) = Some resp0).
  { unfold NewResponse, attach_body. by rewrite Hr. }
  assert (Hwr0 : wire_ok resp0).
  { split; simpl; rewrite ?Hto, ?Hfrom, ?Hme; try done; by repeat constructor. }
  destruct (sign_message_spec (ag_keys b) resp0) as (bytes & s & _ & Hs & Hsne & _); [done | by split | done |].
  set (resp := sign_message (ag_keys b) resp0) in *.
  assert (Hwr : wire_ok resp) by (rewrite Hs; by apply with_signature_wire).
  assert (Hmr : Method resp ≠ "") by (rewrite Hs; simpl; congruence).
  destruct (envelope_spec resp Hwr Hmr) as (answer & _ & Han & _).
  destruct (answer_reaches ea' a1 m (ag_nextChan a) resp answer ta) as (a2 & Hend & Hgone); try done; try (by rewrite Hs).
  { rewrite (q_seen _ _ Hq), Hs. simpl. done. }
  exists m, (ag_nextChan a), a1, d, answer, a2, resp.
  split_and!; try done; try (by rewrite Hs).
  rewrite (handleIncoming_fresh eb b tb d req m Hfresh).
  assert (Hc : marked eb b m = set_seen b (<[uuid_String (ID m) := ae_now eb]> (ag_seenMsgs b))).
  { unfold marked, isDuplicateMessage. rewrite decide_False by (apply uuid_text). by rewrite Hid, Hseenb. }
  rewrite Hc. set (c := set_seen b _).
  unfold handle_fresh. unfold IsResponse, Messaging.IsError. rewrite Hty. cbn [String.eqb orb].
  rewrite (verify_known eb c m), (decrypt_known eb c m m') by (by apply Hsig || by apply Hop).
  replace (From m') with (ag_DID a) by done. replace (Method m') with method by done.
  change (CheckAccess (ag_record c) (ag_DID a) method) with (CheckAccess (ag_record b) (ag_DID a) method). rewrite Hacl.
  change (find_handler c method) with (find_handler b method). rewrite Hh.
  change (Body m') with (Some plain). rewrite Hrun. unfold Agent.answer, is_relay.
  change (ag_peers (emit c _)) with (ag_peers b). change (ag_conf (emit c _)) with (ag_conf b).
  rewrite bool_decide_eq_true_2 by done. rewrite Hresp.
  rewrite (sendMessage_spec eb _ resp answer tb rb Han); [|rewrite Hs; simpl; rewrite Hfrom; exact Hrb | done].
  simpl. by rewrite <- app_assoc.
Qed.


(** ** What arrives without these checks *)

(** A notification for a registered method runs its handler: no signature, no access control,
    no decryption, no deduplication. *)
Lemma notification_runs_unchecked e a t data req m h :
  DecodeRequest data = Some req → req_ID req = JNull →
  req_Method req ∉ ["relay.ack"; "relay.presence"; "relay.typing"; "discovery.announce"] →
  parse_message req = Some m → find_handler a (Method m) = Some h →
  ag_trace (handleIncoming e a t data) = ag_trace a ++ [EvNotification h (Body m)].
Proof.
  intros Hd Hid Hnot Hm Hh. unfold handleIncoming. rewrite Hd, Hid. unfold handleNotification.
  rewrite !not_elem_of_cons in Hnot. destruct Hnot as (? & ? & ? & ? & _).
  by rewrite !decide_False, Hm, Hh by done.
Qed.

(** An announcement from any peer replaces the keys of an agent: what is then signed with the
    new key is accepted as coming from it. *)
Lemma announce_takes_over_sender e a t data req msg k rec sig m : generated k →
  DecodeRequest data = Some req → req_ID req = JNull → req_Method req = "discovery.announce" →
  Unmarshal_announce (default "" (req_Params req)) = Some msg → dm_Agent msg = Some rec →
  a_DID rec ≠ ag_DID a → a_DID rec ≠ "" → GetSigningKey rec = Some sig → pk_Key sig = Some (kp_PublicKey (ak_Signing k)) →
  wire_ok m → unsigned m → From m = a_DID rec →
  let b := handleIncoming e a t data in
  verifyMessageSignature e b (sign_message k m) = (b, None).
Proof.
  intros Hk Hd Hid Hmeth Hum Hag Hown Hne Hs Hpk Hw Hu Hf.
  unfold handleIncoming. rewrite Hd, Hid. unfold handleNotification. rewrite Hmeth. simpl.
  unfold handle_announce. rewrite Hum, Hag, decide_False by done. set (b := ag_with_store _ _ _).
  destruct (sign_message_spec k m Hk Hu Hw) as (bytes & s & Hm & -> & Hsne & Hv).
  apply verify_known. apply (signed_verifies b k m s (ActorDID m) (ActorProof m) bytes rec sig); try done.
  rewrite Hf. simpl. unfold MemoryStore_GetByDID. simpl. rewrite decide_False, lookup_insert_eq by done.
  by rewrite lookup_insert_eq.
Qed.

(** The ID of a message is marked before its signature is checked: a forged message makes the
    genuine one with the same ID a duplicate. *)
Lemma forged_id_suppresses e1 e2 a t1 t2 forged data req1 req2 m1 m2 :
  fresh_request a forged req1 m1 → DecodeRequest data = Some req2 → req_ID req2 ≠ JNull → parse_message req2 = Some m2 →
  ID m2 = ID m1 →
  let b := handleIncoming e1 a t1 forged in handleIncoming e2 b t2 data = b.
Proof.
  intros Hf Hd Hid Hm Heq b.
  assert (Hmark : is_Some (ag_seenMsgs b !! uuid_String (ID m2))).
  { assert (Hb : ag_seenMsgs b = ag_seenMsgs (marked e1 a m1)).
    { unfold b. rewrite (handleIncoming_fresh e1 a t1 forged req1 m1 Hf).
      destruct (handle_fresh_spec e1 (marked e1 a m1) t1 req1 m1) as [[]|(? & ? & _ & _ & ? & _)]; done. }
    rewrite Hb, Heq. unfold marked, isDuplicateMessage. rewrite decide_False by (apply uuid_text).
    destruct (ag_seenMsgs a !! _) eqn:Hs; simpl; [by rewrite Hs | rewrite lookup_insert_eq; eauto]. }
  unfold handleIncoming at 1. rewrite Hd.
  replace (match req_ID req2 with JNull => handleNotification b req2 | _ => handleRequest e2 b t2 req2 end)
    with (handleRequest e2 b t2 req2) by (by destruct (req_ID req2)).
  unfold handleRequest, isDuplicateMessage. rewrite Hm, decide_False by (apply uuid_text).
  by destruct Hmark as [? ->].
Qed.

(** Inputs that bypass the checks on requests: a notification that names none of the relay's
    own runs the registered handler of its method without signature, access control,
    decryption or deduplication; a discovery announcement from any peer replaces the keys
    stored for another agent, and messages signed with the new key are accepted as that
    agent's; a forged request with the ID of a genuine one makes the genuine one be dropped. *)
Theorem unauthenticated_inputs :
  (∀ e a t data req m h, DecodeRequest data = Some req → req_ID req = JNull →
     req_Method req ∉ ["relay.ack"; "relay.presence"; "relay.typing"; "discovery.announce"] →
     parse_message req = Some m → find_handler a (Method m) = Some h →
     ag_trace (handleIncoming e a t data) = ag_trace a ++ [EvNotification h (Body m)]) ∧
  (∀ e a t data req msg k rec sig m, generated k →
     DecodeRequest data = Some req → req_ID req = JNull → req_Method req = "discovery.announce" →
     Unmarshal_announce (default "" (req_Params req)) = Some msg → dm_Agent msg = Some rec →
     a_DID rec ≠ ag_DID a → a_DID rec ≠ "" → GetSigningKey rec = Some sig → pk_Key sig = Some (kp_PublicKey (ak_Signing k)) →
     wire_ok m → unsigned m → From m = a_DID rec →
     verifyMessageSignature e (handleIncoming e a t data) (sign_message k m) = (handleIncoming e a t data, None)) ∧
  (∀ e1 e2 a t1 t2 forged data req1 req2 m1 m2,
     fresh_request a forged req1 m1 → DecodeRequest data = Some req2 → req_ID req2 ≠ JNull → parse_message req2 = Some m2 →
     ID m2 = ID m1 →
     handleIncoming e2 (handleIncoming e1 a t1 forged) t2 data = handleIncoming e1 a t1 forged).
Proof.
  split_and!; [exact notification_runs_unchecked | exact announce_takes_over_sender | exact forged_id_suppresses].
Qed.

(** Over a direct connection the handler's value comes back as the JSON-RPC result itself, and
    the caller gets what decoding that value as a message gives. *)
Lemma direct_answer_is_decoded_as_message a id ch resp idStr r :
  rsp_ID resp = JString idStr → uuid_Parse idStr = Some id → ag_pendingRPC a !! idStr = None →
  ag_pending a !! id = Some ch → ag_chans a !! ch = Some None → rsp_Error resp = None → rsp_Result resp = Some r →
  ag_chans (handleResponse a resp) !! ch = Some (Some (Some (Unmarshal_result r))).
Proof.
  intros Hid Hp Hrpc Hpend Hch He Hr. unfold handleResponse, deliver_pending.
  rewrite Hid, Hrpc, Hp, He, Hr, Hpend. simpl. unfold offer. by rewrite lookup_alter_eq, Hch.
Qed.

End flow.

(** An agent that was stopped and started again hears nothing: the flag that ends the receive
    loops is never taken back. *)
Lemma restarted_agent_is_deaf `{Runtime} `{Primitives} `{Box} `{RelayCodec} `{AgentCodec} now now' a e t data :
  ag_started a = true →
  let b := (Start now' (Stop now a).1).1 in
  ag_started b = true ∧ receiveLoop e b t data = None.
Proof. intros Hs. unfold Stop. rewrite Hs. done. Qed.

(** ** Examples *)

Lemma bits_ascii p : ascii_text (bits p).
Proof. unfold ascii_text. induction p as [p IH|p IH|]; simpl; [| |constructor]; constructor; (done || (vm_compute; lia)). Qed.

Lemma example_laws : @AgentCodecLaws agent_runtime_example relay_codec_example agent_codec_example.
Proof.
  split.
  - intros m _. exists (message_text m). split; [done | apply text_message_text].
  - intros m params id _ _ _. eexists. split; [reflexivity |]. simpl. unfold text_request. by rewrite of_text_of.
  - intros u. split_and!; [|done | apply of_text_of]. simpl. constructor; [vm_compute; lia | apply bits_ascii].
Qed.

Lemma keys_example_generated seed : String.length seed = 32%nat → @generated primitives_example box_example (keys_example seed).
Proof. intros Hs. split; [by exists seed | done | done]. Qed.

Ltac ascii_lit := repeat constructor; vm_compute; lia.

Definition gateway_client_example : Client :=
  c_with (demo_client "c1" "did:wba:gw" None) "did:wba:gw" "" [] (c_msgLimiter (demo_client "c1" "" None))
    (c_registerLimiter (demo_client "c1" "" None)) (c_discoverLimiter (demo_client "c1" "" None)) false "did:wba:t:*" (Some text32).

Lemma delegated_request_accepted_witness :
  let a := agent_example "did:wba:gw" "did:wba:bob" ∅ in
  let tenant := identity_example "did:wba:t:1" text32 in
  let b := agent_example "did:wba:bob" "did:wba:t:1" ∅ in
  ∃ m0, @validateSender agent_runtime_example gateway_client_example
          (@delegate agent_runtime_example primitives_example agent_codec_example a tenant m0) = None ∧
        From m0 = "did:wba:t:1".
Proof.
  intros a tenant b.
  destruct (NewRequest (@Marshal_any agent_codec_example) (uuid_lit 3) 5 "did:wba:t:1" "did:wba:bob" "chat" (Some (JString "hi"))) as [m0|] eqn:Hm0;
    [|vm_compute in Hm0; discriminate].
  exists m0. split; [|vm_compute in Hm0; injection Hm0 as <-; reflexivity].
  destruct (@delegated_request_accepted agent_runtime_example primitives_example box_example relay_codec_example agent_codec_example
    agent_primitives_example_laws example_laws (env_example 3 5) a tenant "did:wba:bob" "chat" (Some (JString "hi")) m0
    gateway_client_example b (env_example 0 0) (record_example (uuid_lit 2) "did:wba:t:1" text32)
    {| pk_ID := "signing"; pk_Type := KeyTypeEd25519; pk_Key := Some text32; pk_Purpose := "signing" |})
    as [Hv _]; try reflexivity; try discriminate; try (by apply keys_example_generated); try ascii_lit; [exact Hm0 | vm_compute; split; discriminate |].
  apply Hv. right. reflexivity.
Defined.

Lemma request_answered_witness :
  let a := agent_example "did:wba:alice" "did:wba:bob" ∅ in
  let b := agent_example "did:wba:bob" "did:wba:alice" {["ping" := 7%nat]} in
  ∃ m ch a1, @Send_begin agent_runtime_example primitives_example box_example agent_codec_example (env_example 10 5) a
               "did:wba:bob" "ping" (Some (JString "hello")) = (a1, Ok (m, ch)) ∧ Encrypted m = true.
Proof.
  intros a b.
  destruct (@request_answered agent_runtime_example primitives_example box_example relay_codec_example agent_codec_example
    agent_primitives_example_laws box_example_laws example_laws (env_example 10 5) a "ws" (env_example 20 6) b "ws" "ping"
    (JString "hello") "hello" 7 (JString "pong") "pong" (env_example 30 7))
    as (m & ch & a1 & _ & _ & _ & _ & Hs & He & _);
    [ | ascii_lit | discriminate | reflexivity | discriminate | reflexivity | reflexivity | reflexivity | reflexivity
    | exact (lookup_empty _) | exact (lookup_empty _) | ].
  - split.
    + split; [by apply keys_example_generated | ascii_lit].
    + split; [by apply keys_example_generated | ascii_lit].
    + split. eexists _, _, _. split_and!; reflexivity.
    + split. eexists _, _, _. split_and!; reflexivity.
    + eexists. reflexivity.
    + eexists. reflexivity.
    + reflexivity.
    + by split.
    + split; vm_compute; split; discriminate.
    + eexists. split; reflexivity.
  - by exists m, ch, a1.
Defined.

(** The frame that carries a message as a request. *)
Definition frame_example (m : Message) : JSONRPCRequest := {|
  req_JSONRPC := "2.0"; req_ID := JString "1"; req_Method := Method m; req_Params := Some (message_text m) |}.

Lemma frame_example_decodes m : Method m ≠ EmptyString →
  let data := default "" (request_text (frame_example m)) in
  @DecodeRequest relay_codec_example data = Some (frame_example m) ∧
  @parse_message relay_codec_example (frame_example m) = Some m.
Proof.
  intros Hm. split; [|apply text_message_text]. unfold DecodeRequest. simpl. unfold text_request. rewrite of_text_of. simpl.
  by rewrite decide_False.
Qed.

Lemma unauthenticated_inputs_witness :
  let b := agent_example "did:wba:bob" "did:wba:alice" {["ping" := 7%nat]} in
  ∃ m, m.(From) = "did:wba:alice" ∧ Signature m = Some "signed by alice" ∧
    let forged := default "" (request_text (frame_example (with_signature m None))) in
    let genuine := default "" (request_text (frame_example m)) in
    let handle data b := @handleIncoming agent_runtime_example primitives_example box_example relay_codec_example
      agent_codec_example (env_example 10 5) b "ws" data in
    handle genuine (handle forged b) = handle forged b.
Proof.
  intros b. exists (with_signature (default zero_message
    (NewRequest (@Marshal_any agent_codec_example) (uuid_lit 3) 5 "did:wba:alice" "did:wba:bob" "ping" (Some (JString "hi"))))
    (Some "signed by alice")).
  split_and!; [reflexivity | reflexivity |].
  destruct (@unauthenticated_inputs agent_runtime_example primitives_example box_example relay_codec_example agent_codec_example
    agent_primitives_example_laws example_laws) as (_ & _ & Hf).
  eapply Hf; [split | | | |]; try (by apply frame_example_decodes); try discriminate; [right | ]; reflexivity.
Defined.
