(* ===== verification/AgentLife.v ===== *)
(** * The life of an agent (src/pkg/agent)

    No operation ever follows a nil agent record; stopping releases every waiting call; calls
    to a relay that limits their rate end. *)

From S2P Require Import Prelude Crypto Registry Discovery Acl Messaging Reliability Billing Hub Relay Agent AgentFacts.
#[local] Open Scope Z_scope.

(** ** Sound stores *)

(** Every DID of the index leads to a record: [GetByDID] never returns nil without an error. *)
Definition store_sound (s : MemoryStore) : Prop := ∀ did id, byDID s !! did = Some id → is_Some (agents s !! id).

Definition sound (a : LocalAgent) : Prop := store_sound (ag_store a) ∧ ag_panicked a = false.

Lemma store_sound_GetByDID s did : store_sound s → GetByDID s did ≠ Ok None.
Proof.
  intros Hs. simpl. unfold MemoryStore_GetByDID. destruct (byDID s !! did) as [id|] eqn:Hid; [|done].
  destruct (Hs _ _ Hid) as [r ->]. done.
Qed.

Lemma store_sound_put s r : store_sound s → store_sound (put_agent s r).
Proof.
  intros Hs did id. unfold put_agent. simpl. case_decide.
  - intros Hid. destruct (decide (id = a_ID r)) as [->|Hne]; [rewrite lookup_insert_eq; eauto |].
    rewrite lookup_insert_ne by done. by apply (Hs did).
  - destruct (decide (did = a_DID r)) as [->|Hd].
    + rewrite lookup_insert_eq. intros [= <-]. rewrite lookup_insert_eq. eauto.
    + rewrite lookup_insert_ne by done. intros Hid.
      destruct (decide (id = a_ID r)) as [->|Hne]; [rewrite lookup_insert_eq; eauto |].
      rewrite lookup_insert_ne by done. by apply (Hs did).
Qed.

Lemma sound_same a b : ag_store b = ag_store a → ag_panicked b = ag_panicked a → sound a → sound b.
Proof. unfold sound. by intros -> ->. Qed.

Section life.
Context `{Runtime} `{Primitives} `{Box} `{RelayCodec} `{AgentCodec}.
Implicit Types (a b : LocalAgent) (e : AgentEnv) (m : Message).

Lemma transport_Send_sound e a t d : sound a → sound (transport_Send e a t d).1.
Proof. unfold transport_Send. by destruct (ae_send e t d). Qed.

Lemma sendMessage_sound e a m : sound a → sound (sendMessage e a m).1 ∧ (sendMessage e a m).2 ≠ Some ErrNilPointer.
Proof.
  intros Ha. unfold sendMessage. destruct (envelope m) as [d|]; [|done].
  unfold findTransportForRecipient. pose proof (store_sound_GetByDID (ag_store a) (To m) (proj1 Ha)) as Hn.
  destruct (GetByDID (ag_store a) (To m)) as [[rec|]|x]; [| done |].
  - destruct (first_connected _ _) as [t|].
    + pose proof (transport_Send_sound e a t d Ha). by destruct (transport_Send e a t d) as [b [|]].
    + unfold relay_or_any. destruct (relay_transport a) as [t|]; [|destruct (any_peer e (ag_peers a)) as [t|]; [|done]];
        pose proof (transport_Send_sound e a t d Ha); by destruct (transport_Send e a t d) as [b [|]].
  - unfold relay_or_any. destruct (relay_transport a) as [t|]; [|destruct (any_peer e (ag_peers a)) as [t|]; [|done]];
      pose proof (transport_Send_sound e a t d Ha); by destruct (transport_Send e a t d) as [b [|]].
Qed.

Lemma encrypt_no_nil e a m : sound a → encryptMessageBody e a m ≠ Err ErrNilPointer.
Proof.
  intros Ha. unfold encryptMessageBody. case_decide; [done |].
  pose proof (store_sound_GetByDID (ag_store a) (To m) (proj1 Ha)) as Hn.
  destruct (GetByDID (ag_store a) (To m)) as [[rec|]|x]; [| done | done].
  destruct (GetEncryptionKey rec); [|done]. by destruct (Encrypt _ _ _ _).
Qed.

Lemma secure_no_nil e a m : sound a → secure e a m ≠ Err ErrNilPointer.
Proof.
  intros Ha. unfold secure. pose proof (encrypt_no_nil e a m Ha).
  destruct (encryptMessageBody e a m) as [m'|[]]; try done; by destruct (cf_RequireEncryption (ag_conf a)).
Qed.

Lemma secure_and_send_sound e a m : sound a → sound (secure_and_send e a m).1.
Proof.
  intros Ha. unfold secure_and_send. pose proof (secure_no_nil e a m Ha).
  destruct (secure e a m) as [m'|[]]; try done.
  destruct (sendMessage_sound e a m' Ha). by destruct (sendMessage e a m').
Qed.

Lemma sendAndWait_begin_sound e a m : sound a → sound (sendAndWait_begin e a m).1.
Proof.
  intros Ha. unfold sendAndWait_begin.
  match goal with |- context [sendMessage e ?r m] => destruct (sendMessage_sound e r m) as [Hs _]; [done |]; destruct (sendMessage e r m) as [b [x|]] end;
    by apply (sound_same b).
Qed.

Lemma CallRelay_sound e a id method params : sound a → sound (CallRelay e a id method params).1.
Proof.
  intros Ha. unfold CallRelay, CallRelay_begin. destruct (p ← _; _) as [d|]; [|done].
  unfold relay_or_any. destruct (relay_transport a) as [t|]; [|destruct (any_peer e (ag_peers a)) as [t|]; [|done]];
    match goal with |- context [transport_Send e ?r t d] =>
      pose proof (transport_Send_sound e r t d) as Hs; destruct (transport_Send e r t d) as [b [|]] end; by apply Hs.
Qed.

Lemma resolvePeer_sound e a did : sound a → sound (resolvePeer e a did).1.
Proof.
  intros Ha. unfold resolvePeer. pose proof (CallRelay_sound e a (uuid_String (ae_fresh e 1)) "relay.discover" None Ha) as Hs.
  destruct (CallRelay _ _ _ _ _) as [b [r|x]]; [|done]. cbn [fst] in Hs.
  destruct (Unmarshal_peers _) as [peers|]; [|done]. destruct (List.find _ _) as [p|]; [|done].
  destruct Hs as [Hs Hp]. split; [|done]. by apply store_sound_put.
Qed.

Lemma sender_record_sound e a from : sound a →
  sound (sender_record e a from).1 ∧ (sender_record e a from).2 ≠ Ok None ∧ (sender_record e a from).2 ≠ Err ErrNilPointer.
Proof.
  intros Ha. unfold sender_record. pose proof (store_sound_GetByDID (ag_store a) from (proj1 Ha)) as Hn.
  destruct (GetByDID (ag_store a) from) as [s|x]; [by split_and!; [| intros [= ->] |] |].
  pose proof (resolvePeer_sound e a from Ha) as Hb. destruct (resolvePeer e a from) as [b [y|]]; [done |]. cbn [fst] in Hb.
  pose proof (store_sound_GetByDID (ag_store b) from (proj1 Hb)) as Hn'.
  destruct (GetByDID (ag_store b) from) as [s|z]; [by split_and!; [| intros [= ->] |] | done].
Qed.

Lemma sendErrorResponse_sound e a t id code text : sound a → sound (sendErrorResponse e a t id code text).
Proof. intros Ha. unfold sendErrorResponse. destruct (Encode_response _); by apply transport_Send_sound. Qed.

Lemma sendErrorToSender_sound e a t req m code text : sound a → sound (sendErrorToSender e a t req m code text).
Proof.
  intros Ha. unfold sendErrorToSender. destruct (is_relay a t); [|by apply sendErrorResponse_sound].
  destruct (NewErrorResponse _ _ _ _ _ _); [by apply sendMessage_sound | done].
Qed.

Lemma answer_sound e a t req m result : sound a → sound (answer e a t req m result).
Proof.
  intros Ha. unfold answer. destruct (is_relay a t).
  - destruct (NewResponse _ _ _ _ _); [by apply sendMessage_sound | done].
  - destruct (match result with None => _ | Some v => _ end); by apply transport_Send_sound.
Qed.

Lemma deliver_pending_sound a id m : sound a → sound (deliver_pending a id m).
Proof. unfold deliver_pending. by destruct (ag_pending a !! id). Qed.

Lemma verify_sound e a m : sound a → sound (verifyMessageSignature e a m).1.
Proof.
  intros Ha. unfold verifyMessageSignature. case_decide; [done |].
  destruct (sender_record_sound e a (From m) Ha) as (Hs & Hn & _). by destruct (sender_record e a (From m)) as [b [[s|]|x]].
Qed.

Lemma decrypt_sound e a m : sound a → sound (decryptMessageBody e a m).1.
Proof.
  intros Ha. unfold decryptMessageBody. destruct (_ || _); [done |].
  destruct (sender_record_sound e a (From m) Ha) as (Hs & Hn & _). by destruct (sender_record e a (From m)) as [b [[s|]|x]].
Qed.

Lemma handle_fresh_sound e a t req m : sound a → sound (handle_fresh e a t req m).
Proof.
  intros Ha. unfold handle_fresh. destruct (_ || _).
  { unfold handleMessageResponse. destruct (CorrelationID m); [by apply deliver_pending_sound | done]. }
  pose proof (verify_sound e a m Ha) as Hv. destruct (verifyMessageSignature e a m) as [b [x|]]; cbn [fst] in Hv.
  { destruct x; by try apply sendErrorToSender_sound. }
  pose proof (decrypt_sound e b m Hv) as Hd. destruct (decryptMessageBody e b m) as [c [m'|x]]; cbn [fst] in Hd.
  2: { destruct x; by try apply sendErrorToSender_sound. }
  destruct (CheckAccess _ _ _); [by apply sendErrorToSender_sound |].
  destruct (find_handler _ _) as [h|]; [|by apply sendErrorToSender_sound].
  destruct (ae_handler _ _ _ _ _); [by apply answer_sound | by apply sendErrorToSender_sound].
Qed.

Lemma handleIncoming_sound e a t data : sound a → sound (handleIncoming e a t data).
Proof.
  intros Ha. unfold handleIncoming. destruct (DecodeRequest data) as [req|].
  - assert (Hreq : sound (handleRequest e a t req)).
    { unfold handleRequest. destruct (parse_message req) as [m|]; [|by apply sendErrorResponse_sound].
      unfold isDuplicateMessage. case_decide; [by apply handle_fresh_sound |].
      destruct (_ !! _); [done |]. by apply handle_fresh_sound. }
    assert (Hnote : sound (handleNotification a req)).
    { assert (∀ method, sound (named_notification a method req)) as Hnamed by (intros method; unfold named_notification; by destruct (_ !! _)).
      unfold handleNotification. repeat case_decide; try exact (Hnamed _).
      - unfold handleRelayAck. destruct (match req_Params req with None => _ | Some p => _ end); [|done]. by destruct (uuid_Parse _).
      - unfold handle_announce. destruct (Unmarshal_announce _) as [msg|]; [|done]. destruct (dm_Agent msg); [|done].
        case_decide; [done |]. destruct Ha. split; [by apply store_sound_put | done].
      - destruct (parse_message req); [|done]. by destruct (find_handler _ _). }
    by destruct (req_ID req).
  - destruct (DecodeResponse data) as [resp|]; [|done]. unfold handleResponse. destruct (rsp_ID resp); try done.
    destruct (_ !! _); [done |]. destruct (uuid_Parse _); [|done]. by apply deliver_pending_sound.
Qed.

(** ** Every operation of a running agent *)

Inductive agent_step : LocalAgent → LocalAgent → Prop :=
| step_receive e a t data : agent_step a (handleIncoming e a t data)
| step_cleanup now a : agent_step a (cleanupDedup now a)
| step_register a method h : agent_step a (RegisterMethod a method h)
| step_on_ack a h : agent_step a (OnDeliveryAck a h)
| step_capability a name text methods : agent_step a (Agent_AddCapability a name text methods)
| step_acl a policy : agent_step a (SetACL a policy)
| step_start now a : agent_step a (Start now a).1
| step_stop now a : agent_step a (Stop now a).1
| step_listen a started : agent_step a (Listen a started).1
| step_connect a addr conn : agent_step a (Connect a addr conn)
| step_accept a id conn : agent_step a (accept_peer a id conn)
| step_drop a addr : agent_step a (drop_peer a addr)
| step_send e a to method params : agent_step a (Send_begin e a to method params).1
| step_send_as e a tenant to method params : agent_step a (SendAs_begin e a tenant to method params).1
| step_wait a m ch done_ b r : sendAndWait_end a m ch done_ = Some (b, r) → agent_step a b
| step_notify e a to method params : agent_step a (Notify e a to method params).1
| step_async e a to method params : agent_step a (SendAsync e a to method params).1
| step_as_async e a tenant to method params : agent_step a (SendAsAsync e a tenant to method params).1
| step_chat e a to body : agent_step a (SendChat e a to body).1
| step_chat_reply e a to thread parent seqNo body : agent_step a (SendChatReply e a to thread parent seqNo body).1
| step_typing e a to thread typing : agent_step a (SendTypingIndicator e a to thread typing).1
| step_receipt e a to id ty stamp : agent_step a (SendReceipt e a to id ty stamp).1
| step_call e a id method params : agent_step a (CallRelay e a id method params).1.

Inductive agent_reachable (a0 : LocalAgent) : LocalAgent → Prop :=
| reach_new : agent_reachable a0 a0
| reach_step a b : agent_reachable a0 a → agent_step a b → agent_reachable a0 b.

Lemma agent_step_sound a b : sound a → agent_step a b → sound b.
Proof.
  intros Ha Hstep. destruct Hstep; try (by apply (sound_same a)).
  - by apply handleIncoming_sound.
  - unfold Start. by destruct (ag_started a).
  - unfold Stop. by destruct (ag_started a).
  - unfold Listen. destruct (ag_listening a); [done |]. case_decide; [done |]. by destruct started.
  - unfold Send_begin. destruct (NewRequest _ _ _ _ _ _ _) as [m|]; [|done]. pose proof (secure_no_nil e a m Ha).
    destruct (secure e a m) as [m'|[]]; try done. pose proof (sendAndWait_begin_sound e a m' Ha). by destruct (sendAndWait_begin e a m') as [b [ch|x]].
  - unfold SendAs_begin. destruct (NewRequest _ _ _ _ _ _ _) as [m|]; [|done].
    pose proof (sendAndWait_begin_sound e a (delegate a tenant m) Ha). by destruct (sendAndWait_begin e a (delegate a tenant m)) as [b [ch|x]].
  - unfold sendAndWait_end in *. destruct (ag_chans a !! ch) as [[[resp|]|]|]; destruct done_; by simplify_eq.
  - unfold Notify. destruct (NewNotification _ _ _ _ _ _ _) as [m|]; [|done].
    pose proof (secure_and_send_sound e a m Ha). by destruct (secure_and_send e a m).
  - unfold SendAsync. destruct (NewRequest _ _ _ _ _ _ _) as [m|]; [|done].
    pose proof (secure_and_send_sound e a (WithRequestAck m) Ha). by destruct (secure_and_send e a (WithRequestAck m)).
  - unfold SendAsAsync. destruct (NewRequest _ _ _ _ _ _ _) as [m|]; [|done].
    pose proof (sendMessage_sound e a (delegate a tenant (WithRequestAck m)) Ha) as [? _]. by destruct (sendMessage e a _).
  - unfold SendChat. destruct (NewChatMessage _ _ _ _ _ _) as [m|]; [by apply secure_and_send_sound | done].
  - unfold SendChatReply. destruct (NewChatReply _ _ _ _ _ _ _ _ _) as [m|]; [by apply secure_and_send_sound | done].
  - by apply sendMessage_sound.
  - by apply sendMessage_sound.
  - by apply CallRelay_sound.
Qed.

(** C30. Whatever a new agent does and whatever frames it receives, every DID in the index of
    its store leads to a record, so that no operation follows a nil pointer: the process does
    not die. *)
Theorem agent_never_panics id now name cfg b :
  agent_reachable (NewLocalAgent id now name cfg) b → ag_panicked b = false ∧ store_sound (ag_store b).
Proof.
  intros Hr. cut (sound b); [by intros [] |].
  induction Hr as [|a b _ IH Hstep]; [by split; [intros did i [=] |] | by apply (agent_step_sound a)].
Qed.

(** ** Stopping releases every waiting call *)

Lemma offer_ne {V} (chans : gmap nat (option V)) ch ch' v : ch ≠ ch' → offer chans ch v !! ch' = chans !! ch'.
Proof. intros Hne. unfold offer. by rewrite lookup_alter_ne. Qed.

Lemma offer_at {V} (chans : gmap nat (option V)) ch v cell :
  chans !! ch = Some cell → offer chans ch v !! ch = Some (Some (default v cell)).
Proof. intros Hc. unfold offer. rewrite lookup_alter_eq, Hc. by destruct cell. Qed.

Lemma offer_full {V} (chans : gmap nat (option V)) ch ch' v x : chans !! ch' = Some (Some x) → offer chans ch v !! ch' = Some (Some x).
Proof.
  intros Hx. destruct (decide (ch = ch')) as [->|Hne]; [|by rewrite offer_ne].
  unfold offer. by rewrite lookup_alter_eq, Hx.
Qed.

Lemma drain_cell {K V} (l : list (K * nat)) (chans : gmap nat (option (option V))) id ch cell :
  (id, ch) ∈ l → chans !! ch = Some cell →
  foldr (λ '(_, ch) chans, offer chans ch None) chans l !! ch = Some (Some (default None cell)).
Proof.
  intros Hin Hc.
  assert (Hgen : ∀ l : list (K * nat), foldr (λ '(_, ch) chans, offer chans ch None) chans l !! ch = Some cell ∨
                      foldr (λ '(_, ch) chans, offer chans ch None) chans l !! ch = Some (Some (default None cell))).
  { clear Hin l. induction l as [|[i c] l IH]; simpl; [by left |].
    destruct (decide (c = ch)) as [->|Hne]; [|by rewrite offer_ne].
    right. destruct IH as [IH|IH]; by rewrite (offer_at _ _ _ _ IH). }
  induction l as [|[i c] l IH]; [set_solver |]. simpl.
  apply elem_of_cons in Hin as [[= <- <-]|Hin].
  - destruct (Hgen l) as [IHl|IHl]; by rewrite (offer_at _ _ _ _ IHl).
  - by apply offer_full, IH.
Qed.

(** Stopping an agent releases every waiting call: each pending request ends, with its
    answer if that had arrived and otherwise with an error, and each pending relay call finds
    its channel filled; nothing stays pending and no connection stays open. *)
Theorem stop_releases_waiters now (a : LocalAgent) : ag_started a = true →
  let b := (Stop now a).1 in
  (∀ m ch cell, ag_pending a !! ID m = Some ch → ag_chans a !! ch = Some cell →
     ∃ c, sendAndWait_end b m ch false = Some (c, match cell with Some (Some resp) => Ok resp | _ => Err ErrCanceled end)) ∧
  (∀ id ch cell, ag_pendingRPC a !! id = Some ch → ag_rpcChans a !! ch = Some cell →
     ag_rpcChans b !! ch = Some (Some (default None cell))) ∧
  ag_pending b = ∅ ∧ ag_pendingRPC b = ∅ ∧ ag_peers b = ∅ ∧ ag_started b = false.
Proof.
  intros Hs. unfold Stop. rewrite Hs. simpl. split_and!; try done.
  - intros m ch cell Hp Hc. unfold sendAndWait_end. simpl.
    rewrite (drain_cell _ _ (ID m) ch cell); [|by apply elem_of_map_to_list | done].
    destruct cell as [[resp|]|]; simpl; eauto.
  - intros id ch cell Hp Hc. apply (drain_cell _ _ id); [by apply elem_of_map_to_list | done].
Qed.

(** ** Calls to the relay end *)

(** The waits before the second and later attempts, and after the last. *)
Definition retry_delays : list Z := [500 * Millisecond; 1 * Second; 2 * Second; 4 * Second; 8 * Second].

Lemma relay_retry_spec call ctxDone fuel : ∀ attempt a,
  let '(b, r, ds) := retry_loop call ctxDone attempt fuel a in
  ds `prefix_of` (retry_delay <$> seq attempt fuel) ∧
  (r = Err ErrAgentRateLimited → ds = retry_delay <$> seq attempt fuel) ∧
  (r ≠ Err ErrAgentRateLimited → r ≠ Err ErrCanceled → (length ds < fuel)%nat ∧ ∃ c, call (attempt + length ds)%nat c = (b, r)).
Proof.
  induction fuel as [|fuel IH]; intros attempt a; simpl; [by split_and!|].
  destruct (call attempt a) as [b [v|x]] eqn:Hcall.
  - split_and!; [apply prefix_nil | done |]. intros _ _. split; [simpl; lia |]. exists a. by rewrite Nat.add_0_r.
  - assert (x = ErrAgentRateLimited ∨ x ≠ ErrAgentRateLimited) as [->|Hx] by (destruct x; auto).
    + destruct (ctxDone attempt).
      * split_and!; [by apply prefix_cons, prefix_nil | done | done].
      * specialize (IH (S attempt) b). destruct (retry_loop call ctxDone (S attempt) fuel b) as [[c r] ds].
        destruct IH as (IH1 & IH2 & IH3). split_and!; [by apply prefix_cons | intros Hr; by rewrite IH2 |].
        intros Hr1 Hr2. destruct (IH3 Hr1 Hr2) as [Hl [d Hd]]. simpl. split; [lia |]. exists d.
        by rewrite Nat.add_succ_r.
    + replace (match x with ErrAgentRateLimited => _ | _ => _ end) with (b, @Err AgentError (option string) x, @nil Z) by (by destruct x).
      split_and!; [apply prefix_nil | congruence |]. intros _ _. simpl. split; [lia |]. exists a. by rewrite Nat.add_0_r.
Qed.

(** A call that the relay's rate limit refuses is tried at most five times, waiting 0.5,
    1, 2 and 4 seconds in between (and 8 seconds more before giving up); it reports the rate
    limit only after all five, and any other result is that of the last attempt, returned
    without waiting. *)
Theorem relay_call_ends envs ids ctxDone a method params :
  let '(b, r, ds) := CallRelayWithRetry envs ids ctxDone a method params in
  ds `prefix_of` retry_delays ∧
  (r = Err ErrAgentRateLimited → ds = retry_delays) ∧
  (r ≠ Err ErrAgentRateLimited → r ≠ Err ErrCanceled →
     (length ds < maxAttempts)%nat ∧
     ∃ c, CallRelay (envs (length ds)) c (ids (length ds)) method params = (b, r)).
Proof.
  unfold CallRelayWithRetry. pose proof (relay_retry_spec (λ k a, CallRelay (envs k) a (ids k) method params) ctxDone maxAttempts 0 a) as Hs.
  destruct (retry_loop _ _ _ _ _) as [[b r] ds]. exact Hs.
Qed.

End life.

(** ** Examples *)

Lemma agent_never_panics_witness :
  let a := NewLocalAgent (uuid_lit 1) 0 "" (ag_conf (agent_example "did:wba:bob" "did:wba:alice" ∅)) in
  let b := (Start 1 a).1 in ag_panicked b = false.
Proof.
  intros a b.
  apply (@agent_never_panics agent_runtime_example primitives_example box_example relay_codec_example agent_codec_example
    (uuid_lit 1) 0 "" (ag_conf (agent_example "did:wba:bob" "did:wba:alice" ∅)) b).
  apply (reach_step _ a); [apply reach_new | apply step_start].
Defined.

Lemma stop_releases_waiters_witness :
  let a := (Start 1 (agent_example "did:wba:bob" "did:wba:alice" ∅)).1 in
  ag_pending (Stop 2 a).1 = ∅ ∧ ag_started (Stop 2 a).1 = false.
Proof.
  intros a. destruct (stop_releases_waiters 2 a) as (_ & _ & Hp & _ & _ & Hs); [reflexivity |]. by split.
Defined.
