(* ===== verification/Tasks.v ===== *)
(** * A2A tasks (src/adapters/a2a/server.go, and the task types of adapter.go)

    The task store with its sessions, expiry and pagination, and the JSON-RPC server over it:
    message/send, message/stream, tasks/get, tasks/list, tasks/cancel and tasks/resubscribe,
    with the streams of a task.  A request whose handler takes time is split where the handler
    runs, so that other requests can come between. *)

From S2P Require Import Prelude.
#[local] Open Scope Z_scope.

(** ** Data *)

Definition TaskStateSubmitted : string := "submitted".
Definition TaskStateWorking : string := "working".
Definition TaskStateInputRequired : string := "input-required".
Definition TaskStateCompleted : string := "completed".
Definition TaskStateFailed : string := "failed".
Definition TaskStateCanceled : string := "canceled".

Definition ErrCodeTaskNotFound : Z := -32001.
Definition ErrCodeTaskNotCancelable : Z := -32002.
Definition ErrCodeInvalidRequest : Z := -32600.
Definition ErrCodeMethodNotFound : Z := -32601.
Definition ErrCodeInternalError : Z := -32603.

Inductive TaskError := ErrTaskNotFound | ErrTaskNotCancelable | ErrSessionNotFound | ErrParams.

#[export] Instance TaskError_eq_dec : EqDecision TaskError.
Proof. solve_decision. Defined.

Record FileData := { fd_Name : string; fd_MimeType : string; fd_Bytes : option string; fd_URI : string }.

Record Part := { pt_Type : string; pt_Text : string; pt_File : option FileData; pt_Data : list (string * any) }.

(** A2A's Message; the nil and the empty metadata map are read alike. *)
Record A2AMessage := { am_Role : string; am_Parts : list Part; am_Metadata : gmap string any }.

Record TaskMessage := { hm_Role : string; hm_Parts : list Part; hm_Metadata : gmap string any }.

Record Artifact := {
  ar_Name : string; ar_Description : string; ar_Index : Z; ar_Parts : list Part; ar_Append : bool; ar_LastChunk : bool;
}.

Record TaskStatus := { ts_State : string; ts_Message : option A2AMessage; ts_Timestamp : option Z }.

Record Task := {
  tk_ID : string;
  tk_SessionID : string;
  tk_Status : TaskStatus;
  tk_History : list TaskMessage;
  tk_Artifacts : list Artifact;
  tk_Metadata : gmap string any;
}.

Definition tk_with (t : Task) (st : TaskStatus) (h : list TaskMessage) (ar : list Artifact) (md : gmap string any) : Task :=
  {| tk_ID := tk_ID t; tk_SessionID := tk_SessionID t; tk_Status := st; tk_History := h; tk_Artifacts := ar; tk_Metadata := md |}.

Record ParticipantPresence := { pp_DID : string; pp_Status : string; pp_LastSeen : Z }.

Record Session := {
  se_ID : string;
  se_Tasks : list string;
  se_CreatedAt : Z;
  se_UpdatedAt : Z;
  se_LastActivityAt : Z;
  se_Participants : gmap string ParticipantPresence;
}.

Definition se_with (s : Session) (tasks : list string) (updated active : Z) (ps : gmap string ParticipantPresence) : Session :=
  {| se_ID := se_ID s; se_Tasks := tasks; se_CreatedAt := se_CreatedAt s; se_UpdatedAt := updated;
     se_LastActivityAt := active; se_Participants := ps |}.

Record TaskStoreConfig := { TaskTTL : Z; CleanupPeriod : Z; MaxHistoryLen : Z; MaxTasksPerSession : Z }.

Definition DefaultTaskStoreConfig : TaskStoreConfig := {|
  TaskTTL := 24 * Hour; CleanupPeriod := 5 * Minute; MaxHistoryLen := 100; MaxTasksPerSession := 1000 |}.

Record TaskStore := {
  st_tasks : gmap string Task;
  st_sessions : gmap string Session;
  st_expiry : gmap string Z;
  st_config : TaskStoreConfig;
}.

Definition st_with (s : TaskStore) (t : gmap string Task) (se : gmap string Session) (ex : gmap string Z) : TaskStore :=
  {| st_tasks := t; st_sessions := se; st_expiry := ex; st_config := st_config s |}.

Definition NewTaskStoreWithConfig (cfg : TaskStoreConfig) : TaskStore :=
  {| st_tasks := ∅; st_sessions := ∅; st_expiry := ∅; st_config := cfg |}.

Definition NewTaskStore : TaskStore := NewTaskStoreWithConfig DefaultTaskStoreConfig.

(** ** Expiry *)

(** The first occurrence is removed. *)
Fixpoint removeString (slice : list string) (s : string) : list string :=
  match slice with
  | [] => []
  | v :: slice' => if decide (v = s) then slice' else v :: removeString slice' s
  end.

Definition remove_from_session (s : TaskStore) (sessionID id : string) : gmap string Session :=
  alter (λ se, se_with se (removeString (se_Tasks se) id) (se_UpdatedAt se) (se_LastActivityAt se) (se_Participants se))
    sessionID (st_sessions s).

(** One iteration of the first loop of [cleanExpired]. *)
Definition clean_one (now : Z) (s : TaskStore) (id : string) : TaskStore :=
  match st_expiry s !! id with
  | None => s
  | Some expiryTime =>
      if expiryTime <? now then
        match st_tasks s !! id with
        | Some task => st_with s (delete id (st_tasks s)) (remove_from_session s (tk_SessionID task) id) (delete id (st_expiry s))
        | None => st_with s (st_tasks s) (st_sessions s) (delete id (st_expiry s))
        end
      else s
  end.

(** [ks] is the order in which the range visits the expiry map. *)
Definition cleanExpired (now : Z) (ks : list string) (s : TaskStore) : TaskStore :=
  let s := foldl (clean_one now) s ks in
  st_with s (st_tasks s) (filter (λ '(_, se), se_Tasks se ≠ []) (st_sessions s)) (st_expiry s).

Definition TaskCount (s : TaskStore) : nat := size (st_tasks s).
Definition SessionCount (s : TaskStore) : nat := size (st_sessions s).

(** ** Tasks *)

Definition new_task (now : Z) (taskID sessionID : string) (message : A2AMessage) : Task := {|
  tk_ID := taskID; tk_SessionID := sessionID;
  tk_Status := {| ts_State := TaskStateSubmitted; ts_Message := None; ts_Timestamp := Some now |};
  tk_History := [{| hm_Role := am_Role message; hm_Parts := am_Parts message; hm_Metadata := ∅ |}];
  tk_Artifacts := []; tk_Metadata := ∅ |}.

(** [taskID] is the fresh UUID text. *)
Definition CreateTask (now : Z) (taskID sessionID : string) (message : A2AMessage) (s : TaskStore) : TaskStore * Task :=
  let task := new_task now taskID sessionID message in
  let tasks := <[taskID := task]> (st_tasks s) in
  let expiry := <[taskID := now + TaskTTL (st_config s)]> (st_expiry s) in
  if decide (sessionID = "") then (st_with s tasks (st_sessions s) expiry, task)
  else
    match st_sessions s !! sessionID with
    | Some session =>
        match bool_decide (MaxTasksPerSession (st_config s) ≤ Z.of_nat (length (se_Tasks session))), se_Tasks session with
        | true, oldestID :: rest =>
            (st_with s (delete oldestID tasks)
               (<[sessionID := se_with session (rest ++ [taskID]) now now (se_Participants session)]> (st_sessions s))
               (delete oldestID expiry), task)
        | _, _ =>
            (st_with s tasks
               (<[sessionID := se_with session (se_Tasks session ++ [taskID]) now now (se_Participants session)]> (st_sessions s))
               expiry, task)
        end
    | None =>
        (st_with s tasks
           (<[sessionID := {| se_ID := sessionID; se_Tasks := [taskID]; se_CreatedAt := now; se_UpdatedAt := now;
                              se_LastActivityAt := now; se_Participants := ∅ |}]> (st_sessions s)) expiry, task)
    end.

Definition GetTask (s : TaskStore) (id : string) : result TaskError Task :=
  match st_tasks s !! id with Some t => Ok t | None => Err ErrTaskNotFound end.

Definition update_task (s : TaskStore) (id : string) (f : Task → Task) : TaskStore * option TaskError :=
  match st_tasks s !! id with
  | None => (s, Some ErrTaskNotFound)
  | Some t => (st_with s (<[id := f t]> (st_tasks s)) (st_sessions s) (st_expiry s), None)
  end.

Definition UpdateTaskStatus (now : Z) (s : TaskStore) (id state : string) (message : option A2AMessage) : TaskStore * option TaskError :=
  match update_task s id (λ t, tk_with t {| ts_State := state; ts_Message := message; ts_Timestamp := Some now |}
                             (tk_History t) (tk_Artifacts t) (tk_Metadata t)) with
  | (s, None) => (st_with s (st_tasks s) (st_sessions s) (<[id := now + TaskTTL (st_config s)]> (st_expiry s)), None)
  | (s, Some e) => (s, Some e)
  end.

(** The last [MaxHistoryLen] messages are kept. *)
Definition limit_history (cfg : TaskStoreConfig) (h : list TaskMessage) : list TaskMessage :=
  if MaxHistoryLen cfg <? Z.of_nat (length h) then drop (Z.to_nat (Z.of_nat (length h) - MaxHistoryLen cfg)) h else h.

Definition AddTaskMessage (s : TaskStore) (id : string) (msg : TaskMessage) : TaskStore * option TaskError :=
  update_task s id (λ t, tk_with t (tk_Status t) (limit_history (st_config s) (tk_History t ++ [msg])) (tk_Artifacts t) (tk_Metadata t)).

Definition AddTaskArtifact (s : TaskStore) (id : string) (artifact : Artifact) : TaskStore * option TaskError :=
  update_task s id (λ t, tk_with t (tk_Status t) (tk_History t) (tk_Artifacts t ++ [artifact]) (tk_Metadata t)).

Definition cancelable (state : string) : bool :=
  bool_decide (state ∈ [TaskStateSubmitted; TaskStateWorking; TaskStateInputRequired]).

Definition CancelTask (now : Z) (s : TaskStore) (id : string) : TaskStore * option TaskError :=
  match st_tasks s !! id with
  | None => (s, Some ErrTaskNotFound)
  | Some t =>
      if cancelable (ts_State (tk_Status t)) then
        update_task s id (λ t, tk_with t {| ts_State := TaskStateCanceled; ts_Message := None; ts_Timestamp := Some now |}
                                 (tk_History t) (tk_Artifacts t) (tk_Metadata t))
      else (s, Some ErrTaskNotCancelable)
  end.

(** The server writes the metadata through the pointer that [CreateTask] returned: a task
    that left the store in between keeps it to itself. *)
Definition set_metadata (s : TaskStore) (id : string) (f : gmap string any → gmap string any) : TaskStore :=
  (update_task s id (λ t, tk_with t (tk_Status t) (tk_History t) (tk_Artifacts t) (f (tk_Metadata t)))).1.

(** ** Sessions *)

Definition GetSession (s : TaskStore) (id : string) : result TaskError Session :=
  match st_sessions s !! id with Some se => Ok se | None => Err ErrSessionNotFound end.

Definition update_session (s : TaskStore) (id : string) (f : Session → Session) : TaskStore * option TaskError :=
  match st_sessions s !! id with
  | None => (s, Some ErrSessionNotFound)
  | Some se => (st_with s (st_tasks s) (<[id := f se]> (st_sessions s)) (st_expiry s), None)
  end.

Definition UpdateParticipantPresence (now : Z) (s : TaskStore) (sessionID did status : string) : TaskStore * option TaskError :=
  update_session s sessionID (λ se, se_with se (se_Tasks se) (se_UpdatedAt se) now
    (<[did := {| pp_DID := did; pp_Status := status; pp_LastSeen := now |}]> (se_Participants se))).

Definition GetParticipantPresence (s : TaskStore) (sessionID did : string) : result TaskError (option ParticipantPresence) :=
  match st_sessions s !! sessionID with None => Err ErrSessionNotFound | Some se => Ok (se_Participants se !! did) end.

Definition GetSessionParticipants (s : TaskStore) (sessionID : string) : result TaskError (gmap string ParticipantPresence) :=
  match st_sessions s !! sessionID with None => Err ErrSessionNotFound | Some se => Ok (se_Participants se) end.

Definition TouchSession (now : Z) (s : TaskStore) (sessionID : string) : TaskStore * option TaskError :=
  update_session s sessionID (λ se, se_with se (se_Tasks se) (se_UpdatedAt se) now (se_Participants se)).

(** ** Listing *)

Record TaskListFilter := { tf_SessionID : string; tf_Status : list string }.
Record TaskListResult := { tl_Tasks : list Task; tl_NextCursor : string; tl_Total : nat }.

Definition matches (f : TaskListFilter) (t : Task) : bool :=
  (bool_decide (tf_SessionID f = "") || bool_decide (tk_SessionID t = tf_SessionID f)) &&
  (bool_decide (tf_Status f = []) || bool_decide (ts_State (tk_Status t) ∈ tf_Status f)).

(** The inner loop of the insertion sort: the element moves left past greater ones; the sorted
    prefix is listed from its end. *)
Fixpoint sink (x : Task) (rprefix : list Task) : list Task :=
  match rprefix with
  | [] => [x]
  | y :: r => if String.ltb (tk_ID x) (tk_ID y) then y :: sink x r else x :: y :: r
  end.

Definition sortTasksByID (tasks : list Task) : list Task := reverse (foldl (λ rprefix x, sink x rprefix) [] tasks).

(** The index after the cursor's task, 0 when it is not there. *)
Fixpoint after_cursor (cursor : string) (l : list Task) (i : nat) : nat :=
  match l with
  | [] => 0
  | t :: l' => if decide (tk_ID t = cursor) then S i else after_cursor cursor l' (S i)
  end.

Definition clamp_limit (limit : Z) : nat :=
  let limit := if limit <=? 0 then 10 else limit in Z.to_nat (if 100 <? limit then 100 else limit).

(** The tasks that match, in the order [ks] of the range over the map. *)
Definition matching (s : TaskStore) (ks : list string) (f : TaskListFilter) : list Task :=
  filter (λ t, matches f t = true) (omap (λ k, st_tasks s !! k) ks).

Definition ListTasks (s : TaskStore) (ks : list string) (f : TaskListFilter) (cursor : string) (limit : Z) : TaskListResult :=
  let limit := clamp_limit limit in
  let sorted := sortTasksByID (matching s ks f) in
  let startIdx := if decide (cursor = "") then 0%nat else after_cursor cursor sorted 0 in
  let endIdx := Nat.min (startIdx + limit) (length sorted) in
  {| tl_Tasks := drop startIdx (take endIdx sorted);
     tl_NextCursor := if (endIdx <? length sorted)%nat
                      then match sorted !! (endIdx - 1)%nat with Some t => tk_ID t | None => "" end else "";
     tl_Total := length sorted |}.

(** ** The server *)

Record StreamEvent := {
  ev_Type : string; ev_Task : option Task; ev_Artifact : option Artifact; ev_Message : option A2AMessage; ev_Final : bool;
}.

Definition status_event (t : option Task) (final : bool) : StreamEvent :=
  {| ev_Type := "status"; ev_Task := t; ev_Artifact := None; ev_Message := None; ev_Final := final |}.

(** A stream is a channel of a hundred events; a send on a closed channel panics. *)
Definition stream_capacity : nat := 100.
Record StreamChan := { sc_Events : list StreamEvent; sc_Closed : bool }.

Record Server := {
  sv_store : TaskStore;
  sv_streams : gmap string nat;
  sv_chans : gmap nat StreamChan;
  sv_next : nat;
  sv_panicked : bool;
}.

Definition server_over (store : TaskStore) : Server :=
  {| sv_store := store; sv_streams := ∅; sv_chans := ∅; sv_next := 0; sv_panicked := false |}.

Definition NewServer : Server := server_over NewTaskStore.

Definition sv_with_store (v : Server) (s : TaskStore) : Server :=
  {| sv_store := s; sv_streams := sv_streams v; sv_chans := sv_chans v; sv_next := sv_next v; sv_panicked := sv_panicked v |}.

Definition sv_with_streams (v : Server) (st : gmap string nat) (ch : gmap nat StreamChan) (n : nat) (p : bool) : Server :=
  {| sv_store := sv_store v; sv_streams := st; sv_chans := ch; sv_next := n; sv_panicked := p |}.

Definition StartStream (v : Server) (taskID : string) : Server * nat :=
  (sv_with_streams v (<[taskID := sv_next v]> (sv_streams v)) (<[sv_next v := {| sc_Events := []; sc_Closed := false |}]> (sv_chans v))
     (S (sv_next v)) (sv_panicked v), sv_next v).

(** [SendStreamEvent] looks the channel up under the lock and sends after releasing it. *)
Definition stream_lookup (v : Server) (taskID : string) : option nat := sv_streams v !! taskID.

Definition stream_send (v : Server) (ch : nat) (ev : StreamEvent) : Server :=
  match sv_chans v !! ch with
  | None => v
  | Some c =>
      if sc_Closed c then sv_with_streams v (sv_streams v) (sv_chans v) (sv_next v) true
      else if bool_decide (length (sc_Events c) < stream_capacity)%nat
      then sv_with_streams v (sv_streams v) (<[ch := {| sc_Events := sc_Events c ++ [ev]; sc_Closed := false |}]> (sv_chans v)) (sv_next v) (sv_panicked v)
      else v
  end.

Definition SendStreamEvent (v : Server) (taskID : string) (ev : StreamEvent) : Server :=
  match stream_lookup v taskID with None => v | Some ch => stream_send v ch ev end.

Definition CloseStream (v : Server) (taskID : string) : Server :=
  match sv_streams v !! taskID with
  | None => v
  | Some ch =>
      sv_with_streams v (delete taskID (sv_streams v))
        (alter (λ c, {| sc_Events := sc_Events c; sc_Closed := true |}) ch (sv_chans v)) (sv_next v) (sv_panicked v)
  end.

Definition IsTerminalState (state : string) : bool :=
  bool_decide (state ∈ [TaskStateCompleted; TaskStateFailed; TaskStateCanceled]).

Definition CompleteTask (now : Z) (v : Server) (taskID state : string) (message : option A2AMessage) : Server * option TaskError :=
  match UpdateTaskStatus now (sv_store v) taskID state message with
  | (_, Some e) => (v, Some e)
  | (s, None) =>
      let v := sv_with_store v s in (if IsTerminalState state then CloseStream v taskID else v, None)
  end.

Record SendMessageParams := { sp_ID : string; sp_SessionID : string; sp_Message : A2AMessage; sp_Metadata : gmap string any }.

Record SendMessageResult := {
  sr_ID : string; sr_SessionID : string; sr_Status : TaskStatus; sr_Artifacts : list Artifact; sr_Metadata : gmap string any;
}.

Definition buildResult (v : Server) (taskID : string) : result TaskError SendMessageResult :=
  match GetTask (sv_store v) taskID with
  | Err e => Err e
  | Ok t => Ok {| sr_ID := tk_ID t; sr_SessionID := tk_SessionID t; sr_Status := tk_Status t; sr_Artifacts := tk_Artifacts t;
                  sr_Metadata := tk_Metadata t |}
  end.

(** What the task handler returns. *)
Abbreviation HandlerResult := (result string (option A2AMessage * list Artifact)).

Definition agent_text (text : string) : A2AMessage :=
  {| am_Role := "agent"; am_Parts := [{| pt_Type := "text"; pt_Text := text; pt_File := None; pt_Data := [] |}]; am_Metadata := ∅ |}.

(** The metadata of a new task: that of the parameters, and the thread of the message. *)
Definition task_metadata (p : SendMessageParams) (md : gmap string any) : gmap string any :=
  let md := sp_Metadata p ∪ md in
  match am_Metadata (sp_Message p) !! "thread_id" with
  | Some (JString threadID) => <["thread_id" := JString threadID]> md
  | _ => md
  end.

(** Up to the handler; [newSession] is a fresh UUID text, used when no session is named. *)
Definition message_send_begin (now : Z) (taskID newSession : string) (v : Server) (p : SendMessageParams) : Server :=
  let sessionID := if decide (sp_SessionID p = "") then newSession else sp_SessionID p in
  let '(s, task) := CreateTask now taskID sessionID (sp_Message p) (sv_store v) in
  let s := set_metadata s (tk_ID task) (task_metadata p) in
  let '(s, _) := UpdateTaskStatus now s (tk_ID task) TaskStateWorking None in
  sv_with_store v s.

Definition add_response (s : TaskStore) (taskID : string) (response : option A2AMessage) : TaskStore :=
  match response with
  | None => s
  | Some r => (AddTaskMessage s taskID {| hm_Role := am_Role r; hm_Parts := am_Parts r; hm_Metadata := ∅ |}).1
  end.

(** From the handler's return on; [None] when no handler is set. *)
Definition message_send_end (now : Z) (v : Server) (taskID : string) (outcome : option HandlerResult)
  : Server * result TaskError SendMessageResult :=
  let v :=
    match outcome with
    | None => (CompleteTask now v taskID TaskStateCompleted None).1
    | Some (Err text) => (CompleteTask now v taskID TaskStateFailed (Some (agent_text text))).1
    | Some (Ok (response, artifacts)) =>
        let s := add_response (sv_store v) taskID response in
        let s := foldl (λ s artifact, (AddTaskArtifact s taskID artifact).1) s artifacts in
        (CompleteTask now (sv_with_store v s) taskID TaskStateCompleted response).1
    end in
  (v, buildResult v taskID).

(** [handler] is given the task as it is then. *)
Definition handleMessageSend (now : Z) (taskID newSession : string) (handler : option (Task → A2AMessage → HandlerResult))
    (v : Server) (params : option SendMessageParams) : Server * result TaskError SendMessageResult :=
  match params with
  | None => (v, Err ErrParams)
  | Some p =>
      let v := message_send_begin now taskID newSession v p in
      message_send_end now v taskID
        (match handler, st_tasks (sv_store v) !! taskID with
         | Some h, Some task => Some (h task (sp_Message p))
         | _, _ => None
         end)
  end.

Definition handleTasksGet (v : Server) (params : option string) : result TaskError Task :=
  match params with None => Err ErrParams | Some id => GetTask (sv_store v) id end.

(** tasks/cancel and tasks/resubscribe answer with the ID and the status. *)
Definition handleTasksCancel (now : Z) (v : Server) (params : option string) : Server * result TaskError (string * TaskStatus) :=
  match params with
  | None => (v, Err ErrParams)
  | Some id =>
      match CancelTask now (sv_store v) id with
      | (_, Some e) => (v, Err e)
      | (s, None) =>
          let v := CloseStream (sv_with_store v s) id in
          (v, match GetTask (sv_store v) id with Ok t => Ok (tk_ID t, tk_Status t) | Err e => Err e end)
      end
  end.

Definition handleTasksResubscribe (v : Server) (params : option string) : result TaskError (string * TaskStatus) :=
  match params with
  | None => Err ErrParams
  | Some id => match GetTask (sv_store v) id with Ok t => Ok (tk_ID t, tk_Status t) | Err e => Err e end
  end.

Record TasksListParams := { lp_ContextID : string; lp_SessionID : string; lp_Status : list string; lp_Cursor : string; lp_Limit : Z }.
Record TaskSummary := { su_ID : string; su_SessionID : string; su_Status : TaskStatus }.
Record TasksListResponse := { lr_Tasks : list TaskSummary; lr_NextCursor : string; lr_Total : nat }.

Definition handleTasksList (v : Server) (ks : list string) (params : option TasksListParams) : result TaskError TasksListResponse :=
  match params with
  | None => Err ErrParams
  | Some p =>
      let sessionID := if decide (lp_ContextID p = "") then lp_SessionID p else lp_ContextID p in
      let r := ListTasks (sv_store v) ks {| tf_SessionID := sessionID; tf_Status := lp_Status p |} (lp_Cursor p) (lp_Limit p) in
      Ok {| lr_Tasks := (λ t, {| su_ID := tk_ID t; su_SessionID := tk_SessionID t; su_Status := tk_Status t |}) <$> tl_Tasks r;
            lr_NextCursor := tl_NextCursor r; lr_Total := tl_Total r |}
  end.

(** ** Requests *)

Inductive A2AParams :=
| PSend (p : option SendMessageParams)
| PGet (id : option string)
| PList (p : option TasksListParams)
| PCancel (id : option string)
| PResubscribe (id : option string)
| PExtendedCard
| PUnknown (method : string).

(** What encoding/json and [DecodeRequest] make of the data: the ID and, for the method, its
    parameters. *)
Class A2ACodec := { Decode_a2a : string → option (any * A2AParams) }.

Inductive A2AResult :=
| RSend (r : SendMessageResult)
| RGet (t : Task)
| RList (r : TasksListResponse)
| RStatus (id : string) (st : TaskStatus)
| RExtendedCard.

Inductive A2AErrorText := TextInvalidRequest | TextUnknownMethod (method : string) | TextTask (e : TaskError).
Inductive A2AReply := ReplyResult (id : any) (r : A2AResult) | ReplyError (id : any) (code : Z) (text : A2AErrorText).

Definition reply_of {A} (id : any) (f : A → A2AResult) (r : result TaskError A) : A2AReply :=
  match r with Ok x => ReplyResult id (f x) | Err e => ReplyError id ErrCodeInternalError (TextTask e) end.

Definition HandleRequest `{A2ACodec} (now : Z) (taskID newSession : string) (ks : list string)
    (handler : option (Task → A2AMessage → HandlerResult)) (v : Server) (data : string) : Server * A2AReply :=
  match Decode_a2a data with
  | None => (v, ReplyError JNull ErrCodeInvalidRequest TextInvalidRequest)
  | Some (id, PSend p) => let '(v, r) := handleMessageSend now taskID newSession handler v p in (v, reply_of id RSend r)
  | Some (id, PGet p) => (v, reply_of id RGet (handleTasksGet v p))
  | Some (id, PList p) => (v, reply_of id RList (handleTasksList v ks p))
  | Some (id, PCancel p) => let '(v, r) := handleTasksCancel now v p in (v, reply_of id (λ '(i, st), RStatus i st) r)
  | Some (id, PResubscribe p) => (v, reply_of id (λ '(i, st), RStatus i st) (handleTasksResubscribe v p))
  | Some (id, PExtendedCard) => (v, ReplyResult id RExtendedCard)
  | Some (id, PUnknown m) => (v, ReplyError id ErrCodeMethodNotFound (TextUnknownMethod m))
  end.

(** ** message/stream *)

(** [send k] tells whether the callback accepts the k-th event; the events offered so far are
    listed. *)
Inductive StreamError := SErrParams | SErrSend | SErrNil.

Definition get_ptr (s : TaskStore) (id : string) : option Task := st_tasks s !! id.

(** The artifacts, numbered and with the last one marked, are stored and sent in turn. *)
Fixpoint send_artifacts (send : nat → bool) (s : TaskStore) (taskID : string) (i total : nat) (artifacts : list Artifact)
    (evs : list StreamEvent) : TaskStore * list StreamEvent * bool :=
  match artifacts with
  | [] => (s, evs, true)
  | a :: artifacts =>
      let a := {| ar_Name := ar_Name a; ar_Description := ar_Description a; ar_Index := Z.of_nat i; ar_Parts := ar_Parts a;
                  ar_Append := ar_Append a; ar_LastChunk := bool_decide (S i = total) |} in
      let s := (AddTaskArtifact s taskID a).1 in
      let evs' := evs ++ [{| ev_Type := "artifact"; ev_Task := None; ev_Artifact := Some a; ev_Message := None; ev_Final := false |}] in
      if send (length evs) then send_artifacts send s taskID (S i) total artifacts evs' else (s, evs', false)
  end.

Definition HandleStreamRequest (now : Z) (taskID newSession : string) (handler : option (Task → A2AMessage → HandlerResult))
    (send : nat → bool) (v : Server) (params : option SendMessageParams) : Server * list StreamEvent * option StreamError :=
  match params with
  | None => (v, [], Some SErrParams)
  | Some p =>
      let sessionID := if decide (sp_SessionID p = "") then newSession else sp_SessionID p in
      let '(s, task) := CreateTask now taskID sessionID (sp_Message p) (sv_store v) in
      let evs := [status_event (Some task) false] in
      if negb (send 0%nat) then (sv_with_store v s, evs, Some SErrSend)
      else
        let s := (UpdateTaskStatus now s taskID TaskStateWorking None).1 in
        let evs := evs ++ [status_event (get_ptr s taskID) false] in
        if negb (send 1%nat) then (sv_with_store v s, evs, Some SErrSend)
        else
          let finish s evs :=
            let evs' := evs ++ [status_event (get_ptr s taskID) true] in
            (sv_with_store v s, evs', if send (length evs) then None else Some SErrSend) in
          match handler, get_ptr s taskID with
          | None, _ => finish (UpdateTaskStatus now s taskID TaskStateCompleted None).1 evs
          | Some h, None => (sv_with_store v s, evs, Some SErrNil)
          | Some h, Some task =>
              match h task (sp_Message p) with
              | Err text => finish (UpdateTaskStatus now s taskID TaskStateFailed (Some (agent_text text))).1 evs
              | Ok (response, artifacts) =>
                  match send_artifacts send s taskID 0 (length artifacts) artifacts evs with
                  | (s, evs, false) => (sv_with_store v s, evs, Some SErrSend)
                  | (s, evs, true) =>
                      let s := add_response s taskID response in
                      finish (UpdateTaskStatus now s taskID TaskStateCompleted response).1 evs
                  end
              end
          end
  end.

(** ** The store stays well formed *)

(** Tasks, expiry times and sessions agree: every task has an expiry time and is listed once
    in its session, sessions list only their own tasks, and the limits hold. *)
Record tasks_wf (s : TaskStore) : Prop := {
  wf_task id t : st_tasks s !! id = Some t → tk_ID t = id ∧ is_Some (st_expiry s !! id) ∧
    Z.of_nat (length (tk_History t)) ≤ MaxHistoryLen (st_config s);
  wf_expiry id : is_Some (st_expiry s !! id) → is_Some (st_tasks s !! id);
  wf_listed id t : st_tasks s !! id = Some t → tk_SessionID t ≠ "" →
    ∃ se, st_sessions s !! tk_SessionID t = Some se ∧ id ∈ se_Tasks se;
  wf_session sid se : st_sessions s !! sid = Some se → se_ID se = sid ∧ NoDup (se_Tasks se) ∧
    Z.of_nat (length (se_Tasks se)) ≤ MaxTasksPerSession (st_config s);
  wf_own sid se id : st_sessions s !! sid = Some se → id ∈ se_Tasks se →
    ∃ t, st_tasks s !! id = Some t ∧ tk_SessionID t = sid;
}.

Lemma wf_new cfg : tasks_wf (NewTaskStoreWithConfig cfg).
Proof. by split; simpl; intros *; rewrite ?lookup_empty; try (intros [? [=]]); intros [=]. Qed.

(** An update that keeps IDs, sessions and the history bound. *)
Lemma wf_update_task s id f : tasks_wf s →
  (∀ t, tk_ID (f t) = tk_ID t ∧ tk_SessionID (f t) = tk_SessionID t ∧
     (Z.of_nat (length (tk_History t)) ≤ MaxHistoryLen (st_config s) → Z.of_nat (length (tk_History (f t))) ≤ MaxHistoryLen (st_config s))) →
  tasks_wf (update_task s id f).1.
Proof.
  intros [W1 W2 W3 W4 W5] Hf. unfold update_task. destruct (st_tasks s !! id) as [t|] eqn:Ht; [|done].
  destruct (Hf t) as (F1 & F2 & F3). split; simpl.
  - intros i u. destruct (decide (i = id)) as [->|Hne]; [rewrite lookup_insert_eq; intros [= <-] | rewrite lookup_insert_ne by done; apply W1].
    destruct (W1 id t Ht) as (? & ? & ?). rewrite F1. auto.
  - intros i Hi. destruct (decide (i = id)) as [->|Hne]; [rewrite lookup_insert_eq; eauto | rewrite lookup_insert_ne by done; by apply W2].
  - intros i u. destruct (decide (i = id)) as [->|Hne]; [rewrite lookup_insert_eq; intros [= <-] | rewrite lookup_insert_ne by done; apply W3].
    rewrite F2. by apply W3.
  - done.
  - intros sid se i Hse Hin. destruct (W5 sid se i Hse Hin) as (u & Hu & Hs).
    destruct (decide (i = id)) as [->|Hne]; [|exists u; by rewrite lookup_insert_ne].
    exists (f t). rewrite lookup_insert_eq. split; [done |]. rewrite F2. congruence.
Qed.

(** A new expiry time for a task that is there. *)
Lemma wf_refresh s id x : tasks_wf s → is_Some (st_tasks s !! id) →
  tasks_wf (st_with s (st_tasks s) (st_sessions s) (<[id := x]> (st_expiry s))).
Proof.
  intros [W1 W2 W3 W4 W5] Hid. split; simpl; try done.
  - intros i t Ht. destruct (W1 i t Ht) as (? & ? & ?). split; [done |]. split; [|done].
    destruct (decide (i = id)) as [->|Hne]; [rewrite lookup_insert_eq; eauto | by rewrite lookup_insert_ne].
  - intros i. destruct (decide (i = id)) as [->|Hne]; [done | rewrite lookup_insert_ne by done; apply W2].
Qed.

Lemma update_task_present s id f : (update_task s id f).2 = None → is_Some (st_tasks (update_task s id f).1 !! id).
Proof. unfold update_task. destruct (st_tasks s !! id); [|done]. intros _. simpl. rewrite lookup_insert_eq. eauto. Qed.

Lemma update_task_config s id f : st_config (update_task s id f).1 = st_config s.
Proof. unfold update_task. by destruct (st_tasks s !! id). Qed.

Lemma wf_UpdateTaskStatus now s id state m : tasks_wf s → tasks_wf (UpdateTaskStatus now s id state m).1.
Proof.
  intros W. unfold UpdateTaskStatus. pose proof (update_task_present s id) as Hp.
  match goal with |- context [update_task s id ?f] =>
    pose proof (wf_update_task s id f W) as Hw; specialize (Hp f); destruct (update_task s id f) as [s' [e|]] end; simpl in *.
  - by apply Hw.
  - apply wf_refresh; [by apply Hw | by apply Hp].
Qed.

Lemma limit_history_length cfg h : 0 ≤ MaxHistoryLen cfg → Z.of_nat (length (limit_history cfg h)) ≤ MaxHistoryLen cfg.
Proof. intros Hm. unfold limit_history. destruct (Z.ltb_spec (MaxHistoryLen cfg) (Z.of_nat (length h))); rewrite ?length_drop; lia. Qed.

Lemma wf_AddTaskMessage s id m : 0 ≤ MaxHistoryLen (st_config s) → tasks_wf s → tasks_wf (AddTaskMessage s id m).1.
Proof. intros Hm W. apply wf_update_task; [done |]. intros t. split_and!; [done..|]. intros _. simpl. by apply limit_history_length. Qed.

Lemma wf_AddTaskArtifact s id a : tasks_wf s → tasks_wf (AddTaskArtifact s id a).1.
Proof. intros W. by apply wf_update_task. Qed.

Lemma wf_CancelTask now s id : tasks_wf s → tasks_wf (CancelTask now s id).1.
Proof.
  intros W. unfold CancelTask. destruct (st_tasks s !! id); [|done]. destruct (cancelable _); [|done]. by apply wf_update_task.
Qed.

Lemma wf_set_metadata s id f : tasks_wf s → tasks_wf (set_metadata s id f).
Proof. intros W. by apply wf_update_task. Qed.

Lemma wf_update_session s id f : tasks_wf s → (∀ se, se_ID (f se) = se_ID se ∧ se_Tasks (f se) = se_Tasks se) →
  tasks_wf (update_session s id f).1.
Proof.
  intros [W1 W2 W3 W4 W5] Hf. unfold update_session. destruct (st_sessions s !! id) as [se|] eqn:Hse; [|done].
  destruct (Hf se) as [F1 F2]. split; simpl; try done.
  - intros i t Ht Hs. destruct (W3 i t Ht Hs) as (u & Hu & Hin).
    destruct (decide (tk_SessionID t = id)) as [Heq|Hne]; [|exists u; by rewrite lookup_insert_ne].
    exists (f se). rewrite Heq in Hu |- *. rewrite lookup_insert_eq. split; [done |]. rewrite F2. by simplify_eq.
  - intros sid u. destruct (decide (sid = id)) as [->|Hne]; [rewrite lookup_insert_eq; intros [= <-] | rewrite lookup_insert_ne by done; apply W4].
    rewrite F1, F2. by apply W4.
  - intros sid u i. destruct (decide (sid = id)) as [->|Hne]; [rewrite lookup_insert_eq; intros [= <-] | rewrite lookup_insert_ne by done; apply W5].
    rewrite F2. by apply W5.
Qed.

Lemma removeString_elem l x y : NoDup l → y ∈ removeString l x ↔ y ∈ l ∧ y ≠ x.
Proof.
  induction 1 as [|v l Hv Hl IH]; simpl; [set_solver |]. case_decide as Hd; subst.
  - split; [intros Hin; split; [by right | intros ->; done] | intros [[->|?]%elem_of_cons ?]; done].
  - rewrite !elem_of_cons, IH. naive_solver.
Qed.

Lemma removeString_sublist l x : removeString l x `sublist_of` l.
Proof. induction l as [|v l IH]; simpl; [done |]. case_decide; [by apply sublist_cons | by apply sublist_skip]. Qed.

(** A new task in no session. *)
Lemma wf_add_alone s id task x : tasks_wf s → st_tasks s !! id = None → tk_ID task = id → tk_SessionID task = "" →
  Z.of_nat (length (tk_History task)) ≤ MaxHistoryLen (st_config s) →
  tasks_wf (st_with s (<[id := task]> (st_tasks s)) (st_sessions s) (<[id := x]> (st_expiry s))).
Proof.
  intros [W1 W2 W3 W4 W5] Hfresh Hid Hsid Hh. split; simpl; try done.
  - intros i t. destruct (decide (i = id)) as [->|Hne].
    + rewrite !lookup_insert_eq. intros [= <-]. eauto.
    + rewrite !lookup_insert_ne by done. apply W1.
  - intros i. destruct (decide (i = id)) as [->|Hne]; [rewrite !lookup_insert_eq; eauto | rewrite !lookup_insert_ne by done; apply W2].
  - intros i t. destruct (decide (i = id)) as [->|Hne]; [rewrite lookup_insert_eq; intros [= <-] | rewrite lookup_insert_ne by done; apply W3].
    done.
  - intros k se i Hse Hin. destruct (W5 k se i Hse Hin) as (t & Ht & ?). exists t. split; [|done].
    rewrite lookup_insert_ne; [done | congruence].
Qed.

Definition session_tasks (s : TaskStore) (sid : string) : list string :=
  match st_sessions s !! sid with Some se => se_Tasks se | None => [] end.

(** A new task at the end of its session's list. *)
Lemma wf_add_listed s id sid se' task x : tasks_wf s → st_tasks s !! id = None → tk_ID task = id → tk_SessionID task = sid →
  Z.of_nat (length (tk_History task)) ≤ MaxHistoryLen (st_config s) →
  se_ID se' = sid → se_Tasks se' = session_tasks s sid ++ [id] →
  Z.of_nat (length (session_tasks s sid)) < MaxTasksPerSession (st_config s) →
  tasks_wf (st_with s (<[id := task]> (st_tasks s)) (<[sid := se']> (st_sessions s)) (<[id := x]> (st_expiry s))).
Proof.
  intros [W1 W2 W3 W4 W5] Hfresh Hid Hsid Hh F1 F2 Hlen.
  assert (Hl : ∀ i, i ∈ session_tasks s sid → i ≠ id ∧ ∃ t, st_tasks s !! i = Some t ∧ tk_SessionID t = sid).
  { intros i. unfold session_tasks. destruct (st_sessions s !! sid) as [se|] eqn:Hse; [|set_solver]. intros Hin.
    destruct (W5 sid se i Hse Hin) as (t & Ht & Hs). split; [congruence | eauto]. }
  assert (Hnd : NoDup (session_tasks s sid)).
  { unfold session_tasks. destruct (st_sessions s !! sid) as [se|] eqn:Hse; [by apply (W4 sid se) | constructor]. }
  split; simpl.
  - intros i t. destruct (decide (i = id)) as [->|Hne].
    + rewrite !lookup_insert_eq. intros [= <-]. eauto.
    + rewrite !lookup_insert_ne by done. apply W1.
  - intros i. destruct (decide (i = id)) as [->|Hne]; [rewrite !lookup_insert_eq; eauto | rewrite !lookup_insert_ne by done; apply W2].
  - intros i t. destruct (decide (i = id)) as [->|Hne].
    + rewrite lookup_insert_eq. intros [= <-] _. rewrite Hsid. exists se'. rewrite lookup_insert_eq, F2. split; [done |].
      apply elem_of_app. right. by left.
    + rewrite lookup_insert_ne by done. intros Ht Hs. destruct (W3 i t Ht Hs) as (se & Hse & Hin).
      destruct (decide (tk_SessionID t = sid)) as [Heq|Hns]; [|exists se; by rewrite lookup_insert_ne].
      exists se'. rewrite Heq, lookup_insert_eq. split; [done |]. rewrite F2. apply elem_of_app. left.
      unfold session_tasks. rewrite Heq in Hse. by rewrite Hse.
  - intros k se. destruct (decide (k = sid)) as [->|Hne]; [rewrite lookup_insert_eq; intros [= <-] | rewrite lookup_insert_ne by done; apply W4].
    rewrite F2. split; [done |]. split; [|rewrite length_app; simpl; lia].
    apply NoDup_app. split; [done |]. split; [|apply NoDup_singleton]. intros i Hi ->%list_elem_of_singleton. by destruct (Hl id Hi).
  - intros k se i. destruct (decide (k = sid)) as [->|Hne].
    + rewrite lookup_insert_eq. intros [= <-]. rewrite F2. intros [Hin| ->%list_elem_of_singleton]%elem_of_app.
      * destruct (Hl i Hin) as (Hi & t & Ht & Hs). exists t. by rewrite lookup_insert_ne.
      * exists task. by rewrite lookup_insert_eq.
    + rewrite lookup_insert_ne by done. intros Hse Hin. destruct (W5 k se i Hse Hin) as (t & Ht & Hs). exists t.
      rewrite lookup_insert_ne; [done | congruence].
Qed.

(** A task leaves the store, its session's list and the expiry map. *)
Lemma wf_remove s id task : tasks_wf s → st_tasks s !! id = Some task →
  tasks_wf (st_with s (delete id (st_tasks s)) (remove_from_session s (tk_SessionID task) id) (delete id (st_expiry s))).
Proof.
  intros [W1 W2 W3 W4 W5] Htask.
  assert (Hse : ∀ k se', remove_from_session s (tk_SessionID task) id !! k = Some se' →
    ∃ se, st_sessions s !! k = Some se ∧ se_ID se' = se_ID se ∧ se_Tasks se' = removeString (se_Tasks se) id).
  { intros k se'. unfold remove_from_session. destruct (decide (k = tk_SessionID task)) as [->|Hne].
    - rewrite lookup_alter_eq. destruct (st_sessions s !! _) as [se|]; [|done]. intros [= <-]. eauto.
    - rewrite lookup_alter_ne by done. intros Hk. exists se'. split; [done |]. split; [done |].
      assert (Hnot : id ∉ se_Tasks se') by (intros Hin; destruct (W5 k se' id Hk Hin) as (t & Ht & ?); congruence).
      clear -Hnot. induction (se_Tasks se') as [|v l IH]; simpl; [done |]. rewrite decide_False by set_solver. f_equal. apply IH. set_solver. }
  assert (Hse' : ∀ k se, st_sessions s !! k = Some se → ∃ se', remove_from_session s (tk_SessionID task) id !! k = Some se').
  { intros k se Hk. unfold remove_from_session. destruct (decide (k = tk_SessionID task)) as [->|Hne];
      [rewrite lookup_alter_eq, Hk; simpl; eauto | rewrite lookup_alter_ne by done; eauto]. }
  split; simpl.
  - intros i t [Hne Ht]%lookup_delete_Some. rewrite lookup_delete_ne by done. by apply W1.
  - intros i [x [Hne Hx]%lookup_delete_Some]. rewrite lookup_delete_ne by done. apply W2. eauto.
  - intros i t [Hne Ht]%lookup_delete_Some Hs. destruct (W3 i t Ht Hs) as (se & Hk & Hin).
    destruct (Hse' _ _ Hk) as [se' Hk']. exists se'. split; [done |].
    destruct (Hse _ _ Hk') as (u & Hu & _ & ->). simplify_eq. apply removeString_elem; [by apply (W4 _ _ Hk) | done].
  - intros k se' Hk'. destruct (Hse k se' Hk') as (se & Hk & -> & ->). destruct (W4 k se Hk) as (? & Hnd & Hlen).
    pose proof (removeString_sublist (se_Tasks se) id) as Hsub. split; [done |]. split; [by apply (sublist_NoDup _ (se_Tasks se)) |].
    apply sublist_length in Hsub. lia.
  - intros k se' i Hk' Hin. destruct (Hse k se' Hk') as (se & Hk & _ & Heq). rewrite Heq in Hin.
    apply removeString_elem in Hin as [Hin Hne]; [|by apply (W4 k se)].
    destruct (W5 k se i Hk Hin) as (t & Ht & ?). exists t. by rewrite lookup_delete_ne.
Qed.

Lemma wf_CreateTask now id sid m s : tasks_wf s → st_tasks s !! id = None →
  1 ≤ MaxHistoryLen (st_config s) → 1 ≤ MaxTasksPerSession (st_config s) → tasks_wf (CreateTask now id sid m s).1.
Proof.
  intros W Hfresh Hh Hm. unfold CreateTask. case_decide as Hsid; [by apply wf_add_alone |].
  destruct (st_sessions s !! sid) as [se|] eqn:Hse.
  2: { apply wf_add_listed; try done; unfold session_tasks; rewrite Hse; [done | simpl; lia]. }
  destruct (wf_session s W sid se Hse) as (F1 & Hnd & Hlen).
  case_bool_decide as Hfull; [destruct (se_Tasks se) as [|oldest rest] eqn:Hts |]; simpl in Hlen.
  - simpl in Hfull. lia.
  - simpl. destruct (wf_own s W sid se oldest Hse) as (old & Hold & Hos); [rewrite Hts; by left |].
    assert (oldest ≠ id) by congruence.
    pose proof (wf_remove s oldest old W Hold) as W'. set (s' := st_with s _ _ _) in W'.
    assert (Hst : session_tasks s' sid = rest).
    { unfold session_tasks, s', remove_from_session. simpl. rewrite Hos, lookup_alter_eq, Hse. simpl. rewrite Hts. simpl. by rewrite decide_True. }
    pose proof (wf_add_listed s' id sid (se_with se (rest ++ [id]) now now (se_Participants se)) (new_task now id sid m) (now + TaskTTL (st_config s)) W') as Hadd.
    simpl in Hadd. rewrite <- !delete_insert_ne in Hadd by done. unfold remove_from_session in Hadd. rewrite Hos in Hadd.
    replace (<[sid := _]> (alter _ sid (st_sessions s))) with (<[sid := se_with se (rest ++ [id]) now now (se_Participants se)]> (st_sessions s)) in Hadd.
    2: { apply map_eq. intros k. destruct (decide (k = sid)) as [->|]; [by rewrite !lookup_insert_eq | by rewrite !lookup_insert_ne, lookup_alter_ne]. }
    apply Hadd; try done; [by rewrite lookup_delete_ne | by rewrite Hst | rewrite Hst; lia].
  - apply wf_add_listed; try done; unfold session_tasks; rewrite Hse; [done | lia].
Qed.

Lemma wf_clean_one now s id : tasks_wf s → tasks_wf (clean_one now s id).
Proof.
  intros W. unfold clean_one. destruct (st_expiry s !! id) as [x|] eqn:Hx; [|done]. destruct (x <? now); [|done].
  destruct (wf_expiry s W id) as [t Ht]; [eauto |]. rewrite Ht. by apply wf_remove.
Qed.

Lemma wf_cleanExpired now ks s : tasks_wf s → tasks_wf (cleanExpired now ks s).
Proof.
  intros W. unfold cleanExpired.
  assert (W' : tasks_wf (foldl (clean_one now) s ks)).
  { revert s W. induction ks as [|k ks IH]; intros s W; simpl; [done |]. by apply IH, wf_clean_one. }
  set (s' := foldl _ s ks) in *. destruct W' as [W1 W2 W3 W4 W5]. split; simpl; try done.
  - intros i t Ht Hs. destruct (W3 i t Ht Hs) as (se & Hse & Hin). exists se. split; [|done].
    apply map_lookup_filter_Some. split; [done |]. intros Hnil. rewrite Hnil in Hin. set_solver.
  - intros k se [Hse _]%map_lookup_filter_Some. by apply W4.
  - intros k se i [Hse _]%map_lookup_filter_Some. by apply W5.
Qed.

(** ** Listing: sorted, and page by page *)

Definition string_le (a b : string) : Prop := String.compare a b ≠ Gt.

Lemma ltb_false a b : String.ltb a b = false ↔ string_le b a.
Proof.
  unfold String.ltb, string_le. rewrite (String.compare_antisym b a). destruct (String.compare a b); simpl; split; done.
Qed.

Lemma ltb_true a b : String.ltb a b = true → string_le a b.
Proof. unfold String.ltb, string_le. by destruct (String.compare a b). Qed.

Lemma ascii_compare_N c d : Ascii.compare c d = N.compare (Ascii.N_of_ascii c) (Ascii.N_of_ascii d).
Proof. reflexivity. Qed.

Lemma string_le_trans a b c : string_le a b → string_le b c → string_le a c.
Proof.
  unfold string_le. revert b c. induction a as [|x a IH]; intros [|y b] [|z c]; simpl; try done.
  rewrite !ascii_compare_N.
  destruct (N.compare_spec (Ascii.N_of_ascii x) (Ascii.N_of_ascii y)) as [Hxy|Hxy|Hxy]; [| |done];
    destruct (N.compare_spec (Ascii.N_of_ascii y) (Ascii.N_of_ascii z)) as [Hyz|Hyz|Hyz]; try done;
    destruct (N.compare_spec (Ascii.N_of_ascii x) (Ascii.N_of_ascii z)) as [Hxz|Hxz|Hxz]; try done; try lia.
  apply IH.
Qed.

Lemma string_le_antisym a b : string_le a b → string_le b a → a = b.
Proof.
  unfold string_le. intros H1 H2. apply String.compare_eq_iff. rewrite String.compare_antisym in H2.
  by destruct (String.compare a b).
Qed.

Definition id_le : relation Task := λ t u, string_le (tk_ID t) (tk_ID u).

Lemma sink_Permutation x l : sink x l ≡ₚ x :: l.
Proof. induction l as [|y l IH]; simpl; [done |]. destruct (String.ltb _ _); [|done]. rewrite IH. constructor. Qed.

Lemma sink_sorted x l : StronglySorted (flip id_le) l → StronglySorted (flip id_le) (sink x l).
Proof.
  induction 1 as [|y l Hl IH Hy]; simpl; [by repeat constructor |].
  destruct (String.ltb (tk_ID x) (tk_ID y)) eqn:Hlt.
  - constructor; [done |]. rewrite sink_Permutation. constructor; [by apply ltb_true | done].
  - apply ltb_false in Hlt. constructor; [by constructor |]. constructor; [done |].
    eapply Forall_impl; [exact Hy |]. intros z Hz. unfold flip, id_le in *. by eapply string_le_trans.
Qed.

Lemma sort_loop l : ∀ r, StronglySorted (flip id_le) r →
  StronglySorted (flip id_le) (foldl (λ r x, sink x r) r l) ∧ foldl (λ r x, sink x r) r l ≡ₚ l ++ r.
Proof.
  induction l as [|x l IH]; intros r Hr; simpl; [done |].
  destruct (IH (sink x r) (sink_sorted x r Hr)) as [H1 H2]. split; [done |].
  rewrite H2, sink_Permutation. symmetry. apply Permutation_middle.
Qed.

Lemma StronglySorted_flip_reverse {A} (R : relation A) l : StronglySorted (flip R) l → StronglySorted R (reverse l).
Proof.
  induction 1 as [|x l Hl IH Hx]; [constructor |]. rewrite reverse_cons. apply StronglySorted_app.
  split_and!; [|done|by repeat constructor]. intros y z Hy ->%list_elem_of_singleton.
  rewrite Forall_forall in Hx. apply Hx. by apply elem_of_reverse.
Qed.

Lemma sortTasksByID_spec l : sortTasksByID l ≡ₚ l ∧ StronglySorted id_le (sortTasksByID l).
Proof.
  unfold sortTasksByID. destruct (sort_loop l []) as [H1 H2]; [constructor |].
  rewrite app_nil_r in H2. split; [by rewrite reverse_Permutation | by apply StronglySorted_flip_reverse].
Qed.

(** The matching tasks in the order of their IDs. *)
Definition selected (s : TaskStore) (f : TaskListFilter) : list Task := sortTasksByID (matching s (keys_of (st_tasks s)) f).

Lemma elem_of_matching s ks f t : tasks_wf s → RangeOrder (st_tasks s) ks →
  t ∈ matching s ks f ↔ st_tasks s !! tk_ID t = Some t ∧ matches f t = true.
Proof.
  intros W Hord. unfold matching. rewrite list_elem_of_filter, list_elem_of_omap. split.
  - intros [Hm (k & _ & Hk)]. destruct (wf_task s W k t Hk) as [-> _]. done.
  - intros [Ht Hm]. split; [done |]. exists (tk_ID t). split; [|done].
    apply (range_order_elem_of _ _ _ Hord). eauto.
Qed.

Lemma matching_NoDup s ks f : tasks_wf s → RangeOrder (st_tasks s) ks → NoDup (tk_ID <$> matching s ks f).
Proof.
  intros W Hord. pose proof (range_order_NoDup _ _ Hord) as Hnd. unfold matching. clear Hord.
  assert (Hgen : NoDup (tk_ID <$> omap (λ k, st_tasks s !! k) ks) ∧ ∀ i, i ∈ tk_ID <$> omap (λ k, st_tasks s !! k) ks → i ∈ ks).
  { induction Hnd as [|k ks Hk Hnd [IH1 IH2]]; simpl; [by split; [constructor |] |].
    destruct (st_tasks s !! k) as [t|] eqn:Ht; [|split; [done | intros i Hi; right; by apply IH2]].
    destruct (wf_task s W k t Ht) as [Hid _]. simpl. rewrite Hid. split.
    - constructor; [|done]. intros Hin. by apply Hk, IH2.
    - intros i [->|Hi]%elem_of_cons; [by left | right; by apply IH2]. }
  destruct Hgen as [Hn _]. eapply sublist_NoDup; [exact Hn |]. apply fmap_sublist, sublist_filter.
Qed.

(** The order of the range does not show. *)
Lemma sorted_matching s ks f : tasks_wf s → RangeOrder (st_tasks s) ks → sortTasksByID (matching s ks f) = selected s f.
Proof.
  intros W Hord. destruct (sortTasksByID_spec (matching s ks f)) as [P1 S1]. destruct (sortTasksByID_spec (matching s (keys_of (st_tasks s)) f)) as [P2 S2].
  assert (Hperm : matching s ks f ≡ₚ matching s (keys_of (st_tasks s)) f).
  { unfold matching. apply filter_Permutation, omap_Permutation. by rewrite Hord. }
  apply (StronglySorted_unique_strong id_le); try done; [|unfold selected; by rewrite P1, P2].
  intros x y Hx Hy Hxy Hyx. rewrite P1 in Hx. unfold selected in Hy. rewrite P2 in Hy.
  apply (elem_of_matching s ks f x W Hord) in Hx as [Hx _].
  apply (elem_of_matching s _ f y W (keys_of_RangeOrder _)) in Hy as [Hy _].
  pose proof (string_le_antisym _ _ Hxy Hyx) as Heq. congruence.
Qed.

Lemma after_cursor_spec l : ∀ k j t, NoDup (tk_ID <$> l) → l !! j = Some t → after_cursor (tk_ID t) l k = S (k + j).
Proof.
  induction l as [|u l IH]; intros k j t Hnd Hj; [done |]. simpl in *. apply NoDup_cons in Hnd as [Hu Hnd].
  destruct j as [|j]; simpl in Hj.
  - injection Hj as ->. rewrite decide_True by done. f_equal. lia.
  - rewrite decide_False.
    + rewrite (IH (S k) j t Hnd Hj). lia.
    + intros Heq. apply Hu. rewrite Heq. apply list_elem_of_fmap. exists t. split; [done |]. by eapply list_elem_of_lookup_2.
Qed.

Lemma clamp_limit_bounds limit : (1 ≤ clamp_limit limit ≤ 100)%nat.
Proof. unfold clamp_limit. destruct (Z.leb_spec limit 0); destruct (Z.ltb_spec 100 limit); simpl; lia. Qed.

(** A client that follows the cursors; [order n] is the order of the range in the call made
    with [n] calls left. *)
Fixpoint list_pages (order : nat → list string) (s : TaskStore) (f : TaskListFilter) (limit : Z) (fuel : nat) (cursor : string) : list Task :=
  match fuel with
  | O => []
  | S n =>
      let r := ListTasks s (order n) f cursor limit in
      tl_Tasks r ++ (if decide (tl_NextCursor r = "") then [] else list_pages order s f limit n (tl_NextCursor r))
  end.

Lemma selected_NoDup s f : tasks_wf s → NoDup (tk_ID <$> selected s f).
Proof.
  intros W. unfold selected. destruct (sortTasksByID_spec (matching s (keys_of (st_tasks s)) f)) as [P _]. rewrite P.
  apply matching_NoDup; [done | apply _].
Qed.

Lemma list_pages_from order s f limit : tasks_wf s → (∀ n, RangeOrder (st_tasks s) (order n)) →
  (∀ id, is_Some (st_tasks s !! id) → id ≠ "") → ∀ fuel cursor i,
  (if decide (cursor = "") then 0%nat else after_cursor cursor (selected s f) 0) = i →
  (length (selected s f) - i < fuel)%nat → list_pages order s f limit fuel cursor = drop i (selected s f).
Proof.
  intros W Hord Hne. induction fuel as [|n IH]; intros cursor i Hi Hlen; [lia |]. cbn [list_pages].
  unfold ListTasks. rewrite (sorted_matching s (order n) f) by done. rewrite Hi.
  set (L := selected s f) in *. cbn [tl_Tasks tl_NextCursor].
  pose proof (clamp_limit_bounds limit) as Hlim. set (lim := clamp_limit limit) in *.
  destruct (Nat.ltb_spec (Nat.min (i + lim) (length L)) (length L)) as [Hlt|Hge].
  - replace (Nat.min (i + lim) (length L)) with (i + lim)%nat in * by lia.
    destruct (lookup_lt_is_Some_2 L (i + lim - 1)%nat) as [t Ht]; [lia |]. rewrite Ht.
    assert (Htid : st_tasks s !! tk_ID t = Some t).
    { apply list_elem_of_lookup_2 in Ht. unfold L, selected in Ht.
      destruct (sortTasksByID_spec (matching s (keys_of (st_tasks s)) f)) as [P _]. rewrite P in Ht.
      by apply (elem_of_matching s _ f t W (keys_of_RangeOrder _)) in Ht as [? _]. }
    assert (tk_ID t ≠ "") by (apply Hne; eauto). rewrite decide_False by done.
    rewrite (IH (tk_ID t) (i + lim)%nat).
    + apply drop_take_drop. lia.
    + rewrite decide_False by done. rewrite (after_cursor_spec L 0 (i + lim - 1) t) by (done || by apply selected_NoDup). lia.
    + lia.
  - replace (Nat.min (i + lim) (length L)) with (length L) in * by lia.
    rewrite decide_True by done. rewrite app_nil_r. by rewrite take_ge.
Qed.

(** Paging through a task list: starting without a cursor and following the cursors, with
    any limit and whatever order the map is walked in, yields every task of the store that
    matches the filter, exactly once and in the order of their IDs, in pages of at most a
    hundred; as many calls as there are tasks and one more are enough. *)
Theorem list_pages_enumerate order s f limit : tasks_wf s → (∀ n, RangeOrder (st_tasks s) (order n)) →
  (∀ id, is_Some (st_tasks s !! id) → id ≠ "") →
  let l := list_pages order s f limit (S (size (st_tasks s))) "" in
  (∀ t, t ∈ l ↔ st_tasks s !! tk_ID t = Some t ∧ matches f t = true) ∧
  NoDup (tk_ID <$> l) ∧ StronglySorted id_le l ∧
  (∀ n cursor, (length (tl_Tasks (ListTasks s (order n) f cursor limit)) ≤ 100)%nat ∧
               tl_Total (ListTasks s (order n) f cursor limit) = length l).
Proof.
  intros W Hord Hne. cbn zeta.
  assert (Hall : list_pages order s f limit (S (size (st_tasks s))) "" = selected s f).
  { rewrite (list_pages_from order s f limit W Hord Hne _ _ 0%nat); [done | done |].
    assert (length (selected s f) ≤ size (st_tasks s))%nat; [|lia].
    unfold selected. destruct (sortTasksByID_spec (matching s (keys_of (st_tasks s)) f)) as [P _]. rewrite P.
    rewrite <- (length_fmap tk_ID (matching _ _ _)).
    replace (size (st_tasks s)) with (length (keys_of (st_tasks s))) by (unfold keys_of; by rewrite length_fmap, length_map_to_list).
    apply submseteq_length, NoDup_submseteq; [apply matching_NoDup; [done | apply _] |].
    intros i (t & -> & Ht)%list_elem_of_fmap. apply (elem_of_matching s _ f t W (keys_of_RangeOrder _)) in Ht as [Ht _].
    apply (range_order_elem_of (st_tasks s)); [apply _ | eauto]. }
  rewrite Hall. split_and!.
  - intros t. unfold selected. destruct (sortTasksByID_spec (matching s (keys_of (st_tasks s)) f)) as [P _]. rewrite P.
    apply elem_of_matching; [done | apply _].
  - by apply selected_NoDup.
  - unfold selected. apply sortTasksByID_spec.
  - intros n cursor. unfold ListTasks. rewrite (sorted_matching s (order n) f) by done. cbn [tl_Tasks tl_Total].
    split; [|done]. pose proof (clamp_limit_bounds limit). rewrite length_drop, length_take. lia.
Qed.

(** ** Every step of the server *)

Definition good (cfg : TaskStoreConfig) (s : TaskStore) : Prop := tasks_wf s ∧ st_config s = cfg.

Section good.
Context (cfg : TaskStoreConfig) (Hhist : 1 ≤ MaxHistoryLen cfg) (Hsess : 1 ≤ MaxTasksPerSession cfg).

Lemma good_status now s id state m : good cfg s → good cfg (UpdateTaskStatus now s id state m).1.
Proof.
  intros [W C]. split; [by apply wf_UpdateTaskStatus |]. unfold UpdateTaskStatus.
  match goal with |- context [update_task s id ?f] => pose proof (update_task_config s id f); by destruct (update_task s id f) as [? [?|]]; simplify_eq/= end.
Qed.

Lemma good_message s id m : good cfg s → good cfg (AddTaskMessage s id m).1.
Proof. intros [W C]. split; [apply wf_AddTaskMessage; [rewrite C; lia | done] | by unfold AddTaskMessage; rewrite update_task_config]. Qed.

Lemma good_artifact s id a : good cfg s → good cfg (AddTaskArtifact s id a).1.
Proof. intros [W C]. split; [by apply wf_AddTaskArtifact | by unfold AddTaskArtifact; rewrite update_task_config]. Qed.

Lemma good_cancel now s id : good cfg s → good cfg (CancelTask now s id).1.
Proof.
  intros [W C]. split; [by apply wf_CancelTask |]. unfold CancelTask. destruct (st_tasks s !! id); [|done].
  destruct (cancelable _); [by rewrite update_task_config | done].
Qed.

Lemma good_metadata s id f : good cfg s → good cfg (set_metadata s id f).
Proof. intros [W C]. split; [by apply wf_set_metadata | by unfold set_metadata; rewrite update_task_config]. Qed.

Lemma good_create now id sid m s : good cfg s → st_tasks s !! id = None → good cfg (CreateTask now id sid m s).1.
Proof.
  intros [W C] Hf. split; [apply wf_CreateTask; by rewrite ?C |]. unfold CreateTask. case_decide; [done |].
  destruct (st_sessions s !! sid) as [se|]; [|done]. by destruct (bool_decide _), (se_Tasks se).
Qed.

Lemma good_session s id f : (∀ se, se_ID (f se) = se_ID se ∧ se_Tasks (f se) = se_Tasks se) → good cfg s → good cfg (update_session s id f).1.
Proof.
  intros Hf [W C]. split; [by apply wf_update_session |]. unfold update_session. by destruct (st_sessions s !! id).
Qed.

Lemma good_clean now ks s : good cfg s → good cfg (cleanExpired now ks s).
Proof.
  intros [W C]. split; [by apply wf_cleanExpired |]. simpl. revert s W C. induction ks as [|k ks IH]; intros s W C; simpl; [done |].
  apply IH; [by apply wf_clean_one |]. unfold clean_one. destruct (st_expiry s !! k); [|done]. destruct (_ <? _); [|done]. by destruct (st_tasks s !! k).
Qed.

Lemma good_response s id r : good cfg s → good cfg (add_response s id r).
Proof. unfold add_response. destruct r; [apply good_message | done]. Qed.

Lemma good_artifacts s id l : good cfg s → good cfg (foldl (λ s a, (AddTaskArtifact s id a).1) s l).
Proof. revert s. induction l as [|a l IH]; intros s Hs; simpl; [done |]. by apply IH, good_artifact. Qed.

Lemma CloseStream_store v id : sv_store (CloseStream v id) = sv_store v.
Proof. unfold CloseStream. by destruct (sv_streams v !! id). Qed.

Lemma good_complete now v id state m : good cfg (sv_store v) → good cfg (sv_store (CompleteTask now v id state m).1).
Proof.
  intros Hg. unfold CompleteTask. pose proof (good_status now (sv_store v) id state m Hg).
  destruct (UpdateTaskStatus _ _ _ _ _) as [s [e|]]; [done |]. simpl. destruct (IsTerminalState state); [by rewrite CloseStream_store | done].
Qed.

Lemma good_begin now id ns v p : good cfg (sv_store v) → st_tasks (sv_store v) !! id = None → good cfg (sv_store (message_send_begin now id ns v p)).
Proof.
  intros Hg Hf. unfold message_send_begin.
  pose proof (good_create now id (if decide (sp_SessionID p = "") then ns else sp_SessionID p) (sp_Message p) (sv_store v) Hg Hf) as Hc.
  destruct (CreateTask _ _ _ _ _) as [s task]. pose proof (good_metadata s (tk_ID task) (task_metadata p) Hc) as Hm.
  pose proof (good_status now _ (tk_ID task) TaskStateWorking None Hm). by destruct (UpdateTaskStatus _ _ _ _ _).
Qed.

Lemma good_end now v id outcome : good cfg (sv_store v) → good cfg (sv_store (message_send_end now v id outcome).1).
Proof.
  intros Hg. unfold message_send_end. simpl. destruct outcome as [[[r l]|text]|]; apply good_complete; try done.
  simpl. by apply good_artifacts, good_response.
Qed.

Lemma good_message_send now id ns h v p : good cfg (sv_store v) → st_tasks (sv_store v) !! id = None →
  good cfg (sv_store (handleMessageSend now id ns h v p).1).
Proof. intros Hg Hf. unfold handleMessageSend. destruct p as [p|]; [|done]. by apply good_end, good_begin. Qed.

Lemma send_artifacts_good send s id i n l evs : good cfg s → good cfg (send_artifacts send s id i n l evs).1.1.
Proof.
  revert s i evs. induction l as [|a l IH]; intros s i evs Hg; simpl; [done |].
  destruct (send (length evs)); [apply IH |]; by apply good_artifact.
Qed.

Lemma good_stream now id ns h send v p : good cfg (sv_store v) → st_tasks (sv_store v) !! id = None →
  good cfg (sv_store (HandleStreamRequest now id ns h send v p).1.1).
Proof.
  intros Hg Hf. unfold HandleStreamRequest. destruct p as [p|]; [|done].
  pose proof (good_create now id (if decide (sp_SessionID p = "") then ns else sp_SessionID p) (sp_Message p) (sv_store v) Hg Hf) as Hc.
  destruct (CreateTask _ _ _ _ _) as [s task]. simpl in Hc. destruct (negb (send 0%nat)); [done |].
  pose proof (good_status now s id TaskStateWorking None Hc) as Hw. set (s1 := (UpdateTaskStatus _ _ _ _ _).1) in *. clearbody s1.
  destruct (negb (send 1%nat)); [done |].
  destruct h as [h|]; [|by apply good_status]. destruct (get_ptr s1 id) as [t|]; [|done].
  destruct (h t (sp_Message p)) as [[r l]|text]; [|by apply good_status].
  match goal with |- context [send_artifacts ?a ?b ?c ?d ?n ?l ?ev] => pose proof (send_artifacts_good a b c d n l ev Hw) as Ha; destruct (send_artifacts a b c d n l ev) as [[s2 evs] [|]] end;
    simpl in *; [|done]. by apply good_status, good_response.
Qed.

Inductive server_step : Server → Server → Prop :=
| sstep_begin now id ns v p : st_tasks (sv_store v) !! id = None → server_step v (message_send_begin now id ns v p)
| sstep_end now v id outcome : server_step v (message_send_end now v id outcome).1
| sstep_stream_request now id ns h send v p : st_tasks (sv_store v) !! id = None →
    server_step v (HandleStreamRequest now id ns h send v p).1.1
| sstep_request `{A2ACodec} now id ns ks h v data : st_tasks (sv_store v) !! id = None →
    server_step v (HandleRequest now id ns ks h v data).1
| sstep_clean now ks v : server_step v (sv_with_store v (cleanExpired now ks (sv_store v)))
| sstep_status now v id state m : server_step v (sv_with_store v (UpdateTaskStatus now (sv_store v) id state m).1)
| sstep_complete now v id state m : server_step v (CompleteTask now v id state m).1
| sstep_presence now v sid did st : server_step v (sv_with_store v (UpdateParticipantPresence now (sv_store v) sid did st).1)
| sstep_touch now v sid : server_step v (sv_with_store v (TouchSession now (sv_store v) sid).1)
| sstep_stream_start v id : server_step v (StartStream v id).1
| sstep_stream_send v ch ev : server_step v (stream_send v ch ev)
| sstep_stream_close v id : server_step v (CloseStream v id).

Inductive server_reachable : Server → Prop :=
| sreach_new : server_reachable (server_over (NewTaskStoreWithConfig cfg))
| sreach_step v w : server_reachable v → server_step v w → server_reachable w.

Lemma server_step_good v w : good cfg (sv_store v) → server_step v w → good cfg (sv_store w).
Proof.
  intros Hg Hstep. destruct Hstep.
  - by apply good_begin.
  - by apply good_end.
  - by apply good_stream.
  - unfold HandleRequest. destruct (Decode_a2a data) as [[rid [p|p|p|p|p| |mth]]|]; try done.
    + pose proof (good_message_send now id ns h v p Hg) as Hs. destruct (handleMessageSend now id ns h v p); by apply Hs.
    + unfold handleTasksCancel. destruct p as [i|]; [|done]. pose proof (good_cancel now (sv_store v) i Hg) as Hc.
      destruct (CancelTask _ _ _) as [s [e|]]; simpl in *; [done |]. by rewrite CloseStream_store.
  - by apply good_clean.
  - by apply good_status.
  - by apply good_complete.
  - by apply good_session.
  - by apply good_session.
  - done.
  - unfold stream_send. destruct (sv_chans v !! ch) as [c|]; [|done]. destruct (sc_Closed c); [done |]. by destruct (bool_decide _).
  - by rewrite CloseStream_store.
Qed.

(** C15. Under every interleaving of requests, handler returns, expiry and stream operations
    the task store stays consistent: every task has an expiry time, is listed exactly once in
    its session and nowhere else, sessions list only tasks that exist, no session exceeds its
    limit of tasks and no task its limit of history. *)
Theorem task_store_consistent v : server_reachable v →
  tasks_wf (sv_store v) ∧
  (∀ id, is_Some (st_tasks (sv_store v) !! id) ↔ is_Some (st_expiry (sv_store v) !! id)) ∧
  (∀ sid1 sid2 se1 se2 id, st_sessions (sv_store v) !! sid1 = Some se1 → st_sessions (sv_store v) !! sid2 = Some se2 →
     id ∈ se_Tasks se1 → id ∈ se_Tasks se2 → sid1 = sid2) ∧
  (∀ sid se, st_sessions (sv_store v) !! sid = Some se → NoDup (se_Tasks se) ∧ Z.of_nat (length (se_Tasks se)) ≤ MaxTasksPerSession cfg) ∧
  (∀ id t, st_tasks (sv_store v) !! id = Some t → Z.of_nat (length (tk_History t)) ≤ MaxHistoryLen cfg).
Proof.
  intros Hr. assert (Hg : good cfg (sv_store v)).
  { induction Hr as [|v w _ IH Hs]; [split; [apply wf_new | done] | by apply (server_step_good v)]. }
  destruct Hg as [W <-]. split_and!; [done | | | |].
  - intros id. split; [intros [t Ht]; by apply (wf_task _ W id t) | apply W].
  - intros sid1 sid2 se1 se2 id H1 H2 I1 I2.
    destruct (wf_own _ W _ _ _ H1 I1) as (t & Ht & <-). destruct (wf_own _ W _ _ _ H2 I2) as (u & Hu & <-). congruence.
  - intros sid se Hse. by destruct (wf_session _ W sid se Hse).
  - intros id t Ht. by destruct (wf_task _ W id t Ht) as (_ & _ & ?).
Qed.
End good.

(** ** What the requests do *)

Lemma update_task_lookup s id f t : st_tasks s !! id = Some t →
  update_task s id f = (st_with s (<[id := f t]> (st_tasks s)) (st_sessions s) (st_expiry s), None).
Proof. intros Ht. unfold update_task. by rewrite Ht. Qed.

Lemma UpdateTaskStatus_lookup now s id state m t : st_tasks s !! id = Some t →
  UpdateTaskStatus now s id state m =
    (st_with s (<[id := tk_with t {| ts_State := state; ts_Message := m; ts_Timestamp := Some now |} (tk_History t) (tk_Artifacts t) (tk_Metadata t)]> (st_tasks s))
       (st_sessions s) (<[id := now + TaskTTL (st_config s)]> (st_expiry s)), None).
Proof. intros Ht. unfold UpdateTaskStatus. by rewrite (update_task_lookup _ _ _ t Ht). Qed.

(** The artifacts are appended in order. *)
Lemma add_artifacts_lookup l : ∀ s id t, st_tasks s !! id = Some t →
  st_tasks (foldl (λ s a, (AddTaskArtifact s id a).1) s l) !! id =
    Some (tk_with t (tk_Status t) (tk_History t) (tk_Artifacts t ++ l) (tk_Metadata t)).
Proof.
  induction l as [|a l IH]; intros s id t Ht; simpl; [rewrite app_nil_r, Ht; by destruct t |].
  unfold AddTaskArtifact at 2. rewrite (update_task_lookup s id _ t Ht). cbn [fst].
  rewrite (IH _ id (tk_with t (tk_Status t) (tk_History t) (tk_Artifacts t ++ [a]) (tk_Metadata t))).
  - cbn [tk_with tk_Status tk_History tk_Artifacts tk_Metadata tk_ID tk_SessionID]. by rewrite <- app_assoc.
  - apply lookup_insert_eq.
Qed.

Lemma CloseStream_gone v id : sv_streams (CloseStream v id) !! id = None.
Proof. unfold CloseStream. destruct (sv_streams v !! id) eqn:Hs; [apply lookup_delete_eq | done]. Qed.

Lemma CompleteTask_lookup now v id state m t : st_tasks (sv_store v) !! id = Some t → IsTerminalState state = true →
  let w := (CompleteTask now v id state m).1 in
  st_tasks (sv_store w) !! id = Some (tk_with t {| ts_State := state; ts_Message := m; ts_Timestamp := Some now |} (tk_History t) (tk_Artifacts t) (tk_Metadata t)) ∧
  sv_streams w !! id = None.
Proof.
  intros Ht Hterm. unfold CompleteTask. rewrite (UpdateTaskStatus_lookup _ _ _ _ _ t Ht), Hterm. cbn [fst].
  split; [|apply CloseStream_gone]. rewrite CloseStream_store. simpl. apply lookup_insert_eq.
Qed.

Lemma CreateTask_lookup now id sid m s : tasks_wf s → st_tasks s !! id = None →
  st_tasks (CreateTask now id sid m s).1 !! id = Some (new_task now id sid m) ∧ (CreateTask now id sid m s).2 = new_task now id sid m.
Proof.
  intros W Hf. unfold CreateTask. case_decide; [simpl; by rewrite lookup_insert_eq |].
  destruct (st_sessions s !! sid) as [se|] eqn:Hse; [|simpl; by rewrite lookup_insert_eq].
  destruct (bool_decide _), (se_Tasks se) as [|old rest] eqn:Hts; simpl; try by rewrite lookup_insert_eq.
  destruct (wf_own s W sid se old Hse) as (t & Ht & _); [rewrite Hts; by left |].
  rewrite lookup_delete_ne, lookup_insert_eq by congruence. done.
Qed.

(** What the handler's outcome makes of the task. *)
Definition outcome_status (now : Z) (outcome : option HandlerResult) : TaskStatus :=
  match outcome with
  | None => {| ts_State := TaskStateCompleted; ts_Message := None; ts_Timestamp := Some now |}
  | Some (Err text) => {| ts_State := TaskStateFailed; ts_Message := Some (agent_text text); ts_Timestamp := Some now |}
  | Some (Ok (response, _)) => {| ts_State := TaskStateCompleted; ts_Message := response; ts_Timestamp := Some now |}
  end.

Definition outcome_history (cfg : TaskStoreConfig) (h : list TaskMessage) (outcome : option HandlerResult) : list TaskMessage :=
  match outcome with
  | Some (Ok (Some r, _)) => limit_history cfg (h ++ [{| hm_Role := am_Role r; hm_Parts := am_Parts r; hm_Metadata := ∅ |}])
  | _ => h
  end.

Definition outcome_artifacts (outcome : option HandlerResult) : list Artifact :=
  match outcome with Some (Ok (_, l)) => l | _ => [] end.

Lemma message_send_end_lookup now v id outcome t : st_tasks (sv_store v) !! id = Some t →
  let '(w, r) := message_send_end now v id outcome in
  let t' := tk_with t (outcome_status now outcome) (outcome_history (st_config (sv_store v)) (tk_History t) outcome)
              (tk_Artifacts t ++ outcome_artifacts outcome) (tk_Metadata t) in
  st_tasks (sv_store w) !! id = Some t' ∧ sv_streams w !! id = None ∧
  r = Ok {| sr_ID := tk_ID t; sr_SessionID := tk_SessionID t; sr_Status := outcome_status now outcome;
            sr_Artifacts := tk_Artifacts t ++ outcome_artifacts outcome; sr_Metadata := tk_Metadata t |}.
Proof.
  intros Ht. unfold message_send_end.
  assert (Hfin : ∀ u state m t1, st_tasks (sv_store u) !! id = Some t1 → IsTerminalState state = true →
    let w := (CompleteTask now u id state m).1 in
    st_tasks (sv_store w) !! id = Some (tk_with t1 {| ts_State := state; ts_Message := m; ts_Timestamp := Some now |} (tk_History t1) (tk_Artifacts t1) (tk_Metadata t1)) ∧
    sv_streams w !! id = None ∧ buildResult w id = Ok {| sr_ID := tk_ID t1; sr_SessionID := tk_SessionID t1;
      sr_Status := {| ts_State := state; ts_Message := m; ts_Timestamp := Some now |}; sr_Artifacts := tk_Artifacts t1; sr_Metadata := tk_Metadata t1 |}).
  { intros u state m t1 Ht1 Hterm. destruct (CompleteTask_lookup now u id state m t1 Ht1 Hterm) as [H1 H2].
    split; [done |]. split; [done |]. unfold buildResult, GetTask. by rewrite H1. }
  destruct outcome as [[[r l]|text]|]; simpl.
  - set (s1 := add_response (sv_store v) id r).
    assert (Hs1 : st_tasks s1 !! id = Some (tk_with t (tk_Status t) (outcome_history (st_config (sv_store v)) (tk_History t) (Some (Ok (r, l)))) (tk_Artifacts t) (tk_Metadata t))).
    { unfold s1, add_response. destruct r as [r|]; simpl; [|rewrite Ht; by destruct t].
      unfold AddTaskMessage. rewrite (update_task_lookup _ _ _ t Ht). apply lookup_insert_eq. }
    pose proof (add_artifacts_lookup l s1 id _ Hs1) as Hs2. simpl in Hs2.
    exact (Hfin (sv_with_store v _) TaskStateCompleted r _ Hs2 eq_refl).
  - rewrite app_nil_r. exact (Hfin v TaskStateFailed _ t Ht eq_refl).
  - rewrite app_nil_r. exact (Hfin v TaskStateCompleted None t Ht eq_refl).
Qed.

Lemma message_send_begin_lookup now id ns v p : tasks_wf (sv_store v) → st_tasks (sv_store v) !! id = None →
  let t := new_task now id (if decide (sp_SessionID p = "") then ns else sp_SessionID p) (sp_Message p) in
  st_tasks (sv_store (message_send_begin now id ns v p)) !! id =
    Some (tk_with t {| ts_State := TaskStateWorking; ts_Message := None; ts_Timestamp := Some now |} (tk_History t) [] (task_metadata p ∅)).
Proof.
  intros W Hf. unfold message_send_begin. set (sid := if decide _ then _ else _). cbn zeta.
  destruct (CreateTask_lookup now id sid (sp_Message p) (sv_store v) W Hf) as [Hl Hr].
  destruct (CreateTask _ _ _ _ _) as [s task]. simpl in Hl, Hr. subst task. cbn [tk_ID new_task].
  set (s1 := set_metadata s id (task_metadata p)).
  assert (Hs1 : st_tasks s1 !! id = Some (tk_with (new_task now id sid (sp_Message p)) (tk_Status (new_task now id sid (sp_Message p)))
    (tk_History (new_task now id sid (sp_Message p))) [] (task_metadata p ∅))).
  { unfold s1, set_metadata. rewrite (update_task_lookup _ _ _ _ Hl). apply lookup_insert_eq. }
  rewrite (UpdateTaskStatus_lookup _ _ _ _ _ _ Hs1). simpl. apply lookup_insert_eq.
Qed.

(** C13. message/send runs the handler on a new working task of the session that was named (or
    a new one), with the metadata of the request, and answers with the task as stored:
    completed with the handler's message and artifacts, or failed with its error; the
    history holds the request and the response; the task's stream is closed. *)
Theorem message_send_result now id ns h v p : tasks_wf (sv_store v) → st_tasks (sv_store v) !! id = None →
  let sid := if decide (sp_SessionID p = "") then ns else sp_SessionID p in
  let '(w, r) := handleMessageSend now id ns h v (Some p) in
  ∃ t outcome, st_tasks (sv_store w) !! id = Some t ∧
    outcome = (match h with None => None | Some h => Some (h (tk_with t {| ts_State := TaskStateWorking; ts_Message := None; ts_Timestamp := Some now |}
                 [{| hm_Role := am_Role (sp_Message p); hm_Parts := am_Parts (sp_Message p); hm_Metadata := ∅ |}] [] (tk_Metadata t)) (sp_Message p)) end) ∧
    tk_ID t = id ∧ tk_SessionID t = sid ∧ tk_Status t = outcome_status now outcome ∧ tk_Artifacts t = outcome_artifacts outcome ∧
    tk_History t = outcome_history (st_config (sv_store (message_send_begin now id ns v p)))
                     [{| hm_Role := am_Role (sp_Message p); hm_Parts := am_Parts (sp_Message p); hm_Metadata := ∅ |}] outcome ∧
    tk_Metadata t = task_metadata p ∅ ∧ sv_streams w !! id = None ∧
    r = Ok {| sr_ID := id; sr_SessionID := sid; sr_Status := tk_Status t; sr_Artifacts := tk_Artifacts t; sr_Metadata := tk_Metadata t |}.
Proof.
  intros W Hf. cbn zeta. unfold handleMessageSend. pose proof (message_send_begin_lookup now id ns v p W Hf) as Hb. cbn zeta in Hb.
  set (b := message_send_begin now id ns v p) in *. rewrite Hb.
  set (sid := if decide _ then _ else _) in *.
  match goal with |- context [message_send_end now b id ?o] => set (outcome := o);
    pose proof (message_send_end_lookup now b id outcome _ Hb) as He; destruct (message_send_end now b id outcome) as [w r] end.
  destruct He as (H1 & H2 & ->). eexists _, outcome. split; [exact H1 |]. unfold outcome. by destruct h.
Qed.

(** A task that may be canceled. *)
Lemma handleTasksCancel_running now v id t : st_tasks (sv_store v) !! id = Some t → cancelable (ts_State (tk_Status t)) = true →
  let status := {| ts_State := TaskStateCanceled; ts_Message := None; ts_Timestamp := Some now |} in
  ∃ w, handleTasksCancel now v (Some id) = (w, Ok (tk_ID t, status)) ∧
    sv_store w = st_with (sv_store v) (<[id := tk_with t status (tk_History t) (tk_Artifacts t) (tk_Metadata t)]> (st_tasks (sv_store v)))
                   (st_sessions (sv_store v)) (st_expiry (sv_store v)) ∧
    sv_streams w !! id = None.
Proof.
  intros Ht Hc. unfold handleTasksCancel, CancelTask. rewrite Ht, Hc, (update_task_lookup _ _ _ t Ht).
  unfold GetTask. rewrite CloseStream_store. simpl. rewrite lookup_insert_eq.
  eexists. split; [reflexivity |]. split; [by rewrite CloseStream_store | apply CloseStream_gone].
Qed.

(** Cancellation is decided by the state of the task: an unknown task and a task that is
    completed, failed, canceled or in a state of no known name are refused with an error that
    says which, and nothing changes; any other task becomes canceled, keeps its history and
    artifacts, its stream is closed, and no other task is touched.  Every error of a method
    is answered with the code of an internal error; an unknown method and unreadable data
    have their own codes. *)
Theorem cancel_decided_by_state `{A2ACodec} now v id tid ns ks h data :
  (let status := {| ts_State := TaskStateCanceled; ts_Message := None; ts_Timestamp := Some now |} in
   match st_tasks (sv_store v) !! id with
   | None => handleTasksCancel now v (Some id) = (v, Err ErrTaskNotFound)
   | Some t =>
       if cancelable (ts_State (tk_Status t)) then
         ∃ w, handleTasksCancel now v (Some id) = (w, Ok (tk_ID t, status)) ∧
           sv_store w = st_with (sv_store v) (<[id := tk_with t status (tk_History t) (tk_Artifacts t) (tk_Metadata t)]> (st_tasks (sv_store v)))
                          (st_sessions (sv_store v)) (st_expiry (sv_store v)) ∧
           sv_streams w !! id = None
       else handleTasksCancel now v (Some id) = (v, Err ErrTaskNotCancelable)
   end) ∧
  match Decode_a2a data with
  | None => HandleRequest now tid ns ks h v data = (v, ReplyError JNull ErrCodeInvalidRequest TextInvalidRequest)
  | Some (rid, PUnknown m) => HandleRequest now tid ns ks h v data = (v, ReplyError rid ErrCodeMethodNotFound (TextUnknownMethod m))
  | Some (rid, _) => (∃ x, (HandleRequest now tid ns ks h v data).2 = ReplyResult rid x) ∨
                     (∃ e, (HandleRequest now tid ns ks h v data).2 = ReplyError rid ErrCodeInternalError (TextTask e))
  end.
Proof.
  split.
  - destruct (st_tasks (sv_store v) !! id) as [t|] eqn:Ht; [destruct (cancelable _) eqn:Hc |].
    + by apply (handleTasksCancel_running now v id t).
    + unfold handleTasksCancel, CancelTask. by rewrite Ht, Hc.
    + unfold handleTasksCancel, CancelTask. by rewrite Ht.
  - unfold HandleRequest. destruct (Decode_a2a data) as [[rid []]|]; try done; simpl;
      repeat match goal with |- context [let '(_, _) := ?x in _] => destruct x end; simpl;
      try (match goal with |- context [reply_of _ _ ?r] => destruct r end; simpl; eauto).
    left. by eexists.
Qed.

(** Cancellation does not hold a running task: [CancelTask] succeeds on a task whose
    handler runs and reports it canceled, and when the handler returns the same task becomes
    completed, or failed, with the response added to its history. *)
Theorem canceled_task_completes now1 now2 now3 id ns v p outcome : tasks_wf (sv_store v) → st_tasks (sv_store v) !! id = None →
  let b := message_send_begin now1 id ns v p in
  let '(c, r) := handleTasksCancel now2 b (Some id) in
  let '(w, _) := message_send_end now3 c id outcome in
  r = Ok (id, {| ts_State := TaskStateCanceled; ts_Message := None; ts_Timestamp := Some now2 |}) ∧
  ∃ t, st_tasks (sv_store w) !! id = Some t ∧ tk_Status t = outcome_status now3 outcome ∧ ts_State (tk_Status t) ≠ TaskStateCanceled.
Proof.
  intros W Hf. cbn zeta. pose proof (message_send_begin_lookup now1 id ns v p W Hf) as Hb. cbn zeta in Hb.
  set (b := message_send_begin now1 id ns v p) in *.
  destruct (handleTasksCancel_running now2 b id _ Hb eq_refl) as (c & -> & Hc & _).
  assert (Hl : is_Some (st_tasks (sv_store c) !! id)) by (rewrite Hc; simpl; rewrite lookup_insert_eq; eauto).
  destruct Hl as [t Hl]. pose proof (message_send_end_lookup now3 c id outcome t Hl) as He.
  destruct (message_send_end now3 c id outcome) as [w r]. destruct He as (H1 & _).
  split; [done |]. eexists. split; [exact H1 |]. split; [done |]. by destruct outcome as [[[]|]|].
Qed.

Lemma sends_buffered id ch evs : ∀ u pre, sv_streams u !! id = Some ch →
  sv_chans u !! ch = Some {| sc_Events := take stream_capacity pre; sc_Closed := false |} →
  let w := foldl (λ v e, SendStreamEvent v id e) u evs in
  sv_chans w !! ch = Some {| sc_Events := take stream_capacity (pre ++ evs); sc_Closed := false |} ∧ sv_panicked w = sv_panicked u.
Proof.
  induction evs as [|e evs IH]; intros u pre Hs Hc; simpl; [by rewrite app_nil_r |].
  rewrite cons_middle, app_assoc. unfold SendStreamEvent at 2 4, stream_lookup. rewrite Hs. unfold stream_send. rewrite Hc. simpl.
  rewrite length_take. destruct (decide (length pre < stream_capacity)%nat) as [Hl|Hl].
  - rewrite bool_decide_true by lia. apply (IH (sv_with_streams u _ _ _ _)); [done |]. simpl. rewrite lookup_insert_eq.
    rewrite !take_ge by (rewrite ?length_app; simpl; lia). done.
  - rewrite bool_decide_false by lia. apply IH; [done |]. rewrite take_app_le by lia. done.
Qed.

(** The stream of a task holds the first hundred events that were sent and not yet taken,
    in order, and drops the others; a stream that is unknown or closed takes nothing.  The
    channel is looked up before the lock is released and sent to afterwards, so a stream that
    is closed in between makes the send panic. *)
Theorem stream_keeps_a_hundred v id evs ev :
  let '(w, ch) := StartStream v id in
  sv_chans (foldl (λ v e, SendStreamEvent v id e) w evs) !! ch = Some {| sc_Events := take stream_capacity evs; sc_Closed := false |} ∧
  sv_panicked (foldl (λ v e, SendStreamEvent v id e) w evs) = sv_panicked v ∧
  SendStreamEvent (CloseStream w id) id ev = CloseStream w id ∧
  (stream_lookup w id = Some ch ∧ sv_panicked (stream_send (CloseStream w id) ch ev) = true).
Proof.
  unfold StartStream. set (w := sv_with_streams _ _ _ _ _).
  assert (Hlk : sv_streams w !! id = Some (sv_next v)) by apply lookup_insert_eq.
  assert (Hch : sv_chans w !! sv_next v = Some {| sc_Events := []; sc_Closed := false |}) by apply lookup_insert_eq.
  destruct (sends_buffered id (sv_next v) evs w [] Hlk Hch) as [H1 H2].
  split; [exact H1 |]. split; [exact H2 |]. split; [unfold SendStreamEvent, stream_lookup; by rewrite CloseStream_gone |].
  split; [done |]. unfold stream_send, CloseStream. rewrite Hlk. simpl. by rewrite lookup_alter_eq, lookup_insert_eq.
Qed.

(** ** A concrete server *)

Module Example.
Definition hello : A2AMessage := {| am_Role := "user"; am_Parts := []; am_Metadata := {["thread_id" := JString "t1"]} |}.
Definition params (sid : string) : SendMessageParams := {| sp_ID := ""; sp_SessionID := sid; sp_Message := hello; sp_Metadata := ∅ |}.
Definition small : TaskStoreConfig := {| TaskTTL := 100; CleanupPeriod := 10; MaxHistoryLen := 1; MaxTasksPerSession := 2 |}.
Definition echo : Task → A2AMessage → HandlerResult := λ t m, Ok (Some (agent_text (tk_ID t)), []).
Definition run (ids : list string) : Server :=
  foldl (λ v id, (handleMessageSend 0 id "new" (Some echo) v (Some (params "s"))).1) (server_over (NewTaskStoreWithConfig small)) ids.
#[local] Instance codec : A2ACodec := {| Decode_a2a d := if decide (d = "") then None else Some (JString "1", PSend (Some (params "s"))) |}.
End Example.

(** The session keeps the two newest of three tasks. *)
Example run_three : (λ t, ts_State (tk_Status t)) <$> st_tasks (sv_store (Example.run ["a"; "b"; "c"])) !! "b" = Some TaskStateCompleted ∧
  st_tasks (sv_store (Example.run ["a"; "b"; "c"])) !! "a" = None ∧
  (length ∘ tk_History) <$> st_tasks (sv_store (Example.run ["a"; "b"; "c"])) !! "c" = Some 1%nat.
Proof. split_and!; reflexivity. Qed.

Lemma run_two_good : good Example.small (sv_store (Example.run ["c"; "b"])).
Proof. unfold Example.run. cbn [foldl]. do 2 (apply good_message_send; [by vm_compute | by vm_compute | | by vm_compute]); split; [apply wf_new | done]. Qed.

Lemma list_pages_enumerate_witness :
  let s := sv_store (Example.run ["c"; "b"]) in
  tk_ID <$> list_pages (λ _, keys_of (st_tasks s)) s {| tf_SessionID := ""; tf_Status := [] |} 1 3 "" = ["b"; "c"] ∧
  NoDup (tk_ID <$> list_pages (λ _, keys_of (st_tasks s)) s {| tf_SessionID := ""; tf_Status := [] |} 1 (S (size (st_tasks s))) "").
Proof.
  split; [vm_compute; reflexivity |].
  refine (proj1 (proj2 (list_pages_enumerate (λ _, keys_of _) _ {| tf_SessionID := ""; tf_Status := [] |} 1 _ _ _))).
  - apply run_two_good.
  - intros id [t Ht] ->. vm_compute in Ht. discriminate.
Defined.

Lemma task_store_consistent_witness :
  is_Some (st_tasks (sv_store (Example.run ["c"; "b"])) !! "b"%string) ↔ is_Some (st_expiry (sv_store (Example.run ["c"; "b"])) !! "b"%string).
Proof.
  refine (proj1 (proj2 (task_store_consistent Example.small _ _ _ _)) _); [by vm_compute | by vm_compute |]. unfold Example.run. cbn [foldl].
  do 2 (eapply sreach_step; [|eapply (sstep_end 0)]; eapply sreach_step; [|apply sstep_begin; by vm_compute]). apply sreach_new.
Defined.

Lemma message_send_result_witness :
  let '(w, r) := handleMessageSend 5 "b" "new" (Some Example.echo) (Example.run ["a"]) (Some (Example.params "")) in
  r = Ok {| sr_ID := "b"; sr_SessionID := "new"; sr_Status := {| ts_State := TaskStateCompleted; ts_Message := Some (agent_text "b"); ts_Timestamp := Some 5 |};
            sr_Artifacts := []; sr_Metadata := {["thread_id" := JString "t1"]} |}.
Proof.
  pose proof (message_send_result 5 "b" "new" (Some Example.echo) (Example.run ["a"]) (Example.params "")) as H. cbn zeta in H.
  destruct (handleMessageSend _ _ _ _ _ _) as [w r].
  destruct H as (t & o & _ & -> & Hid & Hs & Hst & Har & _ & Hmd & _ & ->).
  - unfold Example.run. cbn [foldl]. apply (good_message_send Example.small); [by vm_compute | by vm_compute | split; [apply wf_new | done] | done].
  - by vm_compute.
  - rewrite Hst, Har, Hmd. unfold Example.echo, outcome_status, outcome_artifacts. cbn. by rewrite Hid.
Defined.

Lemma canceled_task_completes_witness :
  (handleTasksCancel 1 (message_send_begin 0 "b" "new" (Example.run ["a"]) (Example.params "s")) (Some "b")).2 =
    Ok ("b", {| ts_State := TaskStateCanceled; ts_Message := None; ts_Timestamp := Some 1 |}).
Proof.
  pose proof (canceled_task_completes 0 1 2 "b" "new" (Example.run ["a"]) (Example.params "s") None) as H. cbn zeta in H.
  destruct (handleTasksCancel _ _ _) as [c r]. destruct (message_send_end _ _ _ _) as [w r'].
  apply H; [|by vm_compute]. unfold Example.run. cbn [foldl].
  apply (good_message_send Example.small); [by vm_compute | by vm_compute | split; [apply wf_new | done] | done].
Defined.
