(* ===== verification/Conversation.v ===== *)
(** * Conversations (src/pkg/conversation: types.go, store.go, memory.go)

    Threads, their messages and the receipts of delivery and reading, in the in-memory store
    with its two indexes.  Times are the value of the clock at the call.  After [Close] the
    maps are nil; every operation refuses before it touches them. *)

From Stdlib Require Import Ascii.
From S2P Require Import Prelude.
#[local] Open Scope Z_scope.

(** ** Data *)

Definition ThreadStateActive : string := "active".
Definition ThreadStateAwaitingInput : string := "awaiting-input".
Definition ThreadStateCompleted : string := "completed".
Definition ThreadStateFailed : string := "failed".

Record Thread := {
  th_ID : uuid; th_Title : string; th_Participants : list string; th_CreatedAt : Z; th_UpdatedAt : Z;
  th_LastMessage : option Z; th_MessageCount : Z; th_Metadata : gmap string any;
  th_State : string; th_TaskIDs : list string; th_SessionIDs : list string;
}.

(** [id] is the new UUID. *)
Definition NewThread (id : uuid) (now : Z) (participants : list string) : Thread := {|
  th_ID := id; th_Title := ""; th_Participants := participants; th_CreatedAt := now; th_UpdatedAt := now;
  th_LastMessage := None; th_MessageCount := 0; th_Metadata := ∅; th_State := ""; th_TaskIDs := []; th_SessionIDs := [] |}.

Definition HasParticipant (t : Thread) (did : string) : bool := bool_decide (did ∈ th_Participants t).

Definition th_with_participants (t : Thread) (ps : list string) (updated : Z) : Thread := {|
  th_ID := th_ID t; th_Title := th_Title t; th_Participants := ps; th_CreatedAt := th_CreatedAt t; th_UpdatedAt := updated;
  th_LastMessage := th_LastMessage t; th_MessageCount := th_MessageCount t; th_Metadata := th_Metadata t;
  th_State := th_State t; th_TaskIDs := th_TaskIDs t; th_SessionIDs := th_SessionIDs t |}.

Definition th_with_stats (t : Thread) (updated : Z) (last : option Z) (count : Z) : Thread := {|
  th_ID := th_ID t; th_Title := th_Title t; th_Participants := th_Participants t; th_CreatedAt := th_CreatedAt t;
  th_UpdatedAt := updated; th_LastMessage := last; th_MessageCount := count; th_Metadata := th_Metadata t;
  th_State := th_State t; th_TaskIDs := th_TaskIDs t; th_SessionIDs := th_SessionIDs t |}.

Definition AddParticipant (now : Z) (t : Thread) (did : string) : Thread * bool :=
  if HasParticipant t did then (t, false)
  else (th_with_participants t (th_Participants t ++ [did]) now, true).

Record StoredMessage := {
  sm_ID : uuid; sm_ThreadID : uuid; sm_ParentID : option uuid; sm_From : string; sm_To : string; sm_Type : string;
  sm_Body : string; sm_Timestamp : Z; sm_ThreadSeqNo : Z; sm_Encrypted : bool; sm_Metadata : gmap string any;
}.

Record MessageReceipt := { rc_MessageID : uuid; rc_RecipientDID : string; rc_DeliveredAt : option Z; rc_ReadAt : option Z }.

Definition IsDelivered (r : MessageReceipt) : bool := bool_decide (is_Some (rc_DeliveredAt r)).
Definition IsRead (r : MessageReceipt) : bool := bool_decide (is_Some (rc_ReadAt r)).

Record ThreadFilter := { tf_ParticipantDID : string; tf_Since : option Z; tf_Limit : Z; tf_Offset : Z }.
Record MessageFilter := {
  mf_ThreadID : uuid; mf_Since : option Z; mf_Before : option Z; mf_Types : list string; mf_Limit : Z; mf_Offset : Z;
}.

Inductive StoreError := ErrThreadNotFound | ErrMessageNotFound | ErrReceiptNotFound | ErrStoreClosed.

Record StoreConfig := { MaxThreads : Z; MaxMessagesPerThread : Z; RetentionDays : Z }.
Definition DefaultStoreConfig : StoreConfig := {| MaxThreads := 0; MaxMessagesPerThread := 0; RetentionDays := 0 |}.

Record MemoryStore := {
  cs_threads : gmap uuid Thread;
  cs_messages : gmap uuid StoredMessage;
  cs_receipts : gmap string MessageReceipt;
  cs_messagesByThread : gmap uuid (list uuid);
  cs_threadsByDID : gmap string (list uuid);
  cs_config : StoreConfig;
  cs_closed : bool;
}.

Definition cs_with (s : MemoryStore) (th : gmap uuid Thread) (ms : gmap uuid StoredMessage) (rs : gmap string MessageReceipt)
    (byThread : gmap uuid (list uuid)) (byDID : gmap string (list uuid)) : MemoryStore :=
  {| cs_threads := th; cs_messages := ms; cs_receipts := rs; cs_messagesByThread := byThread; cs_threadsByDID := byDID;
     cs_config := cs_config s; cs_closed := cs_closed s |}.

Definition cs_with_receipts (s : MemoryStore) (rs : gmap string MessageReceipt) : MemoryStore :=
  cs_with s (cs_threads s) (cs_messages s) rs (cs_messagesByThread s) (cs_threadsByDID s).

Definition NewMemoryStore (config : StoreConfig) : MemoryStore :=
  {| cs_threads := ∅; cs_messages := ∅; cs_receipts := ∅; cs_messagesByThread := ∅; cs_threadsByDID := ∅;
     cs_config := config; cs_closed := false |}.

(** ** Threads *)

(** [m[k] = append(m[k], v)]. *)
Definition push_slice {K V} `{Countable K} (m : gmap K (list V)) (k : K) (v : V) : gmap K (list V) :=
  <[k := get_slice m k ++ [v]]> m.

(** The first occurrence of [x] is deleted from the slice of [k], if there is one. *)
Definition removeThreadFromDID {K V} `{Countable K} `{EqDecision V} (m : gmap K (list V)) (k : K) (x : V) : gmap K (list V) :=
  match list_find (eq x) (get_slice m k) with
  | Some (i, _) => <[k := slices_Delete i (get_slice m k)]> m
  | None => m
  end.

Definition CreateThread (s : MemoryStore) (thread : Thread) : MemoryStore * option StoreError :=
  if cs_closed s then (s, Some ErrStoreClosed)
  else
    (cs_with s (<[th_ID thread := thread]> (cs_threads s)) (cs_messages s) (cs_receipts s) (cs_messagesByThread s)
       (foldl (λ m did, push_slice m did (th_ID thread)) (cs_threadsByDID s) (th_Participants thread)), None).

Definition GetThread (s : MemoryStore) (id : uuid) : result StoreError Thread :=
  if cs_closed s then Err ErrStoreClosed
  else match cs_threads s !! id with Some t => Ok t | None => Err ErrThreadNotFound end.

Definition UpdateThread (s : MemoryStore) (thread : Thread) : MemoryStore * option StoreError :=
  if cs_closed s then (s, Some ErrStoreClosed)
  else
    match cs_threads s !! th_ID thread with
    | None => (s, Some ErrThreadNotFound)
    | Some old =>
        let byDID := foldl (λ m did, if HasParticipant thread did then m else removeThreadFromDID m did (th_ID thread))
                       (cs_threadsByDID s) (th_Participants old) in
        let byDID := foldl (λ m did, if HasParticipant old did then m else push_slice m did (th_ID thread))
                       byDID (th_Participants thread) in
        (cs_with s (<[th_ID thread := thread]> (cs_threads s)) (cs_messages s) (cs_receipts s) (cs_messagesByThread s) byDID, None)
    end.

(** ** Receipts are kept under the text of the message ID, a colon and the DID *)

Section store.
Context `{Runtime}.

Definition receiptKey (messageID : uuid) (recipientDID : string) : string := uuid_String messageID +:+ ":" +:+ recipientDID.

(** [len(key) > 36 && key[:36] == id.String()]. *)
Definition key_of_message (id : uuid) (key : string) : bool :=
  bool_decide (36 < String.length key)%nat && String.eqb (String.substring 0 36 key) (uuid_String id).

Definition delete_receipts (id : uuid) (rs : gmap string MessageReceipt) : gmap string MessageReceipt :=
  filter (λ kr, key_of_message id kr.1 = false) rs.

Definition DeleteThread (s : MemoryStore) (id : uuid) : MemoryStore * option StoreError :=
  if cs_closed s then (s, Some ErrStoreClosed)
  else
    match cs_threads s !! id with
    | None => (s, Some ErrThreadNotFound)
    | Some thread =>
        let byDID := foldl (λ m did, removeThreadFromDID m did id) (cs_threadsByDID s) (th_Participants thread) in
        let '(ms, rs) := foldl (λ '(ms, rs) msgID, (delete msgID ms, delete_receipts msgID rs))
                           (cs_messages s, cs_receipts s) (get_slice (cs_messagesByThread s) id) in
        (cs_with s (delete id (cs_threads s)) ms rs (delete id (cs_messagesByThread s)) byDID, None)
    end.

(** ** Listing *)

Definition threadMatchesFilter (thread : Thread) (filter : ThreadFilter) : bool :=
  match tf_Since filter with Some since => bool_decide (since ≤ th_UpdatedAt thread) | None => true end.

(** [offset] and [limit] as both lists apply them. *)
Definition paginate {A} (offset limit : Z) (l : list A) : list A :=
  if bool_decide (0 < offset) && bool_decide (Z.of_nat (length l) ≤ offset) then []
  else
    let l := if bool_decide (0 < offset) then drop (Z.to_nat offset) l else l in
    if bool_decide (0 < limit) && bool_decide (limit < Z.of_nat (length l)) then take (Z.to_nat limit) l else l.

(** [ks] is the order of the range over the threads, [sort] the sort by falling update time. *)

Definition ListThreads (sort : list Thread → list Thread) (ks : list uuid) (s : MemoryStore) (f : ThreadFilter)
  : result StoreError (list Thread) :=
  if cs_closed s then Err ErrStoreClosed
  else
    let ids := if decide (tf_ParticipantDID f = "") then ks else get_slice (cs_threadsByDID s) (tf_ParticipantDID f) in
    let found := omap (λ id, cs_threads s !! id) ids in
    Ok (paginate (tf_Offset f) (tf_Limit f) (sort (filter (λ t, threadMatchesFilter t f = true) found))).

(** ** Messages *)

Definition SaveMessage (now : Z) (s : MemoryStore) (msg : StoredMessage) : MemoryStore * option StoreError :=
  if cs_closed s then (s, Some ErrStoreClosed)
  else
    match cs_threads s !! sm_ThreadID msg with
    | None => (s, Some ErrThreadNotFound)
    | Some thread =>
        (cs_with s (<[sm_ThreadID msg := th_with_stats thread now (Some (sm_Timestamp msg)) (th_MessageCount thread + 1)]> (cs_threads s))
           (<[sm_ID msg := msg]> (cs_messages s)) (cs_receipts s)
           (push_slice (cs_messagesByThread s) (sm_ThreadID msg) (sm_ID msg)) (cs_threadsByDID s), None)
    end.

Definition GetMessage (s : MemoryStore) (id : uuid) : result StoreError StoredMessage :=
  if cs_closed s then Err ErrStoreClosed
  else match cs_messages s !! id with Some m => Ok m | None => Err ErrMessageNotFound end.

Definition messageMatchesFilter (m : StoredMessage) (f : MessageFilter) : bool :=
  (match mf_Since f with Some since => bool_decide (since ≤ sm_Timestamp m) | None => true end) &&
  (match mf_Before f with Some before => bool_decide (sm_Timestamp m ≤ before) | None => true end) &&
  (bool_decide (mf_Types f = []) || bool_decide (sm_Type m ∈ mf_Types f)).

(** The sign of the comparison is that of the difference of two Go ints, which wraps. *)
Definition wrap64 (z : Z) : Z := (z + 2 ^ 63) mod 2 ^ 64 - 2 ^ 63.
Definition seq_compare (a b : StoredMessage) : Z := wrap64 (sm_ThreadSeqNo a - sm_ThreadSeqNo b).

(** [sort] is the sort by [seq_compare]. *)
Definition GetMessages (sort : list StoredMessage → list StoredMessage) (s : MemoryStore) (f : MessageFilter)
  : result StoreError (list StoredMessage) :=
  if cs_closed s then Err ErrStoreClosed
  else
    let found := omap (λ id, cs_messages s !! id) (get_slice (cs_messagesByThread s) (mf_ThreadID f)) in
    Ok (paginate (mf_Offset f) (mf_Limit f) (sort (filter (λ m, messageMatchesFilter m f = true) found))).

Definition DeleteMessage (s : MemoryStore) (id : uuid) : MemoryStore * option StoreError :=
  if cs_closed s then (s, Some ErrStoreClosed)
  else
    match cs_messages s !! id with
    | None => (s, Some ErrMessageNotFound)
    | Some msg =>
        (cs_with s
           (alter (λ t, th_with_stats t (th_UpdatedAt t) (th_LastMessage t) (th_MessageCount t - 1)) (sm_ThreadID msg) (cs_threads s))
           (delete id (cs_messages s)) (delete_receipts id (cs_receipts s))
           (removeThreadFromDID (cs_messagesByThread s) (sm_ThreadID msg) id) (cs_threadsByDID s), None)
    end.

(** ** Receipts *)

Definition delivered_at (now : Z) (r : MessageReceipt) : MessageReceipt :=
  {| rc_MessageID := rc_MessageID r; rc_RecipientDID := rc_RecipientDID r;
     rc_DeliveredAt := match rc_DeliveredAt r with None => Some now | Some t => Some t end; rc_ReadAt := rc_ReadAt r |}.

Definition MarkDelivered (now : Z) (s : MemoryStore) (messageID : uuid) (recipientDID : string) : MemoryStore * option StoreError :=
  if cs_closed s then (s, Some ErrStoreClosed)
  else
    match cs_messages s !! messageID with
    | None => (s, Some ErrMessageNotFound)
    | Some _ =>
        let key := receiptKey messageID recipientDID in
        let r := match cs_receipts s !! key with
                 | None => {| rc_MessageID := messageID; rc_RecipientDID := recipientDID; rc_DeliveredAt := Some now; rc_ReadAt := None |}
                 | Some r => delivered_at now r
                 end in
        (cs_with_receipts s (<[key := r]> (cs_receipts s)), None)
    end.

Definition MarkRead (now : Z) (s : MemoryStore) (messageID : uuid) (recipientDID : string) : MemoryStore * option StoreError :=
  if cs_closed s then (s, Some ErrStoreClosed)
  else
    match cs_messages s !! messageID with
    | None => (s, Some ErrMessageNotFound)
    | Some _ =>
        let key := receiptKey messageID recipientDID in
        let r := match cs_receipts s !! key with
                 | None => {| rc_MessageID := messageID; rc_RecipientDID := recipientDID; rc_DeliveredAt := Some now; rc_ReadAt := Some now |}
                 | Some r => {| rc_MessageID := rc_MessageID r; rc_RecipientDID := rc_RecipientDID r;
                                rc_DeliveredAt := rc_DeliveredAt (delivered_at now r); rc_ReadAt := Some now |}
                 end in
        (cs_with_receipts s (<[key := r]> (cs_receipts s)), None)
    end.

Definition GetReceipt (s : MemoryStore) (messageID : uuid) (recipientDID : string) : result StoreError MessageReceipt :=
  if cs_closed s then Err ErrStoreClosed
  else match cs_receipts s !! receiptKey messageID recipientDID with Some r => Ok r | None => Err ErrReceiptNotFound end.

Definition GetReceipts (ks : list string) (s : MemoryStore) (messageID : uuid) : result StoreError (list MessageReceipt) :=
  if cs_closed s then Err ErrStoreClosed
  else
    Ok (omap (λ key,
          if bool_decide (36 < String.length key)%nat && String.eqb (String.substring 0 37 key) (uuid_String messageID +:+ ":")
          then cs_receipts s !! key else None) ks).

Definition Close (s : MemoryStore) : MemoryStore :=
  {| cs_threads := ∅; cs_messages := ∅; cs_receipts := ∅; cs_messagesByThread := ∅; cs_threadsByDID := ∅;
     cs_config := cs_config s; cs_closed := true |}.
End store.

(** ** The indexes *)

Section slices.
Context {K V : Type} `{Countable K} `{EqDecision V}.
Implicit Types (m : gmap K (list V)).

Lemma get_push_slice m k v k' : get_slice (push_slice m k v) k' = if decide (k' = k) then get_slice m k ++ [v] else get_slice m k'.
Proof.
  unfold push_slice, get_slice at 1. destruct (decide (k' = k)) as [->|Hne]; [by rewrite lookup_insert_eq |].
  by rewrite lookup_insert_ne.
Qed.

(** What is left of a slice. *)
Definition remove_one (x : V) (l : list V) : list V :=
  match list_find (eq x) l with Some (i, _) => slices_Delete i l | None => l end.

Lemma get_remove m k x k' : get_slice (removeThreadFromDID m k x) k' = if decide (k' = k) then remove_one x (get_slice m k) else get_slice m k'.
Proof.
  unfold removeThreadFromDID, remove_one. destruct (list_find (eq x) (get_slice m k)) as [[i y]|] eqn:Hf.
  - unfold get_slice at 1. destruct (decide (k' = k)) as [->|Hne]; [by rewrite lookup_insert_eq |]. by rewrite lookup_insert_ne.
  - by destruct (decide (k' = k)) as [->|].
Qed.

Lemma remove_one_Permutation x l : x ∈ l → l ≡ₚ x :: remove_one x l.
Proof.
  intros Hx. unfold remove_one. destruct (list_find (eq x) l) as [[i y]|] eqn:Hf.
  - apply list_find_Some in Hf as (Hi & <- & _). by apply slices_Delete_Permutation.
  - apply list_find_None in Hf. rewrite Forall_forall in Hf. by destruct (Hf x Hx).
Qed.

Lemma remove_one_absent x l : x ∉ l → remove_one x l = l.
Proof.
  intros Hx. unfold remove_one. destruct (list_find (eq x) l) as [[i y]|] eqn:Hf; [|done].
  apply list_find_Some in Hf as (Hi & <- & _). by destruct Hx; apply list_elem_of_lookup_2 in Hi.
Qed.

Lemma remove_one_spec x l : NoDup l → NoDup (remove_one x l) ∧ (∀ y, y ∈ remove_one x l ↔ y ∈ l ∧ y ≠ x) ∧
  length (remove_one x l) = (length l - (if decide (x ∈ l) then 1 else 0))%nat.
Proof.
  intros Hn. destruct (decide (x ∈ l)) as [Hx|Hx].
  - pose proof (remove_one_Permutation x l Hx) as P. pose proof Hn as Hn'. rewrite P in Hn'. apply NoDup_cons in Hn' as [Hnot Hn'].
    split; [done |]. split; [|rewrite P at 2; simpl; lia].
    intros y. rewrite P at 2. rewrite elem_of_cons. split; [|by intros [[->|?] ?]].
    intros Hy. split; [by right | by intros ->].
  - rewrite remove_one_absent by done. split; [done |]. split; [|lia]. intros y. split; [|by intros []].
    intros Hy. split; [done | by intros ->].
Qed.

(** A loop over distinct keys, each step of which touches the slice of its own key. *)
Lemma fold_slices (upd : gmap K (list V) → K → gmap K (list V)) (g : K → list V → list V) ks :
  (∀ m k k', get_slice (upd m k) k' = if decide (k' = k) then g k (get_slice m k) else get_slice m k') →
  NoDup ks → ∀ m k, get_slice (foldl upd m ks) k = if decide (k ∈ ks) then g k (get_slice m k) else get_slice m k.
Proof.
  intros Hupd. induction ks as [|k0 ks IH]; intros Hn m k; cbn [foldl].
  - rewrite decide_False by apply not_elem_of_nil. done.
  - apply NoDup_cons in Hn as [Hk0 Hn]. rewrite IH, Hupd by done.
    destruct (decide (k = k0)) as [->|Hne].
    + rewrite decide_False by done. rewrite decide_True by left. done.
    + destruct (decide (k ∈ ks)); [rewrite decide_True by (by right) | rewrite decide_False by (by rewrite not_elem_of_cons)]; done.
Qed.
End slices.

(** ** Keys of receipts *)

Section store_facts.
Context `{UuidLaws}.

Lemma key_prefix mid did : String.substring 0 36 (receiptKey mid did) = uuid_String mid.
Proof. unfold receiptKey. rewrite <- (uuid_String_length mid). apply substring_app. Qed.

Lemma key_length mid did : (36 < String.length (receiptKey mid did))%nat.
Proof. unfold receiptKey. rewrite !string_app_length, uuid_String_length. simpl. lia. Qed.

Lemma key_of_message_receipt id mid did : key_of_message id (receiptKey mid did) = bool_decide (mid = id).
Proof.
  unfold key_of_message. rewrite key_prefix, bool_decide_true by apply key_length. simpl.
  destruct (String.eqb_spec (uuid_String mid) (uuid_String id)) as [Heq|Hne].
  - apply (inj uuid_String) in Heq. by rewrite bool_decide_true.
  - rewrite bool_decide_false; [done | congruence].
Qed.

Lemma string_app_inj_r_len (p q s t : string) : String.length p = String.length q → p +:+ s = q +:+ t → p = q ∧ s = t.
Proof.
  revert q. induction p as [|c p IH]; intros [|d q] Hl Heq; simplify_eq/=; [done |].
  destruct (IH q) as [-> ->]; [lia | done | done].
Qed.

#[local] Instance receiptKey_inj : Inj2 (=) (=) (=) receiptKey.
Proof.
  intros m1 d1 m2 d2 Heq. unfold receiptKey in Heq. apply string_app_inj_r_len in Heq as [Hu Hd]; [|by rewrite !uuid_String_length].
  apply (inj uuid_String) in Hu. split; [done | by inversion Hd].
Qed.

Lemma lookup_delete_receipts id rs key r : delete_receipts id rs !! key = Some r ↔ rs !! key = Some r ∧ key_of_message id key = false.
Proof. unfold delete_receipts. rewrite map_lookup_filter_Some. done. Qed.

(** ** The store stays consistent *)

Record conv_wf (s : MemoryStore) : Prop := {
  cw_thread id t : cs_threads s !! id = Some t → th_ID t = id ∧ NoDup (th_Participants t) ∧
    th_MessageCount t = Z.of_nat (length (get_slice (cs_messagesByThread s) id));
  cw_byDID did : NoDup (get_slice (cs_threadsByDID s) did) ∧
    ∀ id, id ∈ get_slice (cs_threadsByDID s) did ↔ ∃ t, cs_threads s !! id = Some t ∧ did ∈ th_Participants t;
  cw_byThread tid : NoDup (get_slice (cs_messagesByThread s) tid) ∧
    ∀ id, id ∈ get_slice (cs_messagesByThread s) tid ↔ ∃ m, cs_messages s !! id = Some m ∧ sm_ThreadID m = tid;
  cw_message id m : cs_messages s !! id = Some m → sm_ID m = id ∧ is_Some (cs_threads s !! sm_ThreadID m);
  cw_receipt key r : cs_receipts s !! key = Some r → key = receiptKey (rc_MessageID r) (rc_RecipientDID r) ∧
    is_Some (cs_messages s !! rc_MessageID r) ∧ is_Some (rc_DeliveredAt r);
}.

Lemma wf_empty cfg c : conv_wf {| cs_threads := ∅; cs_messages := ∅; cs_receipts := ∅; cs_messagesByThread := ∅; cs_threadsByDID := ∅;
  cs_config := cfg; cs_closed := c |}.
Proof.
  split; simpl; try (intros *; rewrite lookup_empty; by intros [=]).
  - intros did. unfold get_slice. rewrite lookup_empty. simpl. split; [constructor |].
    intros id. split; [by intros ?%not_elem_of_nil | intros (t & Ht & _); by rewrite lookup_empty in Ht].
  - intros tid. unfold get_slice. rewrite lookup_empty. simpl. split; [constructor |].
    intros id. split; [by intros ?%not_elem_of_nil | intros (t & Ht & _); by rewrite lookup_empty in Ht].
Qed.

Lemma wf_CreateThread s t : conv_wf s → cs_threads s !! th_ID t = None → NoDup (th_Participants t) → th_MessageCount t = 0 →
  conv_wf (CreateThread s t).1.
Proof.
  intros W Hf Hn Hc. unfold CreateThread. destruct (cs_closed s); [done |]. simpl.
  assert (Hempty : get_slice (cs_messagesByThread s) (th_ID t) = []).
  { destruct (get_slice _ _) as [|m l] eqn:Hl; [done |]. destruct (cw_byThread s W (th_ID t)) as [_ Hin].
    destruct (Hin m) as [[msg [Hm Ht]] _]; [rewrite Hl; by left |]. destruct (cw_message s W m msg Hm) as [_ [? ?]]. congruence. }
  split; simpl.
  - intros id t'. destruct (decide (id = th_ID t)) as [->|Hne].
    + rewrite lookup_insert_eq. intros [= <-]. by rewrite Hempty, Hc.
    + rewrite lookup_insert_ne by done. apply W.
  - intros did. rewrite (fold_slices _ (λ _ l, l ++ [th_ID t])) by (intros *; apply get_push_slice || done).
    destruct (cw_byDID s W did) as [Hnd Hin]. destruct (decide (did ∈ th_Participants t)) as [Hd|Hd].
    + assert (th_ID t ∉ get_slice (cs_threadsByDID s) did) by (intros (? & ? & _)%Hin; congruence).
      split; [apply NoDup_app; split_and!; [done | set_solver | apply NoDup_singleton] |].
      intros id. rewrite elem_of_app, Hin, list_elem_of_singleton. destruct (decide (id = th_ID t)) as [->|Hne].
      * rewrite lookup_insert_eq. naive_solver.
      * rewrite lookup_insert_ne by done. naive_solver.
    + split; [done |]. intros id. rewrite Hin. destruct (decide (id = th_ID t)) as [->|Hne].
      * rewrite lookup_insert_eq. naive_solver.
      * by rewrite lookup_insert_ne.
  - apply W.
  - intros id m Hm. destruct (cw_message s W id m Hm) as [? Hs]. split; [done |].
    destruct (decide (sm_ThreadID m = th_ID t)) as [->|]; [rewrite lookup_insert_eq; eauto | by rewrite lookup_insert_ne].
  - apply W.
Qed.

Lemma wf_UpdateThread s t : conv_wf s → NoDup (th_Participants t) →
  (∀ old, cs_threads s !! th_ID t = Some old → th_MessageCount t = th_MessageCount old) → conv_wf (UpdateThread s t).1.
Proof.
  intros W Hn Hc. unfold UpdateThread. destruct (cs_closed s); [done |].
  destruct (cs_threads s !! th_ID t) as [old|] eqn:Hold; [|done]. specialize (Hc old eq_refl).
  destruct (cw_thread s W _ _ Hold) as (_ & Hno & Hcount). simpl. split; simpl.
  - intros id t'. destruct (decide (id = th_ID t)) as [->|Hne].
    + rewrite lookup_insert_eq. intros [= <-]. split_and!; congruence || done.
    + rewrite lookup_insert_ne by done. apply W.
  - intros did.
    rewrite (fold_slices _ (λ d l, if HasParticipant old d then l else l ++ [th_ID t]));
      [|intros m k k'; destruct (HasParticipant old k); [by destruct (decide (k' = k)) as [->|] | apply get_push_slice] | done].
    rewrite (fold_slices _ (λ d l, if HasParticipant t d then l else remove_one (th_ID t) l));
      [|intros m k k'; destruct (HasParticipant t k); [by destruct (decide (k' = k)) as [->|] | apply get_remove] | done].
    destruct (cw_byDID s W did) as [Hnd Hin].
    destruct (remove_one_spec (th_ID t) _ Hnd) as (Hnd' & Hin' & _).
    unfold HasParticipant.
    assert (Hown : th_ID t ∈ get_slice (cs_threadsByDID s) did ↔ did ∈ th_Participants old) by (rewrite Hin, Hold; naive_solver).
    assert (Hoth : ∀ id, id ≠ th_ID t → id ∈ get_slice (cs_threadsByDID s) did ↔
              ∃ t', <[th_ID t := t]> (cs_threads s) !! id = Some t' ∧ did ∈ th_Participants t') by
      (intros id Hne; rewrite Hin, lookup_insert_ne by done; done).
    assert (Hself : (∃ t', <[th_ID t := t]> (cs_threads s) !! th_ID t = Some t' ∧ did ∈ th_Participants t') ↔ did ∈ th_Participants t)
      by (rewrite lookup_insert_eq; naive_solver).
    destruct (decide (did ∈ th_Participants t)) as [Ht|Ht], (decide (did ∈ th_Participants old)) as [Ho|Ho];
      rewrite ?(bool_decide_true (did ∈ _)) by done; rewrite ?(bool_decide_false (did ∈ _)) by done.
    + split; [done |]. intros id. destruct (decide (id = th_ID t)) as [->|]; [by rewrite Hself, Hown | by apply Hoth].
    + split; [apply NoDup_app; split_and!; [done | set_solver | apply NoDup_singleton] |].
      intros id. rewrite elem_of_app, list_elem_of_singleton. destruct (decide (id = th_ID t)) as [->|]; [by rewrite Hself; tauto |].
      rewrite <- Hoth by done. tauto.
    + split; [done |]. intros id. rewrite Hin'. destruct (decide (id = th_ID t)) as [->|]; [rewrite Hself; tauto |].
      rewrite <- Hoth by done. tauto.
    + split; [done |]. intros id. destruct (decide (id = th_ID t)) as [->|]; [by rewrite Hself, Hown | by apply Hoth].
  - apply W.
  - intros id m Hm. destruct (cw_message s W id m Hm) as [? Hs]. split; [done |].
    destruct (decide (sm_ThreadID m = th_ID t)) as [->|]; [rewrite lookup_insert_eq; eauto | by rewrite lookup_insert_ne].
  - apply W.
Qed.

Lemma delete_all_spec ids : ∀ (ms : gmap uuid StoredMessage) rs,
  let '(ms', rs') := foldl (λ '(ms, rs) msgID, (delete msgID ms, delete_receipts msgID rs)) (ms, rs) ids in
  (∀ id m, ms' !! id = Some m ↔ ms !! id = Some m ∧ id ∉ ids) ∧
  (∀ key r, rs' !! key = Some r ↔ rs !! key = Some r ∧ ∀ id, id ∈ ids → key_of_message id key = false).
Proof.
  induction ids as [|i ids IH]; intros ms rs; simpl.
  - split; [intros; split; [intros ?; split; [done | apply not_elem_of_nil] | by intros []] |].
    intros key r. split; [intros ?; split; [done | by intros ? ?%not_elem_of_nil] | by intros []].
  - specialize (IH (delete i ms) (delete_receipts i rs)). destruct (foldl _ _ ids) as [ms' rs']. destruct IH as [IH1 IH2].
    split.
    + intros id m. rewrite IH1, lookup_delete_Some, not_elem_of_cons. naive_solver.
    + intros key r. rewrite IH2, lookup_delete_receipts. setoid_rewrite elem_of_cons. naive_solver.
Qed.

Lemma wf_DeleteThread s id : conv_wf s → conv_wf (DeleteThread s id).1.
Proof.
  intros W. unfold DeleteThread. destruct (cs_closed s); [done |].
  destruct (cs_threads s !! id) as [t|] eqn:Ht; [|done]. destruct (cw_thread s W _ _ Ht) as (Hid & Hn & _).
  pose proof (delete_all_spec (get_slice (cs_messagesByThread s) id) (cs_messages s) (cs_receipts s)) as Hd.
  destruct (foldl _ _ (get_slice (cs_messagesByThread s) id)) as [ms' rs']. destruct Hd as [Hms Hrs].
  destruct (cw_byThread s W id) as [_ Hin].
  assert (Hms' : ∀ i m, ms' !! i = Some m ↔ cs_messages s !! i = Some m ∧ sm_ThreadID m ≠ id).
  { intros i m. rewrite Hms, Hin. split; [intros [? Hno]; split; [done |]; intros Heq; apply Hno; eauto |].
    intros [Hm Hne]. split; [done |]. intros (m' & Hm' & Heq). congruence. }
  simpl. split; simpl.
  - intros i t' [Hne Hl]%lookup_delete_Some. unfold get_slice. rewrite lookup_delete_ne by done. by apply W.
  - intros did. rewrite (fold_slices _ (λ _ l, remove_one id l)) by (intros *; apply get_remove || done).
    destruct (cw_byDID s W did) as [Hnd Hind]. destruct (remove_one_spec id _ Hnd) as (Hnd' & Hin' & _).
    destruct (decide (did ∈ th_Participants t)) as [Hp|Hp]; (split; [done |]); intros i; rewrite ?Hin', Hind;
      setoid_rewrite lookup_delete_Some; naive_solver.
  - intros tid. destruct (decide (tid = id)) as [->|Hne].
    + unfold get_slice. rewrite lookup_delete_eq. simpl. split; [constructor |]. intros i.
      split; [by intros ?%not_elem_of_nil |]. intros (m & [_ Hm]%Hms' & Heq). done.
    + unfold get_slice. rewrite lookup_delete_ne by done. destruct (cw_byThread s W tid) as [Hnd Hint]. split; [done |].
      intros i. rewrite Hint. setoid_rewrite Hms'. naive_solver.
  - intros i m [Hm Hne]%Hms'. destruct (cw_message s W i m Hm) as [? ?]. split; [done |]. by rewrite lookup_delete_ne.
  - intros key r [Hr Hall]%Hrs. destruct (cw_receipt s W key r Hr) as (-> & [m Hm] & ?). split_and!; [done | | done].
    exists m. apply Hms'. split; [done |]. intros Heq.
    specialize (Hall (rc_MessageID r)). rewrite key_of_message_receipt, bool_decide_true in Hall by done.
    assert (true = false) by (apply Hall, Hin; eauto). discriminate.
Qed.

Lemma wf_SaveMessage now s m : conv_wf s → cs_messages s !! sm_ID m = None → conv_wf (SaveMessage now s m).1.
Proof.
  intros W Hf. unfold SaveMessage. destruct (cs_closed s); [done |].
  destruct (cs_threads s !! sm_ThreadID m) as [t|] eqn:Ht; [|done]. destruct (cw_thread s W _ _ Ht) as (Hid & Hn & Hc).
  destruct (cw_byThread s W (sm_ThreadID m)) as [Hnd Hin].
  assert (Hnot : sm_ID m ∉ get_slice (cs_messagesByThread s) (sm_ThreadID m)) by (intros (? & ? & _)%Hin; congruence).
  simpl. split; simpl.
  - intros id t'. rewrite get_push_slice. destruct (decide (id = sm_ThreadID m)) as [->|Hne].
    + rewrite lookup_insert_eq. intros [= <-]. simpl. rewrite length_app. simpl. split_and!; [done | done | lia].
    + rewrite lookup_insert_ne by done. by apply W.
  - intros did. destruct (cw_byDID s W did) as [Hnd' Hin']. split; [done |]. intros id. rewrite Hin'.
    destruct (decide (id = sm_ThreadID m)) as [->|Hne]; [rewrite lookup_insert_eq, Ht; simpl; naive_solver | by rewrite lookup_insert_ne].
  - intros tid. rewrite get_push_slice. destruct (decide (tid = sm_ThreadID m)) as [->|Hne].
    + split; [apply NoDup_app; split_and!; [done | set_solver | apply NoDup_singleton] |].
      intros id. rewrite elem_of_app, Hin, list_elem_of_singleton. destruct (decide (id = sm_ID m)) as [->|].
      * rewrite lookup_insert_eq. naive_solver.
      * rewrite lookup_insert_ne by done. naive_solver.
    + destruct (cw_byThread s W tid) as [Hnd' Hin']. split; [done |]. intros id. rewrite Hin'.
      destruct (decide (id = sm_ID m)) as [->|]; [rewrite lookup_insert_eq; naive_solver | by rewrite lookup_insert_ne].
  - intros id m'. destruct (decide (id = sm_ID m)) as [->|Hne].
    + rewrite lookup_insert_eq. intros [= <-]. split; [done |]. rewrite lookup_insert_eq. eauto.
    + rewrite lookup_insert_ne by done. intros Hm'. destruct (cw_message s W id m' Hm') as [? ?]. split; [done |].
      destruct (decide (sm_ThreadID m' = sm_ThreadID m)) as [->|]; [rewrite lookup_insert_eq; eauto | by rewrite lookup_insert_ne].
  - intros key r Hr. destruct (cw_receipt s W key r Hr) as (? & [m' Hm'] & ?). split_and!; [done | | done].
    rewrite lookup_insert_ne by congruence. eauto.
Qed.

Lemma wf_DeleteMessage s id : conv_wf s → conv_wf (DeleteMessage s id).1.
Proof.
  intros W. unfold DeleteMessage. destruct (cs_closed s); [done |].
  destruct (cs_messages s !! id) as [m|] eqn:Hm; [|done]. destruct (cw_message s W id m Hm) as [Hid [t Ht]].
  set (upd := λ t, th_with_stats t (th_UpdatedAt t) (th_LastMessage t) (th_MessageCount t - 1)).
  assert (Hlk : ∀ i t', alter upd (sm_ThreadID m) (cs_threads s) !! i = Some t' →
    ∃ t0, cs_threads s !! i = Some t0 ∧ t' = if decide (i = sm_ThreadID m) then upd t0 else t0).
  { intros i t'. destruct (decide (i = sm_ThreadID m)) as [->|Hne].
    - rewrite lookup_alter_eq, fmap_Some. intros (t0 & ? & ->). eauto.
    - rewrite lookup_alter_ne by done. eauto. }
  destruct (cw_byThread s W (sm_ThreadID m)) as [Hnd Hin].
  destruct (remove_one_spec id _ Hnd) as (Hnd' & Hin' & Hlen).
  assert (Hmem : id ∈ get_slice (cs_messagesByThread s) (sm_ThreadID m)) by (apply Hin; eauto). rewrite decide_True in Hlen by done.
  simpl. split; simpl.
  - intros i t' (t0 & Hl & ->)%Hlk. destruct (cw_thread s W i t0 Hl) as (Hi & Hn & Hc). rewrite get_remove.
    destruct (decide (i = sm_ThreadID m)) as [->|Hne]; [|done]. simpl. split_and!; [done | done |]. rewrite Hc, Hlen.
    apply list_elem_of_lookup in Hmem as [j Hj]. apply lookup_lt_Some in Hj. lia.
  - intros did. destruct (cw_byDID s W did) as [Hndd Hind]. split; [done |]. intros i. rewrite Hind.
    destruct (decide (i = sm_ThreadID m)) as [->|Hne]; [rewrite lookup_alter_eq, Ht; simpl; naive_solver | by rewrite lookup_alter_ne].
  - intros tid. rewrite get_remove. destruct (decide (tid = sm_ThreadID m)) as [->|Hne].
    + split; [done |]. intros i. rewrite Hin', Hin. setoid_rewrite lookup_delete_Some. naive_solver.
    + destruct (cw_byThread s W tid) as [Hnd2 Hin2]. split; [done |]. intros i. rewrite Hin2. setoid_rewrite lookup_delete_Some. naive_solver.
  - intros i m' [Hne Hm']%lookup_delete_Some. destruct (cw_message s W i m' Hm') as [? [t' Ht']]. split; [done |].
    destruct (decide (sm_ThreadID m' = sm_ThreadID m)) as [->|]; [rewrite lookup_alter_eq, Ht; eauto | rewrite lookup_alter_ne by done; eauto].
  - intros key r [Hr Hk]%lookup_delete_receipts. destruct (cw_receipt s W key r Hr) as (-> & [m' Hm'] & ?). split_and!; [done | | done].
    rewrite key_of_message_receipt in Hk. apply bool_decide_eq_false in Hk. rewrite lookup_delete_ne by done. eauto.
Qed.

(** A receipt written under its own key. *)
Lemma wf_put_receipt s mid did r : conv_wf s → is_Some (cs_messages s !! mid) → rc_MessageID r = mid → rc_RecipientDID r = did →
  is_Some (rc_DeliveredAt r) → conv_wf (cs_with_receipts s (<[receiptKey mid did := r]> (cs_receipts s))).
Proof.
  intros W Hm Hid Hdid Hd. split; try apply W.
  intros key r'. simpl. destruct (decide (key = receiptKey mid did)) as [->|Hne].
  - rewrite lookup_insert_eq. intros [= <-]. by rewrite Hid, Hdid.
  - rewrite lookup_insert_ne by done. apply W.
Qed.

(** The receipt of a message and a recipient is about them. *)
Lemma receipt_own s mid did r : conv_wf s → cs_receipts s !! receiptKey mid did = Some r → rc_MessageID r = mid ∧ rc_RecipientDID r = did.
Proof. intros W Hr. destruct (cw_receipt s W _ _ Hr) as (Hk & _). by apply (inj2 receiptKey) in Hk as [-> ->]. Qed.

Lemma wf_MarkDelivered now s mid did : conv_wf s → conv_wf (MarkDelivered now s mid did).1.
Proof.
  intros W. unfold MarkDelivered. destruct (cs_closed s); [done |]. destruct (cs_messages s !! mid) as [m|] eqn:Hm; [|done].
  simpl. destruct (cs_receipts s !! _) as [r|] eqn:Hr; apply wf_put_receipt; eauto; simpl; try by apply (receipt_own s mid did r).
  destruct (rc_DeliveredAt r); eauto.
Qed.

Lemma wf_MarkRead now s mid did : conv_wf s → conv_wf (MarkRead now s mid did).1.
Proof.
  intros W. unfold MarkRead. destruct (cs_closed s); [done |]. destruct (cs_messages s !! mid) as [m|] eqn:Hm; [|done].
  simpl. destruct (cs_receipts s !! _) as [r|] eqn:Hr; apply wf_put_receipt; eauto; simpl; try by apply (receipt_own s mid did r).
  destruct (rc_DeliveredAt r); eauto.
Qed.

(** ** Histories *)

Inductive ConvOp :=
| OpCreateThread (t : Thread)
| OpUpdateThread (t : Thread)
| OpDeleteThread (id : uuid)
| OpSaveMessage (m : StoredMessage)
| OpDeleteMessage (id : uuid)
| OpMarkDelivered (mid : uuid) (did : string)
| OpMarkRead (mid : uuid) (did : string).

Definition apply_op (now : Z) (op : ConvOp) (s : MemoryStore) : MemoryStore * option StoreError :=
  match op with
  | OpCreateThread t => CreateThread s t
  | OpUpdateThread t => UpdateThread s t
  | OpDeleteThread id => DeleteThread s id
  | OpSaveMessage m => SaveMessage now s m
  | OpDeleteMessage id => DeleteMessage s id
  | OpMarkDelivered mid did => MarkDelivered now s mid did
  | OpMarkRead mid did => MarkRead now s mid did
  end.

(** IDs of new threads and messages are fresh, participants distinct, and an update is based
    on the thread's current statistics. *)
Definition admissible (s : MemoryStore) (op : ConvOp) : Prop :=
  match op with
  | OpCreateThread t => cs_threads s !! th_ID t = None ∧ NoDup (th_Participants t) ∧ th_MessageCount t = 0
  | OpUpdateThread t => NoDup (th_Participants t) ∧ ∀ old, cs_threads s !! th_ID t = Some old → th_MessageCount t = th_MessageCount old
  | OpSaveMessage m => cs_messages s !! sm_ID m = None
  | _ => True
  end.

Inductive conv_reachable (cfg : StoreConfig) : MemoryStore → Prop :=
| creach_new : conv_reachable cfg (NewMemoryStore cfg)
| creach_op now op s : conv_reachable cfg s → admissible s op → conv_reachable cfg (apply_op now op s).1
| creach_close s : conv_reachable cfg s → conv_reachable cfg (Close s).

Lemma wf_apply_op now op s : conv_wf s → admissible s op → conv_wf (apply_op now op s).1.
Proof.
  intros W. destruct op; simpl; intros Ha; [apply wf_CreateThread | apply wf_UpdateThread | apply wf_DeleteThread | apply wf_SaveMessage
    | apply wf_DeleteMessage | apply wf_MarkDelivered | apply wf_MarkRead]; try done; try apply Ha.
Qed.

Lemma reachable_wf cfg s : conv_reachable cfg s → conv_wf s.
Proof. induction 1; [apply wf_empty | by apply wf_apply_op | apply wf_empty]. Qed.

(** Looking up a list of distinct IDs. *)
Lemma omap_ids {V} (m : gmap uuid V) (idf : V → uuid) ids : (∀ k v, m !! k = Some v → idf v = k) → NoDup ids →
  NoDup (idf <$> omap (λ id, m !! id) ids) ∧
  (∀ v, v ∈ omap (λ id, m !! id) ids ↔ m !! idf v = Some v ∧ idf v ∈ ids).
Proof.
  intros Hid Hn.
  assert (Hel : ∀ v, v ∈ omap (λ id, m !! id) ids ↔ m !! idf v = Some v ∧ idf v ∈ ids).
  { intros v. rewrite list_elem_of_omap. split.
    - intros (k & Hk & Hv). by rewrite (Hid k v Hv).
    - intros [Hv Hin]. eauto. }
  split; [|done]. clear Hel. induction Hn as [|k ids Hk Hn IH]; simpl; [constructor |].
  destruct (m !! k) as [v|] eqn:Hv; [|done]. simpl. constructor; [|done].
  rewrite (Hid k v Hv). intros (w & Hw & Hin)%list_elem_of_fmap. apply list_elem_of_omap in Hin as (k' & Hk' & Hw').
  apply Hk. rewrite Hw. by rewrite (Hid k' w Hw').
Qed.

Lemma paginate_all {A} (l : list A) : paginate 0 0 l = l.
Proof. by destruct l. Qed.

Lemma omap_all {V} (m : gmap uuid V) ids : (∀ id, id ∈ ids → is_Some (m !! id)) → length (omap (λ id, m !! id) ids) = length ids.
Proof.
  induction ids as [|k ids IH]; intros Hall; simpl; [done |].
  destruct (Hall k) as [v ->]; [by left |]. simpl. f_equal. apply IH. intros; apply Hall; by right.
Qed.

Definition all_messages (id : uuid) : MessageFilter :=
  {| mf_ThreadID := id; mf_Since := None; mf_Before := None; mf_Types := []; mf_Limit := 0; mf_Offset := 0 |}.
Definition threads_of (did : string) : ThreadFilter := {| tf_ParticipantDID := did; tf_Since := None; tf_Limit := 0; tf_Offset := 0 |}.

(** C9. In every history of operations with fresh IDs the conversation store is consistent: the
    message count of a thread is the number of messages it lists, each stored message is
    listed once in its thread and nowhere else, a participant's list holds exactly the
    threads they take part in, once each, and every receipt belongs to a stored message and
    says that it was delivered. *)
Theorem conversation_consistent cfg s : conv_reachable cfg s → cs_closed s = false →
  (∀ id t sort R, SortFunc R sort → GetThread s id = Ok t →
     ∃ l, GetMessages sort s (all_messages id) = Ok l ∧ Z.of_nat (length l) = th_MessageCount t ∧ NoDup (sm_ID <$> l) ∧
       ∀ m, m ∈ l ↔ GetMessage s (sm_ID m) = Ok m ∧ sm_ThreadID m = id) ∧
  (∀ did sort ks R, SortFunc R sort → did ≠ "" →
     ∃ l, ListThreads sort ks s (threads_of did) = Ok l ∧ NoDup (th_ID <$> l) ∧
       ∀ t, t ∈ l ↔ GetThread s (th_ID t) = Ok t ∧ did ∈ th_Participants t) ∧
  (∀ mid did r, GetReceipt s mid did = Ok r →
     rc_MessageID r = mid ∧ rc_RecipientDID r = did ∧ IsDelivered r = true ∧ ∃ m, GetMessage s mid = Ok m).
Proof.
  intros W%reachable_wf Hopen. split_and!.
  - intros id t sort R HS Ht. unfold GetThread in Ht. rewrite Hopen in Ht. destruct (cs_threads s !! id) as [t0|] eqn:Hl; simplify_eq.
    unfold GetMessages. rewrite Hopen. simpl. eexists. split; [done |]. rewrite paginate_all.
    rewrite filter_all by (by apply Forall_forall). destruct (cw_byThread s W id) as [Hn Hin].
    destruct (omap_ids (cs_messages s) sm_ID _ (λ k v Hv, proj1 (cw_message s W k v Hv)) Hn) as [Hnd Hel].
    pose proof (sort_Permutation (R := R) (omap (λ i, cs_messages s !! i) (get_slice (cs_messagesByThread s) id))) as P.
    split_and!; [| by rewrite P |].
    + rewrite (Permutation_length P), omap_all; [symmetry; apply (cw_thread s W id t Hl) |].
      intros i (m & Hm & _)%Hin. eauto.
    + intros m. rewrite P, Hel, Hin. unfold GetMessage. rewrite Hopen.
      destruct (cs_messages s !! sm_ID m) as [m'|] eqn:Hm; split; intros [H1 H2]; simplify_eq; try done; naive_solver.
  - intros did sort ks R HS Hne. unfold ListThreads. rewrite Hopen. simpl. rewrite decide_False by done. eexists. split; [done |].
    rewrite paginate_all. rewrite filter_all by (by apply Forall_forall). destruct (cw_byDID s W did) as [Hn Hin].
    destruct (omap_ids (cs_threads s) th_ID _ (λ k v Hv, proj1 (cw_thread s W k v Hv)) Hn) as [Hnd Hel].
    pose proof (sort_Permutation (R := R) (omap (λ i, cs_threads s !! i) (get_slice (cs_threadsByDID s) did))) as P.
    split; [by rewrite P |]. intros t. rewrite P, Hel, Hin. unfold GetThread. rewrite Hopen.
    destruct (cs_threads s !! th_ID t) as [t'|] eqn:Ht; split; intros [H1 H2]; simplify_eq; try done; naive_solver.
  - intros mid did r Hr. unfold GetReceipt in Hr. rewrite Hopen in Hr. destruct (cs_receipts s !! _) as [r0|] eqn:Hl; simplify_eq.
    destruct (receipt_own s mid did r W Hl) as [<- <-]. destruct (cw_receipt s W _ _ Hl) as (_ & [m Hm] & Hd).
    split_and!; [done | done | by apply bool_decide_true |]. unfold GetMessage. rewrite Hopen, Hm. eauto.
Qed.

(** *** Order and pages *)

Lemma wrap64_id z : - 2 ^ 63 ≤ z < 2 ^ 63 → wrap64 z = z.
Proof. intros Hz. unfold wrap64. rewrite Z.mod_small by lia. lia. Qed.

(** Consecutive pages of [n] cover the list. *)
Definition pages {A} (n : Z) (l : list A) (k : nat) : list A := concat ((λ i, paginate (Z.of_nat i * n) n l) <$> seq 0 k).

Lemma paginate_page {A} (i : nat) (n : Z) (l : list A) : 0 < n → paginate (Z.of_nat i * n) n l = take (Z.to_nat n) (drop (i * Z.to_nat n) l).
Proof.
  intros Hn. unfold paginate. set (k := Z.to_nat n). assert (Hk : n = Z.of_nat k) by lia. assert (0 < k)%nat by lia. rewrite Hk.
  replace (Z.to_nat (Z.of_nat i * Z.of_nat k)) with (i * k)%nat by lia. rewrite (bool_decide_true (0 < Z.of_nat k)) by lia.
  destruct (decide (0 < Z.of_nat i * Z.of_nat k)) as [Hp|Hp].
  - rewrite bool_decide_true by done. simpl. destruct (decide (Z.of_nat (length l) ≤ Z.of_nat i * Z.of_nat k)) as [Hl|Hl].
    + rewrite bool_decide_true by done. rewrite drop_ge by lia. by rewrite take_nil.
    + rewrite bool_decide_false by done. case_bool_decide as Hlt; simpl; [done |]. by rewrite take_ge by lia.
  - rewrite bool_decide_false by done. simpl. replace (i * k)%nat with 0%nat by lia. rewrite drop_0.
    case_bool_decide as Hlt; [done |]. by rewrite take_ge by lia.
Qed.

Lemma pages_take {A} n (l : list A) k : 0 < n → pages n l k = take (k * Z.to_nat n) l.
Proof.
  intros Hn. unfold pages. induction k as [|k IH]; [done |].
  rewrite seq_S, fmap_app, concat_app, IH. simpl. rewrite app_nil_r, paginate_page by done.
  rewrite take_take_drop. f_equal. lia.
Qed.

Definition with_page (f : MessageFilter) (offset limit : Z) : MessageFilter :=
  {| mf_ThreadID := mf_ThreadID f; mf_Since := mf_Since f; mf_Before := mf_Before f; mf_Types := mf_Types f;
     mf_Limit := limit; mf_Offset := offset |}.

(** [slices.SortFunc]: a permutation, and in order when the comparison is a total preorder on
    the elements. *)
Definition consistent {A} (cmp : A → A → Z) (l : list A) : Prop :=
  (∀ a b, a ∈ l → b ∈ l → cmp a b ≤ 0 ∨ cmp b a ≤ 0) ∧
  (∀ a b c, a ∈ l → b ∈ l → c ∈ l → cmp a b ≤ 0 → cmp b c ≤ 0 → cmp a c ≤ 0).

Class CmpSort {A} (cmp : A → A → Z) (sort : list A → list A) : Prop := {
  cmp_sort_Permutation l : sort l ≡ₚ l;
  cmp_sort_Sorted l : consistent cmp l → StronglySorted (λ a b, cmp a b ≤ 0) (sort l);
}.

Lemma seq_consistent l : (∀ m, m ∈ l → 0 ≤ sm_ThreadSeqNo m < 2 ^ 62) → consistent seq_compare l.
Proof.
  intros Hr. split; unfold seq_compare; intros.
  - pose proof (Hr a). pose proof (Hr b). rewrite !wrap64_id by (intuition lia). lia.
  - pose proof (Hr a). pose proof (Hr b). pose proof (Hr c). rewrite !wrap64_id in * by (intuition lia). lia.
Qed.

Lemma seq_sorted l : StronglySorted (λ a b, seq_compare a b ≤ 0) l → (∀ m, m ∈ l → 0 ≤ sm_ThreadSeqNo m < 2 ^ 62) →
  StronglySorted (key_le sm_ThreadSeqNo) l.
Proof.
  induction 1 as [|m l Sl IHl Hall]; intros Hr; constructor.
  - apply IHl. intros m' Hm'. apply Hr. by right.
  - rewrite Forall_forall in *. intros m' Hm'. specialize (Hall m' Hm'). unfold seq_compare in Hall. unfold key_le.
    pose proof (Hr m ltac:(by left)). pose proof (Hr m' ltac:(by right)). rewrite wrap64_id in Hall by lia. lia.
Qed.

(** The list that all the pages are cut from. *)
Lemma messages_sorted s f sort : conv_wf s → cs_closed s = false →
  CmpSort seq_compare sort →
  (∀ id m, cs_messages s !! id = Some m → 0 ≤ sm_ThreadSeqNo m < 2 ^ 62) →
  ∃ l, StronglySorted (key_le sm_ThreadSeqNo) l ∧ NoDup (sm_ID <$> l) ∧
    (∀ m, m ∈ l ↔ GetMessage s (sm_ID m) = Ok m ∧ sm_ThreadID m = mf_ThreadID f ∧ messageMatchesFilter m f = true) ∧
    (∀ offset limit, GetMessages sort s (with_page f offset limit) = Ok (paginate offset limit l)).
Proof.
  intros W Hopen HS Hrange.
  set (found := omap (λ id, cs_messages s !! id) (get_slice (cs_messagesByThread s) (mf_ThreadID f))).
  exists (sort (filter (λ m, messageMatchesFilter m f = true) found)).
  destruct (cw_byThread s W (mf_ThreadID f)) as [Hnd Hin].
  destruct (omap_ids (cs_messages s) sm_ID _ (λ k v Hv, proj1 (cw_message s W k v Hv)) Hnd) as [Hnds Hel]. fold found in Hnds, Hel.
  set (hits := filter (λ m, messageMatchesFilter m f = true) found).
  pose proof (cmp_sort_Permutation (cmp := seq_compare) hits) as P.
  assert (Hr : ∀ m, m ∈ hits → 0 ≤ sm_ThreadSeqNo m < 2 ^ 62).
  { intros m. unfold hits. rewrite list_elem_of_filter, Hel. intros (_ & Hm & _). by apply (Hrange (sm_ID m)). }
  split_and!.
  - apply seq_sorted; [by apply cmp_sort_Sorted, seq_consistent | intros m; rewrite P; apply Hr].
  - rewrite P. apply (sublist_NoDup _ (sm_ID <$> found)); [done | apply fmap_sublist, sublist_filter].
  - intros m. rewrite P. unfold hits. rewrite list_elem_of_filter, Hel, Hin. unfold GetMessage. rewrite Hopen.
    destruct (cs_messages s !! sm_ID m) as [m'|] eqn:Hm; split; intros (H1 & H2 & H3); simplify_eq; try done; naive_solver.
  - intros offset limit. unfold GetMessages. by rewrite Hopen.
Qed.

(** The messages of a thread that match a filter come in the order of their sequence
    numbers (taken within 62 bits, so that the comparison by subtraction does not wrap), each
    once, and a client that asks for page after page of any size gets exactly that list. *)
Theorem messages_in_order cfg s f sort n : conv_reachable cfg s → cs_closed s = false →
  CmpSort seq_compare sort → 0 < n →
  (∀ id m, cs_messages s !! id = Some m → 0 ≤ sm_ThreadSeqNo m < 2 ^ 62) →
  ∃ l, StronglySorted (key_le sm_ThreadSeqNo) l ∧ NoDup (sm_ID <$> l) ∧
    (∀ m, m ∈ l ↔ GetMessage s (sm_ID m) = Ok m ∧ sm_ThreadID m = mf_ThreadID f ∧ messageMatchesFilter m f = true) ∧
    (∀ offset limit, GetMessages sort s (with_page f offset limit) = Ok (paginate offset limit l)) ∧
    pages n l (S (length l)) = l.
Proof.
  intros W%reachable_wf Hopen HS Hn Hrange. destruct (messages_sorted s f sort W Hopen HS Hrange) as (l & ? & ? & ? & ?).
  exists l. split_and!; try done. rewrite pages_take by done. apply take_ge. nia.
Qed.

(** *** Receipts *)

(** Receipts never go back: in every step the receipt of a message and a recipient keeps the
    time of delivery it has, and once it says read it says so for good, until the message
    itself is gone; a message that is read has been delivered. *)
Theorem receipts_monotone cfg now op s mid did r : conv_reachable cfg s → admissible s op →
  cs_receipts s !! receiptKey mid did = Some r →
  let w := (apply_op now op s).1 in
  (∃ r', cs_receipts w !! receiptKey mid did = Some r' ∧ rc_DeliveredAt r' = rc_DeliveredAt r ∧ IsDelivered r' = true ∧
     (IsRead r = true → IsRead r' = true)) ∨
  cs_messages w !! mid = None.
Proof.
  intros W%reachable_wf Ha Hr w. pose proof (wf_apply_op now op s W Ha) as Ww. fold w in Ww.
  destruct (cw_receipt s W _ _ Hr) as (_ & _ & [d Hd]).
  assert (Hsame : cs_receipts w !! receiptKey mid did = Some r →
    ∃ r', cs_receipts w !! receiptKey mid did = Some r' ∧ rc_DeliveredAt r' = rc_DeliveredAt r ∧ IsDelivered r' = true ∧ (IsRead r = true → IsRead r' = true)).
  { intros Hw. exists r. split_and!; try done. unfold IsDelivered. rewrite Hd. by apply bool_decide_true. }
  unfold w, apply_op in *. destruct op as [t|t|id|m|id|mid' did'|mid' did'].
  - left. apply Hsame. unfold CreateThread. by destruct (cs_closed s).
  - left. apply Hsame. unfold UpdateThread. destruct (cs_closed s); [done |]. by destruct (cs_threads s !! th_ID t).
  - destruct (cs_messages (DeleteThread s id).1 !! mid) eqn:Hm; [left | by right]. apply Hsame. clear Hsame Ww. unfold DeleteThread in *.
    destruct (cs_closed s); [done |]. destruct (cs_threads s !! id) as [t|]; [|done].
    pose proof (delete_all_spec (get_slice (cs_messagesByThread s) id) (cs_messages s) (cs_receipts s)) as Hdel.
    destruct (foldl _ _ (get_slice _ id)) as [ms' rs']. simpl in *. destruct Hdel as [Hms Hrs].
    apply Hrs. split; [done |]. intros i Hi. rewrite key_of_message_receipt. apply bool_decide_false. intros <-.
    apply Hms in Hm as [_ Hnot]. done.
  - left. apply Hsame. unfold SaveMessage. destruct (cs_closed s); [done |]. by destruct (cs_threads s !! _).
  - destruct (cs_messages (DeleteMessage s id).1 !! mid) eqn:Hm; [left | by right]. apply Hsame. clear Hsame Ww. unfold DeleteMessage in *.
    destruct (cs_closed s); [done |]. destruct (cs_messages s !! id) as [m|]; [|done]. simpl in *.
    apply lookup_delete_receipts. split; [done |]. rewrite key_of_message_receipt. apply bool_decide_false. intros ->.
    by rewrite lookup_delete_eq in Hm.
  - left. unfold MarkDelivered in *. destruct (cs_closed s); [by apply Hsame |]. destruct (cs_messages s !! mid'); [|by apply Hsame].
    simpl in *. destruct (decide (receiptKey mid did = receiptKey mid' did')) as [<-|Hne].
    + rewrite lookup_insert_eq, Hr. eexists. split; [done |]. unfold IsDelivered, IsRead. simpl. rewrite Hd. by rewrite bool_decide_true.
    + apply Hsame. by rewrite lookup_insert_ne.
  - left. unfold MarkRead in *. destruct (cs_closed s); [by apply Hsame |]. destruct (cs_messages s !! mid'); [|by apply Hsame].
    simpl in *. destruct (decide (receiptKey mid did = receiptKey mid' did')) as [<-|Hne].
    + rewrite lookup_insert_eq, Hr. eexists. split; [done |]. unfold IsDelivered, IsRead. simpl. rewrite Hd.
      by split_and!.
    + apply Hsame. by rewrite lookup_insert_ne.
Qed.

(** C37. Errors change nothing and say what is missing: a closed store refuses every operation as
    closed; otherwise an operation fails exactly when the thread or the message it names is
    not there, with the error for that, and in every failure the store is as before. *)
Theorem conversation_errors now op s :
  let missing :=
    match op with
    | OpCreateThread _ => None
    | OpUpdateThread t => if cs_threads s !! th_ID t is Some _ then None else Some ErrThreadNotFound
    | OpDeleteThread id => if cs_threads s !! id is Some _ then None else Some ErrThreadNotFound
    | OpSaveMessage m => if cs_threads s !! sm_ThreadID m is Some _ then None else Some ErrThreadNotFound
    | OpDeleteMessage id | OpMarkDelivered id _ | OpMarkRead id _ => if cs_messages s !! id is Some _ then None else Some ErrMessageNotFound
    end in
  let '(w, e) := apply_op now op s in
  e = (if cs_closed s then Some ErrStoreClosed else missing) ∧ (e ≠ None → w = s) ∧ cs_closed w = cs_closed s ∧
  (∀ id mid did sort1 sort2 ks1 ks2 tf mf, let c := Close s in
     apply_op now op c = (c, Some ErrStoreClosed) ∧ GetThread c id = Err ErrStoreClosed ∧ GetMessage c id = Err ErrStoreClosed ∧
     GetReceipt c mid did = Err ErrStoreClosed ∧ GetReceipts ks1 c mid = Err ErrStoreClosed ∧
     ListThreads sort1 ks2 c tf = Err ErrStoreClosed ∧ GetMessages sort2 c mf = Err ErrStoreClosed).
Proof.
  cbn zeta. destruct op; unfold apply_op;
    [unfold CreateThread | unfold UpdateThread | unfold DeleteThread | unfold SaveMessage | unfold DeleteMessage | unfold MarkDelivered | unfold MarkRead];
    (destruct (cs_closed s) eqn:Hc; [by rewrite Hc |]);
    repeat (case_match; try (by rewrite Hc)); simplify_eq; try done.
Qed.

(** An update that is based on a thread read before a message was saved takes the count back. *)
Lemma stale_update_loses_count now s t m : cs_closed s = false → cs_threads s !! th_ID t = Some t → sm_ThreadID m = th_ID t →
  let s1 := (SaveMessage now s m).1 in
  let s2 := (UpdateThread s1 t).1 in
  cs_threads s2 !! th_ID t = Some t ∧
  length (get_slice (cs_messagesByThread s2) (th_ID t)) = S (length (get_slice (cs_messagesByThread s) (th_ID t))).
Proof.
  intros Hopen Ht Hm. unfold SaveMessage. rewrite Hopen, Hm, Ht. simpl. unfold UpdateThread. simpl. rewrite Hopen, lookup_insert_eq. simpl.
  split; [by rewrite lookup_insert_eq |]. rewrite get_push_slice, decide_True by done. rewrite length_app. simpl. lia.
Qed.

(** Saving a message under an ID that is in use counts and lists it again. *)
Lemma saved_again_counts_twice now s t m : cs_closed s = false → cs_threads s !! sm_ThreadID m = Some t →
  let s2 := (SaveMessage now (SaveMessage now s m).1 m).1 in
  th_MessageCount <$> cs_threads s2 !! sm_ThreadID m = Some (th_MessageCount t + 2) ∧
  cs_messages s2 = <[sm_ID m := m]> (cs_messages s).
Proof.
  intros Hopen Ht. unfold SaveMessage. rewrite Hopen, Ht. simpl. rewrite Hopen, lookup_insert_eq. simpl.
  rewrite lookup_insert_eq. simpl. split; [f_equal; lia | apply insert_insert_eq].
Qed.
End store_facts.

(** ** A concrete store *)

Module Example.

Import HexRuntime.

Definition thread (n : nat) (ps : list string) : Thread := NewThread (uuid_lit n) 1 ps.
Definition message (n t : nat) (seqno : Z) : StoredMessage := {|
  sm_ID := uuid_lit n; sm_ThreadID := uuid_lit t; sm_ParentID := None; sm_From := "did:a"; sm_To := "did:b"; sm_Type := "chat";
  sm_Body := "hi"; sm_Timestamp := 5; sm_ThreadSeqNo := seqno; sm_Encrypted := false; sm_Metadata := ∅ |}.

Definition history : list ConvOp :=
  [OpCreateThread (thread 1 ["did:a"; "did:b"]); OpSaveMessage (message 11 1 2); OpSaveMessage (message 12 1 1); OpMarkRead (uuid_lit 11) "did:b"].
Definition store : MemoryStore := foldl (λ s op, (@apply_op runtime 9 op s).1) (NewMemoryStore DefaultStoreConfig) history.

Fixpoint insert_by {A} (cmp : A → A → Z) (x : A) (l : list A) : list A :=
  match l with [] => [x] | y :: l => if cmp x y <=? 0 then x :: y :: l else y :: insert_by cmp x l end.
Definition sort_by {A} (cmp : A → A → Z) : list A → list A := foldr (insert_by cmp) [].

Lemma insert_by_Permutation {A} (cmp : A → A → Z) x l : insert_by cmp x l ≡ₚ x :: l.
Proof. induction l as [|y l IH]; simpl; [done |]. destruct (cmp x y <=? 0); [done |]. rewrite IH. constructor. Qed.

Lemma sort_by_Permutation {A} (cmp : A → A → Z) l : sort_by cmp l ≡ₚ l.
Proof. induction l as [|x l IH]; simpl; [done |]. by rewrite insert_by_Permutation, IH. Qed.

Lemma consistent_subset {A} (cmp : A → A → Z) l l' : consistent cmp l → (∀ x, x ∈ l' → x ∈ l) → consistent cmp l'.
Proof. intros [H1 H2] Hs. split; [auto |]. intros a b c Ha Hb Hc. apply H2; auto. Qed.

Lemma insert_by_sorted {A} (cmp : A → A → Z) x l : consistent cmp (x :: l) → StronglySorted (λ a b, cmp a b ≤ 0) l →
  StronglySorted (λ a b, cmp a b ≤ 0) (insert_by cmp x l).
Proof.
  intros Hc. induction 1 as [|y l Sl IH Hall]; simpl; [by repeat constructor |]. destruct (Z.leb_spec (cmp x y) 0) as [Hle|Hgt].
  - constructor; [by constructor |]. constructor; [done |]. rewrite Forall_forall in *. intros z Hz.
    destruct Hc as [_ Ht]. apply (Ht x y z); rewrite ?elem_of_cons; auto.
  - constructor.
    + apply IH. apply (consistent_subset cmp _ _ Hc). intros z. rewrite !elem_of_cons. tauto.
    + rewrite Forall_forall in *. intros z. rewrite insert_by_Permutation. intros [->|Hz]%elem_of_cons; [|by apply Hall].
      destruct Hc as [Htot _]. destruct (Htot x y) as [?|?]; rewrite ?elem_of_cons; auto; lia.
Qed.

Lemma sort_by_CmpSort {A} (cmp : A → A → Z) : CmpSort cmp (sort_by cmp).
Proof.
  split; [apply sort_by_Permutation |]. intros l. induction l as [|x l IH]; intros Hc; simpl; [constructor |].
  assert (Hl : consistent cmp l) by (apply (consistent_subset cmp _ _ Hc); by right).
  apply insert_by_sorted; [|by apply IH]. apply (consistent_subset cmp _ _ Hc).
  intros z. by rewrite !elem_of_cons, sort_by_Permutation.
Qed.
End Example.

Lemma example_reachable : @conv_reachable HexRuntime.runtime DefaultStoreConfig Example.store.
Proof.
  unfold Example.store, Example.history. cbn [foldl].
  do 4 (apply creach_op; [|first [by vm_compute | split_and!; [by vm_compute | apply (bool_decide_unpack _); by vm_compute | done]]]).
  apply creach_new.
Qed.

Lemma conversation_consistent_witness :
  ∃ l, GetMessages (merge_sort_by sm_ThreadSeqNo) Example.store (all_messages (uuid_lit 1)) = Ok l ∧ Z.of_nat (length l) = 2.
Proof.
  destruct (@conversation_consistent HexRuntime.runtime HexRuntime.runtime_laws DefaultStoreConfig Example.store example_reachable eq_refl) as (H1 & _).
  destruct (GetThread Example.store (uuid_lit 1)) as [t|] eqn:Ht; [|vm_compute in Ht; discriminate].
  destruct (H1 (uuid_lit 1) t (merge_sort_by sm_ThreadSeqNo) (key_le sm_ThreadSeqNo)) as (l & Hl & Hlen & _); [apply _ | done |].
  exists l. split; [done |]. rewrite Hlen. vm_compute in Ht. by injection Ht as <-.
Defined.

Lemma messages_in_order_witness :
  ∃ l, GetMessages (Example.sort_by seq_compare) Example.store (all_messages (uuid_lit 1)) = Ok l ∧ sm_ThreadSeqNo <$> l = [1; 2] ∧ pages 1 l 3 = l.
Proof.
  destruct (@messages_in_order HexRuntime.runtime HexRuntime.runtime_laws DefaultStoreConfig Example.store (all_messages (uuid_lit 1))
    (Example.sort_by seq_compare) 1) as (l & _ & _ & _ & Hget & Hpages).
  - apply example_reachable.
  - done.
  - apply Example.sort_by_CmpSort.
  - done.
  - intros id m Hm.
    assert (Hall : map_Forall (λ _ m, 0 ≤ sm_ThreadSeqNo m < 2 ^ 62) (cs_messages Example.store))
      by (apply (bool_decide_unpack _); by vm_compute).
    by apply (Hall id).
  - specialize (Hget 0 0). rewrite paginate_all in Hget. exists l. split; [exact Hget |].
    vm_compute in Hget. injection Hget as <-. by vm_compute.
Defined.

Lemma receipts_monotone_witness :
  ∃ r, cs_receipts (@apply_op HexRuntime.runtime 20 (OpMarkDelivered (uuid_lit 11) "did:b") Example.store).1 !! @receiptKey HexRuntime.runtime (uuid_lit 11) "did:b" = Some r ∧
    rc_DeliveredAt r = Some 9.
Proof.
  destruct (cs_receipts Example.store !! @receiptKey HexRuntime.runtime (uuid_lit 11) "did:b") as [r|] eqn:Hr; [|vm_compute in Hr; discriminate].
  destruct (@receipts_monotone HexRuntime.runtime HexRuntime.runtime_laws DefaultStoreConfig 20 (OpMarkDelivered (uuid_lit 11) "did:b") Example.store
    (uuid_lit 11) "did:b" r example_reachable I Hr) as [(r' & Hr' & Hd & _)|Hgone]; [|vm_compute in Hgone; discriminate].
  exists r'. split; [exact Hr' |]. rewrite Hd. vm_compute in Hr. by injection Hr as <-.
Defined.
