(* ===== verification/ConversationSql.v ===== *)
(** * The SQLite store of conversations (src/pkg/conversation/sqlite.go)

    The tables as maps from primary keys to rows, each SQL statement of the code as what it does
    to them, and the store refined to the in-memory one.  [fk] says whether the connection that
    runs a statement enforces foreign keys: the PRAGMA is executed once, on one connection of
    the pool.  Failures of the database other than violated constraints are left out. *)

From Stdlib Require Import Ascii.
From S2P Require Import Prelude Conversation.
#[local] Open Scope Z_scope.

(** encoding/json for the two columns of JSON text, and SQLite's LIKE. *)
Class SqlText := {
  Marshal_strings : list string → string;
  Unmarshal_strings : string → option (list string);
  Marshal_metadata : gmap string any → option string;
  Unmarshal_metadata : string → option (gmap string any);
  Like : string → string → bool;
}.

Record ThreadRow := {
  tr_title : string; tr_participants : string; tr_created_at : Z; tr_updated_at : Z; tr_last_message : option Z;
  tr_message_count : Z; tr_metadata : string;
}.

Record MessageRow := {
  mr_thread_id : string; mr_parent_id : option string; mr_sender : string; mr_recipient : string; mr_type : string;
  mr_body : string; mr_timestamp : Z; mr_thread_seq_no : Z; mr_encrypted : bool; mr_metadata : string;
}.

(** delivered_at and read_at. *)
Abbreviation ReceiptRow := (option Z * option Z)%type.

Record SQLiteStore := {
  db_threads : gmap string ThreadRow;
  db_messages : gmap string MessageRow;
  db_receipts : gmap (string * string) ReceiptRow;
}.

(** What [migrate] creates. *)
Definition NewSQLiteStore : SQLiteStore := {| db_threads := ∅; db_messages := ∅; db_receipts := ∅ |}.

Inductive SqlError :=
| Failed (e : StoreError)
| MarshalFailed
| InsertFailed
| ScanFailed.

Section sql.
Context `{Runtime} `{SqlText}.

(** ** Threads *)

Definition thread_row (t : Thread) (metadata : string) (created : Z) : ThreadRow := {|
  tr_title := th_Title t; tr_participants := Marshal_strings (th_Participants t); tr_created_at := created;
  tr_updated_at := th_UpdatedAt t; tr_last_message := th_LastMessage t; tr_message_count := th_MessageCount t; tr_metadata := metadata |}.

(** INSERT refuses a primary key that is there. *)
Definition CreateThread (db : SQLiteStore) (thread : Thread) : SQLiteStore * option SqlError :=
  match Marshal_metadata (th_Metadata thread) with
  | None => (db, Some MarshalFailed)
  | Some metadata =>
      let key := uuid_String (th_ID thread) in
      match db_threads db !! key with
      | Some _ => (db, Some InsertFailed)
      | None => ({| db_threads := <[key := thread_row thread metadata (th_CreatedAt thread)]> (db_threads db);
                    db_messages := db_messages db; db_receipts := db_receipts db |}, None)
      end
  end.

Definition scanThread (id : string) (r : ThreadRow) : result SqlError Thread :=
  match uuid_Parse id, Unmarshal_strings (tr_participants r), Unmarshal_metadata (tr_metadata r) with
  | Some id, Some participants, Some metadata =>
      Ok {| th_ID := id; th_Title := tr_title r; th_Participants := participants; th_CreatedAt := tr_created_at r;
            th_UpdatedAt := tr_updated_at r; th_LastMessage := tr_last_message r; th_MessageCount := tr_message_count r;
            th_Metadata := metadata; th_State := ""; th_TaskIDs := []; th_SessionIDs := [] |}
  | _, _, _ => Err ScanFailed
  end.

Definition GetThread (db : SQLiteStore) (id : uuid) : result SqlError Thread :=
  match db_threads db !! uuid_String id with
  | None => Err (Failed ErrThreadNotFound)
  | Some r => scanThread (uuid_String id) r
  end.

(** The creation time is not among the columns set. *)
Definition UpdateThread (db : SQLiteStore) (thread : Thread) : SQLiteStore * option SqlError :=
  match Marshal_metadata (th_Metadata thread) with
  | None => (db, Some MarshalFailed)
  | Some metadata =>
      let key := uuid_String (th_ID thread) in
      match db_threads db !! key with
      | None => (db, Some (Failed ErrThreadNotFound))
      | Some r => ({| db_threads := <[key := thread_row thread metadata (tr_created_at r)]> (db_threads db);
                      db_messages := db_messages db; db_receipts := db_receipts db |}, None)
      end
  end.

Definition is_gone (gone : string → MessageRow → bool) (db : SQLiteStore) (key : string) : bool :=
  match db_messages db !! key with Some r => gone key r | None => false end.

(** DELETE with its cascades: from threads to messages, from messages to receipts. *)
Definition delete_messages (fk : bool) (gone : string → MessageRow → bool) (db : SQLiteStore) : SQLiteStore := {|
  db_threads := db_threads db;
  db_messages := filter (λ kr, gone kr.1 kr.2 = false) (db_messages db);
  db_receipts := if fk then filter (λ kr, is_gone gone db kr.1.1 = false) (db_receipts db) else db_receipts db |}.

Definition DeleteThread (fk : bool) (db : SQLiteStore) (id : uuid) : SQLiteStore * option SqlError :=
  let key := uuid_String id in
  match db_threads db !! key with
  | None => (db, Some (Failed ErrThreadNotFound))
  | Some _ =>
      let db := if fk then delete_messages fk (λ _ r, bool_decide (mr_thread_id r = key)) db else db in
      ({| db_threads := delete key (db_threads db); db_messages := db_messages db; db_receipts := db_receipts db |}, None)
  end.

(** LIMIT and OFFSET: a limit of 0 is written as -1, which means none; OFFSET is only written when
    it is positive. *)
Definition limit_offset {A} (limit offset : Z) (l : list A) : list A :=
  let l := if bool_decide (0 < offset) then drop (Z.to_nat offset) l else l in
  if bool_decide (0 < limit) then take (Z.to_nat limit) l else l.

Definition quote : string := String (Ascii.ascii_of_nat 34) "".

(** The participant's name between quotes in the JSON text of the column. *)
Definition participant_pattern (did : string) : string := "%" +:+ quote +:+ did +:+ quote +:+ "%".

Definition thread_hit (f : ThreadFilter) (r : ThreadRow) : bool :=
  (bool_decide (tf_ParticipantDID f = "") || Like (participant_pattern (tf_ParticipantDID f)) (tr_participants r)) &&
  (match tf_Since f with Some since => bool_decide (since ≤ tr_updated_at r) | None => true end).

(** [order] is the order in which the database walks the rows, [sort] its ORDER BY. *)
Definition ListThreads (sort : list (string * ThreadRow) → list (string * ThreadRow)) (order : list string) (db : SQLiteStore) (f : ThreadFilter)
  : list Thread :=
  let rows := omap (λ key, (λ r, (key, r)) <$> db_threads db !! key) order in
  let hits := filter (λ kr, thread_hit f kr.2 = true) rows in
  let page := limit_offset (tf_Limit f) (tf_Offset f) (sort hits) in
  let scanned := omap (λ kr, match scanThread kr.1 kr.2 with Ok t => Some t | Err _ => None end) page in
  filter (λ t, tf_ParticipantDID f = "" ∨ HasParticipant t (tf_ParticipantDID f) = true) scanned.

(** ** Messages *)

Definition message_row (m : StoredMessage) (metadata : string) : MessageRow := {|
  mr_thread_id := uuid_String (sm_ThreadID m); mr_parent_id := uuid_String <$> sm_ParentID m; mr_sender := sm_From m;
  mr_recipient := sm_To m; mr_type := sm_Type m; mr_body := sm_Body m; mr_timestamp := sm_Timestamp m;
  mr_thread_seq_no := sm_ThreadSeqNo m; mr_encrypted := sm_Encrypted m; mr_metadata := metadata |}.

Definition tr_with_stats (r : ThreadRow) (updated : Z) (last : option Z) (count : Z) : ThreadRow := {|
  tr_title := tr_title r; tr_participants := tr_participants r; tr_created_at := tr_created_at r; tr_updated_at := updated;
  tr_last_message := last; tr_message_count := count; tr_metadata := tr_metadata r |}.

(** One transaction: the INSERT checks the primary key and, with [fk], the thread; the UPDATE of a
    thread that is not there touches no row. *)
Definition SaveMessage (fk : bool) (now : Z) (db : SQLiteStore) (msg : StoredMessage) : SQLiteStore * option SqlError :=
  match Marshal_metadata (sm_Metadata msg) with
  | None => (db, Some MarshalFailed)
  | Some metadata =>
      let key := uuid_String (sm_ID msg) in
      let tkey := uuid_String (sm_ThreadID msg) in
      if bool_decide (is_Some (db_messages db !! key)) || (fk && bool_decide (db_threads db !! tkey = None)) then (db, Some InsertFailed)
      else ({| db_threads := alter (λ r, tr_with_stats r now (Some (sm_Timestamp msg)) (tr_message_count r + 1)) tkey (db_threads db);
               db_messages := <[key := message_row msg metadata]> (db_messages db); db_receipts := db_receipts db |}, None)
  end.

Definition scanMessage (id : string) (r : MessageRow) : result SqlError StoredMessage :=
  match uuid_Parse id, uuid_Parse (mr_thread_id r), Unmarshal_metadata (mr_metadata r),
        match mr_parent_id r with None => Some None | Some p => Some <$> uuid_Parse p end with
  | Some id, Some tid, Some metadata, Some parent =>
      Ok {| sm_ID := id; sm_ThreadID := tid; sm_ParentID := parent; sm_From := mr_sender r; sm_To := mr_recipient r;
            sm_Type := mr_type r; sm_Body := mr_body r; sm_Timestamp := mr_timestamp r; sm_ThreadSeqNo := mr_thread_seq_no r;
            sm_Encrypted := mr_encrypted r; sm_Metadata := metadata |}
  | _, _, _, _ => Err ScanFailed
  end.

Definition GetMessage (db : SQLiteStore) (id : uuid) : result SqlError StoredMessage :=
  match db_messages db !! uuid_String id with
  | None => Err (Failed ErrMessageNotFound)
  | Some r => scanMessage (uuid_String id) r
  end.

Definition message_hit (f : MessageFilter) (r : MessageRow) : bool :=
  bool_decide (mr_thread_id r = uuid_String (mf_ThreadID f)) &&
  (match mf_Since f with Some since => bool_decide (since ≤ mr_timestamp r) | None => true end) &&
  (match mf_Before f with Some before => bool_decide (mr_timestamp r ≤ before) | None => true end) &&
  (bool_decide (mf_Types f = []) || bool_decide (mr_type r ∈ mf_Types f)).

Definition GetMessages (sort : list (string * MessageRow) → list (string * MessageRow)) (order : list string) (db : SQLiteStore)
    (f : MessageFilter) : list StoredMessage :=
  let rows := omap (λ key, (λ r, (key, r)) <$> db_messages db !! key) order in
  let page := limit_offset (mf_Limit f) (mf_Offset f) (sort (filter (λ kr, message_hit f kr.2 = true) rows)) in
  omap (λ kr, match scanMessage kr.1 kr.2 with Ok m => Some m | Err _ => None end) page.

Definition DeleteMessage (fk : bool) (db : SQLiteStore) (id : uuid) : SQLiteStore * option SqlError :=
  let key := uuid_String id in
  match db_messages db !! key with
  | None => (db, Some (Failed ErrMessageNotFound))
  | Some r =>
      let db := delete_messages fk (λ k _, bool_decide (k = key)) db in
      ({| db_threads := alter (λ t, tr_with_stats t (tr_updated_at t) (tr_last_message t) (tr_message_count t - 1)) (mr_thread_id r) (db_threads db);
          db_messages := db_messages db; db_receipts := db_receipts db |}, None)
  end.

(** ** Receipts *)

(** INSERT ... ON CONFLICT DO UPDATE with COALESCE for the time of delivery. *)
Definition upsert_receipt (db : SQLiteStore) (mid did : string) (delivered : Z) (read : option Z) : SQLiteStore := {|
  db_threads := db_threads db; db_messages := db_messages db;
  db_receipts := <[(mid, did) :=
     match db_receipts db !! (mid, did) with
     | None => (Some delivered, read)
     | Some (d, r) => (match d with Some d => Some d | None => Some delivered end, match read with Some t => Some t | None => r end)
     end]> (db_receipts db) |}.

Definition MarkDelivered (now : Z) (db : SQLiteStore) (messageID : uuid) (recipientDID : string) : SQLiteStore * option SqlError :=
  match db_messages db !! uuid_String messageID with
  | None => (db, Some (Failed ErrMessageNotFound))
  | Some _ => (upsert_receipt db (uuid_String messageID) recipientDID now None, None)
  end.

Definition MarkRead (now : Z) (db : SQLiteStore) (messageID : uuid) (recipientDID : string) : SQLiteStore * option SqlError :=
  match db_messages db !! uuid_String messageID with
  | None => (db, Some (Failed ErrMessageNotFound))
  | Some _ => (upsert_receipt db (uuid_String messageID) recipientDID now (Some now), None)
  end.

Definition GetReceipt (db : SQLiteStore) (messageID : uuid) (recipientDID : string) : result SqlError MessageReceipt :=
  match db_receipts db !! (uuid_String messageID, recipientDID) with
  | None => Err (Failed ErrReceiptNotFound)
  | Some (d, r) => Ok {| rc_MessageID := messageID; rc_RecipientDID := recipientDID; rc_DeliveredAt := d; rc_ReadAt := r |}
  end.

(** [order] is the order of the rows. *)
Definition GetReceipts (order : list (string * string)) (db : SQLiteStore) (messageID : uuid) : list MessageReceipt :=
  omap (λ k, if bool_decide (k.1 = uuid_String messageID)
             then (λ dr, {| rc_MessageID := messageID; rc_RecipientDID := k.2; rc_DeliveredAt := dr.1; rc_ReadAt := dr.2 |}) <$> db_receipts db !! k
             else None) order.
End sql.

(** ** The two stores side by side *)

Section refinement.
Context `{UuidLaws} `{SqlText}.
#[local] Existing Instance receiptKey_inj.
Implicit Types (db : SQLiteStore) (s : MemoryStore).

(** The data of a thread or a message survives encoding/json. *)
Definition json_strings (l : list string) : Prop := Unmarshal_strings (Marshal_strings l) = Some l.
Definition json_metadata (md : gmap string any) (text : string) : Prop :=
  Marshal_metadata md = Some text ∧ Unmarshal_metadata text = Some md.

Definition thread_rel (r : ThreadRow) (t : Thread) : Prop :=
  json_strings (th_Participants t) ∧ ∃ md, json_metadata (th_Metadata t) md ∧ r = thread_row t md (th_CreatedAt t).
Definition message_rel (r : MessageRow) (m : StoredMessage) : Prop := ∃ md, json_metadata (sm_Metadata m) md ∧ r = message_row m md.
Definition receipt_rel (r : ReceiptRow) (c : MessageReceipt) : Prop := r = (rc_DeliveredAt c, rc_ReadAt c).

Record sql_rel (db : SQLiteStore) (s : MemoryStore) : Prop := {
  rel_threads id : option_Forall2 thread_rel (db_threads db !! uuid_String id) (cs_threads s !! id);
  rel_messages id : option_Forall2 message_rel (db_messages db !! uuid_String id) (cs_messages s !! id);
  rel_receipts id did : option_Forall2 receipt_rel (db_receipts db !! (uuid_String id, did)) (cs_receipts s !! receiptKey id did);
  rel_keys key : is_Some (db_messages db !! key) → ∃ id, key = uuid_String id;
}.

Lemma rel_new cfg : sql_rel NewSQLiteStore (NewMemoryStore cfg).
Proof. split; simpl; intros *; rewrite ?lookup_empty; try constructor. by intros [? ?]. Qed.

Definition sql_op (now : Z) (op : ConvOp) (db : SQLiteStore) : SQLiteStore * option SqlError :=
  match op with
  | OpCreateThread t => CreateThread db t
  | OpUpdateThread t => UpdateThread db t
  | OpDeleteThread id => DeleteThread true db id
  | OpSaveMessage m => SaveMessage true now db m
  | OpDeleteMessage id => DeleteMessage true db id
  | OpMarkDelivered mid did => MarkDelivered now db mid did
  | OpMarkRead mid did => MarkRead now db mid did
  end.

(** What the two stores agree on: data that JSON carries, updates that keep the creation time,
    messages of threads that exist. *)
Definition portable (s : MemoryStore) (op : ConvOp) : Prop :=
  match op with
  | OpCreateThread t => json_strings (th_Participants t) ∧ ∃ md, json_metadata (th_Metadata t) md
  | OpUpdateThread t => (json_strings (th_Participants t) ∧ ∃ md, json_metadata (th_Metadata t) md) ∧
      ∀ old, cs_threads s !! th_ID t = Some old → th_CreatedAt t = th_CreatedAt old
  | OpSaveMessage m => (∃ md, json_metadata (sm_Metadata m) md) ∧ is_Some (cs_threads s !! sm_ThreadID m)
  | _ => True
  end.

(** Writing under the text of an ID. *)
Lemma rel_insert {R A} (rel : R → A → Prop) (m : gmap string R) (n : gmap uuid A) k r a :
  (∀ id, option_Forall2 rel (m !! uuid_String id) (n !! id)) → rel r a →
  ∀ id, option_Forall2 rel (<[uuid_String k := r]> m !! uuid_String id) (<[k := a]> n !! id).
Proof.
  intros Hall Hr id. destruct (decide (id = k)) as [->|Hne].
  - rewrite !lookup_insert_eq. by constructor.
  - rewrite !lookup_insert_ne; [done | done |]. intros ?%(inj uuid_String). congruence.
Qed.

Lemma rel_alter {R A} (rel : R → A → Prop) (m : gmap string R) (n : gmap uuid A) k f g :
  (∀ id, option_Forall2 rel (m !! uuid_String id) (n !! id)) → (∀ r a, rel r a → rel (f r) (g a)) →
  ∀ id, option_Forall2 rel (alter f (uuid_String k) m !! uuid_String id) (alter g k n !! id).
Proof.
  intros Hall Hf id. specialize (Hall id). destruct (decide (id = k)) as [->|Hne].
  - rewrite !lookup_alter_eq. inversion Hall; simpl; constructor; auto.
  - rewrite !lookup_alter_ne; [done | done |]. intros ?%(inj uuid_String). congruence.
Qed.

Lemma rel_delete {R A} (rel : R → A → Prop) (m : gmap string R) (n : gmap uuid A) k :
  (∀ id, option_Forall2 rel (m !! uuid_String id) (n !! id)) →
  ∀ id, option_Forall2 rel (delete (uuid_String k) m !! uuid_String id) (delete k n !! id).
Proof.
  intros Hall id. destruct (decide (id = k)) as [->|Hne].
  - rewrite !lookup_delete_eq. constructor.
  - rewrite !lookup_delete_ne; [done | done |]. intros ?%(inj uuid_String). congruence.
Qed.

Lemma rel_lookup {R A} (rel : R → A → Prop) x y : option_Forall2 rel x y →
  (x = None ∧ y = None) ∨ (∃ (r : R) (a : A), x = Some r ∧ y = Some a ∧ rel r a).
Proof. inversion 1; [right | left]; eauto 8. Qed.

Lemma lookup_filter_bool `{Countable K} {A} (m : gmap K A) (p : K → A → bool) k :
  filter (λ kr, p kr.1 kr.2 = false) m !! k = match m !! k with Some r => if p k r then None else Some r | None => None end.
Proof.
  apply option_eq. intros r. rewrite map_lookup_filter_Some. simpl.
  destruct (m !! k) as [r'|]; [|split; [by intros [] | done]]. destruct (p k r') eqn:Hp; (split; [intros [[= <-] ?]; congruence | by intros [= <-]]).
Qed.

Lemma rel_CreateThread db s t : sql_rel db s → cs_closed s = false → admissible s (OpCreateThread t) → portable s (OpCreateThread t) →
  sql_rel (CreateThread db t).1 (Conversation.CreateThread s t).1 ∧
  (CreateThread db t).2 = Failed <$> (Conversation.CreateThread s t).2.
Proof.
  intros R Ho (Hf & _) (Hj & md & Hmd). unfold CreateThread, Conversation.CreateThread. rewrite Ho, (proj1 Hmd).
  pose proof (rel_threads _ _ R (th_ID t)) as Ht. rewrite Hf in Ht. inversion Ht as [|Hn]. simpl.
  split; [|done]. destruct R. split; simpl; try done. apply rel_insert; [done |]. split; [done |]. eauto.
Qed.

Lemma rel_UpdateThread db s t : sql_rel db s → cs_closed s = false → portable s (OpUpdateThread t) →
  sql_rel (UpdateThread db t).1 (Conversation.UpdateThread s t).1 ∧
  (UpdateThread db t).2 = Failed <$> (Conversation.UpdateThread s t).2.
Proof.
  intros R Ho ((Hj & md & Hmd) & Hc). unfold UpdateThread, Conversation.UpdateThread. rewrite Ho, (proj1 Hmd).
  destruct (rel_lookup _ _ _ (rel_threads _ _ R (th_ID t))) as [[-> ->]|(r & old & -> & Hold & (_ & md' & _ & ->))]; [done |].
  rewrite Hold. simpl. split; [|done]. destruct R. split; simpl; try done. rewrite <- (Hc old Hold). apply rel_insert; [done |].
  split; [done |]. eauto.
Qed.

Lemma rel_SaveMessage now db s m : sql_rel db s → cs_closed s = false → admissible s (OpSaveMessage m) → portable s (OpSaveMessage m) →
  sql_rel (SaveMessage true now db m).1 (Conversation.SaveMessage now s m).1 ∧
  (SaveMessage true now db m).2 = Failed <$> (Conversation.SaveMessage now s m).2.
Proof.
  intros R Ho Hf ((md & Hmd) & [t Ht]). unfold SaveMessage, Conversation.SaveMessage. rewrite Ho, (proj1 Hmd), Ht.
  pose proof (rel_messages _ _ R (sm_ID m)) as Hm. simpl in Hf. rewrite Hf in Hm. inversion Hm as [|Hn].
  pose proof (rel_threads _ _ R (sm_ThreadID m)) as Hth. rewrite Ht in Hth. inversion Hth as [r ? Hr Hl|]. subst.
  rewrite bool_decide_false by (intros [? ?]; congruence). rewrite bool_decide_false by congruence. simpl.
  split; [|done]. destruct R. split; simpl; try done.
  - intros id. assert (Hi : <[sm_ThreadID m := th_with_stats t now (Some (sm_Timestamp m)) (th_MessageCount t + 1)]> (cs_threads s) =
      alter (λ t, th_with_stats t now (Some (sm_Timestamp m)) (th_MessageCount t + 1)) (sm_ThreadID m) (cs_threads s)).
    { apply map_eq. intros i. destruct (decide (i = sm_ThreadID m)) as [->|]; [by rewrite lookup_insert_eq, lookup_alter_eq, Ht |].
      by rewrite lookup_insert_ne, lookup_alter_ne. }
    rewrite Hi. apply rel_alter; [done |]. intros r' a (Hs & md' & Hmd' & ->). split; [done |]. by exists md'.
  - apply rel_insert; [done |]. by exists md.
  - intros key. destruct (decide (key = uuid_String (sm_ID m))) as [->|]; [eauto |]. rewrite lookup_insert_ne by done. eauto.
Qed.

Lemma rel_mark db s mid did f rd : sql_rel db s → receipt_rel rd f →
  sql_rel {| db_threads := db_threads db; db_messages := db_messages db; db_receipts := <[(uuid_String mid, did) := rd]> (db_receipts db) |}
    (cs_with_receipts s (<[receiptKey mid did := f]> (cs_receipts s))).
Proof.
  intros R Hr. destruct R. split; simpl; try done. intros id d. destruct (decide (id = mid ∧ d = did)) as [[-> ->]|Hne].
  - rewrite !lookup_insert_eq. by constructor.
  - rewrite !lookup_insert_ne; [done | |].
    + intros [<- <-]%(inj2 receiptKey). tauto.
    + intros [= Hu <-]. apply (inj uuid_String) in Hu. subst. tauto.
Qed.

Lemma rel_MarkDelivered now db s mid did : sql_rel db s → cs_closed s = false →
  sql_rel (MarkDelivered now db mid did).1 (Conversation.MarkDelivered now s mid did).1 ∧
  (MarkDelivered now db mid did).2 = Failed <$> (Conversation.MarkDelivered now s mid did).2.
Proof.
  intros R Ho. unfold MarkDelivered, Conversation.MarkDelivered. rewrite Ho.
  destruct (rel_lookup _ _ _ (rel_messages _ _ R mid)) as [[-> ->]|(r & m & -> & -> & _)]; [done |]. simpl. split; [|done].
  unfold upsert_receipt. apply rel_mark; [done |].
  destruct (rel_lookup _ _ _ (rel_receipts _ _ R mid did)) as [[-> ->]|(x & c & -> & -> & ->)]; [done |].
  unfold receipt_rel. simpl. by destruct (rc_DeliveredAt c).
Qed.

Lemma rel_MarkRead now db s mid did : sql_rel db s → cs_closed s = false →
  sql_rel (MarkRead now db mid did).1 (Conversation.MarkRead now s mid did).1 ∧
  (MarkRead now db mid did).2 = Failed <$> (Conversation.MarkRead now s mid did).2.
Proof.
  intros R Ho. unfold MarkRead, Conversation.MarkRead. rewrite Ho.
  destruct (rel_lookup _ _ _ (rel_messages _ _ R mid)) as [[-> ->]|(r & m & -> & -> & _)]; [done |]. simpl. split; [|done].
  unfold upsert_receipt. apply rel_mark; [done |].
  destruct (rel_lookup _ _ _ (rel_receipts _ _ R mid did)) as [[-> ->]|(x & c & -> & -> & ->)]; [done |].
  unfold receipt_rel. simpl. by destruct (rc_DeliveredAt c).
Qed.

(** Related stores after a delete: the messages that go are those of [dead]. *)
Section deleting.
Context (dead : uuid → Prop) `{!∀ id, Decision (dead id)}.

Lemma rel_delete_messages db s gone ms rs : sql_rel db s →
  (∀ id, is_Some (cs_messages s !! id) → is_gone gone db (uuid_String id) = bool_decide (dead id)) →
  (∀ id, dead id → is_Some (cs_messages s !! id)) →
  (∀ id m, ms !! id = Some m ↔ cs_messages s !! id = Some m ∧ ¬ dead id) →
  (∀ id did r, rs !! receiptKey id did = Some r ↔ cs_receipts s !! receiptKey id did = Some r ∧ ¬ dead id) →
  sql_rel (delete_messages true gone db) (cs_with s (cs_threads s) ms rs (cs_messagesByThread s) (cs_threadsByDID s)).
Proof.
  intros R Hgone Hdead Hms Hrs.
  assert (Hm : ∀ id, ms !! id = if decide (dead id) then None else cs_messages s !! id).
  { intros id. apply option_eq. intros m. rewrite Hms. case_decide; naive_solver. }
  assert (Hr : ∀ id did, rs !! receiptKey id did = if decide (dead id) then None else cs_receipts s !! receiptKey id did).
  { intros id did. apply option_eq. intros r. rewrite Hrs. case_decide; naive_solver. }
  assert (Hg : ∀ id, is_gone gone db (uuid_String id) = bool_decide (dead id)).
  { intros id. destruct (rel_lookup _ _ _ (rel_messages _ _ R id)) as [[Hd Hs]|(r & m & Hd & Hs & _)]; [|apply Hgone; eauto].
    unfold is_gone. rewrite Hd. symmetry. apply bool_decide_false. intros Hid. destruct (Hdead id Hid). congruence. }
  destruct R. split; simpl.
  - done.
  - intros id. rewrite lookup_filter_bool, Hm. specialize (rel_messages0 id). specialize (Hg id). unfold is_gone in Hg.
    destruct (rel_lookup _ _ _ rel_messages0) as [[Hd Hs]|(r & m & Hd & Hs & Hrm)]; rewrite Hd, ?Hs in *; [by case_decide; constructor |].
    rewrite Hg. case_bool_decide; case_decide; try done; by constructor.
  - intros id did. rewrite (lookup_filter_bool _ (λ k _, is_gone gone db k.1)), Hr. simpl. rewrite Hg.
    specialize (rel_receipts0 id did). case_bool_decide; case_decide; try done.
    + destruct (db_receipts db !! _); constructor.
    + by destruct (db_receipts db !! _).
  - intros key [r Hk]. rewrite lookup_filter_bool in Hk. destruct (db_messages db !! key) eqn:Hl; [eauto | done].
Qed.
End deleting.

Lemma rel_DeleteThread db s id : sql_rel db s → conv_wf s → cs_closed s = false →
  sql_rel (DeleteThread true db id).1 (Conversation.DeleteThread s id).1 ∧
  (DeleteThread true db id).2 = Failed <$> (Conversation.DeleteThread s id).2.
Proof.
  intros R W Ho. unfold DeleteThread, Conversation.DeleteThread. rewrite Ho.
  destruct (rel_lookup _ _ _ (rel_threads _ _ R id)) as [[-> ->]|(r & t & -> & -> & _)]; [done |].
  pose proof (delete_all_spec (get_slice (cs_messagesByThread s) id) (cs_messages s) (cs_receipts s)) as Hd.
  destruct (foldl _ _ (get_slice (cs_messagesByThread s) id)) as [ms rs]. destruct Hd as [Hms Hrs].
  destruct (cw_byThread s W id) as [_ Hin]. simpl. split; [|done].
  assert (R' : sql_rel (delete_messages true (λ _ r, bool_decide (mr_thread_id r = uuid_String id)) db)
    (cs_with s (cs_threads s) ms rs (cs_messagesByThread s) (cs_threadsByDID s))).
  { apply (rel_delete_messages (λ i, i ∈ get_slice (cs_messagesByThread s) id)); [done | | | done |].
    - intros i [m Hm]. unfold is_gone. destruct (rel_lookup _ _ _ (rel_messages _ _ R i)) as [[_ ?]|(mr & m' & -> & Hm' & (md & _ & ->))];
        [congruence |]. simpl. apply bool_decide_ext. rewrite Hin. split.
      + intros Heq%(inj uuid_String). eauto.
      + intros (m2 & Hm2 & <-). congruence.
    - intros i (m & Hm & _)%Hin. eauto.
    - intros i did r0. rewrite Hrs. split; (intros [? Hall]; split; [done |]).
      + intros Hi. specialize (Hall i Hi). rewrite key_of_message_receipt, bool_decide_true in Hall; done.
      + intros j Hj. rewrite key_of_message_receipt. apply bool_decide_false. by intros <-. }
  destruct R'. split; simpl in *; try done. by apply rel_delete, R.
Qed.

Lemma rel_DeleteMessage db s id : sql_rel db s → conv_wf s → cs_closed s = false →
  sql_rel (DeleteMessage true db id).1 (Conversation.DeleteMessage s id).1 ∧
  (DeleteMessage true db id).2 = Failed <$> (Conversation.DeleteMessage s id).2.
Proof.
  intros R W Ho. unfold DeleteMessage, Conversation.DeleteMessage. rewrite Ho.
  destruct (rel_lookup _ _ _ (rel_messages _ _ R id)) as [[-> ->]|(r & m & -> & Hm & (md & _ & ->))]; [done |]. rewrite Hm.
  simpl. split; [|done].
  assert (R' : sql_rel (delete_messages true (λ k _, bool_decide (k = uuid_String id)) db)
    (cs_with s (cs_threads s) (delete id (cs_messages s)) (delete_receipts id (cs_receipts s)) (cs_messagesByThread s) (cs_threadsByDID s))).
  { apply (rel_delete_messages (λ i, i = id)); [done | | | |].
    - intros i [m' Hm']. unfold is_gone. destruct (rel_lookup _ _ _ (rel_messages _ _ R i)) as [[_ ?]|(mr & m2 & -> & _)]; [congruence |].
      apply bool_decide_ext. split; [by intros ?%(inj uuid_String) | by intros ->].
    - intros i ->. eauto.
    - intros i m'. rewrite lookup_delete_Some. naive_solver.
    - intros i did r0. rewrite lookup_delete_receipts, key_of_message_receipt, bool_decide_eq_false. done. }
  destruct R'. split; simpl in *; try done. apply rel_alter; [apply R |].
  intros r' a (Hs & md' & Hmd' & ->). split; [done |]. by exists md'.
Qed.

Lemma rel_op now op db s : sql_rel db s → conv_wf s → cs_closed s = false → admissible s op → portable s op →
  sql_rel (sql_op now op db).1 (apply_op now op s).1 ∧ (sql_op now op db).2 = Failed <$> (apply_op now op s).2.
Proof.
  intros R W Ho Ha Hp. destruct op; simpl in *.
  - by apply rel_CreateThread.
  - by apply rel_UpdateThread.
  - by apply rel_DeleteThread.
  - by apply rel_SaveMessage.
  - by apply rel_DeleteMessage.
  - by apply rel_MarkDelivered.
  - by apply rel_MarkRead.
Qed.

(** A history of operations, each admissible and portable when it comes. *)
Inductive history_ok : MemoryStore → list (Z * ConvOp) → Prop :=
| hist_nil s : history_ok s []
| hist_cons s now op h : admissible s op → portable s op → history_ok (apply_op now op s).1 h → history_ok s ((now, op) :: h).

Fixpoint run {S E} (step : Z → ConvOp → S → S * option E) (s : S) (h : list (Z * ConvOp)) : S * list (option E) :=
  match h with
  | [] => (s, [])
  | (now, op) :: h => let '(s, e) := step now op s in let '(s, es) := run step s h in (s, e :: es)
  end.

Lemma apply_op_open now op s : cs_closed (apply_op now op s).1 = cs_closed s.
Proof. pose proof (conversation_errors now op s) as He. cbn zeta in He. destruct (apply_op now op s). by destruct He as (_ & _ & ? & _). Qed.

Lemma run_rel h : ∀ db s, sql_rel db s → conv_wf s → cs_closed s = false → history_ok s h →
  sql_rel (run sql_op db h).1 (run apply_op s h).1 ∧ conv_wf (run apply_op s h).1 ∧ cs_closed (run apply_op s h).1 = false ∧
  (run sql_op db h).2 = fmap (M := option) Failed <$> (run apply_op s h).2.
Proof.
  induction h as [|[now op] h IH]; intros db s R W Ho Hok; [done |]. inversion Hok as [|? ? ? ? Ha Hp Hh]; subst.
  destruct (rel_op now op db s R W Ho Ha Hp) as [R1 He]. pose proof (wf_apply_op now op s W Ha) as W1.
  pose proof (apply_op_open now op s) as Ho1. simpl.
  destruct (sql_op now op db) as [db1 e1], (apply_op now op s) as [s1 e2]. simpl in *.
  destruct (IH db1 s1 R1 W1 ltac:(congruence) Hh) as (R2 & W2 & Ho2 & He2).
  destruct (run sql_op db1 h), (run apply_op s1 h). simpl in *. by subst.
Qed.

(** ** What the two stores answer *)

(** The columns do not hold the fields for A2A. *)
Definition without_a2a (t : Thread) : Thread := {|
  th_ID := th_ID t; th_Title := th_Title t; th_Participants := th_Participants t; th_CreatedAt := th_CreatedAt t;
  th_UpdatedAt := th_UpdatedAt t; th_LastMessage := th_LastMessage t; th_MessageCount := th_MessageCount t;
  th_Metadata := th_Metadata t; th_State := ""; th_TaskIDs := []; th_SessionIDs := [] |}.

Definition through {A B} (f : A → B) (r : result StoreError A) : result SqlError B :=
  match r with Ok x => Ok (f x) | Err e => Err (Failed e) end.

Lemma scanThread_rel r t : thread_rel r t → scanThread (uuid_String (th_ID t)) r = Ok (without_a2a t).
Proof. intros (Hs & md & [_ Hmd] & ->). unfold scanThread. simpl. by rewrite uuid_Parse_String, Hs, Hmd. Qed.

Lemma scanMessage_rel r m : message_rel r m → scanMessage (uuid_String (sm_ID m)) r = Ok m.
Proof.
  intros (md & [_ Hmd] & ->). unfold scanMessage. simpl. rewrite !uuid_Parse_String, Hmd.
  destruct m as [? ? [p|] ? ? ? ? ? ? ? ?]; simpl; [by rewrite uuid_Parse_String | done].
Qed.

Lemma paginate_limit_offset {A} (l : list A) offset limit : paginate offset limit l = limit_offset limit offset l.
Proof.
  unfold paginate, limit_offset. destruct (bool_decide (0 < offset)) eqn:Hp; simpl.
  - apply bool_decide_eq_true in Hp. case_bool_decide as Hl.
    + rewrite drop_ge by lia. by repeat case_bool_decide; rewrite ?take_nil.
    + repeat case_bool_decide; simpl; try done. by rewrite take_ge by lia.
  - repeat case_bool_decide; simpl; try done. by rewrite take_ge by lia.
Qed.

Lemma limit_offset_fmap {A B} (f : A → B) l limit offset : limit_offset limit offset (f <$> l) = f <$> limit_offset limit offset l.
Proof. unfold limit_offset. repeat case_bool_decide; rewrite ?fmap_take, ?fmap_drop; done. Qed.

Lemma limit_offset_sublist {A} (l : list A) limit offset : limit_offset limit offset l `sublist_of` l.
Proof.
  unfold limit_offset. repeat case_bool_decide; try done.
  - etrans; [apply sublist_take | apply sublist_drop].
  - apply sublist_take.
  - apply sublist_drop.
Qed.

(** [omap] of a function that is defined on the list. *)
Lemma omap_defined {A B} (g : A → option B) (b : B) (l : list A) : (∀ x, x ∈ l → is_Some (g x)) → omap g l = (λ x, default b (g x)) <$> l.
Proof.
  induction l as [|x l IH]; intros Hall; simpl; [done |]. destruct (Hall x) as [y Hy]; [by left |]. rewrite Hy. simpl.
  f_equal. apply IH. intros z Hz. apply Hall. by right.
Qed.

Lemma omap_NoDup {A B} (g : A → option B) (l : list A) : NoDup l → (∀ x y z, x ∈ l → y ∈ l → g x = Some z → g y = Some z → x = y) → NoDup (omap g l).
Proof.
  induction 1 as [|x l Hx Hn IH]; intros Hinj; simpl; [constructor |].
  assert (NoDup (omap g l)) by (apply IH; intros a b z Ha Hb; apply Hinj; by right).
  destruct (g x) as [y|] eqn:Hg; [|done]. constructor; [|done]. intros (a & Ha & Hga)%list_elem_of_omap.
  apply Hx. rewrite (Hinj x a y); [done | by left | by right | done | done].
Qed.

Definition scan_message (kr : string * MessageRow) : option StoredMessage :=
  match scanMessage kr.1 kr.2 with Ok m => Some m | Err _ => None end.

(** The rows that a query for a thread selects are the messages that the store lists. *)
Lemma message_rows db s f order : sql_rel db s → conv_wf s → RangeOrder (db_messages db) order →
  let hits := filter (λ kr, message_hit f kr.2 = true) (omap (λ key, (λ r, (key, r)) <$> db_messages db !! key) order) in
  NoDup hits ∧ (∀ kr, kr ∈ hits → ∃ m, kr.1 = uuid_String (sm_ID m) ∧ message_rel kr.2 m ∧ scan_message kr = Some m) ∧
  (∀ m, m ∈ omap scan_message hits ↔ cs_messages s !! sm_ID m = Some m ∧ sm_ThreadID m = mf_ThreadID f ∧ messageMatchesFilter m f = true).
Proof.
  intros R W Ho hits.
  assert (Hrow : ∀ kr, kr ∈ hits ↔ db_messages db !! kr.1 = Some kr.2 ∧ message_hit f kr.2 = true).
  { intros [key r]. unfold hits. rewrite list_elem_of_filter, list_elem_of_omap. simpl. split.
    - intros [Hh (k & Hk & Hl)]. apply fmap_Some in Hl as (r' & Hr' & [= -> ->]). done.
    - intros [Hl Hh]. split; [done |]. exists key. rewrite Hl. split; [|done]. apply (range_order_elem_of (db_messages db)); [done | eauto]. }
  assert (Hscan : ∀ kr, kr ∈ hits → ∃ m, kr.1 = uuid_String (sm_ID m) ∧ message_rel kr.2 m ∧ scan_message kr = Some m ∧ cs_messages s !! sm_ID m = Some m).
  { intros [key r] [Hl Hh]%Hrow. simpl in *. destruct (rel_keys _ _ R key) as [id ->]; [eauto |].
    destruct (rel_lookup _ _ _ (rel_messages _ _ R id)) as [[? _]|(r' & m & Hl' & Hm & Hr)]; [congruence |].
    rewrite Hl in Hl'. injection Hl' as <-. destruct (cw_message s W id m Hm) as [<- _]. exists m.
    split_and!; [done | done | | done]. unfold scan_message. simpl. by rewrite (scanMessage_rel r m Hr). }
  assert (Hhit : ∀ r m, message_rel r m → message_hit f r = true ↔ sm_ThreadID m = mf_ThreadID f ∧ messageMatchesFilter m f = true).
  { intros r m (md & _ & ->). unfold message_hit, messageMatchesFilter. simpl. rewrite !andb_true_iff, bool_decide_eq_true.
    split; [intros [[[Hu ?] ?] ?]; apply (inj uuid_String) in Hu; tauto | intros [-> ?]; tauto]. }
  split_and!.
  - apply NoDup_filter. apply omap_NoDup; [by apply (range_order_NoDup (db_messages db)) |].
    intros k1 k2 [k r] _ _ (? & _ & [= -> _])%fmap_Some (? & _ & [= -> _])%fmap_Some. done.
  - intros kr Hkr. destruct (Hscan kr Hkr) as (m & ? & ? & ? & _). eauto.
  - intros m. rewrite list_elem_of_omap. split.
    + intros (kr & Hkr & Hs). destruct (Hscan kr Hkr) as (m' & Hk & Hr & Hs' & Hm). rewrite Hs in Hs'. injection Hs' as <-.
      split; [done |]. apply Hhit with (r := kr.2); [done |]. by apply Hrow.
    + intros (Hm & Hf). destruct (rel_lookup _ _ _ (rel_messages _ _ R (sm_ID m))) as [[_ ?]|(r & m' & Hl & Hm' & Hr)]; [congruence |].
      rewrite Hm in Hm'. injection Hm' as <-. exists (uuid_String (sm_ID m), r).
      split; [apply Hrow; split; [done | by apply (Hhit r m)] |]. unfold scan_message. simpl. by rewrite (scanMessage_rel r m Hr).
Qed.

Lemma messages_agree db s f order sort_rows sort : sql_rel db s → conv_wf s → cs_closed s = false →
  RangeOrder (db_messages db) order → SortFunc (key_le (λ kr, mr_thread_seq_no kr.2)) sort_rows → CmpSort seq_compare sort →
  (∀ id m, cs_messages s !! id = Some m → 0 ≤ sm_ThreadSeqNo m < 2 ^ 62) →
  (∀ id1 id2 m1 m2, cs_messages s !! id1 = Some m1 → cs_messages s !! id2 = Some m2 → sm_ThreadID m1 = sm_ThreadID m2 →
     sm_ThreadSeqNo m1 = sm_ThreadSeqNo m2 → m1 = m2) →
  ∀ offset limit, Conversation.GetMessages sort s (with_page f offset limit) = Ok (GetMessages sort_rows order db (with_page f offset limit)).
Proof.
  intros R W Ho Hord HSr HS Hrange Hdist offset limit.
  destruct (messages_sorted s f sort W Ho HS Hrange) as (l & Hsorted & Hnd & Hel & Hget). rewrite Hget. f_equal.
  destruct (message_rows db s f order R W Hord) as (Hhn & Hhs & Hhe).
  set (hits := filter _ _) in *. set (blank := {| sm_ID := uuid_Nil; sm_ThreadID := uuid_Nil; sm_ParentID := None; sm_From := ""; sm_To := "";
    sm_Type := ""; sm_Body := ""; sm_Timestamp := 0; sm_ThreadSeqNo := 0; sm_Encrypted := false; sm_Metadata := ∅ |}).
  unfold GetMessages. change (filter _ (omap _ order)) with hits.
  pose proof (sort_Permutation (R := key_le (λ kr, mr_thread_seq_no kr.2)) hits) as P.
  pose proof (sort_Sorted (R := key_le (λ kr, mr_thread_seq_no kr.2)) hits) as HSo.
  set (sorted := sort_rows hits) in *. change (omap _ (limit_offset _ _ sorted)) with (omap scan_message (limit_offset limit offset sorted)).
  assert (Hdef : ∀ kr, kr ∈ sorted → is_Some (scan_message kr)) by (intros kr; rewrite P; intros (m & _ & _ & ->)%Hhs; eauto).
  rewrite (omap_defined _ blank) by (intros kr Hkr; apply Hdef; by apply (sublist_subseteq _ _ (limit_offset_sublist sorted limit offset))).
  rewrite <- limit_offset_fmap, paginate_limit_offset, <- (omap_defined _ blank) by done. f_equal. clear Hget.
  assert (HelOk : ∀ m, m ∈ l ↔ m ∈ omap scan_message hits).
  { intros m. rewrite Hel, Hhe. unfold GetMessage, Conversation.GetMessage. rewrite Ho.
    destruct (cs_messages s !! sm_ID m) eqn:Hm; split; intros (? & ?); simplify_eq; done. }
  apply (StronglySorted_unique_strong (key_le sm_ThreadSeqNo)).
  - intros m1 m2 Hm1 Hm2 H12 H21. rewrite P in Hm2. apply HelOk in Hm1. apply Hhe in Hm1 as (Hl1 & Ht1 & _). apply Hhe in Hm2 as (Hl2 & Ht2 & _).
    unfold key_le in *. apply (Hdist _ _ _ _ Hl1 Hl2); [congruence | lia].
  - done.
  - clear -HSo P Hhs. assert (Hs : ∀ kr, kr ∈ sorted → ∃ m, scan_message kr = Some m ∧ sm_ThreadSeqNo m = mr_thread_seq_no kr.2).
    { intros kr. rewrite P. intros (m & _ & (md & _ & ->) & Hs)%Hhs. eauto. }
    clear P Hhs. induction HSo as [|kr rows Hrows IH Hall]; simpl; [constructor |].
    destruct (Hs kr) as (m & -> & Hm); [by left |]. constructor; [apply IH; intros; apply Hs; by right |].
    pose proof (proj1 (Forall_forall _ _) Hall) as Hall'. apply Forall_forall. intros m' (kr' & Hkr' & Hs')%list_elem_of_omap. specialize (Hall' kr' Hkr').
    destruct (Hs kr') as (m2 & Hs2 & Hm2); [by right |]. rewrite Hs' in Hs2. injection Hs2 as <-. unfold key_le in *. lia.
  - apply NoDup_Permutation; [by apply (NoDup_fmap_1 sm_ID) | |].
    + rewrite P. apply omap_NoDup; [done |]. intros [k1 r1] [k2 r2] m H1' H2' Hs1 Hs2.
      destruct (Hhs _ H1') as (m1 & Hk1 & Hr1 & E1). destruct (Hhs _ H2') as (m2 & Hk2 & Hr2 & E2). simpl in *.
      rewrite Hs1 in E1. injection E1 as <-. rewrite Hs2 in E2. injection E2 as <-. subst. f_equal.
      destruct Hr1 as (md1 & [Hmd1 _] & ->), Hr2 as (md2 & [Hmd2 _] & ->). congruence.
    + intros m. by rewrite P, HelOk.
Qed.

End refinement.

(** Without the PRAGMA on the connection, the messages of a deleted thread stay, and a message can
    be saved in a thread that does not exist. *)
Lemma cascade_needs_pragma `{UuidLaws} `{SqlText} now db id m r : db_threads db !! uuid_String id = Some r →
  sm_ThreadID m = id → is_Some (Marshal_metadata (sm_Metadata m)) → db_messages db !! uuid_String (sm_ID m) = None →
  let w := (DeleteThread false db id).1 in
  (DeleteThread false db id).2 = None ∧ db_messages w = db_messages db ∧ (SaveMessage false now w m).2 = None.
Proof.
  intros Hr Ht [md Hmd] Hm. unfold DeleteThread. rewrite Hr. simpl. split; [done |]. split; [done |].
  unfold SaveMessage. rewrite Hmd. simpl. rewrite Hm. rewrite bool_decide_false; [done | by intros [? ?]].
Qed.

(** ** Examples *)

Module SqlExample.
(** Text of lists without semicolons in their strings; no metadata; LIKE with every wildcard matching. *)
Fixpoint split (acc s : string) : list string :=
  match s with
  | "" => []
  | String ";"%char s => acc :: split "" s
  | String c s => split (acc +:+ String c "") s
  end.

#[local] Instance text : SqlText := {|
  Marshal_strings l := foldr (λ x s, x +:+ ";" +:+ s) "" l;
  Unmarshal_strings s := Some (split "" s);
  Marshal_metadata m := match map_to_list m with [] => Some "{}" | _ => None end;
  Unmarshal_metadata _ := Some ∅;
  Like _ _ := true |}.
Definition history : list (Z * ConvOp) := (λ op, (9, op)) <$> Example.history.
Definition db : SQLiteStore := (run (@sql_op HexRuntime.runtime text) NewSQLiteStore history).1.
Definition sort_threads : list (string * ThreadRow) → list (string * ThreadRow) := merge_sort_by (λ kr, - tr_updated_at kr.2).
Definition two_threads : SQLiteStore :=
  (run (@sql_op HexRuntime.runtime text) NewSQLiteStore
     [(1, OpCreateThread (NewThread (uuid_lit 1) 1 ["did:a_b"])); (2, OpCreateThread (NewThread (uuid_lit 2) 2 ["did:aXb"]))]).1.
End SqlExample.

(** The page is cut before the participant is checked: the first page of a participant's threads
    is empty when a thread that only matches the pattern comes first. *)
Example limit_before_check :
  let list_threads limit := @ListThreads HexRuntime.runtime SqlExample.text SqlExample.sort_threads (keys_of (db_threads SqlExample.two_threads))
    SqlExample.two_threads {| tf_ParticipantDID := "did:a_b"; tf_Since := None; tf_Limit := limit; tf_Offset := 0 |} in
  list_threads 1 = [] ∧ th_Participants <$> list_threads 0 = [["did:a_b"]].
Proof. by vm_compute. Qed.

