(* ===== verification/Oauth.v ===== *)
(** * The OAuth 2.1 authorization server (src/pkg/oauth, src/pkg/billing/oauth_store.go)

    Dynamic client registration, the authorization-code flow with PKCE, refresh tokens,
    revocation, and the tables behind them.  A request is its method and its form values (an
    absent value reads as the empty string); an environment gives the clock, the random bytes
    and the token ID of a request.  JWTs, SHA-256 and URL parsing are parameters. *)

From Stdlib Require Import Ascii.
From S2P Require Import Prelude Http.
#[local] Open Scope Z_scope.

(** ** Data *)

Record Client := {
  cl_ClientID : string; cl_ClientSecretHash : string; cl_ClientName : string; cl_RedirectURIs : list string;
  cl_GrantTypes : list string; cl_Scope : string; cl_TokenEndpointAuthMethod : string; cl_ClientIDIssuedAt : Z;
  cl_CreatedIP : string;
}.

(** Instants of the tables are whole seconds: they are stored in RFC 3339 without fractions. *)
Record Code := {
  co_CodeHash : string; co_ClientID : string; co_TenantID : string; co_RedirectURI : string; co_CodeChallenge : string;
  co_CodeChallengeMethod : string; co_Scope : string; co_ExpiresAt : Z; co_Used : bool;
}.

Record RefreshToken := {
  rt_TokenHash : string; rt_ClientID : string; rt_TenantID : string; rt_Scope : string; rt_ExpiresAt : Z; rt_Revoked : bool;
}.

Inductive OAuthError := ErrClientNotFound | ErrCodeNotFound | ErrCodeExpiredOrUsed | ErrRefreshTokenNotFound | ErrRefreshTokenRevoked | ErrConstraint.

Definition AccessTokenTTL : Z := Hour.
Definition RefreshTokenTTL : Z := 30 * 24 * Hour.
Definition SessionCookieTTL : Z := 10 * Minute.

(** [Format(time.RFC3339)] keeps whole seconds. *)
Definition seconds (t : Z) : Z := t / Second.

Record JwtClaims := {
  jc_iss : string; jc_sub : string; jc_aud : list string; jc_iat : Z; jc_exp : Z; jc_jti : string;
  jc_private : list (string * string);
}.

(** The JWT library signs and verifies under an Ed25519 key; SHA-256; net/url as far as redirect
    URIs are concerned (scheme, host name, fragment); the text of a sign-in state. *)
Record ParsedURL := { u_Scheme : string; u_Hostname : string; u_Fragment : string }.

Record idpStatePayload := {
  is_ClientID : string; is_RedirectURI : string; is_CodeChallenge : string; is_CodeChallengeMethod : string; is_Scope : string;
  is_State : string; is_IssuedAt : Z;
}.

Class OAuthLib := {
  sha256 : string → string;
  ed25519_Public : string → string;
  jwt_Sign : string → string → JwtClaims → option string;
  jwt_Parse : string → string → option JwtClaims;
  url_Parse : string → option ParsedURL;
  Encode_state : idpStatePayload → string;
  Decode_state : string → option idpStatePayload;
}.

(** ** Encodings of the standard library *)

Definition hex_digit (n : N) : ascii := ascii_of_N (if (n <? 10)%N then 48 + n else 87 + n).
Fixpoint hex_EncodeToString (s : string) : string :=
  match s with
  | EmptyString => EmptyString
  | String c s => let n := N_of_ascii c in String (hex_digit (n / 16)) (String (hex_digit (n mod 16)) (hex_EncodeToString s))
  end.

Definition b64_digit (n : N) : ascii :=
  ascii_of_N (if (n <? 26)%N then 65 + n else if (n <? 52)%N then 71 + n else if (n <? 62)%N then n - 4 else if (n =? 62)%N then 45 else 95).

(** [base64.RawURLEncoding]: no padding. *)
Fixpoint RawURLEncoding (s : string) : string :=
  match s with
  | String a (String b (String c s)) =>
      let n := (N_of_ascii a * 65536 + N_of_ascii b * 256 + N_of_ascii c)%N in
      String (b64_digit (n / 262144)) (String (b64_digit (n / 4096 mod 64))
        (String (b64_digit (n / 64 mod 64)) (String (b64_digit (n mod 64)) (RawURLEncoding s))))
  | String a (String b EmptyString) =>
      let n := (N_of_ascii a * 1024 + N_of_ascii b * 4)%N in
      String (b64_digit (n / 4096)) (String (b64_digit (n / 64 mod 64)) (String (b64_digit (n mod 64)) EmptyString))
  | String a EmptyString =>
      let n := (N_of_ascii a * 16)%N in String (b64_digit (n / 64)) (String (b64_digit (n mod 64)) EmptyString)
  | EmptyString => EmptyString
  end.

Section oauth.
Context `{OAuthLib}.

Definition HashToken (plaintext : string) : string := hex_EncodeToString (sha256 plaintext).

(** [GenerateToken] on the random bytes it reads; [None] when reading fails. *)
Definition GenerateToken (random : option string) : option (string * string) :=
  match random with
  | None => None
  | Some b => let plaintext := hex_EncodeToString b in Some (plaintext, HashToken plaintext)
  end.

Definition pkceVerify (verifier challenge : string) : bool := String.eqb (RawURLEncoding (sha256 verifier)) challenge.

(** ** The tables *)

Record OAuthStore := { os_clients : gmap string Client; os_codes : gmap string Code; os_refresh : gmap string RefreshToken }.

Definition with_clients (s : OAuthStore) (m : gmap string Client) : OAuthStore := {| os_clients := m; os_codes := os_codes s; os_refresh := os_refresh s |}.
Definition with_codes (s : OAuthStore) (m : gmap string Code) : OAuthStore := {| os_clients := os_clients s; os_codes := m; os_refresh := os_refresh s |}.
Definition with_refresh (s : OAuthStore) (m : gmap string RefreshToken) : OAuthStore := {| os_clients := os_clients s; os_codes := os_codes s; os_refresh := m |}.

(** On a conflict the creation time and address of the first row stay. *)
Definition PutClient (s : OAuthStore) (c : Client) : OAuthStore :=
  let c := match os_clients s !! cl_ClientID c with
           | None => c
           | Some old => {| cl_ClientID := cl_ClientID c; cl_ClientSecretHash := cl_ClientSecretHash c; cl_ClientName := cl_ClientName c;
                            cl_RedirectURIs := cl_RedirectURIs c; cl_GrantTypes := cl_GrantTypes c; cl_Scope := cl_Scope c;
                            cl_TokenEndpointAuthMethod := cl_TokenEndpointAuthMethod c; cl_ClientIDIssuedAt := cl_ClientIDIssuedAt old;
                            cl_CreatedIP := cl_CreatedIP old |}
           end in
  with_clients s (<[cl_ClientID c := c]> (os_clients s)).

Definition GetClient (s : OAuthStore) (clientID : string) : result OAuthError Client :=
  match os_clients s !! clientID with Some c => Ok c | None => Err ErrClientNotFound end.

Definition PutCode (s : OAuthStore) (code : Code) : OAuthStore * option OAuthError :=
  match os_codes s !! co_CodeHash code with
  | Some _ => (s, Some ErrConstraint)
  | None => (with_codes s (<[co_CodeHash code := code]> (os_codes s)), None)
  end.

Definition mark_used (c : Code) : Code := {|
  co_CodeHash := co_CodeHash c; co_ClientID := co_ClientID c; co_TenantID := co_TenantID c; co_RedirectURI := co_RedirectURI c;
  co_CodeChallenge := co_CodeChallenge c; co_CodeChallengeMethod := co_CodeChallengeMethod c; co_Scope := co_Scope c;
  co_ExpiresAt := co_ExpiresAt c; co_Used := true |}.

Definition UseCode (now : Z) (s : OAuthStore) (codeHash : string) : OAuthStore * result OAuthError Code :=
  match os_codes s !! codeHash with
  | None => (s, Err ErrCodeNotFound)
  | Some code =>
      if co_Used code || bool_decide (co_ExpiresAt code * Second < now) then (s, Err ErrCodeExpiredOrUsed)
      else (with_codes s (<[codeHash := mark_used code]> (os_codes s)), Ok code)
  end.

Definition PutRefreshToken (s : OAuthStore) (rt : RefreshToken) : OAuthStore * option OAuthError :=
  match os_refresh s !! rt_TokenHash rt with
  | Some _ => (s, Some ErrConstraint)
  | None => (with_refresh s (<[rt_TokenHash rt := rt]> (os_refresh s)), None)
  end.

Definition revoke (rt : RefreshToken) : RefreshToken := {|
  rt_TokenHash := rt_TokenHash rt; rt_ClientID := rt_ClientID rt; rt_TenantID := rt_TenantID rt; rt_Scope := rt_Scope rt;
  rt_ExpiresAt := rt_ExpiresAt rt; rt_Revoked := true |}.

(** A failed INSERT rolls the transaction back. *)
Definition RotateRefreshToken (now : Z) (s : OAuthStore) (oldHash : string) (newRT : RefreshToken) : OAuthStore * result OAuthError RefreshToken :=
  match os_refresh s !! oldHash with
  | None => (s, Err ErrRefreshTokenNotFound)
  | Some old =>
      if rt_Revoked old || bool_decide (rt_ExpiresAt old * Second < now) then (s, Err ErrRefreshTokenRevoked)
      else
        match PutRefreshToken (with_refresh s (<[oldHash := revoke old]> (os_refresh s))) newRT with
        | (s', None) => (s', Ok newRT)
        | (_, Some e) => (s, Err e)
        end
  end.

Definition RevokeRefreshToken (s : OAuthStore) (hash : string) : OAuthStore := with_refresh s (alter revoke hash (os_refresh s)).

(** The text of the instants compares as the instants do. *)
Definition CleanupOAuthExpired (now : Z) (s : OAuthStore) : OAuthStore := {|
  os_clients := os_clients s;
  os_codes := filter (λ kc, ¬ (co_ExpiresAt kc.2 < seconds now ∨ co_Used kc.2 = true)) (os_codes s);
  os_refresh := filter (λ kr, ¬ (rt_ExpiresAt kr.2 < seconds now ∨ rt_Revoked kr.2 = true)) (os_refresh s) |}.

(** ** JWTs *)

Record JWTIssuer := { ji_priv : string; ji_kid : string; ji_issuer : string }.
Record JWTVerifier := { jv_pubKey : string; jv_issuer : string; jv_audience : string }.

Definition NewJWTVerifier (priv issuer audience : string) : JWTVerifier :=
  {| jv_pubKey := ed25519_Public priv; jv_issuer := issuer; jv_audience := audience |}.

Definition optional_claim (name value : string) : list (string * string) := if decide (value = "") then [] else [(name, value)].

Definition IssueAccessToken (now : Z) (j : JWTIssuer) (tenantID clientID scope audience jti email name : string) : option string :=
  jwt_Sign (ji_priv j) (ji_kid j)
    {| jc_iss := ji_issuer j; jc_sub := tenantID; jc_aud := [audience]; jc_iat := seconds now; jc_exp := seconds (now + AccessTokenTTL);
       jc_jti := jti;
       jc_private := [("client_id", clientID); ("scope", scope)] ++ optional_claim "email" email ++ optional_claim "name" name |}.

Definition IssueSessionCookie (now : Z) (j : JWTIssuer) (tenantID : string) : option string :=
  jwt_Sign (ji_priv j) (ji_kid j)
    {| jc_iss := ji_issuer j; jc_sub := tenantID; jc_aud := []; jc_iat := seconds now; jc_exp := seconds (now + SessionCookieTTL);
       jc_jti := ""; jc_private := [] |}.

(** [jwt.WithValidate]: issued by now and not yet expired. *)
Definition in_force (now : Z) (c : JwtClaims) : bool := bool_decide (jc_iat c ≤ seconds now) && bool_decide (seconds now < jc_exp c).

Definition ValidateClaims (now : Z) (v : JWTVerifier) (token : string) : option string :=
  match jwt_Parse (jv_pubKey v) token with
  | None => None
  | Some c =>
      if String.eqb (jc_iss c) (jv_issuer v) && bool_decide (jv_audience v ∈ jc_aud c) && in_force now c
      then (if decide (jc_sub c = "") then None else Some (jc_sub c))
      else None
  end.

Definition ValidateSessionCookie (now : Z) (v : JWTVerifier) (token : string) : option string :=
  match jwt_Parse (jv_pubKey v) token with
  | None => None
  | Some c => if String.eqb (jc_iss c) (jv_issuer v) && in_force now c then Some (jc_sub c) else None
  end.

(** ** Answers *)

Record TokenResponse := {
  tk_access_token : string; tk_expires_in : Z; tk_refresh_token : string; tk_refresh_token_expires_in : Z; tk_scope : string;
}.

Record DCRRequest := {
  dq_ClientName : string; dq_RedirectURIs : list string; dq_GrantTypes : list string; dq_Scope : string; dq_TokenEndpointAuthMethod : string;
}.

(** The response repeats the stored client, with the secret in clear. *)
Record DCRResponse := { dr_Client : Client; dr_ClientSecret : string }.

Record consentData := {
  cd_ClientName : string; cd_TenantName : string; cd_SessionToken : string; cd_ClientID : string; cd_RedirectURI : string;
  cd_CodeChallenge : string; cd_CodeChallengeMethod : string; cd_Scope : string; cd_State : string;
}.

Inductive HttpResp :=
| OAuthErr (code : string) (status : Z)
| HttpError (status : Z)
| ErrorPage (status : Z)
| RespOK
| TokenJSON (t : TokenResponse)
| Created (r : DCRResponse)
| Consent (d : consentData)
| LoginRedirect (state : string)
| AuthorizeRedirect (cookie : string) (query : list (string * string))
| PricingRedirect (email : string)
| RedirectURI (uri : string) (query : list (string * string)).


Record OAuthEnv := { oe_now : Z; oe_random : option string; oe_jti : string }.

Record HttpRequest := { hr_Method : string; hr_Form : option (string → string) }.

Record TenantBrief := { tb_ID : string; tb_Name : string; tb_Email : string }.
Record TenantLookup := { GetTenantByEmail : string → option TenantBrief; GetTenantByID : string → option TenantBrief }.

(** ** The token endpoint *)

Definition writeTokenJSON (e : OAuthEnv) (issuer : JWTIssuer) (audience tenantID clientID scope plainRefresh : string)
    (tenants : option TenantLookup) : HttpResp :=
  let '(email, name) :=
    match tenants with
    | Some l => match GetTenantByID l tenantID with Some t => (tb_Email t, tb_Name t) | None => ("", "") end
    | None => ("", "")
    end in
  match IssueAccessToken (oe_now e) issuer tenantID clientID scope audience (oe_jti e) email name with
  | None => HttpError StatusInternalServerError
  | Some accessToken =>
      TokenJSON {| tk_access_token := accessToken; tk_expires_in := AccessTokenTTL / Second; tk_refresh_token := plainRefresh;
                   tk_refresh_token_expires_in := RefreshTokenTTL / Second; tk_scope := scope |}
  end.

Definition handleAuthCode (e : OAuthEnv) (issuer : JWTIssuer) (audience : string) (tenants : option TenantLookup)
    (s : OAuthStore) (form : string → string) : OAuthStore * HttpResp :=
  let clientID := form "client_id" in
  let redirectURI := form "redirect_uri" in
  let codeVerifier := form "code_verifier" in
  let plainCode := form "code" in
  if bool_decide (clientID = "") || bool_decide (redirectURI = "") || bool_decide (codeVerifier = "") || bool_decide (plainCode = "")
  then (s, OAuthErr "invalid_request" StatusBadRequest)
  else
    match GetClient s clientID with
    | Err ErrClientNotFound => (s, OAuthErr "invalid_client" StatusUnauthorized)
    | Err _ => (s, HttpError StatusInternalServerError)
    | Ok c =>
        if String.eqb (cl_TokenEndpointAuthMethod c) "client_secret_post" &&
           negb (String.eqb (HashToken (form "client_secret")) (cl_ClientSecretHash c))
        then (s, OAuthErr "invalid_client" StatusUnauthorized)
        else
          match UseCode (oe_now e) s (HashToken plainCode) with
          | (s, Err ErrCodeNotFound) | (s, Err ErrCodeExpiredOrUsed) => (s, OAuthErr "invalid_grant" StatusBadRequest)
          | (s, Err _) => (s, HttpError StatusInternalServerError)
          | (s, Ok code) =>
              if negb (String.eqb (co_ClientID code) clientID) then (s, OAuthErr "invalid_grant" StatusBadRequest)
              else if negb (String.eqb (co_RedirectURI code) redirectURI) then (s, OAuthErr "invalid_grant" StatusBadRequest)
              else if negb (pkceVerify codeVerifier (co_CodeChallenge code)) then (s, OAuthErr "invalid_grant" StatusBadRequest)
              else
                match GenerateToken (oe_random e) with
                | None => (s, HttpError StatusInternalServerError)
                | Some (plainRefresh, refreshHash) =>
                    match PutRefreshToken s {| rt_TokenHash := refreshHash; rt_ClientID := clientID; rt_TenantID := co_TenantID code;
                                               rt_Scope := co_Scope code; rt_ExpiresAt := seconds (oe_now e + RefreshTokenTTL);
                                               rt_Revoked := false |} with
                    | (s, Some _) => (s, HttpError StatusInternalServerError)
                    | (s, None) => (s, writeTokenJSON e issuer audience (co_TenantID code) clientID (co_Scope code) plainRefresh tenants)
                    end
                end
          end
    end.

Definition handleRefresh (e : OAuthEnv) (issuer : JWTIssuer) (audience : string) (tenants : option TenantLookup)
    (s : OAuthStore) (form : string → string) : OAuthStore * HttpResp :=
  let plainToken := form "refresh_token" in
  let clientID := form "client_id" in
  if bool_decide (plainToken = "") || bool_decide (clientID = "") then (s, OAuthErr "invalid_request" StatusBadRequest)
  else
    match GenerateToken (oe_random e) with
    | None => (s, HttpError StatusInternalServerError)
    | Some (plainNew, newHash) =>
        match RotateRefreshToken (oe_now e) s (HashToken plainToken)
                {| rt_TokenHash := newHash; rt_ClientID := clientID; rt_TenantID := ""; rt_Scope := "";
                   rt_ExpiresAt := seconds (oe_now e + RefreshTokenTTL); rt_Revoked := false |} with
        | (s, Err ErrRefreshTokenNotFound) | (s, Err ErrRefreshTokenRevoked) => (s, OAuthErr "invalid_grant" StatusBadRequest)
        | (s, Err _) => (s, HttpError StatusInternalServerError)
        | (s, Ok rt) => (s, writeTokenJSON e issuer audience (rt_TenantID rt) clientID (rt_Scope rt) plainNew tenants)
        end
    end.

Definition TokenHandler (issuer : JWTIssuer) (audience : string) (tenants : option TenantLookup) (e : OAuthEnv) (s : OAuthStore)
    (r : HttpRequest) : OAuthStore * HttpResp :=
  if negb (String.eqb (hr_Method r) "POST") then (s, HttpError StatusMethodNotAllowed)
  else
    match hr_Form r with
    | None => (s, OAuthErr "invalid_request" StatusBadRequest)
    | Some form =>
        if decide (form "grant_type" = "authorization_code") then handleAuthCode e issuer audience tenants s form
        else if decide (form "grant_type" = "refresh_token") then handleRefresh e issuer audience tenants s form
        else (s, OAuthErr "unsupported_grant_type" StatusBadRequest)
    end.

(** ** Revocation *)

Definition RevokeHandler (s : OAuthStore) (r : HttpRequest) : OAuthStore * HttpResp :=
  if negb (String.eqb (hr_Method r) "POST") then (s, HttpError StatusMethodNotAllowed)
  else
    match hr_Form r with
    | None => (s, OAuthErr "invalid_request" StatusBadRequest)
    | Some form =>
        if decide (form "token" = "") then (s, OAuthErr "invalid_request" StatusBadRequest)
        else if negb (String.eqb (form "client_id") "") && negb (match GetClient s (form "client_id") with Ok _ => true | Err _ => false end)
        then (s, RespOK)
        else if decide (form "token_type_hint" = "access_token") then (s, RespOK)
        else (RevokeRefreshToken s (HashToken (form "token")), RespOK)
    end.

(** ** Dynamic client registration *)

Definition validateRedirectURI (raw : string) : bool :=
  match url_Parse raw with
  | None => false
  | Some u =>
      if negb (String.eqb (u_Fragment u) "") then false
      else if decide (u_Scheme u = "https") then true
      else if decide (u_Scheme u = "http") then bool_decide (u_Hostname u ∈ ["localhost"; "127.0.0.1"; "::1"])
      else false
  end.

(** The windows of the limiter, by address. *)
Definition dcr_limit : nat := 10.
Definition dcr_window : Z := Hour.

Definition Allow (now : Z) (windows : gmap string (list Z)) (ip : string) : gmap string (list Z) * bool :=
  let fresh := filter (λ t, now - dcr_window < t) (get_slice windows ip) in
  if bool_decide (dcr_limit ≤ length fresh)%nat then (<[ip := fresh]> windows, false)
  else (<[ip := fresh ++ [now]]> windows, true).

(** The parts of a header between commas. *)
Fixpoint before_comma (s : string) : string :=
  match s with
  | EmptyString => EmptyString
  | String c s => if decide (c = ","%char) then EmptyString else String c (before_comma s)
  end.

Definition dcrClientIP (xForwardedFor xRealIP remoteAddr : string) : string :=
  let first := TrimSpace (before_comma xForwardedFor) in
  if negb (String.eqb xForwardedFor "") && negb (String.eqb first "") then first
  else if negb (String.eqb xRealIP "") then TrimSpace xRealIP
  else remote_host remoteAddr.

(** [body] is the decoded request, [clientRandom] the bytes of the client's ID. *)
Definition DCRHandler (e : OAuthEnv) (clientRandom : string) (s : OAuthStore) (windows : gmap string (list Z)) (method ip : string)
    (body : option DCRRequest) : OAuthStore * gmap string (list Z) * HttpResp :=
  if negb (String.eqb method "POST") then (s, windows, HttpError StatusMethodNotAllowed)
  else
    let '(windows, allowed) := Allow (oe_now e) windows ip in
    if negb allowed then (s, windows, OAuthErr "too_many_requests" StatusTooManyRequests)
    else
      match body with
      | None => (s, windows, OAuthErr "invalid_client_metadata" StatusBadRequest)
      | Some req =>
          if decide (dq_ClientName req = "") then (s, windows, OAuthErr "invalid_client_metadata" StatusBadRequest)
          else if decide (dq_RedirectURIs req = []) then (s, windows, OAuthErr "invalid_client_metadata" StatusBadRequest)
          else if negb (forallb validateRedirectURI (dq_RedirectURIs req)) then (s, windows, OAuthErr "invalid_redirect_uri" StatusBadRequest)
          else
            let grants := if decide (dq_GrantTypes req = []) then ["authorization_code"] else dq_GrantTypes req in
            let authMethod := if decide (dq_TokenEndpointAuthMethod req = "") then "none" else dq_TokenEndpointAuthMethod req in
            if negb (bool_decide (authMethod ∈ ["none"; "client_secret_post"]))
            then (s, windows, OAuthErr "invalid_client_metadata" StatusBadRequest)
            else
              let client secretHash := {|
                cl_ClientID := "cli_" +:+ hex_EncodeToString clientRandom; cl_ClientSecretHash := secretHash; cl_ClientName := dq_ClientName req;
                cl_RedirectURIs := dq_RedirectURIs req; cl_GrantTypes := grants; cl_Scope := dq_Scope req;
                cl_TokenEndpointAuthMethod := authMethod; cl_ClientIDIssuedAt := seconds (oe_now e); cl_CreatedIP := ip |} in
              if decide (authMethod = "client_secret_post") then
                match GenerateToken (oe_random e) with
                | None => (s, windows, HttpError StatusInternalServerError)
                | Some (plainSecret, _) =>
                    let c := client (HashToken plainSecret) in (PutClient s c, windows, Created {| dr_Client := c; dr_ClientSecret := plainSecret |})
                end
              else let c := client "" in (PutClient s c, windows, Created {| dr_Client := c; dr_ClientSecret := "" |})
      end.

(** ** The authorization endpoint *)

Record AuthorizeServer := { as_tenants : TenantLookup; as_issuer : JWTIssuer; as_verifier : JWTVerifier; as_baseURL : string }.

Definition sessionFromCookie (now : Z) (a : AuthorizeServer) (cookie : option string) : option string :=
  match cookie with None => None | Some c => ValidateSessionCookie now (as_verifier a) c end.

Definition showConsent (now : Z) (a : AuthorizeServer) (tenantID : string) (c : Client)
    (redirectURI codeChallenge codeChallengeMethod scope state : string) : HttpResp :=
  match IssueSessionCookie now (as_issuer a) tenantID with
  | None => ErrorPage StatusInternalServerError
  | Some sessionToken =>
      Consent {| cd_ClientName := cl_ClientName c;
                 cd_TenantName := match GetTenantByID (as_tenants a) tenantID with Some t => tb_Name t | None => tenantID end;
                 cd_SessionToken := sessionToken; cd_ClientID := cl_ClientID c; cd_RedirectURI := redirectURI;
                 cd_CodeChallenge := codeChallenge; cd_CodeChallengeMethod := codeChallengeMethod; cd_Scope := scope; cd_State := state |}
  end.

Definition encodeIDPState (now : Z) (clientID redirectURI codeChallenge codeChallengeMethod scope state : string) : string :=
  Encode_state {| is_ClientID := clientID; is_RedirectURI := redirectURI; is_CodeChallenge := codeChallenge;
                  is_CodeChallengeMethod := codeChallengeMethod; is_Scope := scope; is_State := state; is_IssuedAt := seconds now |}.

Definition decodeIDPState (now : Z) (encoded : string) : option idpStatePayload :=
  match Decode_state encoded with
  | None => None
  | Some p => if bool_decide (10 * Minute < now - is_IssuedAt p * Second) then None else Some p
  end.

Definition HandleAuthorize (now : Z) (a : AuthorizeServer) (s : OAuthStore) (cookie : option string) (q : string → string) : HttpResp :=
  if negb (String.eqb (q "response_type") "code") then OAuthErr "unsupported_response_type" StatusBadRequest
  else
    let clientID := q "client_id" in
    let redirectURI := q "redirect_uri" in
    let codeChallenge := q "code_challenge" in
    let codeChallengeMethod := q "code_challenge_method" in
    if bool_decide (clientID = "") || bool_decide (redirectURI = "") || bool_decide (codeChallenge = "")
    then OAuthErr "invalid_request" StatusBadRequest
    else if negb (String.eqb codeChallengeMethod "S256") then OAuthErr "invalid_request" StatusBadRequest
    else
      match GetClient s clientID with
      | Err ErrClientNotFound => OAuthErr "invalid_client" StatusBadRequest
      | Err _ => ErrorPage StatusInternalServerError
      | Ok c =>
          if negb (validateRedirectURI redirectURI) then OAuthErr "invalid_redirect_uri" StatusBadRequest
          else if negb (bool_decide (redirectURI ∈ cl_RedirectURIs c)) then OAuthErr "invalid_redirect_uri" StatusBadRequest
          else
            match sessionFromCookie now a cookie with
            | None => LoginRedirect (encodeIDPState now clientID redirectURI codeChallenge codeChallengeMethod (q "scope") (q "state"))
            | Some tenantID => showConsent now a tenantID c redirectURI codeChallenge codeChallengeMethod (q "scope") (q "state")
            end
      end.

Definition optional_param (name value : string) : list (string * string) := if decide (value = "") then [] else [(name, value)].

(** [exchange] is what the identity provider makes of the code.  The third part of the answer is
    the identity to register; a cookie is set even when the state does not decode. *)
Definition HandleGoogleCallback (now : Z) (a : AuthorizeServer) (exchange : string → option string) (q : string → string)
  : option (string * string * string) * HttpResp :=
  let code := q "code" in
  let idpState := q "state" in
  if bool_decide (code = "") || bool_decide (idpState = "") then (None, ErrorPage StatusBadRequest)
  else
    match exchange code with
    | None => (None, ErrorPage StatusBadGateway)
    | Some email =>
        match GetTenantByEmail (as_tenants a) email with
        | None => (None, PricingRedirect email)
        | Some tenant =>
            let identity := Some (as_baseURL a, tb_ID tenant, tb_Email tenant) in
            match IssueSessionCookie now (as_issuer a) (tb_ID tenant) with
            | None => (identity, ErrorPage StatusInternalServerError)
            | Some sessionToken =>
                match decodeIDPState now idpState with
                | None => (identity, ErrorPage StatusBadRequest)
                | Some orig =>
                    (identity, AuthorizeRedirect sessionToken
                       ([("response_type", "code"); ("client_id", is_ClientID orig); ("redirect_uri", is_RedirectURI orig);
                         ("code_challenge", is_CodeChallenge orig); ("code_challenge_method", is_CodeChallengeMethod orig)] ++
                        optional_param "scope" (is_Scope orig) ++ optional_param "state" (is_State orig)))
                end
            end
        end
    end.

Definition redirectWithError (redirectURI errCode desc state : string) : HttpResp :=
  RedirectURI redirectURI ([("error", errCode); ("error_description", desc)] ++ optional_param "state" state).

Definition code_lifetime : Z := 60 * Second.

Definition HandleConfirm (e : OAuthEnv) (a : AuthorizeServer) (s : OAuthStore) (r : HttpRequest) : OAuthStore * HttpResp :=
  if negb (String.eqb (hr_Method r) "POST") then (s, ErrorPage StatusMethodNotAllowed)
  else
    match hr_Form r with
    | None => (s, ErrorPage StatusBadRequest)
    | Some form =>
        match ValidateSessionCookie (oe_now e) (as_verifier a) (form "session") with
        | None => (s, ErrorPage StatusUnauthorized)
        | Some tenantID =>
            let redirectURI := form "redirect_uri" in
            let state := form "state" in
            let clientID := form "client_id" in
            match GetClient s clientID with
            | Err _ => (s, ErrorPage StatusBadRequest)
            | Ok c =>
                if negb (bool_decide (redirectURI ∈ cl_RedirectURIs c)) then (s, ErrorPage StatusBadRequest)
                else if negb (String.eqb (form "action") "allow")
                then (s, redirectWithError redirectURI "access_denied" "user denied the request" state)
                else
                  match GenerateToken (oe_random e) with
                  | None => (s, ErrorPage StatusInternalServerError)
                  | Some (plainCode, codeHash) =>
                      match PutCode s {| co_CodeHash := codeHash; co_ClientID := clientID; co_TenantID := tenantID; co_RedirectURI := redirectURI;
                                         co_CodeChallenge := form "code_challenge"; co_CodeChallengeMethod := form "code_challenge_method";
                                         co_Scope := form "scope"; co_ExpiresAt := seconds (oe_now e + code_lifetime); co_Used := false |} with
                      | (s, Some _) => (s, ErrorPage StatusInternalServerError)
                      | (s, None) => (s, RedirectURI redirectURI ([("code", plainCode)] ++ optional_param "state" state))
                      end
                  end
            end
        end
    end.
End oauth.

(** ** Laws of the parameters *)

Class OAuthLaws `{OAuthLib} : Prop := {
  jwt_roundtrip priv kid c t : jwt_Sign priv kid c = Some t → jwt_Parse (ed25519_Public priv) t = Some c;
  jwt_signs priv kid c : String.length priv = 64%nat → is_Some (jwt_Sign priv kid c);
}.

Section facts.
Context `{OAuthLaws}.
Implicit Types (s : OAuthStore) (e : OAuthEnv) (j : JWTIssuer).

Lemma seconds_mono t u : t ≤ u → seconds t ≤ seconds u.
Proof. intros Hle. unfold seconds. apply Z.div_le_mono; [unfold Second, Millisecond; lia | done]. Qed.

Lemma seconds_add t k : seconds (t + k * Second) = seconds t + k.
Proof. unfold seconds. apply Z.div_add. unfold Second, Millisecond. lia. Qed.

Lemma seconds_le t : seconds t * Second ≤ t.
Proof. unfold seconds. rewrite Z.mul_comm. apply Z.mul_div_le. unfold Second, Millisecond. lia. Qed.

Lemma seconds_gt t : t < seconds t * Second + Second.
Proof. unfold seconds. pose proof (Z.mod_pos_bound t Second ltac:(unfold Second, Millisecond; lia)). pose proof (Z.div_mod t Second ltac:(unfold Second, Millisecond; lia)). lia. Qed.

Lemma AccessTokenTTL_seconds t : seconds (t + AccessTokenTTL) = seconds t + 3600.
Proof. apply (seconds_add t 3600). Qed.

Lemma SessionCookieTTL_seconds t : seconds (t + SessionCookieTTL) = seconds t + 600.
Proof. apply (seconds_add t 600). Qed.

(** A token is in force from its second on, for the lifetime it was given. *)
Lemma access_token_valid now now' j tid cid scope aud jti email name t :
  IssueAccessToken now j tid cid scope aud jti email name = Some t →
  now ≤ now' → seconds now' < seconds now + 3600 →
  ValidateClaims now' (NewJWTVerifier (ji_priv j) (ji_issuer j) aud) t = if decide (tid = "") then None else Some tid.
Proof.
  unfold IssueAccessToken. intros Hs%jwt_roundtrip Hle Hlt. unfold ValidateClaims, NewJWTVerifier. simpl. rewrite Hs. simpl.
  rewrite String.eqb_refl, bool_decide_true by (by left). unfold in_force. simpl. pose proof (seconds_mono now now' Hle).
  rewrite AccessTokenTTL_seconds, !bool_decide_true by lia. done.
Qed.

Lemma access_token_as_session now now' j tid cid scope aud aud' jti email name t :
  IssueAccessToken now j tid cid scope aud jti email name = Some t →
  now ≤ now' → seconds now' < seconds now + 3600 →
  ValidateSessionCookie now' (NewJWTVerifier (ji_priv j) (ji_issuer j) aud') t = Some tid.
Proof.
  unfold IssueAccessToken. intros Hs%jwt_roundtrip Hle Hlt. unfold ValidateSessionCookie, NewJWTVerifier. simpl. rewrite Hs. simpl.
  rewrite String.eqb_refl. unfold in_force. simpl. pose proof (seconds_mono now now' Hle).
  by rewrite AccessTokenTTL_seconds, !bool_decide_true by lia.
Qed.

Lemma session_cookie_valid now now' j tid aud t : IssueSessionCookie now j tid = Some t →
  now ≤ now' → seconds now' < seconds now + 600 →
  ValidateSessionCookie now' (NewJWTVerifier (ji_priv j) (ji_issuer j) aud) t = Some tid.
Proof.
  unfold IssueSessionCookie. intros Hs%jwt_roundtrip Hle Hlt. unfold ValidateSessionCookie, NewJWTVerifier. simpl. rewrite Hs. simpl.
  rewrite String.eqb_refl. unfold in_force. simpl. pose proof (seconds_mono now now' Hle).
  by rewrite SessionCookieTTL_seconds, !bool_decide_true by lia.
Qed.

(** ** The exchange of a code *)

(** What a client has to show. *)
Record exchange_ok (now : Z) (s : OAuthStore) (form : string → string) (code : Code) : Prop := {
  ex_client : ∃ c, os_clients s !! form "client_id" = Some c ∧
    (cl_TokenEndpointAuthMethod c = "client_secret_post" → HashToken (form "client_secret") = cl_ClientSecretHash c);
  ex_code : os_codes s !! HashToken (form "code") = Some code;
  ex_unused : co_Used code = false;
  ex_alive : now ≤ co_ExpiresAt code * Second;
  ex_same_client : co_ClientID code = form "client_id";
  ex_same_uri : co_RedirectURI code = form "redirect_uri";
  ex_pkce : RawURLEncoding (sha256 (form "code_verifier")) = co_CodeChallenge code;
  ex_present : form "client_id" ≠ "" ∧ form "redirect_uri" ≠ "" ∧ form "code_verifier" ≠ "" ∧ form "code" ≠ "";
}.

(** The refresh token that goes with it. *)
Definition refresh_for (e : OAuthEnv) (code : Code) (hash : string) : RefreshToken := {|
  rt_TokenHash := hash; rt_ClientID := co_ClientID code; rt_TenantID := co_TenantID code; rt_Scope := co_Scope code;
  rt_ExpiresAt := seconds (oe_now e + RefreshTokenTTL); rt_Revoked := false |}.

Lemma writeTokenJSON_token e j aud tid cid scope plain ten :
  match writeTokenJSON e j aud tid cid scope plain ten with
  | TokenJSON t => (∃ jti email name, IssueAccessToken (oe_now e) j tid cid scope aud jti email name = Some (tk_access_token t)) ∧
      tk_refresh_token t = plain ∧ tk_scope t = scope ∧ tk_expires_in t = 3600
  | r => r = HttpError StatusInternalServerError ∧ ∃ jti email name, IssueAccessToken (oe_now e) j tid cid scope aud jti email name = None
  end.
Proof.
  unfold writeTokenJSON. destruct (match ten with Some l => _ | None => _ end) as [email name].
  destruct (IssueAccessToken _ _ _ _ _ _ _ _ _) eqn:Hi; simpl; eauto 8.
Qed.

Lemma writeTokenJSON_total e j aud tid cid scope plain ten : String.length (ji_priv j) = 64%nat →
  ∃ t, writeTokenJSON e j aud tid cid scope plain ten = TokenJSON t.
Proof.
  intros Hlen. unfold writeTokenJSON. destruct (match ten with Some l => _ | None => _ end) as [email name].
  unfold IssueAccessToken. match goal with |- context [jwt_Sign ?p ?k ?c] => destruct (jwt_signs p k c Hlen) as [t ->] end. eauto.
Qed.

Lemma handleAuthCode_ok e j aud ten s form code b : exchange_ok (oe_now e) s form code → oe_random e = Some b →
  os_refresh s !! HashToken (hex_EncodeToString b) = None →
  handleAuthCode e j aud ten s form =
    ({| os_clients := os_clients s; os_codes := <[HashToken (form "code") := mark_used code]> (os_codes s);
        os_refresh := <[HashToken (hex_EncodeToString b) := refresh_for e code (HashToken (hex_EncodeToString b))]> (os_refresh s) |},
     writeTokenJSON e j aud (co_TenantID code) (form "client_id") (co_Scope code) (hex_EncodeToString b) ten).
Proof.
  intros [(c & Hc & Hsec) Hcode Hu Hal Hcl Huri Hp (H1 & H2 & H3 & H4)] Hb Hfresh. unfold handleAuthCode.
  rewrite !bool_decide_false by done. simpl. unfold GetClient. rewrite Hc.
  assert (Hauth : String.eqb (cl_TokenEndpointAuthMethod c) "client_secret_post" &&
    negb (String.eqb (HashToken (form "client_secret")) (cl_ClientSecretHash c)) = false).
  { destruct (String.eqb_spec (cl_TokenEndpointAuthMethod c) "client_secret_post") as [Hm|]; [|done]. by rewrite Hsec, String.eqb_refl. }
  rewrite Hauth. unfold UseCode. rewrite Hcode, Hu, bool_decide_false by lia. simpl.
  rewrite Hcl, Huri, !String.eqb_refl. simpl. unfold pkceVerify. rewrite Hp, String.eqb_refl. simpl.
  unfold GenerateToken. rewrite Hb. unfold PutRefreshToken. simpl. rewrite Hfresh. unfold refresh_for. by rewrite Hcl.
Qed.

Lemma handleAuthCode_inv e j aud ten s form s' t : handleAuthCode e j aud ten s form = (s', TokenJSON t) →
  ∃ code b, exchange_ok (oe_now e) s form code ∧ oe_random e = Some b ∧ os_refresh s !! HashToken (hex_EncodeToString b) = None.
Proof.
  unfold handleAuthCode. destruct (bool_decide (form "client_id" = "")) eqn:E1; [done |]. destruct (bool_decide (form "redirect_uri" = "")) eqn:E2; [done |].
  destruct (bool_decide (form "code_verifier" = "")) eqn:E3; [done |]. destruct (bool_decide (form "code" = "")) eqn:E4; [done |]. simpl.
  unfold GetClient. destruct (os_clients s !! form "client_id") as [c|] eqn:Hc; [|done].
  destruct (String.eqb _ _ && _) eqn:Hauth; [done |]. unfold UseCode.
  destruct (os_codes s !! _) as [code|] eqn:Hcode; [|done]. destruct (co_Used code) eqn:Hu; [done |]. simpl.
  destruct (bool_decide (_ < oe_now e)) eqn:Hal; [done |]. apply bool_decide_eq_false in Hal.
  destruct (String.eqb_spec (co_ClientID code) (form "client_id")) as [Hcl|]; [|done]. simpl.
  destruct (String.eqb_spec (co_RedirectURI code) (form "redirect_uri")) as [Huri|]; [|done]. simpl.
  unfold pkceVerify. destruct (String.eqb_spec (RawURLEncoding (sha256 (form "code_verifier"))) (co_CodeChallenge code)) as [Hp|]; [|done]. simpl.
  unfold GenerateToken. destruct (oe_random e) as [b|] eqn:Hb; [|done]. unfold PutRefreshToken. simpl.
  destruct (os_refresh s !! _) eqn:Hfresh; [done |]. intros _. exists code, b. split; [|done].
  apply bool_decide_eq_false in E1, E2, E3, E4. split; try done; [|lia].
  exists c. split; [done |]. intros Hm. rewrite Hm in Hauth. simpl in Hauth.
  by destruct (String.eqb_spec (HashToken (form "client_secret")) (cl_ClientSecretHash c)).
Qed.


(** ** Codes and refresh tokens are used once *)

Definition code_spent (h : string) (s : OAuthStore) : Prop := ∀ c, os_codes s !! h = Some c → co_Used c = true.
Definition refresh_spent (h : string) (s : OAuthStore) : Prop := ∀ rt, os_refresh s !! h = Some rt → rt_Revoked rt = true.

(** The tokens drawn in a step do not have the hash [h]. *)
Definition draws_other (h : string) (e : OAuthEnv) : Prop := ∀ b, oe_random e = Some b → HashToken (hex_EncodeToString b) ≠ h.

Inductive oauth_step (h : string) : OAuthStore → OAuthStore → Prop :=
| ostep_token j aud ten e s r : draws_other h e → oauth_step h s (TokenHandler j aud ten e s r).1
| ostep_revoke s r : oauth_step h s (RevokeHandler s r).1
| ostep_register e cr s w m ip body : oauth_step h s (DCRHandler e cr s w m ip body).1.1
| ostep_confirm e a s r : draws_other h e → oauth_step h s (HandleConfirm e a s r).1
| ostep_cleanup now s : oauth_step h s (CleanupOAuthExpired now s).

Lemma UseCode_codes now s h : os_refresh (UseCode now s h).1 = os_refresh s ∧ os_clients (UseCode now s h).1 = os_clients s ∧
  ∀ k c', os_codes (UseCode now s h).1 !! k = Some c' → os_codes s !! k = Some c' ∨ (∃ c, os_codes s !! k = Some c ∧ c' = mark_used c).
Proof.
  unfold UseCode. destruct (os_codes s !! h) as [c|] eqn:Hc; [|eauto]. destruct (_ || _); [eauto |]. simpl. split_and!; [done | done |].
  intros k c'. destruct (decide (k = h)) as [->|]; [rewrite lookup_insert_eq; intros [= <-]; eauto | rewrite lookup_insert_ne by done; eauto].
Qed.

Lemma PutRefreshToken_refresh s rt : os_codes (PutRefreshToken s rt).1 = os_codes s ∧ os_clients (PutRefreshToken s rt).1 = os_clients s ∧
  ∀ k, k ≠ rt_TokenHash rt → os_refresh (PutRefreshToken s rt).1 !! k = os_refresh s !! k.
Proof.
  unfold PutRefreshToken. destruct (os_refresh s !! _); [done |]. simpl. split_and!; [done | done |]. intros k Hk. by rewrite lookup_insert_ne.
Qed.

(** A code request touches the code it names, and adds a refresh token at most. *)
Lemma handleAuthCode_effect e j aud ten s form : let w := (handleAuthCode e j aud ten s form).1 in
  os_clients w = os_clients s ∧
  (∀ k c', os_codes w !! k = Some c' → os_codes s !! k = Some c' ∨ (∃ c, os_codes s !! k = Some c ∧ c' = mark_used c)) ∧
  (∀ k, (∀ b, oe_random e = Some b → HashToken (hex_EncodeToString b) ≠ k) → os_refresh w !! k = os_refresh s !! k).
Proof.
  cbn zeta. unfold handleAuthCode. destruct (bool_decide _ || _ || _ || _); [eauto |].
  destruct (GetClient _ _) as [c|[]]; eauto. destruct (_ && _); eauto.
  destruct (UseCode_codes (oe_now e) s (HashToken (form "code"))) as (U1 & U2 & U3).
  destruct (UseCode _ _ _) as [s1 [code|[]]]; simpl in *; try (split_and!; [done | done | intros; simpl; by rewrite U1]).
  do 3 (destruct (negb _); [split_and!; [done | done | intros; simpl; by rewrite U1] |]).
  unfold GenerateToken. destruct (oe_random e) as [b|] eqn:Hb; [|split_and!; [done | done | intros; simpl; by rewrite U1]].
  match goal with |- context [PutRefreshToken s1 ?rt] => destruct (PutRefreshToken_refresh s1 rt) as (P1 & P2 & P3) end.
  destruct (PutRefreshToken s1 _) as [s2 [|]]; simpl in *;
    (split_and!; [congruence | by rewrite P1 | intros k Hk; rewrite P3, U1; [done | intros ->; by apply (Hk b)]]).
Qed.

Lemma RotateRefreshToken_effect now s old rt : let w := (RotateRefreshToken now s old rt).1 in
  os_clients w = os_clients s ∧ os_codes w = os_codes s ∧
  (∀ k r', k ≠ rt_TokenHash rt → os_refresh w !! k = Some r' → os_refresh s !! k = Some r' ∨ (∃ r, os_refresh s !! k = Some r ∧ r' = revoke r)).
Proof.
  cbn zeta. unfold RotateRefreshToken. destruct (os_refresh s !! old) as [r|] eqn:Hr; [|eauto]. destruct (_ || _); [eauto |].
  destruct (PutRefreshToken_refresh (with_refresh s (<[old := revoke r]> (os_refresh s))) rt) as (P1 & P2 & P3).
  destruct (PutRefreshToken _ _) as [s' [|]]; [eauto |]. simpl in *. split_and!; [done | done |]. intros k r' Hk. rewrite P3 by done.
  destruct (decide (k = old)) as [->|]; [rewrite lookup_insert_eq; intros [= <-]; eauto | rewrite lookup_insert_ne by done; eauto].
Qed.

Lemma handleRefresh_effect e j aud ten s form : let w := (handleRefresh e j aud ten s form).1 in
  os_clients w = os_clients s ∧ os_codes w = os_codes s ∧
  (∀ k r', (∀ b, oe_random e = Some b → HashToken (hex_EncodeToString b) ≠ k) → os_refresh w !! k = Some r' →
     os_refresh s !! k = Some r' ∨ (∃ r, os_refresh s !! k = Some r ∧ r' = revoke r)).
Proof.
  cbn zeta. unfold handleRefresh. destruct (_ || _); [eauto |]. unfold GenerateToken. destruct (oe_random e) as [b|]; [|eauto].
  match goal with |- context [RotateRefreshToken ?n s ?h ?rt] => destruct (RotateRefreshToken_effect n s h rt) as (R1 & R2 & R3) end.
  destruct (RotateRefreshToken _ _ _ _) as [s1 [rt|[]]]; simpl in *;
    (split_and!; [done | done | intros k r' Hk; apply R3; intros ->; by apply (Hk b)]).
Qed.

Lemma step_spent h s w : oauth_step h s w → (code_spent h s → code_spent h w) ∧ (refresh_spent h s → refresh_spent h w).
Proof.
  destruct 1 as [j aud ten e s r Hd|s r|e cr s w m ip body|e a s r Hd|now s].
  - unfold TokenHandler. destruct (negb _); [done |]. destruct (hr_Form r) as [form|]; [|done].
    case_decide; [|case_decide; [|done]].
    + destruct (handleAuthCode_effect e j aud ten s form) as (_ & E1 & E2). split.
      * intros Hs c [Hc|(c0 & Hc & ->)]%E1; [by apply Hs | done].
      * intros Hs rt. rewrite E2; [apply Hs | done].
    + destruct (handleRefresh_effect e j aud ten s form) as (_ & E1 & E2). split.
      * intros Hs c. rewrite E1. apply Hs.
      * intros Hs rt [Hc|(c0 & Hc & ->)]%(E2 h rt Hd); [by apply Hs | done].
  - unfold RevokeHandler. destruct (negb _); [done |]. destruct (hr_Form r) as [form|]; [|done]. case_decide; [done |].
    destruct (_ && _); [done |]. case_decide; [done |]. split; [done |]. intros Hs rt. unfold RevokeRefreshToken. simpl.
    destruct (decide (h = HashToken (form "token"))) as [<-|]; [rewrite lookup_alter_eq, fmap_Some; by intros (r0 & ? & ->) |].
    rewrite lookup_alter_ne by done. apply Hs.
  - unfold DCRHandler. destruct (negb _); [done |]. destruct (Allow _ _ _) as [w1 []]; [|done]. simpl.
    destruct body as [req|]; [|done]. do 2 (case_decide; [done |]). destruct (negb _); [done |]. destruct (negb _); [done |].
    case_decide; [unfold GenerateToken; destruct (oe_random e); done | done].
  - unfold HandleConfirm. destruct (negb _); [done |]. destruct (hr_Form r) as [form|]; [|done].
    destruct (ValidateSessionCookie _ _ _) as [tid|]; [|done]. destruct (GetClient _ _) as [c|]; [|done]. destruct (negb _); [done |].
    destruct (negb _); [done |]. unfold GenerateToken. destruct (oe_random e) as [b|] eqn:Hb; [|done]. unfold PutCode. simpl.
    destruct (os_codes s !! _) eqn:Hc; [done |]. simpl. split; [|done]. intros Hs c0. simpl. rewrite lookup_insert_ne by (by apply Hd). apply Hs.
  - split; intros Hs c; simpl; rewrite map_lookup_filter_Some; intros [Hc _]; by apply Hs.
Qed.

Lemma steps_spent h s w : rtc (oauth_step h) s w → (code_spent h s → code_spent h w) ∧ (refresh_spent h s → refresh_spent h w).
Proof. induction 1 as [s|s u w Hs _ [I1 I2]]; [done |]. destruct (step_spent h s u Hs). auto. Qed.

(** C8. Codes and refresh tokens work once: after a code was exchanged, a refresh token was
    rotated, or a token was revoked, no later request with it gets tokens, whatever requests,
    registrations and clean-ups come between (as long as no fresh token has the same hash). *)
Theorem grants_single_use e j aud ten s form s1 t :
  (handleAuthCode e j aud ten s form = (s1, TokenJSON t) →
     ∀ s2 e2 j2 aud2 ten2 form2 t2, rtc (oauth_step (HashToken (form "code"))) s1 s2 → form2 "code" = form "code" →
     (handleAuthCode e2 j2 aud2 ten2 s2 form2).2 ≠ TokenJSON t2) ∧
  (handleRefresh e j aud ten s form = (s1, TokenJSON t) → draws_other (HashToken (form "refresh_token")) e →
     ∀ s2 e2 j2 aud2 ten2 form2 t2, rtc (oauth_step (HashToken (form "refresh_token"))) s1 s2 → form2 "refresh_token" = form "refresh_token" →
     (handleRefresh e2 j2 aud2 ten2 s2 form2).2 ≠ TokenJSON t2) ∧
  (∀ s2 e2 j2 aud2 ten2 form2 t2, form "token" ≠ "" → form "client_id" = "" → form "token_type_hint" ≠ "access_token" →
     rtc (oauth_step (HashToken (form "token"))) (RevokeHandler s {| hr_Method := "POST"; hr_Form := Some form |}).1 s2 →
     form2 "refresh_token" = form "token" → (handleRefresh e2 j2 aud2 ten2 s2 form2).2 ≠ TokenJSON t2).
Proof.
  assert (Hno : ∀ h s2 e2 j2 aud2 ten2 form2 t2, refresh_spent h s2 → HashToken (form2 "refresh_token") = h →
    (handleRefresh e2 j2 aud2 ten2 s2 form2).2 ≠ TokenJSON t2).
  { intros h s2 e2 j2 aud2 ten2 form2 t2 Hsp Hh. unfold handleRefresh. destruct (_ || _); [done |]. destruct (GenerateToken _) as [[p q]|]; [|done].
    unfold RotateRefreshToken. rewrite Hh. destruct (os_refresh s2 !! h) as [r|] eqn:Hr; [|done]. by rewrite (Hsp r Hr). }
  split; [|split].
  - intros Hex s2 e2 j2 aud2 ten2 form2 t2 Hsteps Heq Ht2. destruct (handleAuthCode_inv _ _ _ _ _ _ _ _ Hex) as (code & b & Hok & Hb & Hfr).
    rewrite (handleAuthCode_ok e j aud ten s form code b Hok Hb Hfr) in Hex. injection Hex as <- _.
    assert (Hsp : code_spent (HashToken (form "code")) s2).
    { apply (steps_spent _ _ _ Hsteps). intros c. simpl. rewrite lookup_insert_eq. by intros [= <-]. }
    destruct (handleAuthCode e2 j2 aud2 ten2 s2 form2) as [s3 r3] eqn:H3. simpl in Ht2. subst r3.
    destruct (handleAuthCode_inv _ _ _ _ _ _ _ _ H3) as (code2 & b2 & Hok2 & _). pose proof (ex_code _ _ _ _ Hok2) as Hc. rewrite Heq in Hc.
    apply Hsp in Hc. by rewrite (ex_unused _ _ _ _ Hok2) in Hc.
  - intros Hex Hd s2 e2 j2 aud2 ten2 form2 t2 Hsteps Heq. apply (Hno (HashToken (form "refresh_token"))); [|by rewrite Heq].
    apply (steps_spent _ _ _ Hsteps). unfold handleRefresh in Hex. destruct (_ || _); [done |]. unfold GenerateToken in Hex.
    destruct (oe_random e) as [b|] eqn:Hb; [|done]. unfold RotateRefreshToken in Hex. destruct (os_refresh s !! _) as [r|]; [|done].
    destruct (_ || _); [done |]. unfold PutRefreshToken in Hex. simpl in Hex. destruct (_ !! HashToken (hex_EncodeToString b)); [done |].
    injection Hex as <- _. intros rt. simpl. rewrite lookup_insert_ne by (by apply Hd). rewrite lookup_insert_eq. by intros [= <-].
  - intros s2 e2 j2 aud2 ten2 form2 t2 Hne Hcl Hhint Hsteps Heq. apply (Hno (HashToken (form "token"))); [|by rewrite Heq].
    apply (steps_spent _ _ _ Hsteps). unfold RevokeHandler. simpl. rewrite decide_False, Hcl, decide_False by done.
    unfold refresh_spent, RevokeRefreshToken. simpl.
    intros rt. rewrite lookup_alter_eq, fmap_Some. by intros (r0 & ? & ->).
Qed.

(** What a refresh does when the old token is live. *)
Lemma handleRefresh_ok e j aud ten s form b old : form "refresh_token" ≠ "" → form "client_id" ≠ "" → oe_random e = Some b →
  os_refresh s !! HashToken (form "refresh_token") = Some old → rt_Revoked old = false → oe_now e ≤ rt_ExpiresAt old * Second →
  <[HashToken (form "refresh_token") := revoke old]> (os_refresh s) !! HashToken (hex_EncodeToString b) = None →
  let rt := {| rt_TokenHash := HashToken (hex_EncodeToString b); rt_ClientID := form "client_id"; rt_TenantID := ""; rt_Scope := "";
               rt_ExpiresAt := seconds (oe_now e + RefreshTokenTTL); rt_Revoked := false |} in
  handleRefresh e j aud ten s form =
    (with_refresh s (<[rt_TokenHash rt := rt]> (<[HashToken (form "refresh_token") := revoke old]> (os_refresh s))),
     writeTokenJSON e j aud "" (form "client_id") "" (hex_EncodeToString b) ten).
Proof.
  intros H1 H2 Hb Hold Hrev Hexp Hfr. unfold handleRefresh. rewrite !bool_decide_false by done. simpl.
  unfold GenerateToken. rewrite Hb. unfold RotateRefreshToken. rewrite Hold, Hrev, bool_decide_false by lia. simpl.
  unfold PutRefreshToken. simpl. by rewrite Hfr.
Qed.

Lemma handleRefresh_inv e j aud ten s form s' t : handleRefresh e j aud ten s form = (s', TokenJSON t) →
  ∃ b old, form "refresh_token" ≠ "" ∧ form "client_id" ≠ "" ∧ oe_random e = Some b ∧
    os_refresh s !! HashToken (form "refresh_token") = Some old ∧ rt_Revoked old = false ∧ oe_now e ≤ rt_ExpiresAt old * Second ∧
    <[HashToken (form "refresh_token") := revoke old]> (os_refresh s) !! HashToken (hex_EncodeToString b) = None.
Proof.
  unfold handleRefresh. destruct (bool_decide (form "refresh_token" = "")) eqn:E1; [done |]. destruct (bool_decide (form "client_id" = "")) eqn:E2; [done |].
  simpl. unfold GenerateToken. destruct (oe_random e) as [b|]; [|done]. unfold RotateRefreshToken.
  destruct (os_refresh s !! _) as [old|] eqn:Hold; [|done]. destruct (rt_Revoked old) eqn:Hrev; [done |]. simpl.
  destruct (bool_decide (_ < oe_now e)) eqn:Hexp; [done |]. unfold PutRefreshToken. simpl.
  destruct (_ !! HashToken (hex_EncodeToString b)) eqn:Hfr; [done |]. intros _. apply bool_decide_eq_false in E1, E2, Hexp.
  exists b, old. split_and!; try done. lia.
Qed.

(** Refreshing loses the tenant: the token endpoint passes a new token without tenant and scope
    to the store, which returns it as it is, so every access token that a refresh gives out has
    an empty subject and no scope, and the relay refuses it; any client ID will do, and no
    secret is asked for. *)
Theorem refresh_loses_tenant e j aud ten s form s' t : handleRefresh e j aud ten s form = (s', TokenJSON t) →
  tk_scope t = "" ∧
  (∃ rt, os_refresh s' !! HashToken (tk_refresh_token t) = Some rt ∧ rt_TenantID rt = "" ∧ rt_ClientID rt = form "client_id") ∧
  (∀ now', oe_now e ≤ now' → seconds now' < seconds (oe_now e) + 3600 →
     ValidateClaims now' (NewJWTVerifier (ji_priv j) (ji_issuer j) aud) (tk_access_token t) = None) ∧
  (∀ form', form' "refresh_token" = form "refresh_token" → form' "client_id" ≠ "" →
     os_refresh (handleRefresh e j aud ten s form').1 !! HashToken (tk_refresh_token t) =
       (λ rt, {| rt_TokenHash := rt_TokenHash rt; rt_ClientID := form' "client_id"; rt_TenantID := ""; rt_Scope := "";
                 rt_ExpiresAt := rt_ExpiresAt rt; rt_Revoked := false |}) <$> os_refresh s' !! HashToken (tk_refresh_token t)).
Proof.
  intros Hex. destruct (handleRefresh_inv _ _ _ _ _ _ _ _ Hex) as (b & old & H1 & H2 & Hb & Hold & Hrev & Hexp & Hfr).
  pose proof Hex as Hex'. rewrite (handleRefresh_ok _ _ _ _ _ _ b old) in Hex' by done. injection Hex' as <- Hwt.
  pose proof (writeTokenJSON_token e j aud "" (form "client_id") "" (hex_EncodeToString b) ten) as Hw.
  rewrite Hwt in Hw. destruct Hw as ((jti & email & name & Hi) & Href & -> & _). rewrite Href. simpl. split_and!.
  - done.
  - eexists. split; [apply lookup_insert_eq | done].
  - intros now' Hle Hlt. by rewrite (access_token_valid _ now' _ _ _ _ _ _ _ _ _ Hi Hle Hlt).
  - intros form' Heq Hne. rewrite (handleRefresh_ok _ _ _ _ _ _ b old) by (rewrite ?Heq; done). simpl. by rewrite !lookup_insert_eq.
Qed.

(** An access token is as good as a consent session: nothing in a session JWT says what it is
    for, so whoever holds an access token of a tenant (any client it was issued to) can post
    the consent form and obtain a code for that tenant, for any registered client, redirect
    URI and scope. *)
Theorem access_token_grants_consent e1 e2 a s c tid cid scope aud jti email name t form b :
  IssueAccessToken (oe_now e1) (as_issuer a) tid cid scope aud jti email name = Some t →
  as_verifier a = NewJWTVerifier (ji_priv (as_issuer a)) (ji_issuer (as_issuer a)) aud →
  oe_now e1 ≤ oe_now e2 → seconds (oe_now e2) < seconds (oe_now e1) + 3600 →
  form "session" = t → form "action" = "allow" → os_clients s !! form "client_id" = Some c → form "redirect_uri" ∈ cl_RedirectURIs c →
  oe_random e2 = Some b → os_codes s !! HashToken (hex_EncodeToString b) = None →
  let '(w, r) := HandleConfirm e2 a s {| hr_Method := "POST"; hr_Form := Some form |} in
  r = RedirectURI (form "redirect_uri") ([("code", hex_EncodeToString b)] ++ optional_param "state" (form "state")) ∧
  ∃ code, os_codes w !! HashToken (hex_EncodeToString b) = Some code ∧ co_TenantID code = tid ∧ co_Scope code = form "scope" ∧
    co_ClientID code = form "client_id" ∧ co_Used code = false.
Proof.
  intros Hi Hv Hle Hlt Hs Hact Hc Huri Hb Hfr. unfold HandleConfirm. simpl. rewrite Hs, Hv.
  rewrite (access_token_as_session _ _ _ _ _ _ _ _ _ _ _ _ Hi Hle Hlt). unfold GetClient. rewrite Hc, bool_decide_true by done. simpl.
  rewrite Hact. simpl. unfold GenerateToken. rewrite Hb. unfold PutCode. simpl. rewrite Hfr. split; [done |].
  eexists. split; [apply lookup_insert_eq | done].
Qed.

(** ** Where redirects go *)

Definition uris_valid (s : OAuthStore) : Prop := ∀ id c, os_clients s !! id = Some c → forallb validateRedirectURI (cl_RedirectURIs c) = true.

Inductive oauth_reachable : OAuthStore → Prop :=
| oreach_empty : oauth_reachable {| os_clients := ∅; os_codes := ∅; os_refresh := ∅ |}
| oreach_step h s w : oauth_reachable s → oauth_step h s w → oauth_reachable w.

Lemma step_uris h s w : oauth_step h s w → uris_valid s → uris_valid w.
Proof.
  destruct 1 as [j aud ten e s r Hd|s r|e cr s w m ip body|e a s r Hd|now s].
  - unfold TokenHandler. destruct (negb _); [done |]. destruct (hr_Form r) as [form|]; [|done].
    case_decide; [|case_decide; [|done]].
    + destruct (handleAuthCode_effect e j aud ten s form) as (E & _). intros Hu id c. rewrite E. apply Hu.
    + destruct (handleRefresh_effect e j aud ten s form) as (E & _). intros Hu id c. rewrite E. apply Hu.
  - unfold RevokeHandler. destruct (negb _); [done |]. destruct (hr_Form r) as [form|]; [|done]. case_decide; [done |].
    destruct (_ && _); [done |]. by case_decide.
  - intros Hu. unfold DCRHandler. destruct (negb _); [done |]. destruct (Allow _ _ _) as [w1 []]; [|done]. simpl.
    destruct body as [req|]; [|done]. do 2 (case_decide; [done |]). destruct (forallb _ _) eqn:Hall; [|done]. simpl. destruct (negb _); [done |].
    assert (Hput : ∀ c, cl_RedirectURIs c = dq_RedirectURIs req → uris_valid (PutClient s c)).
    { intros c Hc id c'. unfold PutClient. simpl. match goal with |- <[_ := ?x]> _ !! _ = _ → _ =>
        assert (Hx : cl_RedirectURIs x = dq_RedirectURIs req) by (by destruct (os_clients s !! cl_ClientID c)); set (y := x) in * end.
      destruct (decide (id = cl_ClientID y)) as [->|]; [rewrite lookup_insert_eq; intros [= <-]; by rewrite Hx |].
      rewrite lookup_insert_ne by done. apply Hu. }
    case_decide; [unfold GenerateToken; destruct (oe_random e); [by apply Hput | done] | by apply Hput].
  - unfold HandleConfirm. destruct (negb _); [done |]. destruct (hr_Form r) as [form|]; [|done].
    destruct (ValidateSessionCookie _ _ _) as [tid|]; [|done]. destruct (GetClient _ _) as [c|]; [|done]. destruct (negb _); [done |].
    destruct (negb _); [done |]. destruct (GenerateToken _) as [[p q]|]; [|done]. unfold PutCode. by destruct (os_codes s !! _).
  - done.
Qed.

(** Redirects stay with the client: in every reachable store the consent form, allowed or
    denied, redirects only to a URI that the named client registered, and every registered
    URI is https or http on a loopback host, without a fragment; a code is only stored with
    the tenant of a valid session and the client and URI that the form was checked against. *)
Theorem redirects_registered e a s r : oauth_reachable s →
  let '(w, resp) := HandleConfirm e a s r in
  (∀ uri q, resp = RedirectURI uri q →
     ∃ form c, hr_Form r = Some form ∧ os_clients s !! form "client_id" = Some c ∧ uri = form "redirect_uri" ∧ uri ∈ cl_RedirectURIs c ∧
       validateRedirectURI uri = true ∧
       ∃ u, url_Parse uri = Some u ∧ u_Fragment u = "" ∧
         (u_Scheme u = "https" ∨ u_Scheme u = "http" ∧ u_Hostname u ∈ ["localhost"; "127.0.0.1"; "::1"])) ∧
  (∀ h code, os_codes w !! h = Some code → os_codes s !! h = Some code ∨
     ∃ form c tid, hr_Form r = Some form ∧ ValidateSessionCookie (oe_now e) (as_verifier a) (form "session") = Some tid ∧ co_TenantID code = tid ∧
       os_clients s !! co_ClientID code = Some c ∧ co_RedirectURI code ∈ cl_RedirectURIs c ∧ form "action" = "allow").
Proof.
  intros Hr. assert (Hu : uris_valid s).
  { induction Hr as [|h s w _ IH Hstep]; [intros id c; simpl; by rewrite lookup_empty | by apply (step_uris h s w)]. }
  unfold HandleConfirm. destruct (negb _); [split; [done | eauto] |]. destruct (hr_Form r) as [form|]; [|split; [done | eauto]].
  destruct (ValidateSessionCookie _ _ _) as [tid|] eqn:Hs; [|split; [done | eauto]].
  unfold GetClient. destruct (os_clients s !! form "client_id") as [c|] eqn:Hc; [|split; [done | eauto]].
  destruct (bool_decide _) eqn:Hin; [|split; [done | eauto]]. apply bool_decide_eq_true in Hin. simpl.
  assert (Hgood : ∀ q uri q', RedirectURI (form "redirect_uri") q = RedirectURI uri q' →
    ∃ form0 c, Some form = Some form0 ∧ os_clients s !! form0 "client_id" = Some c ∧ uri = form0 "redirect_uri" ∧ uri ∈ cl_RedirectURIs c ∧
      validateRedirectURI uri = true ∧ ∃ u, url_Parse uri = Some u ∧ u_Fragment u = "" ∧
        (u_Scheme u = "https" ∨ u_Scheme u = "http" ∧ u_Hostname u ∈ ["localhost"; "127.0.0.1"; "::1"])).
  { intros q uri q' [= <- _]. exists form, c. pose proof (Hu _ _ Hc) as Hall. rewrite forallb_forall in Hall.
    assert (Hv : validateRedirectURI (form "redirect_uri") = true) by (apply Hall; by apply list_elem_of_In).
    split_and!; try done. unfold validateRedirectURI in Hv. destruct (url_Parse _) as [u|]; [|done]. exists u.
    destruct (String.eqb_spec (u_Fragment u) ""); [|done]. simpl in Hv. split_and!; [done | done |].
    case_decide; [by left |]. case_decide; [|done]. right. split; [done |]. by apply bool_decide_eq_true in Hv. }
  destruct (String.eqb_spec (form "action") "allow") as [Hact|]; simpl; [|split; [intros; by eapply Hgood | eauto]].
  destruct (GenerateToken _) as [[p q]|]; [|split; [done | eauto]]. unfold PutCode. simpl.
  destruct (os_codes s !! q) eqn:Hq; [split; [done | eauto] |]. split; [intros; by eapply Hgood |].
  intros h code. simpl. destruct (decide (h = q)) as [->|]; [|rewrite lookup_insert_ne by done; eauto].
  rewrite lookup_insert_eq. intros [= <-]. right. exists form, c, tid. simpl. eauto 8.
Qed.

(** Denying keeps the store and tells the client. *)
Lemma deny_redirects e a s form c tid : ValidateSessionCookie (oe_now e) (as_verifier a) (form "session") = Some tid →
  os_clients s !! form "client_id" = Some c → form "redirect_uri" ∈ cl_RedirectURIs c → form "action" ≠ "allow" →
  HandleConfirm e a s {| hr_Method := "POST"; hr_Form := Some form |} =
    (s, redirectWithError (form "redirect_uri") "access_denied" "user denied the request" (form "state")).
Proof.
  intros Hs Hc Hin Ha. unfold HandleConfirm. simpl. rewrite Hs. unfold GetClient. rewrite Hc, bool_decide_true by done. simpl.
  by destruct (String.eqb_spec (form "action") "allow").
Qed.

(** ** The registration limit *)

(** The requests of a list of times and addresses that were let through, in order. *)
Fixpoint admitted (windows : gmap string (list Z)) (reqs : list (Z * string)) : list (Z * string) :=
  match reqs with
  | [] => []
  | (now, ip) :: reqs =>
      match Allow now windows ip with
      | (windows, true) => (now, ip) :: admitted windows reqs
      | (windows, false) => admitted windows reqs
      end
  end.

Definition in_window (T : Z) (ip : string) (l : list (Z * string)) : list (Z * string) :=
  filter (λ r, r.2 = ip ∧ T - dcr_window < r.1 ≤ T) l.

Lemma filter_impl {A} (P Q : A → Prop) `{!∀ x, Decision (P x), !∀ x, Decision (Q x)} l : (∀ x, x ∈ l → P x → Q x) →
  (length (filter P l) ≤ length (filter Q l))%nat.
Proof.
  induction l as [|x l IH]; intros Himp; [done |]. rewrite !filter_cons. specialize (IH (λ y Hy, Himp y ltac:(by right))).
  case_decide as HP; case_decide as HQ; simpl; try lia. destruct HQ. apply Himp; [by left | done].
Qed.

(** What the limiter remembers of the past [acc], as seen from [last] on. *)
Definition remembers (windows : gmap string (list Z)) (acc : list (Z * string)) (last : Z) : Prop :=
  (∀ r, r ∈ acc → r.1 ≤ last) ∧
  ∀ ip now, last ≤ now → filter (λ t, now - dcr_window < t) (get_slice windows ip) =
    (filter (λ r, r.2 = ip ∧ now - dcr_window < r.1) acc).*1.

Lemma dcr_bound reqs : ∀ windows acc last, remembers windows acc last → (∀ T ip, length (in_window T ip acc) ≤ dcr_limit)%nat →
  StronglySorted Z.le (last :: reqs.*1) → ∀ T ip, (length (in_window T ip (acc ++ admitted windows reqs)) ≤ dcr_limit)%nat.
Proof.
  induction reqs as [|[now ip0] reqs IH]; intros windows acc last [Hpast Hrem] Hb Hsort T ip; simpl; [by rewrite app_nil_r |].
  apply StronglySorted_inv in Hsort as [Hsort' Hle]. simpl in Hle. apply Forall_cons in Hle as [Hle _].
  assert (Hw : filter (λ t, now - dcr_window < t) (get_slice windows ip0) =
    (filter (λ r, r.2 = ip0 ∧ now - dcr_window < r.1) acc).*1) by by apply Hrem.
  assert (Hslice : ∀ l ip, get_slice (<[ip0 := l]> windows) ip = if decide (ip = ip0) then l else get_slice windows ip).
  { intros l i. unfold get_slice. case_decide as Hd; [by rewrite Hd, lookup_insert_eq | by rewrite lookup_insert_ne]. }
  assert (Hff : ∀ now' (l : list Z), now ≤ now' → filter (λ t, now' - dcr_window < t) (filter (λ t, now - dcr_window < t) l) = filter (λ t, now' - dcr_window < t) l).
  { intros now' l Hn. rewrite list_filter_filter_l; [done |]. intros t Ht. lia. }
  unfold Allow. case_bool_decide as Hfull.
  - apply (IH _ _ now); [|done | done]. split; [intros r Hr; specialize (Hpast r Hr); lia |].
    intros i now' Hn. rewrite Hslice. case_decide as Hd; [subst i; rewrite Hff by done; apply Hrem; lia | apply Hrem; lia].
  - rewrite cons_middle, app_assoc. apply (IH _ _ now); [| |done].
    + split; [intros r [Hr| ->%list_elem_of_singleton]%elem_of_app; [specialize (Hpast r Hr); lia | done] |].
      intros i now' Hn. rewrite Hslice, filter_app, fmap_app. case_decide as Hd.
      * subst i. rewrite filter_app, Hff by done. rewrite (Hrem ip0 now') by lia. f_equal. rewrite !filter_cons, !filter_nil.
        simpl. destruct (decide (now' - dcr_window < now)); [rewrite decide_True by done | rewrite decide_False by tauto]; done.
      * rewrite filter_cons, filter_nil, decide_False, app_nil_r by (simpl; intros [? _]; congruence). apply Hrem. lia.
    + intros T' i. unfold in_window. rewrite filter_app, length_app. fold (in_window T' i acc). rewrite filter_cons, filter_nil.
      case_decide as Hin; simpl; [|specialize (Hb T' i); lia]. destruct Hin as [<- [Hlo Hhi]]. simpl in *.
      assert (length (in_window T' ip0 acc) ≤ length (filter (λ t, (now - dcr_window < t)%Z) (get_slice windows ip0)))%nat; [|unfold dcr_limit in *; lia].
      rewrite Hw, length_fmap. unfold in_window. apply filter_impl. intros r Hr [? [? ?]]. split; [done | lia].
Qed.

(** Of the registration requests of one address at most ten are let through in any hour,
    whatever the sequence of requests (at times that do not go back). *)
Theorem dcr_limited reqs T ip : StronglySorted Z.le (reqs.*1) → (length (in_window T ip (admitted ∅ reqs)) ≤ 10)%nat.
Proof.
  intros Hs. destruct reqs as [|[now ip0] reqs]; [simpl; lia |]. change 10%nat with dcr_limit.
  apply (dcr_bound ((now, ip0) :: reqs) ∅ [] now).
  - split; [by intros ? ?%not_elem_of_nil |]. intros i now' _. unfold get_slice. by rewrite lookup_empty.
  - intros. simpl. lia.
  - apply StronglySorted_inv in Hs as Hs'. destruct Hs' as [_ Hall]. constructor; [done |]. constructor; [simpl; lia | done].
Qed.

(** ** The whole flow *)

(** [url.Values.Get]: the first value of a name, or the empty string. *)
Definition form_of (l : list (string * string)) (k : string) : string :=
  match list_find (λ kv, kv.1 = k) l with Some (_, (_, v)) => v | None => "" end.

(** What the consent page posts when the user allows. *)
Definition consent_form (d : consentData) : string → string :=
  form_of [("session", cd_SessionToken d); ("client_id", cd_ClientID d); ("redirect_uri", cd_RedirectURI d);
           ("code_challenge", cd_CodeChallenge d); ("code_challenge_method", cd_CodeChallengeMethod d); ("scope", cd_Scope d);
           ("state", cd_State d); ("action", "allow")].

Definition post (form : string → string) : HttpRequest := {| hr_Method := "POST"; hr_Form := Some form |}.

Section flow.
Context (a : AuthorizeServer) (aud : string) (s : OAuthStore) (q : string → string) (c : Client) (tenant : TenantBrief).
Context (Hpriv : String.length (ji_priv (as_issuer a)) = 64%nat).
Context (Hver : as_verifier a = NewJWTVerifier (ji_priv (as_issuer a)) (ji_issuer (as_issuer a)) aud).
Context (Hq : q "response_type" = "code" ∧ q "code_challenge_method" = "S256" ∧ q "client_id" ≠ "" ∧ q "redirect_uri" ≠ "" ∧ q "code_challenge" ≠ "").
Context (Hc : os_clients s !! q "client_id" = Some c ∧ cl_ClientID c = q "client_id" ∧ q "redirect_uri" ∈ cl_RedirectURIs c ∧
              validateRedirectURI (q "redirect_uri") = true).

(** The checks of /oauth/authorize pass for requests with the same parameters. *)
Lemma authorize_checked now cookie q' : (∀ k, k ∈ ["response_type"; "client_id"; "redirect_uri"; "code_challenge"; "code_challenge_method"; "scope"; "state"] → q' k = q k) →
  HandleAuthorize now a s cookie q' =
    match sessionFromCookie now a cookie with
    | None => LoginRedirect (encodeIDPState now (q "client_id") (q "redirect_uri") (q "code_challenge") "S256" (q "scope") (q "state"))
    | Some tid => showConsent now a tid c (q "redirect_uri") (q "code_challenge") "S256" (q "scope") (q "state")
    end.
Proof.
  intros Heq. destruct Hq as (H1 & H2 & H3 & H4 & H5), Hc as (C1 & C2 & C3 & C4). unfold HandleAuthorize.
  rewrite (Heq "response_type"), (Heq "client_id"), (Heq "redirect_uri"), (Heq "code_challenge"), (Heq "code_challenge_method"), (Heq "scope"), (Heq "state")
    by (rewrite !elem_of_cons; tauto).
  rewrite H1, H2, !bool_decide_false by done. simpl. unfold GetClient. rewrite C1, C4, bool_decide_true by done. done.
Qed.

Lemma session_issued now tid : ∃ t, IssueSessionCookie now (as_issuer a) tid = Some t.
Proof. unfold IssueSessionCookie. match goal with |- context [jwt_Sign ?p ?k ?x] => destruct (jwt_signs p k x Hpriv) as [t Ht] end. eauto. Qed.

Lemma within now now' k : now ≤ now' → now' ≤ now + (k - 1) * Second → seconds now' < seconds now + k.
Proof.
  intros H1 H2. pose proof (seconds_gt now). pose proof (seconds_le now'). unfold Second, Millisecond in *. lia.
Qed.

(** The consent page of a session, and what the form does. *)
Lemma consent_grants e3 e4 tid d b : oe_now e3 ≤ oe_now e4 → oe_now e4 ≤ oe_now e3 + 599 * Second →
  showConsent (oe_now e3) a tid c (q "redirect_uri") (q "code_challenge") "S256" (q "scope") (q "state") = Consent d →
  oe_random e4 = Some b → os_codes s !! HashToken (hex_EncodeToString b) = None →
  let code := {| co_CodeHash := HashToken (hex_EncodeToString b); co_ClientID := q "client_id"; co_TenantID := tid; co_RedirectURI := q "redirect_uri";
                 co_CodeChallenge := q "code_challenge"; co_CodeChallengeMethod := "S256"; co_Scope := q "scope";
                 co_ExpiresAt := seconds (oe_now e4 + code_lifetime); co_Used := false |} in
  HandleConfirm e4 a s (post (consent_form d)) =
    (with_codes s (<[co_CodeHash code := code]> (os_codes s)),
     RedirectURI (q "redirect_uri") ([("code", hex_EncodeToString b)] ++ optional_param "state" (q "state"))).
Proof.
  destruct Hc as (C1 & C2 & C3 & C4). intros Hle Hlt Hd Hb Hfr. unfold showConsent in Hd.
  destruct (IssueSessionCookie _ _ _) as [tok|] eqn:Htok; [|done]. injection Hd as <-. unfold HandleConfirm, post, consent_form.
  cbn [hr_Method hr_Form]. cbn [form_of cd_SessionToken cd_ClientID cd_RedirectURI cd_CodeChallenge cd_CodeChallengeMethod cd_Scope cd_State]. unfold form_of. simpl.
  rewrite Hver, (session_cookie_valid _ _ _ _ _ _ Htok Hle (within _ _ 600 Hle Hlt)).
  unfold GetClient. rewrite C2, C1, bool_decide_true by done. simpl. unfold GenerateToken. rewrite Hb. unfold PutCode. simpl. by rewrite Hfr.
Qed.

(** C6. The flow completes: a request without a session is sent to the identity provider with a
    state that brings it back; signing in sets a cookie with which the same request shows the
    consent page; allowing it redirects to the client's URI with a code and the client's
    state; and the code, with the verifier of the challenge, buys an access token that the
    relay accepts as the tenant of the signed-in address, with the requested scope. *)
Theorem authorization_flow_completes t1 t2 t3 e4 e5 exchange gcode verifier ten b4 b5 :
  GetTenantByEmail (as_tenants a) (default "" (exchange gcode)) = Some tenant → is_Some (exchange gcode) → gcode ≠ "" → tb_ID tenant ≠ "" →
  (let p := {| is_ClientID := q "client_id"; is_RedirectURI := q "redirect_uri"; is_CodeChallenge := q "code_challenge";
               is_CodeChallengeMethod := "S256"; is_Scope := q "scope"; is_State := q "state"; is_IssuedAt := seconds t1 |} in
   Decode_state (Encode_state p) = Some p ∧ Encode_state p ≠ "") →
  cl_TokenEndpointAuthMethod c ≠ "client_secret_post" →
  verifier ≠ "" → RawURLEncoding (sha256 verifier) = q "code_challenge" →
  t1 ≤ t2 ≤ t1 + 599 * Second → t2 ≤ t3 ≤ t2 + 599 * Second → t3 ≤ oe_now e4 ≤ t3 + 599 * Second → oe_now e4 ≤ oe_now e5 ≤ oe_now e4 + 59 * Second →
  oe_random e4 = Some b4 → b4 ≠ "" → os_codes s !! HashToken (hex_EncodeToString b4) = None →
  oe_random e5 = Some b5 → os_refresh s !! HashToken (hex_EncodeToString b5) = None →
  ∃ state cookie query d w w' uri rq t,
    HandleAuthorize t1 a s None q = LoginRedirect state ∧
    (HandleGoogleCallback t2 a exchange (form_of [("code", gcode); ("state", state)])).2 = AuthorizeRedirect cookie query ∧
    HandleAuthorize t3 a s (Some cookie) (form_of query) = Consent d ∧
    HandleConfirm e4 a s (post (consent_form d)) = (w, RedirectURI uri rq) ∧
    uri = q "redirect_uri" ∧ form_of rq "state" = q "state" ∧
    TokenHandler (as_issuer a) aud ten e5 w
      (post (form_of [("grant_type", "authorization_code"); ("client_id", q "client_id"); ("redirect_uri", uri);
                      ("code", form_of rq "code"); ("code_verifier", verifier)])) = (w', TokenJSON t) ∧
    tk_scope t = q "scope" ∧
    (∀ now', oe_now e5 ≤ now' → seconds now' < seconds (oe_now e5) + 3600 → ValidateClaims now' (as_verifier a) (tk_access_token t) = Some (tb_ID tenant)).
Proof.
  intros Hten [email Hex] Hg Htid (Hst & Hstne) Hpub Hv Hpk T12 T23 T34 T45 Hb4 Hb4ne Hf4 Hb5 Hf5. simpl in Hst, Hstne. rewrite Hex in Hten. simpl in Hten.
  destruct Hq as (Q1 & Q2 & Q3 & Q4 & Q5).
  set (p := {| is_ClientID := _ |}) in *.
  destruct (session_issued t2 (tb_ID tenant)) as [cookie Hcookie]. destruct (session_issued t3 (tb_ID tenant)) as [consent Hconsent].
  exists (Encode_state p), cookie. eexists.
  assert (Hcons : ∃ d, showConsent t3 a (tb_ID tenant) c (q "redirect_uri") (q "code_challenge") "S256" (q "scope") (q "state") = Consent d).
  { unfold showConsent. rewrite Hconsent. eauto. }
  destruct Hcons as [d Hd]. exists d.
  pose proof (consent_grants {| oe_now := t3; oe_random := None; oe_jti := "" |} e4 (tb_ID tenant) d b4 (proj1 T34) (proj2 T34) Hd Hb4 Hf4) as Hconf.
  cbn zeta in Hconf. set (code := {| co_CodeHash := _ |}) in *. set (w := with_codes s _) in *.
  set (rq := [("code", hex_EncodeToString b4)] ++ optional_param "state" (q "state")) in *.
  assert (Hrc : form_of rq "code" = hex_EncodeToString b4) by done.
  set (form := form_of [("grant_type", "authorization_code"); ("client_id", q "client_id"); ("redirect_uri", q "redirect_uri");
                 ("code", form_of rq "code"); ("code_verifier", verifier)]).
  assert (Hok : exchange_ok (oe_now e5) w form code).
  { destruct Hc as (C1 & _). split; try done.
    - exists c. split; [exact C1 | done].
    - change (form "code") with (form_of rq "code"). rewrite Hrc. apply lookup_insert_eq.
    - simpl. unfold code_lifetime. rewrite (seconds_add (oe_now e4) 60). pose proof (seconds_gt (oe_now e4)). unfold Second, Millisecond in *. lia.
    - split_and!; try done. change (form "code") with (form_of rq "code"). rewrite Hrc. by destruct b4. }
  destruct (writeTokenJSON_total e5 (as_issuer a) aud (co_TenantID code) (form "client_id") (co_Scope code) (hex_EncodeToString b5) ten Hpriv) as [t Ht].
  pose proof (writeTokenJSON_token e5 (as_issuer a) aud (co_TenantID code) (form "client_id") (co_Scope code) (hex_EncodeToString b5) ten) as Hw.
  rewrite Ht in Hw. destruct Hw as ((jti & em & name & Hi) & _ & Hscope & _).
  exists w. eexists. exists (q "redirect_uri"), rq, t. split_and!.
  - rewrite authorize_checked by done. simpl. done.
  - unfold HandleGoogleCallback. change (form_of [("code", gcode); ("state", Encode_state p)] "code") with gcode.
    change (form_of [("code", gcode); ("state", Encode_state p)] "state") with (Encode_state p).
    rewrite !bool_decide_false by done. simpl. rewrite Hex, Hten, Hcookie. unfold decodeIDPState. rewrite Hst, bool_decide_false; [reflexivity |].
    simpl. pose proof (seconds_gt t1). unfold Minute, Second, Millisecond in *. lia.
  - rewrite authorize_checked.
    + unfold sessionFromCookie. rewrite Hver, (session_cookie_valid t2 t3 _ _ _ _ Hcookie); [exact Hd | lia | apply (within t2 t3 600); lia].
    + intros k Hk. unfold optional_param. simpl. rewrite !elem_of_cons in Hk.
      destruct Hk as [->|[->|[->|[->|[->|[->|[->|[]%not_elem_of_nil]]]]]]]; unfold form_of; simpl; try done.
      * repeat case_decide; simpl; congruence.
      * repeat case_decide; simpl; congruence.
  - exact Hconf.
  - done.
  - unfold rq, optional_param, form_of. case_decide; simpl; congruence.
  - etrans; [exact (handleAuthCode_ok e5 (as_issuer a) aud ten w form code b5 Hok Hb5 Hf5) | rewrite Ht; reflexivity].
  - exact Hscope.
  - intros now' H1 H2. rewrite Hver, (access_token_valid _ _ _ _ _ _ _ _ _ _ _ Hi H1 H2). by rewrite decide_False.
Qed.
End flow.
End facts.

(** ** A concrete server *)

Module OauthExample.
Definition claims_fields (c : JwtClaims) := (jc_iss c, jc_sub c, jc_aud c, jc_iat c, jc_exp c, jc_jti c, jc_private c).
Definition state_fields (p : idpStatePayload) :=
  (is_ClientID p, is_RedirectURI p, is_CodeChallenge p, is_CodeChallengeMethod p, is_Scope p, is_State p, is_IssuedAt p).

Definition claims_of (t : string) : option JwtClaims :=
  '(iss, sub, aud, iat, exp, jti, priv) ← of_text t;
  Some {| jc_iss := iss; jc_sub := sub; jc_aud := aud; jc_iat := iat; jc_exp := exp; jc_jti := jti; jc_private := priv |}.
Definition state_of (t : string) : option idpStatePayload :=
  match t with
  | String _ t => '(c, r, cc, cm, sc, st, iat) ← of_text t;
      Some {| is_ClientID := c; is_RedirectURI := r; is_CodeChallenge := cc; is_CodeChallengeMethod := cm; is_Scope := sc; is_State := st; is_IssuedAt := iat |}
  | EmptyString => None
  end.

Lemma claims_roundtrip c : claims_of (text_of (claims_fields c)) = Some c.
Proof. unfold claims_of. rewrite of_text_of. by destruct c. Qed.

Lemma state_text p : state_of ("s" +:+ text_of (state_fields p)) = Some p.
Proof. unfold state_of. cbn [String.append]. rewrite of_text_of. by destruct p. Qed.

#[local] Instance lib : OAuthLib := {|
  sha256 s := s;
  ed25519_Public priv := priv;
  jwt_Sign priv kid c := Some (text_of (claims_fields c));
  jwt_Parse pub t := claims_of t;
  url_Parse s := if HasPrefix s "https://" then Some {| u_Scheme := "https"; u_Hostname := ""; u_Fragment := "" |} else None;
  Encode_state p := "s" +:+ text_of (state_fields p);
  Decode_state := state_of |}.

Lemma laws : @OAuthLaws lib.
Proof.
  split.
  - intros priv kid c t [= <-]. apply claims_roundtrip.
  - intros. by eexists.
Qed.

Lemma state_roundtrip p : Decode_state (Encode_state p) = Some p ∧ Encode_state p ≠ "".
Proof. split; [apply state_text | done]. Qed.

Definition key : string := "0123456789012345678901234567890123456789012345678901234567890123".
Definition issuer : JWTIssuer := {| ji_priv := key; ji_kid := "k"; ji_issuer := "https://relay" |}.
Definition tenant : TenantBrief := {| tb_ID := "t1"; tb_Name := "Tenant"; tb_Email := "a@example.org" |}.
Definition server : AuthorizeServer := {|
  as_tenants := {| GetTenantByEmail m := if decide (m = "a@example.org") then Some tenant else None;
                   GetTenantByID i := if decide (i = "t1") then Some tenant else None |};
  as_issuer := issuer; as_verifier := NewJWTVerifier key "https://relay" "https://relay/mcp"; as_baseURL := "https://relay" |}.
Definition client : Client := {|
  cl_ClientID := "cli_1"; cl_ClientSecretHash := ""; cl_ClientName := "App"; cl_RedirectURIs := ["https://app/cb"];
  cl_GrantTypes := ["authorization_code"]; cl_Scope := ""; cl_TokenEndpointAuthMethod := "none"; cl_ClientIDIssuedAt := 0; cl_CreatedIP := "" |}.
Definition store : OAuthStore := {| os_clients := {["cli_1" := client]}; os_codes := ∅; os_refresh := ∅ |}.
Definition challenge : string := RawURLEncoding (sha256 "verifier").
Definition query : string → string :=
  form_of [("response_type", "code"); ("client_id", "cli_1"); ("redirect_uri", "https://app/cb"); ("code_challenge", challenge);
           ("code_challenge_method", "S256"); ("scope", "mcp:tools:read"); ("state", "xyz")].
Definition env (t : Z) (b : string) : OAuthEnv := {| oe_now := t; oe_random := Some b; oe_jti := "j" |}.
Definition code (used : bool) : Code := {|
  co_CodeHash := HashToken "c0de"; co_ClientID := "cli_1"; co_TenantID := "t1"; co_RedirectURI := "https://app/cb"; co_CodeChallenge := challenge;
  co_CodeChallengeMethod := "S256"; co_Scope := "mcp:tools:read"; co_ExpiresAt := 60; co_Used := used |}.
Definition with_code : OAuthStore := with_codes store {[HashToken "c0de" := code false]}.
Definition exchange_form : string → string :=
  form_of [("grant_type", "authorization_code"); ("client_id", "cli_1"); ("redirect_uri", "https://app/cb"); ("code", "c0de"); ("code_verifier", "verifier")].

Lemma exchange_example : exchange_ok 5 with_code exchange_form (code false).
Proof.
  split; try (by vm_compute). exists client. split; [by vm_compute | done].
Qed.

(** A store with one live refresh token. *)
Definition refresh : RefreshToken := {|
  rt_TokenHash := HashToken "rt"; rt_ClientID := "cli_1"; rt_TenantID := "t1"; rt_Scope := "mcp:tools:read"; rt_ExpiresAt := 100; rt_Revoked := false |}.
Definition with_token : OAuthStore := with_refresh store {[HashToken "rt" := refresh]}.
Definition refresh_form : string → string := form_of [("grant_type", "refresh_token"); ("refresh_token", "rt"); ("client_id", "anyone")].
Definition client' : Client := {|
  cl_ClientID := "cli_6964"; cl_ClientSecretHash := ""; cl_ClientName := "App"; cl_RedirectURIs := ["https://app/cb"];
  cl_GrantTypes := ["authorization_code"]; cl_Scope := ""; cl_TokenEndpointAuthMethod := "none"; cl_ClientIDIssuedAt := 0; cl_CreatedIP := "1.2.3.4" |}.
Definition registered : OAuthStore :=
  (DCRHandler (env 5 "sec") "id" {| os_clients := ∅; os_codes := ∅; os_refresh := ∅ |} ∅ "POST" "1.2.3.4"
     (Some {| dq_ClientName := "App"; dq_RedirectURIs := ["https://app/cb"]; dq_GrantTypes := []; dq_Scope := ""; dq_TokenEndpointAuthMethod := "" |})).1.1.
End OauthExample.

#[local] Existing Instance OauthExample.lib.

#[local] Existing Instance OauthExample.laws.


Lemma refresh_loses_tenant_witness :
  ∃ s' t, @handleRefresh OauthExample.lib (OauthExample.env 5 "new") OauthExample.issuer "aud" None OauthExample.with_token OauthExample.refresh_form = (s', TokenJSON t) ∧ tk_scope t = "".
Proof.
  pose proof (@handleRefresh_ok OauthExample.lib (OauthExample.env 5 "new") OauthExample.issuer "aud" None OauthExample.with_token OauthExample.refresh_form "new"
    OauthExample.refresh) as H. cbn zeta in H.
  destruct (@writeTokenJSON_total OauthExample.lib OauthExample.laws (OauthExample.env 5 "new") OauthExample.issuer "aud" "" "anyone" "" (hex_EncodeToString "new") None eq_refl) as [t Ht].
  specialize (H ltac:(done) ltac:(done) eq_refl ltac:(by vm_compute) eq_refl ltac:(by vm_compute) ltac:(by vm_compute)).
  change (OauthExample.refresh_form "client_id") with "anyone" in H. rewrite Ht in H.
  eexists _, t. split; [exact H |]. by apply (@refresh_loses_tenant OauthExample.lib OauthExample.laws) in H as [? _].
Defined.

Lemma access_token_grants_consent_witness :
  ∃ t r, @IssueAccessToken OauthExample.lib 5 OauthExample.issuer "t1" "cli_1" "" "https://relay/mcp" "j" "" "" = Some t ∧
    (@HandleConfirm OauthExample.lib (OauthExample.env 6 "new") OauthExample.server OauthExample.store
      (post (form_of [("session", t); ("action", "allow"); ("client_id", "cli_1"); ("redirect_uri", "https://app/cb"); ("scope", "mcp:tools:destructive")]))).2 =
      RedirectURI "https://app/cb" r.
Proof.
  eexists _, _. split; [reflexivity |].
  match goal with |- (HandleConfirm ?e ?a ?s (post (form_of (("session", ?t) :: _)))).2 = _ =>
    pose proof (@access_token_grants_consent OauthExample.lib OauthExample.laws (OauthExample.env 5 "x") e a s OauthExample.client "t1" "cli_1" ""
      "https://relay/mcp" "j" "" "" t (form_of [("session", t); ("action", "allow"); ("client_id", "cli_1"); ("redirect_uri", "https://app/cb"); ("scope", "mcp:tools:destructive")]) "new" eq_refl eq_refl) as H end.
  specialize (H ltac:(by vm_compute) ltac:(by vm_compute) eq_refl eq_refl eq_refl ltac:(apply (bool_decide_unpack _); by vm_compute) eq_refl ltac:(by vm_compute)).
  unfold post. destruct (HandleConfirm _ _ _ _) as [w r]. destruct H as [-> _]. reflexivity.
Defined.

Lemma dcr_limited_witness : (length (in_window 100 "1.2.3.4" (admitted ∅ (replicate 15 (7%Z, "1.2.3.4")))) ≤ 10)%nat ∧
  length (admitted ∅ (replicate 15 (7%Z, "1.2.3.4"))) = 10%nat.
Proof.
  split; [|by vm_compute]. apply dcr_limited. simpl. repeat constructor; lia.
Defined.

Lemma authorization_flow_completes_witness :
  ∃ w' t, (∃ w form, @TokenHandler OauthExample.lib OauthExample.issuer "https://relay/mcp" None (OauthExample.env 50 "r") w (post form) = (w', TokenJSON t)) ∧
    @ValidateClaims OauthExample.lib 60 (as_verifier OauthExample.server) (tk_access_token t) = Some "t1".
Proof.
  destruct (@authorization_flow_completes OauthExample.lib OauthExample.laws OauthExample.server "https://relay/mcp" OauthExample.store OauthExample.query
    OauthExample.client OauthExample.tenant eq_refl eq_refl ltac:(split_and!; done)
    ltac:(split_and!; [by vm_compute | done | apply (bool_decide_unpack _); by vm_compute | done])
    10 20 30 (OauthExample.env 40 "c") (OauthExample.env 50 "r") (λ _, Some "a@example.org") "g" "verifier" None "c" "r")
    as (st & ck & qu & d & w & w' & uri & rq & t & _ & _ & _ & _ & -> & _ & Ht & _ & Hv); try done; try (by eexists);
    try apply OauthExample.state_roundtrip; try (split; by vm_compute).
  exists w', t. split; [by eexists _, _ |]. apply Hv; by vm_compute.
Defined.
