(* ===== verification/TimeText.v ===== *)
(** * Instants as text (RFC 3339 in UTC)

    The SQL stores keep an instant as the text of [t.UTC().Format(time.RFC3339)]: whole
    seconds, read back with [time.Parse] and compared as text.  The formatter is the one of
    [Runtime]; this file states what the stores rely on for the years 1970 to 9999. *)

From S2P Require Import Prelude.
#[local] Open Scope Z_scope.

Class TimeText `{Runtime} := { Parse_RFC3339 : string → option Z }.

(** The whole second an instant lies in. *)
Definition sec (t : Z) : Z := t - t mod Second.

Definition printable (t : Z) : Prop := 0 ≤ t < 253402300800 * Second.

Class TimeTextLaws `{TimeText} : Prop := {
  parse_format t : printable t → Parse_RFC3339 (Format_RFC3339 t) = Some (sec t);
  format_ltb t u : printable t → printable u → String.ltb (Format_RFC3339 t) (Format_RFC3339 u) = (sec t <? sec u);
  format_sec t : Format_RFC3339 (sec t) = Format_RFC3339 t;
  format_nonempty t : Format_RFC3339 t ≠ EmptyString;
}.

(** The zero [time.Time] that a failed [time.Parse] leaves: the first second of the year 1. *)
Definition zero_time : Z := -62135596800 * Second.

Definition parsed `{TimeText} (s : string) : Z := default zero_time (Parse_RFC3339 s).

Lemma sec_le t u : t ≤ u → sec t ≤ sec u.
Proof.
  intros Hle. unfold sec. assert (0 < Second) by done. pose proof (Z.div_le_mono t u Second). rewrite !Z.mod_eq by lia. nia.
Qed.

Lemma sec_bounds t : sec t ≤ t < sec t + Second.
Proof. unfold sec. assert (0 < Second) by done. pose proof (Z.mod_pos_bound t Second). lia. Qed.

Lemma sec_sec t : sec (sec t) = sec t.
Proof.
  unfold sec. assert (Second ≠ 0) by done. rewrite Zminus_mod, Z.mod_mod, Z.sub_diag by done. rewrite Z.mod_0_l by done. lia.
Qed.

Lemma parsed_format `{TimeTextLaws} t : printable t → parsed (Format_RFC3339 t) = sec t.
Proof. intros Ht. unfold parsed. by rewrite parse_format. Qed.

(** Later instants have texts that are not smaller. *)
Lemma format_mono `{TimeTextLaws} t u : printable t → printable u → t ≤ u → String.ltb (Format_RFC3339 u) (Format_RFC3339 t) = false.
Proof. intros Ht Hu Hle. rewrite format_ltb by done. apply Z.ltb_ge. by apply sec_le. Qed.

(** ** A formatter with these laws *)

Module UnaryTime.

Fixpoint text (n : nat) : string :=
  match n with O => "T" | S n => String (Ascii.ascii_of_nat 84) (text n) end.

#[export] Instance runtime : Runtime := {|
  uuid_String u := "u" +:+ text_of u;
  uuid_Parse s := match s with String _ s => of_text s | EmptyString => None end;
  ed25519_Verify pub data sig := String.eqb ("!" +:+ data) sig;
  ParseDID s := Some "wba"; Format_RFC3339 z := text (Z.to_nat (z / Second)) |}.

#[export] Instance time : TimeText := {| Parse_RFC3339 s := Some (Z.of_nat (pred (String.length s)) * Second) |}.

Lemma text_length n : String.length (text n) = S n.
Proof. induction n; simpl; auto. Qed.

Lemma text_ltb n m : String.ltb (text n) (text m) = (n <? m)%nat.
Proof.
  revert m. induction n as [|n IH]; intros [|m]; try done; [by destruct m | by destruct n |].
  change (String.ltb (text n) (text m) = (n <? m)%nat). apply IH.
Qed.

#[export] Instance laws : TimeTextLaws.
Proof.
  assert (0 < Second) as Hs by done. assert (Hsec : ∀ t, sec t = t / Second * Second) by (intros t; unfold sec; rewrite Z.mod_eq by lia; lia).
  split.
  - intros t [H0 _]. simpl. rewrite text_length, Hsec. simpl. rewrite Z2Nat.id; [done | by apply Z.div_pos].
  - intros t u [Ht _] [Hu _]. simpl. rewrite text_ltb, !Hsec. pose proof (Z.div_pos t Second Ht Hs). pose proof (Z.div_pos u Second Hu Hs).
    apply eq_bool_prop_intro. rewrite !Is_true_true, Nat.ltb_lt, Z.ltb_lt. nia.
  - intros t. simpl. by rewrite Hsec, Z.div_mul by lia.
  - intros t. simpl. by destruct (Z.to_nat _).
Qed.

End UnaryTime.
