(* ===== verification/AuditChain.v ===== *)
(** * The audit log (src/pkg/billing: store.go, postgres_store.go, audit_verifier.go)

    The table usage_events of the two SQL stores as the list of its rows in the order of
    insertion, with the hash chain per tenant, its verification, queries and purging.  The
    rows of one tenant with the same time come out in the order of insertion: the index on
    (tenant_id, ts), which ends in the rowid, gives SQLite that order.  SHA-256 is an
    argument; failures of the database other than violated constraints are left out. *)

From S2P Require Import Prelude TimeText Oauth Billing Metering.
#[local] Open Scope Z_scope.

Fixpoint Join (l : list string) (sep : string) : string :=
  match l with
  | [] => EmptyString
  | [s] => s
  | s :: l => s +:+ sep +:+ Join l sep
  end.

(** A row of SQLite's table; its column prev_hash holds the hash of the row itself. *)
Record UsageRow := {
  ur_id : string; ur_tenant_id : string; ur_event : string; ur_tool_name : string; ur_request_id : string; ur_ts : string;
  ur_prev_hash : string;
}.

(** A row of Postgres's, in the order of the column seq, which is assigned on insertion. *)
Record PgUsageRow := {
  pu_id : string; pu_tenant_id : string; pu_event : string; pu_tool_name : string; pu_request_id : string; pu_recorded_at : Z;
  pu_hash : string; pu_prev_hash : string;
}.

Record AuditChainResult := {
  ac_TenantID : string; ac_Verified : Z; ac_Tampered : bool; ac_FirstBadID : string; ac_FirstBadTime : Z;
}.

Record EventFilter := { ef_TenantID : string; ef_Event : string; ef_From : option Z; ef_To : option Z; ef_Limit : Z }.

(** [AuditEvent] of the admin interface. *)
Record LoggedEvent := {
  le_ID : string; le_TenantID : string; le_Event : string; le_ToolName : string; le_RequestID : string; le_Timestamp : Z;
}.

(** ORDER BY ts ASC. *)
Fixpoint insert_row (r : UsageRow) (l : list UsageRow) : list UsageRow :=
  match l with
  | [] => [r]
  | x :: l' => if String.ltb (ur_ts r) (ur_ts x) then r :: l else x :: insert_row r l'
  end.

Definition order_by_ts (l : list UsageRow) : list UsageRow := foldl (λ acc r, insert_row r acc) [] l.

(** WHERE tenant_id=? *)
Definition of_tenant (tenantID : string) (rows : list UsageRow) : list UsageRow := filter (λ r, ur_tenant_id r = tenantID) rows.

(** SELECT DISTINCT tenant_id ... ORDER BY tenant_id *)
Definition distinct_tenants (rows : list UsageRow) : list string :=
  merge_sort (λ a b, Is_true (String.leb a b)) (remove_dups (ur_tenant_id <$> rows)).

Section audit.
Context `{TimeText} (sha256 : string → string).

Definition canonical (id tenantID event toolName requestID ts : string) : string :=
  Join [id; tenantID; event; toolName; requestID; ts] "|".

Definition digest (text : string) : string := hex_EncodeToString (sha256 text).

Definition auditHash (prevHash id tenantID event toolName requestID ts : string) : string :=
  digest (prevHash +:+ canonical id tenantID event toolName requestID ts).

(** The loop over the rows of one tenant: the number verified and the first divergence.
    [text] is what is hashed of a row and [stored] the hash it holds. *)
Fixpoint walk {R} (text stored : R → string) (prevHash : string) (verified : Z) (rows : list R) : Z * option R :=
  match rows with
  | [] => (verified, None)
  | r :: rows' => if String.eqb (digest (prevHash +:+ text r)) (stored r) then walk text stored (stored r) (verified + 1) rows'
                  else (verified, Some r)
  end.

Definition chain_result {R} (id : R → string) (time : R → Z) (tenantID : string) (w : Z * option R) : AuditChainResult :=
  match w with
  | (n, None) => {| ac_TenantID := tenantID; ac_Verified := n; ac_Tampered := false; ac_FirstBadID := EmptyString; ac_FirstBadTime := zero_time |}
  | (n, Some r) => {| ac_TenantID := tenantID; ac_Verified := n; ac_Tampered := true; ac_FirstBadID := id r; ac_FirstBadTime := time r |}
  end.

(** ** SQLite *)

Definition row_text (r : UsageRow) : string :=
  canonical (ur_id r) (ur_tenant_id r) (ur_event r) (ur_tool_name r) (ur_request_id r) (ur_ts r).

(** ... ORDER BY ts DESC LIMIT 1 *)
Definition last_hash (tenantID : string) (rows : list UsageRow) : string :=
  default EmptyString (ur_prev_hash <$> last (order_by_ts (of_tenant tenantID rows))).

(** The result says whether the row was inserted: the identifier is the primary key. *)
Definition record_event (e : EventEnv) (rows : list UsageRow) (ev : AuditEvent) : list UsageRow * bool :=
  let ts := Format_RFC3339 (ee_now e) in
  let prevHash := last_hash (ae_tenantID ev) rows in
  let hash := auditHash prevHash (ee_id e) (ae_tenantID ev) (ae_event ev) (ae_toolName ev) (ae_requestID ev) ts in
  if decide (ee_id e ∈ ur_id <$> rows) then (rows, false)
  else (rows ++ [{| ur_id := ee_id e; ur_tenant_id := ae_tenantID ev; ur_event := ae_event ev; ur_tool_name := ae_toolName ev;
                    ur_request_id := ae_requestID ev; ur_ts := ts; ur_prev_hash := hash |}], true).

Definition verify_rows (tenantID : string) (rows : list UsageRow) : AuditChainResult :=
  chain_result ur_id (λ r, parsed (ur_ts r)) tenantID (walk row_text ur_prev_hash EmptyString 0 rows).

Definition VerifyAuditChain (tenantID : string) (rows : list UsageRow) : list AuditChainResult :=
  map (λ tid, verify_rows tid (order_by_ts (of_tenant tid rows)))
    (if decide (tenantID ≠ EmptyString) then [tenantID] else distinct_tenants rows).

Definition event_hit (f : EventFilter) (r : UsageRow) : bool :=
  bool_decide (ur_tenant_id r = ef_TenantID f) &&
  (bool_decide (ef_Event f = EmptyString) || bool_decide (ur_event r = ef_Event f)) &&
  (match ef_From f with Some t => negb (String.ltb (ur_ts r) (Format_RFC3339 t)) | None => true end) &&
  (match ef_To f with Some t => negb (String.ltb (Format_RFC3339 t) (ur_ts r)) | None => true end).

Definition logged (r : UsageRow) : LoggedEvent := {|
  le_ID := ur_id r; le_TenantID := ur_tenant_id r; le_Event := ur_event r; le_ToolName := ur_tool_name r;
  le_RequestID := ur_request_id r; le_Timestamp := parsed (ur_ts r) |}.

Definition QueryEvents (f : EventFilter) (rows : list UsageRow) : list LoggedEvent :=
  let limit := if ef_Limit f <=? 0 then 10000 else ef_Limit f in
  map logged (take (Z.to_nat limit) (order_by_ts (filter (λ r, event_hit f r = true) rows))).

Definition purged (before : Z) (r : UsageRow) : bool := String.ltb (ur_ts r) (Format_RFC3339 before).

Definition PurgeEvents (before : Z) (rows : list UsageRow) : list UsageRow * Z :=
  (filter (λ r, purged before r = false) rows, Z.of_nat (length (filter (λ r, purged before r = true) rows))).

(** ** Postgres *)

(** TIMESTAMPTZ keeps microseconds. *)
Definition timestamptz (t : Z) : Z := t - t mod 1000.

Definition pg_text (r : PgUsageRow) : string :=
  canonical (pu_id r) (pu_tenant_id r) (pu_event r) (pu_tool_name r) (pu_request_id r) (Format_RFC3339 (pu_recorded_at r)).

Definition pg_of_tenant (tenantID : string) (rows : list PgUsageRow) : list PgUsageRow := filter (λ r, pu_tenant_id r = tenantID) rows.

(** The transaction under the tenant's advisory lock; [known] are the tenants that the foreign
    key refers to. *)
Definition pg_record_event (known : gset string) (e : EventEnv) (rows : list PgUsageRow) (ev : AuditEvent) : list PgUsageRow * bool :=
  let prevHash := default EmptyString (pu_hash <$> last (pg_of_tenant (ae_tenantID ev) rows)) in
  let hash := auditHash prevHash (ee_id e) (ae_tenantID ev) (ae_event ev) (ae_toolName ev) (ae_requestID ev) (Format_RFC3339 (ee_now e)) in
  if decide (ae_tenantID ev ∈ known) then
    (rows ++ [{| pu_id := ee_id e; pu_tenant_id := ae_tenantID ev; pu_event := ae_event ev; pu_tool_name := ae_toolName ev;
                 pu_request_id := ae_requestID ev; pu_recorded_at := timestamptz (ee_now e); pu_hash := hash; pu_prev_hash := prevHash |}], true)
  else (rows, false).

Definition pg_VerifyAuditChain (tenantID : string) (rows : list PgUsageRow) : list AuditChainResult :=
  map (λ tid, chain_result pu_id pu_recorded_at tid (walk pg_text pu_hash EmptyString 0 (pg_of_tenant tid rows)))
    (if decide (tenantID ≠ EmptyString) then [tenantID]
     else merge_sort (λ a b, Is_true (String.leb a b)) (remove_dups (pu_tenant_id <$> rows))).

Definition pg_event_hit (f : EventFilter) (r : PgUsageRow) : bool :=
  bool_decide (pu_tenant_id r = ef_TenantID f) &&
  (bool_decide (ef_Event f = EmptyString) || bool_decide (pu_event r = ef_Event f)) &&
  (match ef_From f with Some t => timestamptz t <=? pu_recorded_at r | None => true end) &&
  (match ef_To f with Some t => pu_recorded_at r <=? timestamptz t | None => true end).

Definition pg_logged (r : PgUsageRow) : LoggedEvent := {|
  le_ID := pu_id r; le_TenantID := pu_tenant_id r; le_Event := pu_event r; le_ToolName := pu_tool_name r;
  le_RequestID := pu_request_id r; le_Timestamp := pu_recorded_at r |}.

(** [sort] is the ORDER BY recorded_at of the database. *)
Definition pg_QueryEvents (sort : list PgUsageRow → list PgUsageRow) (f : EventFilter) (rows : list PgUsageRow) : list LoggedEvent :=
  let limit := if ef_Limit f <=? 0 then 10000 else ef_Limit f in
  map pg_logged (take (Z.to_nat limit) (sort (filter (λ r, pg_event_hit f r = true) rows))).

Definition pg_PurgeEvents (before : Z) (rows : list PgUsageRow) : list PgUsageRow * Z :=
  (filter (λ r, timestamptz before <= pu_recorded_at r) rows,
   Z.of_nat (length (filter (λ r, pu_recorded_at r < timestamptz before) rows))).

(** ** The periodic verifier *)

(** The alarms of one round over the tenants of the store; [done] says for each of them
    whether the context has ended when its turn comes. *)
Fixpoint runVerification (done : string → bool) (verify : string → list AuditChainResult) (tenants : list string) : list (string * AuditChainResult) :=
  match tenants with
  | [] => []
  | t :: tenants =>
      if done t then []
      else map (pair t) (filter (λ r, ac_Tampered r = true) (verify t)) ++ runVerification done verify tenants
  end.

End audit.

(** ** Chains *)

Lemma hex_length s : String.length (hex_EncodeToString s) = (2 * String.length s)%nat.
Proof. induction s as [|c s IH]; simpl; [done|]. rewrite IH. simpl. lia. Qed.

Lemma hex_digit_not_underscore n : (n < 16)%N → hex_digit n ≠ Ascii.ascii_of_nat 95.
Proof.
  intros Hn He. apply (f_equal Ascii.N_of_ascii) in He. unfold hex_digit in He. change (Ascii.N_of_ascii (Ascii.ascii_of_nat 95)) with 95%N in He.
  destruct (n <? 10)%N eqn:Hlt; [apply N.ltb_lt in Hlt | apply N.ltb_ge in Hlt]; rewrite Ascii.N_ascii_embedding in He; lia.
Qed.

Lemma string_app_inj_len (p q s t : string) : String.length p = String.length q → p +:+ s = q +:+ t → p = q ∧ s = t.
Proof.
  revert q. induction p as [|c p IH]; intros [|d q]; simpl; intros Hl He; try done.
  injection He as -> He. destruct (IH q) as [-> ->]; [lia | done | done].
Qed.

(** The texts that are hashed along a chain. *)
Fixpoint inputs {R} (text stored : R → string) (prevHash : string) (rows : list R) : list string :=
  match rows with
  | [] => []
  | r :: rows' => (prevHash +:+ text r) :: inputs text stored (stored r) rows'
  end.

Section chains.
Context (sha256 : string → string) {R : Type} (text stored : R → string).
Implicit Types rows : list R.

(** Two different texts among those hashed have the same digest. *)
Definition collides (l1 l2 : list string) : Prop :=
  ∃ x y, x ∈ l1 ∧ y ∈ l2 ∧ x ≠ y ∧ digest sha256 x = digest sha256 y.

Fixpoint chained (prev : string) rows : Prop :=
  match rows with [] => True | r :: rows' => stored r = digest sha256 (prev +:+ text r) ∧ chained (stored r) rows' end.

Definition tip (prev : string) rows : string := default prev (stored <$> last rows).

Lemma walk_chained prev n rows : chained prev rows → walk sha256 text stored prev n rows = (n + Z.of_nat (length rows), None).
Proof.
  revert prev n. induction rows as [|r rows IH]; simpl; intros prev n; [intros _; f_equal; lia|].
  intros [Hr Hc]. rewrite (proj2 (String.eqb_eq _ _)) by done. rewrite IH by done. f_equal. lia.
Qed.

Lemma walk_verified prev n rows m : walk sha256 text stored prev n rows = (m, None) → chained prev rows.
Proof.
  revert prev n. induction rows as [|r rows IH]; simpl; intros prev n; [done|].
  destruct (String.eqb _ _) eqn:He; [|done]. apply String.eqb_eq in He. intros Hw. split; [done|]. eauto.
Qed.

Lemma tip_snoc prev rows r : tip prev (rows ++ [r]) = stored r.
Proof. unfold tip. by rewrite last_snoc. Qed.

Lemma tip_cons prev r rows : tip prev (r :: rows) = tip (stored r) rows.
Proof. unfold tip. destruct rows as [|r' rows]; [done|]. by rewrite last_cons_cons, !last_cons; destruct (last rows). Qed.

Lemma chained_app prev l1 l2 : chained prev (l1 ++ l2) ↔ chained prev l1 ∧ chained (tip prev l1) l2.
Proof.
  revert prev. induction l1 as [|r l1 IH]; intros prev; [by split; [|intros []]|]. simpl. rewrite IH, tip_cons. tauto.
Qed.

Lemma inputs_app prev l1 l2 : inputs text stored prev (l1 ++ l2) = inputs text stored prev l1 ++ inputs text stored (tip prev l1) l2.
Proof. revert prev. induction l1 as [|r l1 IH]; intros prev; [done|]. simpl. by rewrite IH, tip_cons. Qed.

Lemma chained_snoc prev rows r : chained prev (rows ++ [r]) ↔ chained prev rows ∧ stored r = digest sha256 (tip prev rows +:+ text r).
Proof. rewrite chained_app. simpl. tauto. Qed.

(** What SHA-256 is: 32 bytes. *)
Context (sha256_length : ∀ x, String.length (sha256 x) = 32%nat).

Lemma digest_length x : String.length (digest sha256 x) = 64%nat.
Proof. unfold digest. by rewrite hex_length, sha256_length. Qed.

(** An event's text starts with the prefix of its identifier. *)
Definition named (r : R) : Prop := ∃ t, text r = "e_" +:+ t.

Lemma digest_no_name x y t : digest sha256 x +:+ y ≠ "e_" +:+ t.
Proof.
  unfold digest. pose proof (sha256_length x) as Hl. destruct (sha256 x) as [|c s]; [done|]. simpl. intros [= _ Hd _].
  revert Hd. apply hex_digit_not_underscore. apply N.mod_lt. lia.
Qed.

Lemma tip_cases l : chained "" l → (l = [] ∧ tip "" l = "") ∨ (l ≠ [] ∧ ∃ x, tip "" l = digest sha256 x).
Proof.
  destruct l as [|r l _] using rev_ind; [by left|]. intros [_ Hs]%chained_snoc. right. split; [apply snoc_nonempty|].
  rewrite tip_snoc, Hs. eauto.
Qed.

(** Chains of named rows with the same last hash hash the same texts, or two texts collide. *)
Lemma chain_binds l1 l2 : chained "" l1 → chained "" l2 → tip "" l1 = tip "" l2 → Forall named l1 → Forall named l2 →
  text <$> l1 = text <$> l2 ∨ collides (inputs text stored "" l1) (inputs text stored "" l2).
Proof.
  revert l2. induction l1 as [|r1 l1 IH] using rev_ind; intros l2 H1 H2 Ht N1 N2.
  { destruct (tip_cases l2 H2) as [[-> _]|(_ & x & Hx)]; [by left|]. rewrite Hx in Ht. apply (f_equal String.length) in Ht.
    by rewrite digest_length in Ht. }
  destruct l2 as [|r2 l2 _] using rev_ind.
  { rewrite tip_snoc in Ht. apply chained_snoc in H1 as [_ Hs]. rewrite Hs in Ht. apply (f_equal String.length) in Ht. by rewrite digest_length in Ht. }
  rewrite !tip_snoc in Ht. apply chained_snoc in H1 as [H1 S1]. apply chained_snoc in H2 as [H2 S2].
  apply Forall_app in N1 as [N1 [M1 _]%Forall_cons]. apply Forall_app in N2 as [N2 [M2 _]%Forall_cons].
  rewrite !inputs_app, !fmap_app. simpl.
  destruct (decide (tip "" l1 +:+ text r1 = tip "" l2 +:+ text r2)) as [He|Hne].
  2: { right. exists (tip "" l1 +:+ text r1), (tip "" l2 +:+ text r2). split_and!; [apply elem_of_app; right; by left | apply elem_of_app; right; by left | done | congruence]. }
  assert (tip "" l1 = tip "" l2 ∧ text r1 = text r2) as [Htip Htx].
  { destruct (tip_cases l1 H1) as [[_ E1]|(_ & x1 & E1)], (tip_cases l2 H2) as [[_ E2]|(_ & x2 & E2)]; rewrite E1, E2 in *; simpl in *.
    - done.
    - destruct M1 as [t M1]. rewrite M1 in He. by destruct (digest_no_name x2 (text r2) t).
    - destruct M2 as [t M2]. rewrite M2 in He. by destruct (digest_no_name x1 (text r1) t).
    - apply string_app_inj_len; [by rewrite !digest_length | done]. }
  rewrite Htx. destruct (IH l2 H1 H2 Htip N1 N2) as [->|(x & y & Hx & Hy & Hc)]; [by left|]. right. exists x, y. split_and!; [by apply elem_of_app; left | by apply elem_of_app; left | apply Hc | apply Hc].
Qed.

End chains.

(** ** The log of SQLite *)

Section sqlite.
Context `{TimeTextLaws} (sha256 : string → string).
Implicit Types (rows : list UsageRow) (e : EventEnv) (ev : AuditEvent).

#[local] Abbreviation row_chain := (chained sha256 row_text ur_prev_hash).
#[local] Abbreviation row_tip := (tip ur_prev_hash).

(** Not after one another: the order of the texts of the times. *)
Definition in_order : list UsageRow → Prop := StronglySorted (λ a b, String.ltb (ur_ts b) (ur_ts a) = false).

Lemma insert_row_last r l : Forall (λ x, String.ltb (ur_ts r) (ur_ts x) = false) l → insert_row r l = l ++ [r].
Proof. induction 1 as [|x l Hx Hl IH]; [done|]. simpl. by rewrite Hx, IH. Qed.

Lemma order_by_ts_snoc l r : order_by_ts (l ++ [r]) = insert_row r (order_by_ts l).
Proof. unfold order_by_ts. by rewrite foldl_app. Qed.

Lemma in_order_snoc l r : in_order (l ++ [r]) ↔ in_order l ∧ Forall (λ x, String.ltb (ur_ts r) (ur_ts x) = false) l.
Proof.
  unfold in_order. split.
  - intros Hs. induction l as [|x l IH]; [by split; constructor|]. simpl in Hs. apply StronglySorted_inv in Hs as [Hs Hx].
    apply Forall_app in Hx as [Hx Hr]. destruct (IH Hs) as [? ?]. split; [by constructor|]. constructor; [|done]. by apply Forall_cons in Hr as [Hr _].
  - intros [Hs Hf]. induction l as [|x l IH]; [by repeat constructor|]. apply StronglySorted_inv in Hs as [Hs Hx]. apply Forall_cons in Hf as [? ?].
    simpl. constructor; [auto|]. apply Forall_app. split; [done|]. by apply Forall_singleton.
Qed.

Lemma order_by_ts_id l : in_order l → order_by_ts l = l.
Proof.
  induction l as [|r l IH] using rev_ind; [done|]. intros [Hl Hr]%in_order_snoc. rewrite order_by_ts_snoc, IH by done. by apply insert_row_last.
Qed.

Lemma in_order_filter (P : UsageRow → Prop) `{!∀ r, Decision (P r)} l : in_order l → in_order (filter P l).
Proof.
  unfold in_order. induction 1 as [|x l Hs IH Hx]; [constructor|]. rewrite filter_cons. case_decide; [|done]. constructor; [done|].
  apply Forall_forall. intros y [_ Hy]%list_elem_of_filter. rewrite Forall_forall in Hx. auto.
Qed.

(** The logs that recording makes while the clock does not go back. *)
Inductive recorded : Z → list UsageRow → Prop :=
| recorded_nil t : recorded t []
| recorded_event t rows e ev : recorded t rows → t ≤ ee_now e → printable (ee_now e) → recorded (ee_now e) (record_event sha256 e rows ev).1.

(** The row was written at a time up to [t]. *)
Definition written_by (t : Z) (r : UsageRow) : Prop := ∃ u, u ≤ t ∧ printable u ∧ ur_ts r = Format_RFC3339 u.

Record log_inv (t : Z) rows : Prop := {
  log_order : in_order rows;
  log_times : Forall (written_by t) rows;
  log_chains tid : row_chain "" (of_tenant tid rows);
  log_ids : NoDup (ur_id <$> rows);
}.

Lemma last_hash_tip tid rows : in_order rows → last_hash tid rows = row_tip "" (of_tenant tid rows).
Proof. intros Ho. unfold last_hash. by rewrite order_by_ts_id by (by apply in_order_filter). Qed.

Lemma log_inv_event t rows e ev : log_inv t rows → t ≤ ee_now e → printable (ee_now e) → log_inv (ee_now e) (record_event sha256 e rows ev).1.
Proof.
  intros [Ho Ht Hc Hid] Hle Hp.
  assert (Ht' : Forall (written_by (ee_now e)) rows).
  { eapply Forall_impl; [exact Ht|]. intros r (u & ? & ? & ?). exists u. split_and!; [lia | done | done]. }
  unfold record_event. case_decide as Hin; [by split|]. simpl. split.
  - apply in_order_snoc. split; [done|]. eapply Forall_impl; [exact Ht|]. intros r (u & ? & ? & ->). simpl. apply format_mono; [done..|lia].
  - apply Forall_app. split; [done|]. apply Forall_singleton. exists (ee_now e). split_and!; [lia | done | done].
  - intros tid. unfold of_tenant. rewrite filter_app, filter_cons, filter_nil. simpl. case_decide as Htid; [|rewrite app_nil_r; apply Hc].
    apply chained_snoc. split; [apply Hc|]. simpl. rewrite last_hash_tip by done. by rewrite Htid.
  - rewrite fmap_app. apply NoDup_app. split_and!; [done | | apply NoDup_singleton]. simpl. intros x Hx ->%list_elem_of_singleton. done.
Qed.

Lemma recorded_inv t rows : recorded t rows → log_inv t rows.
Proof. induction 1; [split; [constructor | constructor | done | constructor] | eapply log_inv_event; eauto]. Qed.

Lemma verify_tenant_ok t rows tid : log_inv t rows →
  verify_rows sha256 tid (order_by_ts (of_tenant tid rows)) =
    {| ac_TenantID := tid; ac_Verified := Z.of_nat (length (of_tenant tid rows)); ac_Tampered := false;
       ac_FirstBadID := ""; ac_FirstBadTime := zero_time |}.
Proof.
  intros [Ho _ Hc _]. rewrite order_by_ts_id by (by apply in_order_filter). unfold verify_rows. rewrite walk_chained by apply Hc. done.
Qed.

Lemma of_tenant_verifies tid rows : tid ≠ EmptyString →
  VerifyAuditChain sha256 tid rows = [verify_rows sha256 tid (order_by_ts (of_tenant tid rows))].
Proof. intros Hne. unfold VerifyAuditChain. by rewrite decide_True. Qed.

(** The first row does not continue the empty chain: the report names it, unless two texts collide. *)
Lemma verify_first tid r rows x : ur_prev_hash r = digest sha256 x →
  (verify_rows sha256 tid (r :: rows) =
    {| ac_TenantID := tid; ac_Verified := 0; ac_Tampered := true; ac_FirstBadID := ur_id r; ac_FirstBadTime := parsed (ur_ts r) |}) ∨
  digest sha256 (row_text r) = digest sha256 x.
Proof.
  intros Hr. unfold verify_rows. simpl. destruct (String.eqb _ _) eqn:He; [right | by left]. apply String.eqb_eq in He. congruence.
Qed.

(** Purging cuts off the beginning of every tenant's chain. *)
Lemma purge_cuts t rows before : log_inv t rows → printable before → ∀ tid,
  let left := of_tenant tid (PurgeEvents before rows).1 in
  ∃ gone, of_tenant tid rows = gone ++ left ∧ Forall (λ r, purged before r = true) gone.
Proof.
  intros [Ho Ht _ _] Hb tid left.
  assert (Hl : left = filter (λ r, purged before r = false) (of_tenant tid rows)).
  { unfold left, PurgeEvents, of_tenant. simpl. rewrite !list_filter_filter. apply list_filter_iff. tauto. }
  clearbody left. subst left. assert (Ho' : in_order (of_tenant tid rows)) by (by apply in_order_filter).
  assert (Ht' : Forall (written_by t) (of_tenant tid rows)).
  { rewrite Forall_forall in *. intros r [_ Hr]%list_elem_of_filter. auto. }
  induction Ho' as [|x l Hs IH Hx]; [by exists []|]. apply Forall_cons in Ht' as [(u & _ & Hu & Hxu) Ht']. destruct (IH Ht') as (gone & Hl & Hg).
  rewrite filter_cons. destruct (decide (purged before x = false)) as [Hp|Hp].
  - exists []. split; [simpl; f_equal | constructor]. symmetry. apply filter_all, Forall_forall. intros r Hr.
    rewrite !Forall_forall in *. specialize (Hx r Hr). destruct (Ht' r Hr) as (v & _ & Hv & Hrv). unfold purged in *.
    rewrite Hxu, Hrv, format_ltb in * by done. apply Z.ltb_ge in Hp, Hx. apply Z.ltb_ge. lia.
  - exists (x :: gone). split; [by rewrite Hl at 1|]. constructor; [by apply not_false_is_true | done].
Qed.


(** ** The log of Postgres *)

Implicit Types (pg : list PgUsageRow) (known : gset string).

(** The logs that recording makes, whatever the clock does. *)
Inductive pg_recorded : list PgUsageRow → Prop :=
| pg_recorded_nil : pg_recorded []
| pg_recorded_event pg known e ev : pg_recorded pg → pg_recorded (pg_record_event sha256 known e pg ev).1.

Lemma format_timestamptz t : Format_RFC3339 (timestamptz t) = Format_RFC3339 t.
Proof.
  rewrite <- (format_sec (timestamptz t)), <- (format_sec t). f_equal. unfold timestamptz, sec, Second, Millisecond.
  change (1000 * 1000000) with (1000 * (1000 * 1000)). rewrite !Z.mod_eq by done.
  set (q := t / 1000). assert ((t - (t - 1000 * q)) / (1000 * (1000 * 1000)) = t / (1000 * (1000 * 1000))) as ->; [|lia].
  replace (t - (t - 1000 * q)) with (q * 1000) by lia. rewrite <- !Z.div_div by done. rewrite Z.div_mul by done. done.
Qed.

Lemma pg_recorded_chain pg tid : pg_recorded pg → chained sha256 pg_text pu_hash "" (pg_of_tenant tid pg).
Proof.
  induction 1 as [|pg known e ev Hr IH]; [done|]. unfold pg_record_event. case_decide; [|done]. simpl. unfold pg_of_tenant.
  rewrite filter_app, filter_cons, filter_nil. simpl. case_decide as Htid; [|by rewrite app_nil_r].
  apply chained_snoc. split; [done|]. simpl. unfold pg_text. simpl. rewrite format_timestamptz. unfold auditHash, tip, pg_of_tenant. by rewrite Htid.
Qed.

(** ** What the chain shows, and what it does not *)

(** A log that only recording has written verifies: every tenant's events are counted
    and no tampering is reported, with SQLite while the clock does not go back and with
    Postgres whatever the clock does. *)
Theorem audit_chain_verifies t rows pg tid : tid ≠ EmptyString →
  (recorded t rows →
     VerifyAuditChain sha256 tid rows = [{| ac_TenantID := tid; ac_Verified := Z.of_nat (length (of_tenant tid rows));
       ac_Tampered := false; ac_FirstBadID := ""; ac_FirstBadTime := zero_time |}] ∧
     Forall (λ res, ac_Tampered res = false) (VerifyAuditChain sha256 "" rows)) ∧
  (pg_recorded pg →
     pg_VerifyAuditChain sha256 tid pg = [{| ac_TenantID := tid; ac_Verified := Z.of_nat (length (pg_of_tenant tid pg));
       ac_Tampered := false; ac_FirstBadID := ""; ac_FirstBadTime := zero_time |}]).
Proof.
  intros Hne. split.
  - intros Hr%recorded_inv. split; [rewrite of_tenant_verifies by done; by erewrite verify_tenant_ok |].
    unfold VerifyAuditChain. rewrite decide_False by (intros Hn; by apply Hn). apply Forall_map, Forall_true. intros x. simpl.
    by erewrite verify_tenant_ok.
  - intros Hr. unfold pg_VerifyAuditChain. rewrite decide_True by done. simpl. by rewrite walk_chained by (by apply pg_recorded_chain).
Qed.

Context (sha256_length : ∀ x, String.length (sha256 x) = 32%nat).

Definition collision (x y : string) : Prop := x ≠ y ∧ digest sha256 x = digest sha256 y.

Lemma collision_tip r l text : row_chain "" l → l ≠ [] → digest sha256 (row_text r) = digest sha256 text →
  text = row_tip "" l +:+ row_text r → collision (row_text r) text.
Proof.
  intros Hc Hne Hd ->. split; [|done]. intros He. apply (f_equal String.length) in He. rewrite string_app_length in He.
  destruct (tip_cases _ _ _ _ Hc) as [[? _]|(_ & x & Hx)]; [done|]. rewrite Hx, digest_length in He by done. lia.
Qed.

(** Two false alarms of the chain of SQLite.  An event recorded at a time before all
    others of its tenant, as after the clock was set back, is reported as tampered with; and
    purging some but not all events of a tenant makes the next verification report the first
    event that is left.  The exceptions would be collisions of SHA-256. *)
Theorem audit_false_alarms t rows tid : recorded t rows → tid ≠ EmptyString →
  (∀ e ev, ae_tenantID ev = tid → of_tenant tid rows ≠ [] → ee_id e ∉ ur_id <$> rows →
     Forall (λ r, String.ltb (Format_RFC3339 (ee_now e)) (ur_ts r) = true) (of_tenant tid rows) →
     let text := canonical (ee_id e) tid (ae_event ev) (ae_toolName ev) (ae_requestID ev) (Format_RFC3339 (ee_now e)) in
     VerifyAuditChain sha256 tid (record_event sha256 e rows ev).1 =
       [{| ac_TenantID := tid; ac_Verified := 0; ac_Tampered := true; ac_FirstBadID := ee_id e;
           ac_FirstBadTime := parsed (Format_RFC3339 (ee_now e)) |}] ∨
     collision text (last_hash tid rows +:+ text)) ∧
  (∀ before r left, printable before → of_tenant tid (PurgeEvents before rows).1 = r :: left →
     length (r :: left) ≠ length (of_tenant tid rows) →
     VerifyAuditChain sha256 tid (PurgeEvents before rows).1 =
       [{| ac_TenantID := tid; ac_Verified := 0; ac_Tampered := true; ac_FirstBadID := ur_id r; ac_FirstBadTime := parsed (ur_ts r) |}] ∨
     ∃ gone, of_tenant tid rows = gone ++ r :: left ∧ collision (row_text r) (row_tip "" gone +:+ row_text r)).
Proof.
  intros Hr%recorded_inv Hne. pose proof (log_order _ _ Hr) as Ho. pose proof (log_chains _ _ Hr tid) as Hc. split.
  - intros e ev <- Hnil Hid Hback text. rewrite of_tenant_verifies by done. unfold record_event. rewrite decide_False by done. simpl.
    unfold of_tenant at 1. rewrite filter_app, filter_cons_True by done. rewrite filter_nil. fold (of_tenant (ae_tenantID ev) rows).
    rewrite order_by_ts_snoc, order_by_ts_id by (by apply in_order_filter).
    destruct (of_tenant (ae_tenantID ev) rows) as [|x l] eqn:Hl; [done|]. apply Forall_cons in Hback as [Hx _]. simpl. rewrite Hx.
    set (new := {| ur_id := ee_id e |}).
    destruct (verify_first (ae_tenantID ev) new (x :: l) (last_hash (ae_tenantID ev) rows +:+ row_text new)) as [->|Hd]; [done | by left |].
    right. apply (collision_tip new (x :: l)); [done | done | done |]. rewrite last_hash_tip by done. by rewrite Hl.
  - intros before r left Hb Hleft Hlen. destruct (purge_cuts t rows before Hr Hb tid) as (gone & Hall & _).
    rewrite of_tenant_verifies, Hleft by done. rewrite Hleft in Hall.
    assert (Hog : in_order (r :: left)).
    { rewrite <- Hleft. unfold PurgeEvents. simpl. by do 2 apply in_order_filter. }
    rewrite order_by_ts_id by done. rewrite Hall in Hc. apply chained_app in Hc as [Hg [Hs _]].
    destruct (verify_first tid r left _ Hs) as [->|Hd]; [by left|]. right. exists gone. split; [done|].
    apply (collision_tip r gone); [done | intros ->; by rewrite Hall in Hlen | done | done].
Qed.



(** The hashes have no key: whoever can write the table can give any events hashes that verify. *)
Fixpoint rehash (prev : string) rows : list UsageRow :=
  match rows with
  | [] => []
  | r :: rows =>
      let h := digest sha256 (prev +:+ row_text r) in
      {| ur_id := ur_id r; ur_tenant_id := ur_tenant_id r; ur_event := ur_event r; ur_tool_name := ur_tool_name r;
         ur_request_id := ur_request_id r; ur_ts := ur_ts r; ur_prev_hash := h |} :: rehash h rows
  end.

Lemma rehash_chained prev rows : chained sha256 row_text ur_prev_hash prev (rehash prev rows).
Proof. revert prev. induction rows as [|r rows IH]; intros prev; [done|]. by split; [|apply IH]. Qed.

Lemma rehash_texts prev rows : row_text <$> rehash prev rows = row_text <$> rows.
Proof. revert prev. induction rows as [|r rows IH]; intros prev; [done|]. simpl. by rewrite IH. Qed.

Lemma rehash_verifies tid rows : ac_Tampered (verify_rows sha256 tid (rehash "" rows)) = false.
Proof. unfold verify_rows. by rewrite walk_chained by apply rehash_chained. Qed.

(** A separator may be moved from one field to the next: the hashed text stays the same. *)
Lemma separators_move id tenant event a b c ts :
  canonical id tenant event (a +:+ "|" +:+ b) c ts = canonical id tenant event a (b +:+ "|" +:+ c) ts.
Proof. unfold canonical. simpl. by rewrite <- !string_app_assoc. Qed.

End sqlite.

(** QueryEvents answers with the first matching events of the tenant in the order of their times. *)
Lemma QueryEvents_spec `{TimeTextLaws} f (rows : list UsageRow) : in_order rows → ef_Limit f ≤ 0 →
  QueryEvents f rows = map logged (take (Z.to_nat 10000) (filter (λ r, event_hit f r = true) rows)).
Proof.
  intros Ho Hl. unfold QueryEvents. rewrite (proj2 (Z.leb_le _ _)) by done. by rewrite order_by_ts_id by (by apply in_order_filter).
Qed.

(** A round of the verifier raises an alarm exactly for the tenants whose chain does not verify. *)
Lemma runVerification_alarms verify tenants tid res : 
  (tid, res) ∈ runVerification (λ _, false) verify tenants ↔ tid ∈ tenants ∧ res ∈ verify tid ∧ ac_Tampered res = true.
Proof.
  induction tenants as [|t tenants IH]; simpl; [split; [by intros ?%not_elem_of_nil | by intros [?%not_elem_of_nil _]]|].
  rewrite elem_of_app, IH, elem_of_cons, list_elem_of_fmap. setoid_rewrite list_elem_of_filter. split.
  - intros [(r & [= -> ->] & ?)|?]; tauto.
  - intros [[->|?] [? ?]]; [left; exists res; tauto | right; tauto].
Qed.

(** ** Examples *)

Module AuditExample.

Import UnaryTime.

(** A checksum in 32 bytes. *)
Fixpoint sum (s : string) : N :=
  match s with EmptyString => 17 | String c s => (sum s * 131 + Ascii.N_of_ascii c + 7) mod 4294967291 end%N.
Fixpoint bytes (n : nat) (x : N) : string :=
  match n with O => EmptyString | S n => String (Ascii.ascii_of_N (x mod 256)) (bytes n (x / 256)) end.
Definition sha (s : string) : string := bytes 32 (sum s).

Lemma sha_length x : String.length (sha x) = 32%nat.
Proof. reflexivity. Qed.

Definition env (t : Z) (id : string) : EventEnv := {| ee_now := t * Second; ee_id := id |}.
Definition event (tool : string) : AuditEvent := {| ae_tenantID := "t_1"; ae_event := "tool_call"; ae_toolName := tool; ae_requestID := "" |}.
Definition log : list UsageRow :=
  (record_event sha (env 7 "e_2") (record_event sha (env 5 "e_1") [] (event "send")).1 (event "list")).1.

Lemma log_recorded : recorded sha (7 * Second) log.
Proof.
  apply (recorded_event sha (5 * Second) _ (env 7 "e_2")); [|done | done].
  apply (recorded_event sha 0 _ (env 5 "e_1")); [apply recorded_nil | done | done].
Qed.

End AuditExample.

Import UnaryTime AuditExample.

Lemma audit_chain_verifies_witness : map ac_Verified (VerifyAuditChain sha "t_1" log) = [2].
Proof. destruct (audit_chain_verifies sha (7 * Second) log [] "t_1") as [Hs _]; [done|]. by rewrite (proj1 (Hs log_recorded)). Defined.

Lemma audit_false_alarms_witness :
  map ac_FirstBadID (VerifyAuditChain sha "t_1" (PurgeEvents (6 * Second) log).1) = ["e_2"] ∧
  map ac_FirstBadID (VerifyAuditChain sha "t_1" (record_event sha (env 1 "e_3") log (event "read")).1) = ["e_3"].
Proof.
  destruct (audit_false_alarms sha sha_length (7 * Second) log "t_1" log_recorded) as [Hback Hpurge]; [done|]. split.
  - destruct log as [|r1 [|r2 [|]]] eqn:Hl; try (by vm_compute in Hl).
    destruct (Hpurge (6 * Second) r2 []) as [->|(gone & Hg & [_ Hc])].
    + done.
    + injection Hl as <- <-. by vm_compute.
    + injection Hl as <- <-. by vm_compute.
    + by injection Hl as <- <-.
    + injection Hl as <- <-. destruct gone as [|g [|g' gone]]; [by vm_compute in Hg | | by destruct gone; vm_compute in Hg].
      vm_compute in Hg. injection Hg as <-. by vm_compute in Hc.
  - destruct (Hback (env 1 "e_3") (event "read")) as [->|[_ Hc]]; [done | by vm_compute | | by vm_compute; repeat constructor | done | by vm_compute in Hc].
    apply (bool_decide_unpack (_ ∉ _)). by vm_compute.
Defined.

