(* ===== verification/BillingSql.v ===== *)
(** * The SQL stores of tenants and keys (src/pkg/billing: store.go, postgres_store.go)

    The tables as maps from primary keys to rows and each statement of the code as what it
    does to them.  SQLite and Postgres differ in the type of a time column, which is the class
    [TimeColumn], and in a few statements, which have a definition each.  Constraints are
    checked as declared: primary keys, the unique columns key_hash and stripe_customer_id,
    and the foreign keys to the tenants (SQLite opens its only connection with foreign keys
    on).  Other failures of the database are left out. *)

From S2P Require Import Prelude TimeText Oauth Http Billing Metering AuditChain.
From Stdlib Require Import QArith.
#[local] Open Scope Z_scope.

(** How a store keeps an instant, and how its rows compare. *)
Class TimeColumn (T : Type) := { col_of : Z → T; time_of : T → Z; col_ltb : T → T → bool }.

(** SQLite: the text of whole seconds.  Postgres: TIMESTAMPTZ. *)
#[export] Instance TextColumn `{TimeText} : TimeColumn string :=
  {| col_of := Format_RFC3339; time_of := parsed; col_ltb := String.ltb |}.
#[export] Instance TimestamptzColumn : TimeColumn Z := {| col_of := timestamptz; time_of t := t; col_ltb := Z.ltb |}.

(** encoding/json for the column of the quota. *)
Class QuotaCodec := { Marshal_quota : QuotaConfig → option string; Unmarshal_quota : string → option QuotaConfig }.

Section tables.
Context {T : Type}.

Record TenantRow := {
  tn_name : string; tn_email : string; tn_plan : string; tn_status : string; tn_quota : string; tn_created_at : T; tn_updated_at : T;
  tn_stripe_customer_id : option string; tn_stripe_subscription_id : option string; tn_current_period_end : option T;
  tn_billing_status : string; tn_did_seed : option string; tn_email_verified_at : option T;
}.

Record KeyRow := {
  kr_tenant_id : string; kr_name : string; kr_key_hash : string; kr_prefix : string; kr_created_at : T; kr_expires_at : option T;
  kr_revoked_at : option T;
}.

Record TokenRow := { er_tenant_id : string; er_email : string; er_expires_at : T }.

(** [db_identities] has the tenant and the address under provider and subject; [db_log] is the
    table usage_events. *)
Record Db {U : Type} := {
  db_tenants : gmap string TenantRow;
  db_keys : gmap string KeyRow;
  db_identities : gmap (string * string) (string * string);
  db_stripe_events : gset string;
  db_tokens : gmap string TokenRow;
  db_log : list U;
  db_aggregates : gmap counterKey Z;
}.
End tables.
Arguments TenantRow : clear implicits.
Arguments KeyRow : clear implicits.
Arguments TokenRow : clear implicits.
Arguments Db : clear implicits.

Inductive SqlError :=
| Failed (e : BillingError)
| ConstraintFailed
| MarshalFailed
| ScanFailed.

#[export] Instance SqlError_eq_dec : EqDecision SqlError.
Proof. solve_decision. Defined.

(** An empty text or byte slice is stored as NULL. *)
Definition sqlNullStr (s : string) : option string := if decide (s = EmptyString) then None else Some s.
Definition sqlNullBytes (b : option string) : option string := b ≫= sqlNullStr.

(** A key pair's seed has 32 bytes. *)
Definition seed_ok (b : option string) : option string :=
  b ≫= λ s, if decide (String.length s = 32%nat) then Some s else None.

Section sql.
Context {T U : Type} `{TimeColumn T} `{QuotaCodec}.
Implicit Types (db : Db T U) (t : Tenant) (now : Z).

Definition with_tenants db (m : gmap string (TenantRow T)) : Db T U := {|
  db_tenants := m; db_keys := db_keys db; db_identities := db_identities db; db_stripe_events := db_stripe_events db;
  db_tokens := db_tokens db; db_log := db_log db; db_aggregates := db_aggregates db |}.
Definition with_keys db (m : gmap string (KeyRow T)) : Db T U := {|
  db_tenants := db_tenants db; db_keys := m; db_identities := db_identities db; db_stripe_events := db_stripe_events db;
  db_tokens := db_tokens db; db_log := db_log db; db_aggregates := db_aggregates db |}.
Definition with_identities db (m : gmap (string * string) (string * string)) : Db T U := {|
  db_tenants := db_tenants db; db_keys := db_keys db; db_identities := m; db_stripe_events := db_stripe_events db;
  db_tokens := db_tokens db; db_log := db_log db; db_aggregates := db_aggregates db |}.
Definition with_tokens db (m : gmap string (TokenRow T)) : Db T U := {|
  db_tenants := db_tenants db; db_keys := db_keys db; db_identities := db_identities db; db_stripe_events := db_stripe_events db;
  db_tokens := m; db_log := db_log db; db_aggregates := db_aggregates db |}.
Definition with_usage db (l : list U) (a : gmap counterKey Z) : Db T U := {|
  db_tenants := db_tenants db; db_keys := db_keys db; db_identities := db_identities db; db_stripe_events := db_stripe_events db;
  db_tokens := db_tokens db; db_log := l; db_aggregates := a |}.

(** ** Tenants *)

(** What migrations create. *)
Definition NewDb : Db T U := {|
  db_tenants := ∅; db_keys := ∅; db_identities := ∅; db_stripe_events := ∅; db_tokens := ∅; db_log := []; db_aggregates := ∅ |}.

(** The row that [t] is written as; the columns that a statement does not set are given. *)
Definition tenant_row t (quota : string) (updated : T) (created : T) (seed : option string) (verified : option T) : TenantRow T := {|
  tn_name := t_Name t; tn_email := t_Email t; tn_plan := t_Plan t; tn_status := t_Status t; tn_quota := quota;
  tn_created_at := created; tn_updated_at := updated;
  tn_stripe_customer_id := sqlNullStr (t_StripeCustomerID t); tn_stripe_subscription_id := sqlNullStr (t_StripeSubscriptionID t);
  tn_current_period_end := col_of <$> t_CurrentPeriodEnd t; tn_billing_status := t_BillingStatus t;
  tn_did_seed := seed; tn_email_verified_at := verified |}.

(** The unique index on stripe_customer_id: another row has the customer of this one. *)
Definition customer_taken db (id : string) (customer : option string) : bool :=
  match customer with
  | None => false
  | Some c => existsb (λ kr, bool_decide (kr.1 ≠ id ∧ tn_stripe_customer_id kr.2 = Some c)) (map_to_list (db_tenants db))
  end.

Definition write_tenant db (id : string) (r : TenantRow T) : Db T U * option SqlError :=
  if customer_taken db id (tn_stripe_customer_id r) then (db, Some ConstraintFailed)
  else (with_tenants db (<[id := r]> (db_tenants db)), None).

(** INSERT ... ON CONFLICT(id) DO UPDATE: a row that is there keeps its creation time, seed and
    verification. *)
Definition PutTenant db t : Db T U * option SqlError :=
  match Marshal_quota (t_Quota t) with
  | None => (db, Some MarshalFailed)
  | Some quota =>
      write_tenant db (t_ID t)
        match db_tenants db !! t_ID t with
        | None => tenant_row t quota (col_of (t_UpdatedAt t)) (col_of (t_CreatedAt t)) (sqlNullBytes (t_DIDSeed t)) None
        | Some r => tenant_row t quota (col_of (t_UpdatedAt t)) (tn_created_at r) (tn_did_seed r) (tn_email_verified_at r)
        end
  end.

Definition UpdateTenant now db t : Db T U * option SqlError :=
  match Marshal_quota (t_Quota t) with
  | None => (db, Some MarshalFailed)
  | Some quota =>
      match db_tenants db !! t_ID t with
      | None => (db, Some (Failed ErrTenantNotFound))
      | Some r => write_tenant db (t_ID t) (tenant_row t quota (col_of now) (tn_created_at r) (tn_did_seed r) (tn_email_verified_at r))
      end
  end.

Definition scanTenant (id : string) (r : TenantRow T) : result SqlError Tenant :=
  match Unmarshal_quota (tn_quota r) with
  | None => Err ScanFailed
  | Some quota => Ok {|
      t_ID := id; t_Name := tn_name r; t_Email := tn_email r; t_Plan := tn_plan r; t_Status := tn_status r; t_Quota := quota;
      t_CreatedAt := time_of (tn_created_at r); t_UpdatedAt := time_of (tn_updated_at r);
      t_StripeCustomerID := default EmptyString (tn_stripe_customer_id r);
      t_StripeSubscriptionID := default EmptyString (tn_stripe_subscription_id r);
      t_CurrentPeriodEnd := time_of <$> tn_current_period_end r; t_BillingStatus := tn_billing_status r;
      t_DIDSeed := seed_ok (tn_did_seed r); t_EmailVerifiedAt := time_of <$> tn_email_verified_at r |}
  end.

Definition GetTenant db (id : string) : result SqlError Tenant :=
  match db_tenants db !! id with None => Err (Failed ErrTenantNotFound) | Some r => scanTenant id r end.

(** The rows in the order in which the database walks them. *)
Definition rows_of {R} (m : gmap string R) (order : list string) : list (string * R) := omap (λ id, pair id <$> m !! id) order.

Fixpoint scan_all (rows : list (string * TenantRow T)) : result SqlError (list Tenant) :=
  match rows with
  | [] => Ok []
  | (id, r) :: rows =>
      match scanTenant id r with
      | Err e => Err e
      | Ok t => match scan_all rows with Err e => Err e | Ok ts => Ok (t :: ts) end
      end
  end.

Definition ListTenants (order : list string) db : result SqlError (list Tenant) := scan_all (rows_of (db_tenants db) order).

(** ORDER BY created_at ASC LIMIT 1 *)
Definition earlier (a b : option (string * TenantRow T)) : option (string * TenantRow T) :=
  match a, b with
  | Some x, Some y => if col_ltb (tn_created_at y.2) (tn_created_at x.2) then Some y else Some x
  | Some x, None => Some x
  | None, b => b
  end.

Definition GetTenantByEmail (order : list string) db (email : string) : result SqlError Tenant :=
  let hits := filter (λ kr, tn_email kr.2 = ToLower email ∧ tn_status kr.2 ≠ TenantStatusDeleted) (rows_of (db_tenants db) order) in
  match foldl (λ best kr, earlier best (Some kr)) None hits with
  | None => Err (Failed ErrTenantNotFound)
  | Some (id, r) => scanTenant id r
  end.

Definition set_row (r : TenantRow T) (status : string) (updated : T) (verified : option T) : TenantRow T := {|
  tn_name := tn_name r; tn_email := tn_email r; tn_plan := tn_plan r; tn_status := status; tn_quota := tn_quota r;
  tn_created_at := tn_created_at r; tn_updated_at := updated; tn_stripe_customer_id := tn_stripe_customer_id r;
  tn_stripe_subscription_id := tn_stripe_subscription_id r; tn_current_period_end := tn_current_period_end r;
  tn_billing_status := tn_billing_status r; tn_did_seed := tn_did_seed r; tn_email_verified_at := verified |}.

Definition SuspendTenant now db (id : string) : Db T U * option SqlError :=
  match db_tenants db !! id with
  | None => (db, Some (Failed ErrTenantNotFound))
  | Some r => (with_tenants db (<[id := set_row r TenantStatusSuspended (col_of now) (tn_email_verified_at r)]> (db_tenants db)), None)
  end.

Definition MarkTenantEmailVerified now db (tenantID : string) (at_ : Z) : Db T U * option SqlError :=
  match db_tenants db !! tenantID with
  | None => (db, Some (Failed ErrTenantNotFound))
  | Some r => (with_tenants db (<[tenantID := set_row r (tn_status r) (col_of now) (Some (col_of at_))]> (db_tenants db)), None)
  end.

(** ** Keys *)

Definition key_row (k : APIKey) : KeyRow T := {|
  kr_tenant_id := k_TenantID k; kr_name := k_Name k; kr_key_hash := k_KeyHash k; kr_prefix := k_Prefix k;
  kr_created_at := col_of (k_CreatedAt k); kr_expires_at := col_of <$> k_ExpiresAt k; kr_revoked_at := col_of <$> k_RevokedAt k |}.

Definition set_revoked (r : KeyRow T) (revoked : option T) : KeyRow T := {|
  kr_tenant_id := kr_tenant_id r; kr_name := kr_name r; kr_key_hash := kr_key_hash r; kr_prefix := kr_prefix r;
  kr_created_at := kr_created_at r; kr_expires_at := kr_expires_at r; kr_revoked_at := revoked |}.

Definition hash_taken db (hash : string) : bool :=
  existsb (λ kr, bool_decide (kr_key_hash kr.2 = hash)) (map_to_list (db_keys db)).

(** A key that is there is only revoked; a new one needs its tenant and a new hash. *)
Definition PutAPIKey db (k : APIKey) : Db T U * option SqlError :=
  match db_keys db !! k_ID k with
  | Some r => (with_keys db (<[k_ID k := set_revoked r (col_of <$> k_RevokedAt k)]> (db_keys db)), None)
  | None =>
      if hash_taken db (k_KeyHash k) || bool_decide (db_tenants db !! k_TenantID k = None) then (db, Some ConstraintFailed)
      else (with_keys db (<[k_ID k := key_row k]> (db_keys db)), None)
  end.

Definition scanAPIKey (id : string) (r : KeyRow T) : APIKey := {|
  k_ID := id; k_TenantID := kr_tenant_id r; k_Name := kr_name r; k_KeyHash := kr_key_hash r; k_Prefix := kr_prefix r;
  k_CreatedAt := time_of (kr_created_at r); k_ExpiresAt := time_of <$> kr_expires_at r; k_RevokedAt := time_of <$> kr_revoked_at r |}.

Definition GetAPIKeyByHash db (hash : string) : result SqlError APIKey :=
  match list_find (λ kr, kr_key_hash kr.2 = hash) (map_to_list (db_keys db)) with
  | Some (_, (id, r)) => Ok (scanAPIKey id r)
  | None => Err (Failed ErrAPIKeyNotFound)
  end.

Definition ListAPIKeys (order : list string) db (tenantID : string) : list APIKey :=
  map (λ kr, scanAPIKey kr.1 kr.2) (filter (λ kr, kr_tenant_id kr.2 = tenantID) (rows_of (db_keys db) order)).

Definition active_row now (r : KeyRow T) : bool :=
  match kr_revoked_at r with
  | Some _ => false
  | None => match kr_expires_at r with None => true | Some e => col_ltb (col_of now) e end
  end.

Definition ListAPIKeysActive now (order : list string) db (tenantID : string) : list APIKey :=
  map (λ kr, scanAPIKey kr.1 kr.2) (filter (λ kr, kr_tenant_id kr.2 = tenantID ∧ active_row now kr.2 = true) (rows_of (db_keys db) order)).

Definition RevokeAPIKey now db (id : string) : Db T U * option SqlError :=
  match db_keys db !! id with
  | None => (db, Some (Failed ErrAPIKeyNotFound))
  | Some r => (with_keys db (<[id := set_revoked r (Some (col_of now))]> (db_keys db)), None)
  end.

(** ** Identities, webhook events and verification tokens *)

Definition PutOAuthIdentity db (provider sub tenantID email : string) : Db T U * option SqlError :=
  if decide (db_tenants db !! tenantID = None) then (db, Some ConstraintFailed)
  else (with_identities db (<[(provider, sub) := (tenantID, email)]> (db_identities db)), None).

Definition GetOAuthIdentityTenant db (provider sub : string) : result SqlError string :=
  match db_identities db !! (provider, sub) with None => Err (Failed ErrOAuthIdentityNotFound) | Some (tenantID, _) => Ok tenantID end.

Definition MarkStripeEventProcessed db (eventID : string) : Db T U * bool :=
  ({| db_tenants := db_tenants db; db_keys := db_keys db; db_identities := db_identities db;
      db_stripe_events := {[eventID]} ∪ db_stripe_events db; db_tokens := db_tokens db; db_log := db_log db;
      db_aggregates := db_aggregates db |},
   negb (bool_decide (eventID ∈ db_stripe_events db))).

(** INSERT OR REPLACE *)
Definition PutEmailVerificationToken db (tokenHash tenantID email : string) (expiresAt : Z) : Db T U * option SqlError :=
  if decide (db_tenants db !! tenantID = None) then (db, Some ConstraintFailed)
  else (with_tokens db (<[tokenHash := {| er_tenant_id := tenantID; er_email := email; er_expires_at := col_of expiresAt |}]> (db_tokens db)), None).

Definition ConsumeEmailVerificationToken now db (tokenHash : string) : Db T U * result SqlError (string * string) :=
  match db_tokens db !! tokenHash with
  | None => (db, Err (Failed ErrTokenNotFound))
  | Some r =>
      let db := with_tokens db (delete tokenHash (db_tokens db)) in
      if time_of (er_expires_at r) <? now then (db, Err (Failed ErrTokenNotFound)) else (db, Ok (er_tenant_id r, er_email r))
  end.

(** ** Totals *)

Definition LoadAggregates (order : list counterKey) db : list UsageSnapshot :=
  omap (λ k, (λ n, {| us_TenantID := k.1.1; us_Period := k.1.2; us_Event := k.2; us_Count := n |}) <$> db_aggregates db !! k) order.

Definition upsert_aggregate (a : gmap counterKey Z) (s : UsageSnapshot) : gmap counterKey Z :=
  <[(us_TenantID s, us_Period s, us_Event s) := us_Count s]> a.

Definition FlushAggregates db (snapshots : list UsageSnapshot) : Db T U := with_usage db (db_log db) (foldl upsert_aggregate (db_aggregates db) snapshots).

Record VerifyReport := { vr_SchemaVersion : Z; vr_TenantCount : Z; vr_KeyCount : Z; vr_AggregateCount : Z }.

Definition Verify (version : Z) db : VerifyReport := {|
  vr_SchemaVersion := version; vr_TenantCount := Z.of_nat (size (db_tenants db));
  vr_KeyCount := Z.of_nat (size (filter (λ kr, kr_revoked_at kr.2 = None) (db_keys db)));
  vr_AggregateCount := Z.of_nat (size (db_aggregates db)) |}.

End sql.

(** ** Where Postgres differs *)

Section postgres.
Context `{QuotaCodec}.
Abbreviation Pg := (Db Z PgUsageRow).
Implicit Types (db : Pg) (t : Tenant) (now : Z).

(** The seed of a row that is there is overwritten. *)
Definition pg_PutTenant db t : Pg * option SqlError :=
  match Marshal_quota (t_Quota t) with
  | None => (db, Some MarshalFailed)
  | Some quota =>
      write_tenant db (t_ID t)
        match db_tenants db !! t_ID t with
        | None => tenant_row t quota (col_of (t_UpdatedAt t)) (col_of (t_CreatedAt t)) (seed_ok (t_DIDSeed t)) None
        | Some r => tenant_row t quota (col_of (t_UpdatedAt t)) (tn_created_at r) (seed_ok (t_DIDSeed t)) (tn_email_verified_at r)
        end
  end.

(** The columns of the subscription are not among those set. *)
Definition pg_UpdateTenant now db t : Pg * option SqlError :=
  match Marshal_quota (t_Quota t) with
  | None => (db, Some MarshalFailed)
  | Some quota =>
      match db_tenants db !! t_ID t with
      | None => (db, Some (Failed ErrTenantNotFound))
      | Some r =>
          (with_tenants db (<[t_ID t := {|
             tn_name := t_Name t; tn_email := t_Email t; tn_plan := t_Plan t; tn_status := t_Status t; tn_quota := quota;
             tn_created_at := tn_created_at r; tn_updated_at := col_of now; tn_stripe_customer_id := tn_stripe_customer_id r;
             tn_stripe_subscription_id := tn_stripe_subscription_id r; tn_current_period_end := tn_current_period_end r;
             tn_billing_status := tn_billing_status r; tn_did_seed := tn_did_seed r; tn_email_verified_at := tn_email_verified_at r |}]>
             (db_tenants db)), None)
      end
  end.

Definition pg_GetTenant : Pg → string → result SqlError Tenant := GetTenant.
Definition pg_GetTenantByEmail : list string → Pg → string → result SqlError Tenant := GetTenantByEmail.
Definition pg_ListTenants : list string → Pg → result SqlError (list Tenant) := ListTenants.
Definition pg_SuspendTenant : Z → Pg → string → Pg * option SqlError := SuspendTenant.
Definition pg_MarkTenantEmailVerified : Z → Pg → string → Z → Pg * option SqlError := MarkTenantEmailVerified.
Definition pg_PutAPIKey : Pg → APIKey → Pg * option SqlError := PutAPIKey.
Definition pg_GetAPIKeyByHash : Pg → string → result SqlError APIKey := GetAPIKeyByHash.
Definition pg_ListAPIKeys : list string → Pg → string → list APIKey := ListAPIKeys.
Definition pg_ListAPIKeysActive : Z → list string → Pg → string → list APIKey := ListAPIKeysActive.
Definition pg_RevokeAPIKey : Z → Pg → string → Pg * option SqlError := RevokeAPIKey.
Definition pg_PutOAuthIdentity : Pg → string → string → string → string → Pg * option SqlError := PutOAuthIdentity.
Definition pg_GetOAuthIdentityTenant : Pg → string → string → result SqlError string := GetOAuthIdentityTenant.
Definition pg_MarkStripeEventProcessed : Pg → string → Pg * bool := MarkStripeEventProcessed.
Definition pg_LoadAggregates : list counterKey → Pg → list UsageSnapshot := LoadAggregates.
Definition pg_Verify : Z → Pg → VerifyReport := Verify.

(** A conflict only sets the time of expiry. *)
Definition pg_PutEmailVerificationToken db (tokenHash tenantID email : string) (expiresAt : Z) : Pg * option SqlError :=
  match db_tokens db !! tokenHash with
  | Some r => (with_tokens db (<[tokenHash := {| er_tenant_id := er_tenant_id r; er_email := er_email r; er_expires_at := col_of expiresAt |}]>
                                 (db_tokens db)), None)
  | None => PutEmailVerificationToken db tokenHash tenantID email expiresAt
  end.

(** DELETE ... RETURNING *)
Definition pg_ConsumeEmailVerificationToken now db (tokenHash : string) : Pg * result SqlError (string * string) :=
  match db_tokens db !! tokenHash with
  | None => (db, Err (Failed ErrTokenNotFound))
  | Some r =>
      (with_tokens db (delete tokenHash (db_tokens db)),
       if er_expires_at r <? now then Err (Failed ErrTokenNotFound) else Ok (er_tenant_id r, er_email r))
  end.

(** A tenant that is not there violates the foreign key and ends the loop. *)
Fixpoint pg_FlushAggregates db (snapshots : list UsageSnapshot) : Pg * bool :=
  match snapshots with
  | [] => (db, true)
  | s :: snapshots =>
      if decide (db_tenants db !! us_TenantID s = None) then (db, false)
      else pg_FlushAggregates (with_usage db (db_log db) (upsert_aggregate (db_aggregates db) s)) snapshots
  end.

End postgres.

(** ** The event stores of the meter *)

Definition sqlite_event_store `{TimeText} (sha256 : string → string) : EventStore (Db string UsageRow) := {|
  RecordEvent e db ev := let '(log, ok) := record_event sha256 e (db_log db) ev in (with_usage db log (db_aggregates db), ok);
  Metering.LoadAggregates db := Some (LoadAggregates (keys_of (db_aggregates db)) db);
  Metering.FlushAggregates _ db snaps := (FlushAggregates db snaps, true) |}.

Definition pg_event_store `{TimeText} (sha256 : string → string) : EventStore (Db Z PgUsageRow) := {|
  RecordEvent e db ev :=
    let '(log, ok) := pg_record_event sha256 (dom (db_tenants db)) e (db_log db) ev in (with_usage db log (db_aggregates db), ok);
  Metering.LoadAggregates db := Some (LoadAggregates (keys_of (db_aggregates db)) db);
  Metering.FlushAggregates _ db snaps := pg_FlushAggregates db snaps |}.

(** ** The SQL store and the one in memory *)

(** [round] is what a time column makes of an instant. *)
Class TimeColumnLaws (T : Type) `{TimeColumn T} (round : Z → Z) : Prop := {
  time_of_col t : printable t → time_of (col_of t) = round t;
  col_ltb_round t u : printable t → printable u → col_ltb (col_of t) (col_of u) = (round t <? round u);
  round_le t : round t ≤ t;
}.

#[export] Instance TextColumnLaws `{TimeTextLaws} : TimeColumnLaws string sec.
Proof. split; [apply parsed_format | apply format_ltb | intros t; apply sec_bounds]. Qed.

Class QuotaCodecLaws `{QuotaCodec} : Prop := {
  quota_roundtrip q s : Marshal_quota q = Some s → Unmarshal_quota s = Some q;
}.

Inductive BillingOp :=
| OpPutTenant (t : Tenant)
| OpUpdateTenant (t : Tenant)
| OpSuspend (id : string)
| OpVerified (id : string) (at_ : Z)
| OpPutKey (k : APIKey)
| OpRevoke (id : string)
| OpIdentity (provider sub tenantID email : string)
| OpEvent (eventID : string)
| OpPutToken (tokenHash tenantID email : string) (expiresAt : Z)
| OpConsume (tokenHash : string).

Inductive OpAnswer :=
| Done (e : option SqlError)
| Processed (isNew : bool)
| Consumed (r : result SqlError (string * string)).

(** The methods of the two stores; the loop of RevokeAPIKey visits the keys in some order. *)
Definition mem_op (now : Z) (op : BillingOp) (s : BillingStore) : BillingStore * OpAnswer :=
  match op with
  | OpPutTenant t => (Billing.PutTenant s t, Done None)
  | OpUpdateTenant t => let '(s, e) := Billing.UpdateTenant now s t in (s, Done (Failed <$> e))
  | OpSuspend id => let '(s, e) := Billing.SuspendTenant now s id in (s, Done (Failed <$> e))
  | OpVerified id at_ => let '(s, e) := Billing.MarkTenantEmailVerified now s id at_ in (s, Done (Failed <$> e))
  | OpPutKey k => (Billing.PutAPIKey s k, Done None)
  | OpRevoke id => let '(s, e) := Billing.RevokeAPIKey (keys_of (keys s)) now s id in (s, Done (Failed <$> e))
  | OpIdentity p u tid _ => (Billing.PutOAuthIdentity s p u tid, Done None)
  | OpEvent id => let '(s, b) := Billing.MarkStripeEventProcessed s id in (s, Processed b)
  | OpPutToken h tid email exp => (Billing.PutEmailVerificationToken s h tid email exp, Done None)
  | OpConsume h => let '(s, r) := Billing.ConsumeEmailVerificationToken now s h in
      (s, Consumed match r with Ok x => Ok x | Err e => Err (Failed e) end)
  end.

Section refinement.
Context {T U : Type} `{TimeColumn T} (round : Z → Z) `{!TimeColumnLaws T round} `{QuotaCodecLaws}.
Implicit Types (db : Db T U) (s : BillingStore) (t : Tenant).

Definition sql_op (now : Z) (op : BillingOp) db : Db T U * OpAnswer :=
  match op with
  | OpPutTenant t => let '(db, e) := PutTenant db t in (db, Done e)
  | OpUpdateTenant t => let '(db, e) := UpdateTenant now db t in (db, Done e)
  | OpSuspend id => let '(db, e) := SuspendTenant now db id in (db, Done e)
  | OpVerified id at_ => let '(db, e) := MarkTenantEmailVerified now db id at_ in (db, Done e)
  | OpPutKey k => let '(db, e) := PutAPIKey db k in (db, Done e)
  | OpRevoke id => let '(db, e) := RevokeAPIKey now db id in (db, Done e)
  | OpIdentity p u tid email => let '(db, e) := PutOAuthIdentity db p u tid email in (db, Done e)
  | OpEvent id => let '(db, b) := MarkStripeEventProcessed db id in (db, Processed b)
  | OpPutToken h tid email exp => let '(db, e) := PutEmailVerificationToken db h tid email exp in (db, Done e)
  | OpConsume h => let '(db, r) := ConsumeEmailVerificationToken now db h in (db, Consumed r)
  end.

(** What a tenant and a key are read back as. *)
Definition rounded t : Tenant := {|
  t_ID := t_ID t; t_Name := t_Name t; t_Email := t_Email t; t_Plan := t_Plan t; t_Status := t_Status t; t_Quota := t_Quota t;
  t_CreatedAt := round (t_CreatedAt t); t_UpdatedAt := round (t_UpdatedAt t); t_StripeCustomerID := t_StripeCustomerID t;
  t_StripeSubscriptionID := t_StripeSubscriptionID t; t_CurrentPeriodEnd := round <$> t_CurrentPeriodEnd t;
  t_BillingStatus := t_BillingStatus t; t_DIDSeed := t_DIDSeed t; t_EmailVerifiedAt := round <$> t_EmailVerifiedAt t |}.

Definition rounded_key (k : APIKey) : APIKey := {|
  k_ID := k_ID k; k_TenantID := k_TenantID k; k_Name := k_Name k; k_KeyHash := k_KeyHash k; k_Prefix := k_Prefix k;
  k_CreatedAt := round (k_CreatedAt k); k_ExpiresAt := round <$> k_ExpiresAt k; k_RevokedAt := round <$> k_RevokedAt k |}.

Definition printable_opt (o : option Z) : Prop := match o with Some t => printable t | None => True end.

(** A tenant that the columns can hold. *)
Record storable t : Prop := {
  st_quota : is_Some (Marshal_quota (t_Quota t));
  st_seed : seed_ok (t_DIDSeed t) = t_DIDSeed t;
  st_times : printable (t_CreatedAt t) ∧ printable (t_UpdatedAt t) ∧ printable_opt (t_CurrentPeriodEnd t) ∧ printable_opt (t_EmailVerifiedAt t);
}.

Definition storable_key (k : APIKey) : Prop :=
  printable (k_CreatedAt k) ∧ printable_opt (k_ExpiresAt k) ∧ printable_opt (k_RevokedAt k).

Definition tenant_rel (id : string) (r : TenantRow T) t : Prop :=
  t_ID t = id ∧ storable t ∧ ∃ quota, Marshal_quota (t_Quota t) = Some quota ∧
  r = tenant_row t quota (col_of (t_UpdatedAt t)) (col_of (t_CreatedAt t)) (t_DIDSeed t) (col_of <$> t_EmailVerifiedAt t).

Definition token_rel (r : TokenRow T) (tok : memEmailToken) : Prop :=
  printable (tok_expiresAt tok) ∧ r = {| er_tenant_id := tok_tenantID tok; er_email := tok_email tok; er_expires_at := col_of (tok_expiresAt tok) |}.

(** Identities among which the text provider:subject tells apart: the store in memory has it as key. *)
Context (apart : string → string → Prop)
  (apart_inj : ∀ p u p' u', apart p u → apart p' u' → oauth_key p u = oauth_key p' u' → p = p' ∧ u = u').

Record billing_rel db s : Prop := {
  rel_tenants id : option_Forall2 (tenant_rel id) (db_tenants db !! id) (tenants s !! id);
  rel_keys_db id r : db_keys db !! id = Some r → ∃ k, keys s !! k_KeyHash k = Some k ∧ k_ID k = id ∧ r = key_row k;
  rel_keys_mem h k : keys s !! h = Some k → k_KeyHash k = h ∧ storable_key k ∧ db_keys db !! k_ID k = Some (key_row k);
  rel_identities p u : apart p u → fst <$> db_identities db !! (p, u) = oauthIds s !! oauth_key p u;
  rel_events : db_stripe_events db = stripeEventsSeen s;
  rel_tokens h : option_Forall2 token_rel (db_tokens db !! h) (emailTokens s !! h);
}.

Lemma billing_rel_new : billing_rel NewDb NewBillingStore.
Proof. split; simpl; intros *; rewrite ?lookup_empty; try done; by constructor. Qed.

(** No other tenant has the customer of [t]. *)
Definition own_customer s t : Prop := ∀ id t', tenants s !! id = Some t' → id ≠ t_ID t →
  t_StripeCustomerID t = EmptyString ∨ t_StripeCustomerID t' ≠ t_StripeCustomerID t.

(** The fields that a later write leaves as they are in the row. *)
Definition keeps s t : Prop := ∀ old, tenants s !! t_ID t = Some old →
  t_CreatedAt t = t_CreatedAt old ∧ t_DIDSeed t = t_DIDSeed old ∧ t_EmailVerifiedAt t = t_EmailVerifiedAt old.

(** The uses on which the stores agree: what the columns can hold, rows that refer to tenants
    that are there, new keys and hashes, and tokens that are not just running out. *)
Definition agreed (now : Z) s (op : BillingOp) : Prop :=
  printable now ∧
  match op with
  | OpPutTenant t => storable t ∧ own_customer s t ∧ keeps s t ∧ (tenants s !! t_ID t = None → t_EmailVerifiedAt t = None)
  | OpUpdateTenant t => storable t ∧ own_customer s t ∧ keeps s t
  | OpVerified _ at_ => printable at_
  | OpPutKey k => storable_key k ∧ is_Some (tenants s !! k_TenantID k) ∧ keys s !! k_KeyHash k = None ∧ (∀ h k', keys s !! h = Some k' → k_ID k' ≠ k_ID k)
  | OpIdentity p u tid _ => apart p u ∧ is_Some (tenants s !! tid)
  | OpPutToken _ tid _ exp => printable exp ∧ is_Some (tenants s !! tid)
  | OpConsume h => ∀ tok, emailTokens s !! h = Some tok → tok_expiresAt tok < now ∨ now ≤ round (tok_expiresAt tok)
  | _ => True
  end.

Lemma seed_ok_null o : seed_ok o = o → sqlNullBytes o = o.
Proof. destruct o as [[|c b]|]; [done | | done]. intros _. simpl. unfold sqlNullStr. by case_decide. Qed.

Lemma customer_free db s t : billing_rel db s → own_customer s t → customer_taken db (t_ID t) (sqlNullStr (t_StripeCustomerID t)) = false.
Proof.
  intros R Ho. unfold customer_taken, sqlNullStr. case_decide as Hc; [done|]. apply not_true_iff_false. intros He.
  apply existsb_exists in He as ([id r] & Hin & [Hne Hr]%bool_decide_eq_true). simpl in *. apply list_elem_of_In, elem_of_map_to_list in Hin.
  pose proof (rel_tenants _ _ R id) as Hf. rewrite Hin in Hf. inversion Hf as [? t' Ht Hl|]. subst.
  destruct Ht as (_ & _ & quota & _ & ->). simpl in Hr. unfold sqlNullStr in Hr. case_decide; [done|]. injection Hr as Hr.
  destruct (Ho id t') as [?|?]; done.
Qed.

Lemma rel_lookup_tenant db s id : billing_rel db s →
  (db_tenants db !! id = None ∧ tenants s !! id = None) ∨
  ∃ r t, db_tenants db !! id = Some r ∧ tenants s !! id = Some t ∧ tenant_rel id r t.
Proof. intros R. pose proof (rel_tenants _ _ R id) as Hf. inversion Hf; [right | left]; eauto 8. Qed.

(** Writing a tenant to both stores. *)
Lemma rel_write_tenant db s id r t : billing_rel db s → tenant_rel id r t →
  billing_rel (with_tenants db (<[id := r]> (db_tenants db))) (Billing.with_tenants s (<[id := t]> (tenants s))).
Proof.
  intros [] Hr. split; simpl; try done. intros i. destruct (decide (i = id)) as [->|Hne].
  - rewrite !lookup_insert_eq. by constructor.
  - by rewrite !lookup_insert_ne.
Qed.

Lemma rel_write_key db s id r k : billing_rel db s → storable_key k → k_ID k = id → r = key_row k →
  (∀ h k', keys s !! h = Some k' → k_ID k' = id → h = k_KeyHash k) → (∀ k', keys s !! k_KeyHash k = Some k' → k_ID k' = id) →
  billing_rel (with_keys db (<[id := r]> (db_keys db))) (Billing.with_keys s (<[k_KeyHash k := k]> (keys s))).
Proof.
  intros [] Hk <- -> Hid Hhash. split; simpl; try done.
  - intros i r'. destruct (decide (i = k_ID k)) as [->|Hne].
    + rewrite lookup_insert_eq. intros [= <-]. exists k. by rewrite lookup_insert_eq.
    + rewrite lookup_insert_ne by done. intros Hr. destruct (rel_keys_db0 i r' Hr) as (k' & Hk' & <- & ->). exists k'.
      rewrite lookup_insert_ne; [done|]. intros He. rewrite <- He in Hk'. by apply Hne, Hhash.
  - intros h k'. destruct (decide (h = k_KeyHash k)) as [->|Hne].
    + rewrite lookup_insert_eq. intros [= <-]. by rewrite lookup_insert_eq.
    + rewrite lookup_insert_ne by done. intros Hk'. destruct (rel_keys_mem0 h k' Hk') as (? & ? & ?). split_and!; [done..|].
      rewrite lookup_insert_ne; [done|]. intros He. apply Hne. by apply (Hid h k').
Qed.


Lemma tenant_rel_row id r t updated status verified : tenant_rel id r t → printable updated → printable_opt verified →
  tenant_rel id (set_row r status (col_of updated) (col_of <$> verified)) (t_with t status updated verified).
Proof.
  intros (Hid & [Hq Hs (Hc & Hu & Hp & Hv)] & quota & Hm & ->) Hup Hver. split; [done|]. split; [by split|]. by exists quota.
Qed.

Lemma put_tenant_agrees db s t quota updated : billing_rel db s → storable t → own_customer s t → keeps s t →
  printable updated → Marshal_quota (t_Quota t) = Some quota →
  (tenants s !! t_ID t = None → t_EmailVerifiedAt t = None) →
  let r := match db_tenants db !! t_ID t with
           | None => tenant_row t quota (col_of updated) (col_of (t_CreatedAt t)) (sqlNullBytes (t_DIDSeed t)) None
           | Some r => tenant_row t quota (col_of updated) (tn_created_at r) (tn_did_seed r) (tn_email_verified_at r)
           end in
  let t' := t_with t (t_Status t) updated (t_EmailVerifiedAt t) in
  (write_tenant db (t_ID t) r).2 = None ∧
  billing_rel (write_tenant db (t_ID t) r).1 (Billing.with_tenants s (<[t_ID t := t']> (tenants s))).
Proof.
  intros R St Ho Hk Hup Hq Hnew r t'. unfold write_tenant.
  assert (Hc : tn_stripe_customer_id r = sqlNullStr (t_StripeCustomerID t)) by (unfold r; by destruct (db_tenants db !! t_ID t)).
  rewrite Hc, (customer_free db s t) by done. split; [done|]. apply rel_write_tenant; [done|].
  destruct St as [S1 S2 (P1 & P2 & P3 & P4)]. split; [done|]. split; [by split|]. exists quota. split; [done|]. unfold r, t'.
  destruct (rel_lookup_tenant db s (t_ID t) R) as [[-> Hs]|(r0 & old & -> & Hs & (_ & _ & q0 & _ & ->))].
  - rewrite Hnew by done. rewrite seed_ok_null by done. done.
  - destruct (Hk old Hs) as (Ec & Es & Ev). simpl. unfold tenant_row. simpl. by rewrite Ec, Es, Ev.
Qed.

Lemma key_found db s id : billing_rel db s →
  (db_keys db !! id = None ∧ ∀ h k, keys s !! h = Some k → k_ID k ≠ id) ∨
  ∃ k, db_keys db !! id = Some (key_row k) ∧ keys s !! k_KeyHash k = Some k ∧ k_ID k = id ∧ storable_key k.
Proof.
  intros R. destruct (db_keys db !! id) as [r|] eqn:Hr.
  - right. destruct (rel_keys_db _ _ R id r Hr) as (k & Hk & Hid & ->). exists k. split_and!; try done. by apply (rel_keys_mem _ _ R) in Hk as (_ & ? & _).
  - left. split; [done|]. intros h k Hk <-. apply (rel_keys_mem _ _ R) in Hk as (_ & _ & Hk). congruence.
Qed.

(** Keys have identifiers of their own. *)
Lemma key_unique db s h k h' k' : billing_rel db s → keys s !! h = Some k → keys s !! h' = Some k' → k_ID k = k_ID k' → h = h'.
Proof.
  intros R Hk Hk' Hid. apply (rel_keys_mem _ _ R) in Hk as (<- & _ & Hk). apply (rel_keys_mem _ _ R) in Hk' as (<- & _ & Hk').
  rewrite Hid, Hk' in Hk. injection Hk as _ _ Hh _. by symmetry.
Qed.

Lemma revoke_loop_found now s id k ks : keys s !! k_KeyHash k = Some k → k_ID k = id → k_KeyHash k ∈ ks →
  (∀ h k', keys s !! h = Some k' → k_ID k' = id → h = k_KeyHash k) →
  revoke_loop now s id ks = (Billing.with_keys s (<[k_KeyHash k := revoke now k]> (keys s)), None).
Proof.
  intros Hk Hid Hin Huniq. induction ks as [|h ks IH]; [by apply not_elem_of_nil in Hin|]. simpl.
  destruct (decide (h = k_KeyHash k)) as [->|Hne]; [by rewrite Hk, decide_True by done|].
  apply elem_of_cons in Hin as [He|Hin]; [by destruct Hne|]. destruct (keys s !! h) as [k'|] eqn:Hh; [|auto].
  rewrite decide_False; [auto|]. intros Hid'. by apply Hne, (Huniq h k').
Qed.

Lemma revoke_loop_missing now s id ks : (∀ h k, keys s !! h = Some k → k_ID k ≠ id) → revoke_loop now s id ks = (s, Some ErrAPIKeyNotFound).
Proof.
  intros Hno. induction ks as [|h ks IH]; [done|]. simpl. destruct (keys s !! h) as [k|] eqn:Hh; [|done]. by rewrite decide_False by (by eapply Hno).
Qed.


(** One operation on both stores. *)
Definition in_step (now : Z) (op : BillingOp) db s : Prop :=
  (sql_op now op db).2 = (mem_op now op s).2 ∧ billing_rel (sql_op now op db).1 (mem_op now op s).1.

Lemma step_PutTenant now db s t : billing_rel db s → agreed now s (OpPutTenant t) → in_step now (OpPutTenant t) db s.
Proof.
  intros R (_ & St & Ho & Hk & Hnew). unfold in_step. simpl. unfold PutTenant. destruct (st_quota _ St) as [quota Hq]. rewrite Hq.
  destruct (put_tenant_agrees db s t quota (t_UpdatedAt t) R St Ho Hk) as [He Hr]; [apply St | done | done |].
  destruct (write_tenant _ _ _) as [db' e]. simpl in *. subst e. split; [done|]. unfold Billing.PutTenant. by destruct t.
Qed.

Lemma step_UpdateTenant now db s t : billing_rel db s → agreed now s (OpUpdateTenant t) → in_step now (OpUpdateTenant t) db s.
Proof.
  intros R (Hnow & St & Ho & Hk). unfold in_step. simpl. unfold UpdateTenant, Billing.UpdateTenant. destruct (st_quota _ St) as [quota Hq]. rewrite Hq.
  destruct (rel_lookup_tenant db s (t_ID t) R) as [[Hd ->]|(r & old & Hd & Hs & _)]; [by rewrite Hd|].
  destruct (put_tenant_agrees db s t quota now R St Ho Hk) as [He Hr]; [done | done | by rewrite Hs |].
  rewrite Hd in *. rewrite Hs. destruct (write_tenant _ _ _) as [db' e]. simpl in *. by subst e.
Qed.

Lemma step_status now db s op : billing_rel db s → agreed now s op →
  match op with OpSuspend _ | OpVerified _ _ => in_step now op db s | _ => True end.
Proof.
  intros R [Hnow Ha]. destruct op as [| |id|id at_| | | | | |]; try done.
  - unfold in_step. simpl. unfold SuspendTenant, Billing.SuspendTenant.
    destruct (rel_lookup_tenant db s id R) as [[-> ->]|(r & t & -> & -> & Hr)]; [done|]. simpl. split; [done|]. apply rel_write_tenant; [done|].
    pose proof Hr as (_ & [_ _ (_ & _ & _ & Hv)] & quota & _ & He). rewrite He. simpl. rewrite <- He. by apply tenant_rel_row.
  - unfold in_step. simpl. unfold MarkTenantEmailVerified, Billing.MarkTenantEmailVerified.
    destruct (rel_lookup_tenant db s id R) as [[-> ->]|(r & t & -> & -> & Hr)]; [done|]. simpl. split; [done|]. apply rel_write_tenant; [done|].
    pose proof Hr as (_ & _ & quota & _ & He). replace (tn_status r) with (t_Status t) by (by rewrite He).
    by apply (tenant_rel_row id r t now (t_Status t) (Some at_)).
Qed.

Lemma step_keys now db s op : billing_rel db s → agreed now s op →
  match op with OpPutKey _ | OpRevoke _ => in_step now op db s | _ => True end.
Proof.
  intros R [Hnow Ha]. destruct op as [| | | |k|id| | | |]; try done.
  - destruct Ha as (Hk & [t Ht] & Hh & Hid). unfold in_step. simpl. unfold PutAPIKey, Billing.PutAPIKey.
    destruct (key_found db s (k_ID k) R) as [[-> _]|(k' & _ & Hk' & He & _)]; [|by destruct (Hid _ _ Hk')].
    assert (hash_taken db (k_KeyHash k) = false) as ->.
    { unfold hash_taken. apply not_true_iff_false. intros He. apply existsb_exists in He as ([i r] & Hin & Hr%bool_decide_eq_true).
      apply list_elem_of_In, elem_of_map_to_list in Hin. destruct (rel_keys_db _ _ R i r Hin) as (k' & Hk' & _ & ->). simpl in Hr. congruence. }
    rewrite bool_decide_false by (destruct (rel_lookup_tenant db s (k_TenantID k) R) as [[_ ?]|(r & ? & -> & _)]; congruence).
    simpl. split; [done|]. apply rel_write_key; try done; [|congruence]. intros h k' Hk' He. by destruct (Hid h k').
  - unfold in_step. simpl. unfold RevokeAPIKey, Billing.RevokeAPIKey.
    destruct (key_found db s id R) as [[-> Hno]|(k & -> & Hk & Hid & Hst)]; [by rewrite revoke_loop_missing|].
    rewrite (revoke_loop_found now s id k); [|done|done| |].
    + simpl. split; [done|]. apply (rel_write_key db s id _ (revoke now k)); simpl; try done.
      * destruct Hst as (? & ? & ?). by split_and!.
      * intros h k' Hk' He. by apply (key_unique db s h k' (k_KeyHash k) k); [| | |congruence].
      * intros k' Hk'. congruence.
    + apply list_elem_of_fmap. exists (k_KeyHash k, k). split; [done|]. by apply elem_of_map_to_list.
    + intros h k' Hk' He. by apply (key_unique db s h k' (k_KeyHash k) k); [| | |congruence].
Qed.

Lemma step_rest now db s op : billing_rel db s → agreed now s op →
  match op with OpIdentity _ _ _ _ | OpEvent _ | OpPutToken _ _ _ _ | OpConsume _ => in_step now op db s | _ => True end.
Proof.
  intros R [Hnow Ha]. destruct op as [| | | | | |p u tid email|eid|h tid email exp|h]; try done; unfold in_step; simpl.
  - destruct Ha as [Hp [t Ht]]. unfold PutOAuthIdentity, Billing.PutOAuthIdentity.
    rewrite decide_False by (destruct (rel_lookup_tenant db s tid R) as [[_ ?]|(r & ? & -> & _)]; congruence).
    simpl. split; [done|]. destruct R. split; simpl; try done. intros p' u' Hp'. destruct (decide ((p', u') = (p, u))) as [[= -> ->]|Hne].
    + by rewrite !lookup_insert_eq.
    + rewrite !lookup_insert_ne; [by apply rel_identities0 | | done]. intros He. apply Hne. destruct (apart_inj p u p' u') as [-> ->]; done.
  - unfold Billing.MarkStripeEventProcessed. pose proof (rel_events _ _ R) as He. rewrite He. case_decide as Hin; simpl.
    + rewrite bool_decide_true by done. split; [done|]. destruct R. split; simpl; try done. clear -Hin. set_solver.
    + rewrite bool_decide_false by done. split; [done|]. destruct R. split; simpl; try done.
  - destruct Ha as [Hp [t Ht]]. unfold PutEmailVerificationToken, Billing.PutEmailVerificationToken.
    rewrite decide_False by (destruct (rel_lookup_tenant db s tid R) as [[_ ?]|(r & ? & -> & _)]; congruence).
    simpl. split; [done|]. destruct R. split; simpl; try done. intros h'. destruct (decide (h' = h)) as [->|Hne].
    + rewrite !lookup_insert_eq. by constructor.
    + by rewrite !lookup_insert_ne.
  - unfold ConsumeEmailVerificationToken, Billing.ConsumeEmailVerificationToken.
    pose proof (rel_tokens _ _ R h) as Hf. inversion Hf as [r tok [Hpr Hr] Hd Hm|Hd Hm]; rewrite <- ?Hd, <- ?Hm.
    + symmetry in Hm. specialize (Ha tok Hm). rewrite Hr. simpl. rewrite time_of_col by done.
      assert (Hrest : billing_rel (with_tokens db (delete h (db_tokens db))) (Billing.with_tokens s (delete h (emailTokens s)))).
      { destruct R. split; simpl; try done. intros h'. destruct (decide (h' = h)) as [->|Hne]; [rewrite !lookup_delete_eq; constructor | by rewrite !lookup_delete_ne]. }
      destruct Ha as [Ha|Ha].
      * pose proof (round_le (tok_expiresAt tok)). rewrite !(proj2 (Z.ltb_lt _ _)) by lia. done.
      * pose proof (round_le (tok_expiresAt tok)). rewrite !(proj2 (Z.ltb_ge _ _)) by lia. done.
    + simpl. split; [done|]. destruct R. split; simpl; try done. intros h'. destruct (decide (h' = h)) as [->|Hne]; [|by rewrite lookup_delete_ne].
      rewrite lookup_delete_eq, <- Hd. constructor.
Qed.


Lemma step_agrees now op db s : billing_rel db s → agreed now s op → in_step now op db s.
Proof.
  intros R Ha. pose proof (step_status now db s op R Ha). pose proof (step_keys now db s op R Ha). pose proof (step_rest now db s op R Ha).
  destruct op; try done; [by apply step_PutTenant | by apply step_UpdateTenant].
Qed.

Lemma map_time_of o : printable_opt o → time_of <$> (col_of <$> o) = round <$> o.
Proof. destruct o as [t|]; [|done]. simpl. intros Ht. by rewrite time_of_col. Qed.

Lemma default_null x : default EmptyString (sqlNullStr x) = x.
Proof. unfold sqlNullStr. by case_decide. Qed.

(** What is read back. *)
Lemma read_tenant db s id : billing_rel db s →
  GetTenant db id = match Billing.GetTenant s id with Ok t => Ok (rounded t) | Err e => Err (Failed e) end.
Proof.
  intros R. unfold GetTenant, Billing.GetTenant. destruct (rel_lookup_tenant db s id R) as [[-> ->]|(r & t & -> & -> & <- & [_ Hs (Hc & Hu & Hp & Hv)] & q & Hq & ->)]; [done|].
  unfold scanTenant. simpl. rewrite (quota_roundtrip _ _ Hq), !default_null, !time_of_col, !map_time_of, Hs by done. done.
Qed.

Lemma read_key db s h : billing_rel db s →
  GetAPIKeyByHash db h = match Billing.GetAPIKeyByHash s h with Ok k => Ok (rounded_key k) | Err e => Err (Failed e) end.
Proof.
  intros R. unfold GetAPIKeyByHash, Billing.GetAPIKeyByHash. destruct (list_find _ _) as [[i [id r]]|] eqn:Hf.
  - apply list_find_Some in Hf as (Hi & Hh & _). apply list_elem_of_lookup_2, elem_of_map_to_list in Hi. simpl in Hh. subst h.
    destruct (rel_keys_db _ _ R id r Hi) as (k & Hk & <- & ->). simpl. rewrite Hk. apply (rel_keys_mem _ _ R) in Hk as (_ & (Hc & He & Hr) & _).
    unfold scanAPIKey. simpl. by rewrite time_of_col, !map_time_of by done.
  - destruct (keys s !! h) as [k|] eqn:Hk; [|done]. apply (rel_keys_mem _ _ R) in Hk as (<- & _ & Hk).
    rewrite list_find_None, Forall_forall in Hf. by destruct (Hf (k_ID k, key_row k)); [apply elem_of_map_to_list|].
Qed.

Lemma read_identity db s p u : billing_rel db s → apart p u →
  GetOAuthIdentityTenant db p u = match Billing.GetOAuthIdentityTenant s p u with Ok id => Ok id | Err e => Err (Failed e) end.
Proof.
  intros R Hp. unfold GetOAuthIdentityTenant, Billing.GetOAuthIdentityTenant. rewrite <- (rel_identities _ _ R p u Hp).
  by destruct (db_identities db !! (p, u)) as [[]|].
Qed.

(** Histories of operations with the instants of their calls, and the answers. *)
Fixpoint mem_run (ops : list (Z * BillingOp)) s : BillingStore * list OpAnswer :=
  match ops with
  | [] => (s, [])
  | (now, op) :: ops => let '(s, a) := mem_op now op s in let '(s, l) := mem_run ops s in (s, a :: l)
  end.

Fixpoint sql_run (ops : list (Z * BillingOp)) db : Db T U * list OpAnswer :=
  match ops with
  | [] => (db, [])
  | (now, op) :: ops => let '(db, a) := sql_op now op db in let '(db, l) := sql_run ops db in (db, a :: l)
  end.

Fixpoint agreed_all (ops : list (Z * BillingOp)) s : Prop :=
  match ops with [] => True | (now, op) :: ops => agreed now s op ∧ agreed_all ops (mem_op now op s).1 end.

Lemma run_agrees ops db s : billing_rel db s → agreed_all ops s →
  (sql_run ops db).2 = (mem_run ops s).2 ∧ billing_rel (sql_run ops db).1 (mem_run ops s).1.
Proof.
  revert db s. induction ops as [|[now op] ops IH]; intros db s R; simpl; [done|]. intros [Ha Hs].
  destruct (step_agrees now op db s R Ha) as [He Hr]. destruct (sql_op now op db) as [db1 a], (mem_op now op s) as [s1 b]. simpl in *. subst b.
  destruct (IH db1 s1 Hr Hs) as [Hl Hr']. destruct (sql_run ops db1), (mem_run ops s1). simpl in *. by subst.
Qed.

(** C18. The SQL store refines the one in memory: after any history of operations on which
    the two agree, it has given the same answers and errors, and tenants, keys and identities
    are read back as the store in memory has them, with their times rounded down to what a
    column holds. *)
Theorem billing_sql_refines_memory ops : agreed_all ops NewBillingStore →
  let db := (sql_run ops NewDb).1 in
  let s := (mem_run ops NewBillingStore).1 in
  (sql_run ops NewDb).2 = (mem_run ops NewBillingStore).2 ∧
  (∀ id, GetTenant db id = match Billing.GetTenant s id with Ok t => Ok (rounded t) | Err e => Err (Failed e) end) ∧
  (∀ h, GetAPIKeyByHash db h = match Billing.GetAPIKeyByHash s h with Ok k => Ok (rounded_key k) | Err e => Err (Failed e) end) ∧
  (∀ p u, apart p u → GetOAuthIdentityTenant db p u =
     match Billing.GetOAuthIdentityTenant s p u with Ok id => Ok id | Err e => Err (Failed e) end).
Proof.
  intros Ha db s. destruct (run_agrees ops NewDb NewBillingStore billing_rel_new Ha) as [He R].
  split_and!; [done | intros id; by apply read_tenant | intros h; by apply read_key | intros p u Hp; by apply read_identity].
Qed.

End refinement.

(** ** What the SQL stores do otherwise *)

Section differences.
Context `{QuotaCodecLaws}.

(** On Postgres an update of a tenant does not store its subscription: whatever a handler
    set, the customer, the subscription, the end of the period and the billing status are read
    back as they were before, while the plan and the quota are the new ones.  So a tenant whose
    checkout has completed stays incomplete. *)
Theorem pg_update_loses_subscription now db t old quota : pg_GetTenant db (t_ID t) = Ok old → Marshal_quota (t_Quota t) = Some quota →
  (pg_UpdateTenant now db t).2 = None ∧
  ∃ t', pg_GetTenant (pg_UpdateTenant now db t).1 (t_ID t) = Ok t' ∧
    t_Plan t' = t_Plan t ∧ t_Quota t' = t_Quota t ∧ t_Status t' = t_Status t ∧
    t_StripeCustomerID t' = t_StripeCustomerID old ∧ t_StripeSubscriptionID t' = t_StripeSubscriptionID old ∧
    t_CurrentPeriodEnd t' = t_CurrentPeriodEnd old ∧ t_BillingStatus t' = t_BillingStatus old.
Proof.
  unfold pg_GetTenant, GetTenant, pg_UpdateTenant. destruct (db_tenants db !! t_ID t) as [r|] eqn:Hr; [|done]. intros Hold Hq. rewrite Hq. simpl.
  split; [done|]. rewrite lookup_insert_eq. unfold scanTenant in *. simpl. rewrite (quota_roundtrip _ _ Hq).
  destruct (Unmarshal_quota (tn_quota r)); [|done]. injection Hold as <-. eexists. by split_and!.
Qed.

(** Identifiers are 32 random bits: a new tenant that draws one that is taken replaces the tenant
    that has it, whose keys then belong to the new one. *)
Lemma put_tenant_takes_over {T U} `{TimeColumn T} (db : Db T U) t r : db_tenants db !! t_ID t = Some r → (PutTenant db t).2 = None →
  db_keys (PutTenant db t).1 = db_keys db ∧ ∃ row, db_tenants (PutTenant db t).1 !! t_ID t = Some row ∧ tn_email row = t_Email t.
Proof.
  intros Hr. unfold PutTenant. rewrite Hr. destruct (Marshal_quota _) as [q|]; [|done]. unfold write_tenant. destruct (customer_taken _ _ _); [done|].
  intros _. simpl. split; [done|]. rewrite lookup_insert_eq. eauto.
Qed.

End differences.

(** ** Examples *)

Module SqlExample.

Import UnaryTime.

#[export] Instance codec : QuotaCodec := {|
  Marshal_quota q := let x := RateLimitMsgPerSec q in let y := RateLimitBurstSize q in
    Some (text_of (MaxAgentDIDs q, MaxMessagesPerMonth q, MaxToolCallsPerMonth q, (Qnum x, Qden x), (Qnum y, Qden y)));
  Unmarshal_quota s := '(a, b, c, (n, d), (n', d')) ← of_text s;
    Some {| MaxAgentDIDs := a; MaxMessagesPerMonth := b; MaxToolCallsPerMonth := c; RateLimitMsgPerSec := n # d; RateLimitBurstSize := n' # d' |} |}.

#[export] Instance codec_laws : QuotaCodecLaws.
Proof. split. intros [a b c [n d] [n' d']] s [= <-]. unfold Unmarshal_quota, codec. by rewrite of_text_of. Qed.

Definition tenant : Tenant := NewTenant ∅ "t_1" "12345678901234567890123456789012" (5 * Second + 1) "Acme" "a@acme.test" PlanFree.
Definition key : APIKey := {|
  k_ID := "k_1"; k_TenantID := "t_1"; k_Name := "default"; k_KeyHash := "hash"; k_Prefix := "sk_live_"; k_CreatedAt := 5 * Second + 1;
  k_ExpiresAt := None; k_RevokedAt := None |}.
Definition ops : list (Z * BillingOp) :=
  [(5 * Second, OpPutTenant tenant); (6 * Second, OpPutKey key); (7 * Second + 1, OpRevoke "k_1")].

End SqlExample.

Import UnaryTime SqlExample.

Lemma billing_sql_refines_memory_witness :
  ∃ k, GetAPIKeyByHash (sql_run (T:=string) (U:=UsageRow) ops NewDb).1 "hash" = Ok k ∧ k_RevokedAt k = Some (7 * Second).
Proof.
  destruct (billing_sql_refines_memory (T:=string) (U:=UsageRow) sec (λ p u, p = "google"%string) ltac:(intros p u p' u' -> -> He; by injection He)
    ops) as (_ & _ & Hk & _).
  - by split_and!.
  - rewrite (Hk "hash"). eexists. by split; vm_compute.
Defined.

Lemma pg_update_loses_subscription_witness :
  let db := (pg_PutTenant NewDb (t_with tenant "active" 0 None)).1 in
  ∃ t', pg_GetTenant (pg_UpdateTenant 9 db {|
      t_ID := "t_1"; t_Name := "Acme"; t_Email := "a@acme.test"; t_Plan := PlanTeam; t_Status := "active"; t_Quota := t_Quota tenant;
      t_CreatedAt := 0; t_UpdatedAt := 0; t_StripeCustomerID := "cus_1"; t_StripeSubscriptionID := "sub_1"; t_CurrentPeriodEnd := None;
      t_BillingStatus := "past_due"; t_DIDSeed := None; t_EmailVerifiedAt := None |}).1 "t_1" = Ok t' ∧
    t_BillingStatus t' = "active"%string.
Proof.
  intros db. destruct (pg_GetTenant db "t_1") as [old|] eqn:Hold; [|by vm_compute in Hold].
  match goal with |- context [pg_UpdateTenant 9 db ?t] =>
    destruct (pg_update_loses_subscription 9 db t old (default "" (Marshal_quota (t_Quota t)))) as (_ & t' & Hget & _ & _ & _ & _ & _ & _ & Hb) end;
    [done | done |].
  exists t'. split; [done|]. rewrite Hb. vm_compute in Hold. by injection Hold as <-.
Defined.
