(* ===== verification/Migration.v ===== *)
(** * The schema migrations of the billing stores (src/pkg/billing: store.go, postgres_store.go)

    The schema as the tables with their columns and the recorded versions; each migration as
    the statements it runs, and a start of the program as the sequence of what it commits, so
    that a start that is interrupted is a prefix of it.  Types, defaults and constraints of the
    columns are left out here. *)

From S2P Require Import Prelude.
#[local] Open Scope Z_scope.

(** CREATE TABLE and CREATE INDEX have IF NOT EXISTS in all statements of the code. *)
Inductive Stmt :=
| CreateTable (name : string) (columns : list string)
| CreateIndex (name table : string) (columns : list string)
| AddColumn (table column : string)
| AddColumnIfMissing (table column : string).

Inductive SchemaError := DuplicateColumn | NoSuchTable | NoSuchColumn | VersionRecorded.

Record Schema := { sc_tables : gmap string (gset string); sc_indexes : gset string; sc_versions : gset Z }.

#[export] Instance Schema_eq_dec : EqDecision Schema.
Proof. solve_decision. Defined.

Definition empty_schema : Schema := {| sc_tables := ∅; sc_indexes := ∅; sc_versions := ∅ |}.

Definition exec (st : Stmt) (s : Schema) : result SchemaError Schema :=
  match st with
  | CreateTable name columns =>
      match sc_tables s !! name with
      | Some _ => Ok s
      | None => Ok {| sc_tables := <[name := list_to_set columns]> (sc_tables s); sc_indexes := sc_indexes s; sc_versions := sc_versions s |}
      end
  | CreateIndex name table columns =>
      if decide (name ∈ sc_indexes s) then Ok s
      else match sc_tables s !! table with
           | None => Err NoSuchTable
           | Some cols => if decide (list_to_set columns ⊆ cols)
                          then Ok {| sc_tables := sc_tables s; sc_indexes := {[name]} ∪ sc_indexes s; sc_versions := sc_versions s |}
                          else Err NoSuchColumn
           end
  | AddColumn table column =>
      match sc_tables s !! table with
      | None => Err NoSuchTable
      | Some cols => if decide (column ∈ cols) then Err DuplicateColumn
                     else Ok {| sc_tables := <[table := {[column]} ∪ cols]> (sc_tables s); sc_indexes := sc_indexes s; sc_versions := sc_versions s |}
      end
  | AddColumnIfMissing table column =>
      match sc_tables s !! table with
      | None => Err NoSuchTable
      | Some cols => Ok {| sc_tables := <[table := {[column]} ∪ cols]> (sc_tables s); sc_indexes := sc_indexes s; sc_versions := sc_versions s |}
      end
  end.

Fixpoint exec_all (l : list Stmt) (s : Schema) : result SchemaError Schema :=
  match l with [] => Ok s | st :: l => match exec st s with Ok s => exec_all l s | Err e => Err e end end.

(** INSERT INTO schema_migrations: the version is the primary key. *)
Definition record_version (v : Z) (s : Schema) : result SchemaError Schema :=
  if decide (v ∈ sc_versions s) then Err VersionRecorded
  else Ok {| sc_tables := sc_tables s; sc_indexes := sc_indexes s; sc_versions := {[v]} ∪ sc_versions s |}.

(** ... ON CONFLICT DO NOTHING *)
Definition record_version_once (v : Z) (s : Schema) : result SchemaError Schema :=
  Ok {| sc_tables := sc_tables s; sc_indexes := sc_indexes s; sc_versions := {[v]} ∪ sc_versions s |}.

(** A migration is one transaction, or runs statement by statement past duplicate columns. *)
Inductive Body := InTx (l : list Stmt) | OneByOne (l : list Stmt).

Definition stripeV4Stmts : list Stmt := [
  AddColumn "tenants" "stripe_customer_id"; AddColumn "tenants" "stripe_subscription_id"; AddColumn "tenants" "current_period_end";
  AddColumn "tenants" "billing_status"; CreateIndex "tenants_stripe_customer" "tenants" ["stripe_customer_id"];
  CreateTable "stripe_events_processed" ["event_id"; "processed_at"]].

Definition emailVerifyV7Stmts : list Stmt := [
  AddColumn "tenants" "email_verified_at";
  CreateTable "email_verification_tokens" ["token_hash"; "tenant_id"; "email"; "expires_at"; "created_at"];
  CreateIndex "idx_email_tokens_expires" "email_verification_tokens" ["expires_at"]].

Definition oauthV6Stmts : list Stmt := [
  CreateTable "oauth_clients" ["client_id"; "client_secret_hash"; "client_name"; "redirect_uris"; "grant_types"; "scope";
                               "token_endpoint_auth_method"; "created_at"; "created_ip"];
  CreateTable "oauth_codes" ["code_hash"; "client_id"; "tenant_id"; "redirect_uri"; "code_challenge"; "code_challenge_method"; "scope";
                             "expires_at"; "used"];
  CreateIndex "idx_oauth_codes_expires" "oauth_codes" ["expires_at"];
  CreateTable "oauth_refresh_tokens" ["token_hash"; "client_id"; "tenant_id"; "scope"; "expires_at"; "revoked"];
  CreateIndex "idx_oauth_refresh_expires" "oauth_refresh_tokens" ["expires_at"]].

Definition identitiesV3Stmts : list Stmt := [
  CreateTable "oauth_identities" ["provider"; "sub"; "tenant_id"; "email"; "created_at"];
  CreateIndex "oauth_identities_tenant" "oauth_identities" ["tenant_id"]].

Definition migrations : list (Z * Body) := [
  (1, InTx [
    CreateTable "tenants" ["id"; "name"; "email"; "plan"; "status"; "quota_json"; "created_at"; "updated_at"];
    CreateTable "api_keys" ["id"; "tenant_id"; "name"; "key_hash"; "prefix"; "created_at"; "expires_at"; "revoked_at"];
    CreateIndex "api_keys_tenant" "api_keys" ["tenant_id"];
    CreateIndex "api_keys_hash" "api_keys" ["key_hash"];
    CreateTable "usage_events" ["id"; "tenant_id"; "event"; "tool_name"; "request_id"; "ts"];
    CreateIndex "usage_events_tenant_ts" "usage_events" ["tenant_id"; "ts"];
    CreateTable "usage_aggregates" ["tenant_id"; "period"; "event"; "count"; "updated_at"]]);
  (2, InTx [AddColumn "usage_events" "prev_hash"]);
  (3, InTx identitiesV3Stmts);
  (4, OneByOne stripeV4Stmts);
  (5, InTx [AddColumn "tenants" "did_seed"]);
  (6, InTx oauthV6Stmts);
  (7, OneByOne emailVerifyV7Stmts)].

Definition pgMigrations : list (Z * Body) := [
  (1, InTx [
    CreateTable "schema_migrations" ["version"; "applied_at"];
    CreateTable "tenants" ["id"; "name"; "email"; "plan"; "status"; "quota"; "created_at"; "updated_at"];
    CreateTable "api_keys" ["id"; "tenant_id"; "name"; "key_hash"; "prefix"; "created_at"; "expires_at"; "revoked_at"];
    CreateIndex "api_keys_tenant" "api_keys" ["tenant_id"];
    CreateTable "usage_events" ["id"; "tenant_id"; "event"; "tool_name"; "request_id"; "recorded_at"; "hash"; "prev_hash"];
    CreateIndex "usage_events_tenant" "usage_events" ["tenant_id"; "recorded_at"];
    CreateTable "usage_aggregates" ["tenant_id"; "period"; "event"; "count"]]);
  (2, InTx []);
  (3, InTx identitiesV3Stmts);
  (4, InTx [
    AddColumnIfMissing "tenants" "stripe_customer_id"; AddColumnIfMissing "tenants" "stripe_subscription_id";
    AddColumnIfMissing "tenants" "current_period_end"; AddColumnIfMissing "tenants" "billing_status";
    CreateIndex "tenants_stripe_customer" "tenants" ["stripe_customer_id"];
    CreateTable "stripe_events_processed" ["event_id"; "processed_at"]]);
  (5, InTx [AddColumnIfMissing "tenants" "did_seed"]);
  (6, InTx oauthV6Stmts);
  (7, InTx [
    AddColumnIfMissing "tenants" "email_verified_at";
    CreateTable "email_verification_tokens" ["token_hash"; "tenant_id"; "email"; "expires_at"; "created_at"];
    CreateIndex "idx_email_tokens_expires" "email_verification_tokens" ["expires_at"]]);
  (8, InTx [
    AddColumnIfMissing "usage_events" "seq";
    CreateIndex "usage_events_tenant_seq" "usage_events" ["tenant_id"; "seq"]])].

(** Something that is committed as a whole. *)
Abbreviation Commit := (Schema → result SchemaError Schema).

(** An error about a duplicate column is passed over. *)
Definition skip_duplicate (st : Stmt) : Commit := λ s,
  match exec st s with Err DuplicateColumn => Ok s | r => r end.

(** [record] is the INSERT of the version. *)
Definition migration_commits (record : Z → Commit) (m : Z * Body) : list Commit :=
  match m.2 with
  | InTx l => [λ s, match exec_all l s with Ok s => record m.1 s | Err e => Err e end]
  | OneByOne l => map skip_duplicate l ++ [record m.1]
  end.

(** SELECT COALESCE(MAX(version), 0) *)
Definition current_version (s : Schema) : Z := foldr Z.max 0 (elements (sc_versions s)).

Definition bootstrap : Stmt := CreateTable "schema_migrations" ["version"; "applied_at"].

(** All that a start commits when it has read the version [current]. *)
Definition commits (record : Z → Commit) (ms : list (Z * Body)) (current : Z) : list Commit :=
  concat (map (migration_commits record) (filter (λ m, current < m.1) ms)).

Fixpoint run (l : list Commit) (s : Schema) : result SchemaError Schema :=
  match l with [] => Ok s | c :: l => match c s with Ok s => run l s | Err e => Err e end end.

Definition start (record : Z → Commit) (ms : list (Z * Body)) (s : Schema) : list Commit :=
  exec bootstrap :: commits record ms (current_version s).

Definition migrate (s : Schema) : result SchemaError Schema := run (start record_version migrations s) s.
Definition pg_migrate (s : Schema) : result SchemaError Schema := run (start record_version_once pgMigrations s) s.

(** ** Interrupted starts *)

Section interrupted.
Context (begin : Schema → list Commit).

(** The databases that starts leave which may have been interrupted, one after the other. *)
Inductive reached : Schema → Prop :=
| reached_empty : reached empty_schema
| reached_start n s s' : reached s → run (take n (begin s)) s = Ok s' → reached s'.

(** The schemas along an uninterrupted first start. *)
Fixpoint trail (l : list Commit) (s : Schema) : list Schema :=
  match l with [] => [s] | c :: l => s :: match c s with Ok s => trail l s | Err _ => [] end end.

Lemma run_take_trail n l s s' : run (take n l) s = Ok s' → s' ∈ trail l s.
Proof.
  revert n s. induction l as [|c l IH]; intros [|n] s; simpl; try (by intros [= <-]; left).
  destruct (c s) as [s1|]; [|done]. intros Hr. right. by apply (IH n).
Qed.

(** Restarting from a schema of the list stays within the list and ends at its last. *)
Definition closed (states : list Schema) (final : Schema) : bool :=
  bool_decide (empty_schema ∈ states) &&
  forallb (λ s, forallb (λ s', bool_decide (s' ∈ states)) (trail (begin s) s) &&
                match run (begin s) s with Ok s' => bool_decide (s' = final) | Err _ => false end) states.

Lemma closed_elem states final s : closed states final = true → s ∈ states →
  run (begin s) s = Ok final ∧ ∀ n s', run (take n (begin s)) s = Ok s' → s' ∈ states.
Proof.
  unfold closed. intros [_ Hall]%andb_prop Hs. rewrite forallb_forall in Hall. apply list_elem_of_In, Hall, andb_prop in Hs as [Ht Hf].
  split.
  - destruct (run _ _) as [s'|]; [|done]. by apply bool_decide_eq_true in Hf as ->.
  - intros n s' Hrun. rewrite forallb_forall in Ht. apply run_take_trail, list_elem_of_In in Hrun. by apply Ht, bool_decide_eq_true in Hrun.
Qed.

Lemma closed_reached states final s : closed states final = true → reached s → s ∈ states ∧ run (begin s) s = Ok final.
Proof.
  intros Hc Hr. assert (Hs : s ∈ states).
  { induction Hr as [|n s s' Hr IH Hrun]; [apply andb_prop in Hc as [He _]; by apply bool_decide_eq_true in He|].
    by apply (proj2 (closed_elem states final s Hc IH) n). }
  split; [done | by apply (closed_elem states final s)].
Qed.

End interrupted.

Definition full_schema : Schema := default empty_schema (match migrate empty_schema with Ok s => Some s | Err _ => None end).
Definition pg_full_schema : Schema := default empty_schema (match pg_migrate empty_schema with Ok s => Some s | Err _ => None end).

Lemma sqlite_closed : closed (start record_version migrations) (trail (start record_version migrations empty_schema) empty_schema) full_schema = true.
Proof. by vm_compute. Qed.

Lemma pg_closed : closed (start record_version_once pgMigrations) (trail (start record_version_once pgMigrations empty_schema) empty_schema) pg_full_schema = true.
Proof. by vm_compute. Qed.

Abbreviation sqlite_states := (trail (start record_version migrations empty_schema) empty_schema).
Abbreviation pg_states := (trail (start record_version_once pgMigrations empty_schema) empty_schema).

Lemma sqlite_full : full_schema ∈ sqlite_states ∧ current_version full_schema = 7.
Proof. split; [apply (bool_decide_unpack _)|]; by vm_compute. Qed.

Lemma pg_full : pg_full_schema ∈ pg_states ∧ current_version pg_full_schema = 8.
Proof. split; [apply (bool_decide_unpack _)|]; by vm_compute. Qed.

(** C33. However often starts of the program were interrupted between two commits, the next one
    completes the schema: from every database that is reached, migrate succeeds and ends in the
    same full schema, with SQLite, whose fourth and seventh migration are not atomic, as with
    Postgres; and migrating the full schema changes nothing. *)
Theorem migration_recovers :
  (∀ s, reached (start record_version migrations) s → migrate s = Ok full_schema) ∧
  (∀ s, reached (start record_version_once pgMigrations) s → pg_migrate s = Ok pg_full_schema) ∧
  migrate full_schema = Ok full_schema ∧ pg_migrate pg_full_schema = Ok pg_full_schema ∧
  current_version full_schema = 7 ∧ current_version pg_full_schema = 8.
Proof.
  pose proof sqlite_full as [Hm Hv]. pose proof pg_full as [Hp Hw].
  refine (conj _ (conj _ (conj _ (conj _ (conj Hv Hw))))).
  - intros s Hs. exact (proj2 (closed_reached _ _ _ _ sqlite_closed Hs)).
  - intros s Hs. exact (proj2 (closed_reached _ _ _ _ pg_closed Hs)).
  - exact (proj1 (closed_elem _ _ _ _ sqlite_closed Hm)).
  - exact (proj1 (closed_elem _ _ _ _ pg_closed Hp)).
Qed.

(** Two processes that start together on a new SQLite file: the one that has read the version
    before the other migrated fails to record its first migration. *)
Lemma concurrent_start_fails : run (commits record_version migrations 0) full_schema = Err VersionRecorded.
Proof. by vm_compute. Qed.

(** A start that was interrupted in the fourth migration. *)
Definition interrupted_schema : Schema :=
  default empty_schema (match run (take 8 (start record_version migrations empty_schema)) empty_schema with Ok s => Some s | Err _ => None end).

Lemma interrupted_version : current_version interrupted_schema = 3.
Proof. by vm_compute. Qed.

Lemma interrupted_reached : reached (start record_version migrations) interrupted_schema.
Proof.
  apply (reached_start _ 8 empty_schema); [apply reached_empty|]. unfold interrupted_schema.
  destruct (run (take 8 _) empty_schema) as [s|e] eqn:Hr; [done|]. exfalso.
  assert (Hok : (match run (take 8 (start record_version migrations empty_schema)) empty_schema with Ok _ => true | Err _ => false end) = true) by (by vm_compute).
  by rewrite Hr in Hok.
Qed.

Lemma migration_recovers_witness : current_version interrupted_schema = 3 ∧ migrate interrupted_schema = Ok full_schema.
Proof. exact (conj interrupted_version (proj1 migration_recovers interrupted_schema interrupted_reached)). Defined.
