(* ===== verification/QueueSql.v ===== *)
(** * The SQLite store of the message queue (src/pkg/queue/sqlite.go)

    The two tables as maps from the text of the identifiers to rows, each statement of the
    code as what it does to them, and the store as an implementation of the abstract queue of
    [Queue].  The driver keeps times so that they compare as instants do; the order of rows
    with equal times is that of an arbitrary sort.  Failures of the database other than
    violated primary keys are left out. *)

From S2P Require Import Prelude Queue Migration.
#[local] Open Scope Z_scope.

Record QueueRow := {
  qr_recipient_did : string; qr_sender_did : option string; qr_data : string; qr_queued_at : Z; qr_expires_at : Z;
  qr_delivery_attempts : Z; qr_last_attempt : option Z;
}.

Record DeadRow := { dr_message : QueueRow; dr_fail_reason : option string; dr_moved_at : Z }.

Record SQLiteStore := { sq_config : Config; sq_queue : gmap string QueueRow; sq_dead : gmap string DeadRow }.

Definition NewSQLiteStore (c : Config) : SQLiteStore := {| sq_config := c; sq_queue := ∅; sq_dead := ∅ |}.

Inductive SqlError := Failed (e : QueueError) | ConstraintFailed.

Definition with_queue (db : SQLiteStore) (q : gmap string QueueRow) : SQLiteStore :=
  {| sq_config := sq_config db; sq_queue := q; sq_dead := sq_dead db |}.

(** ** The schema *)

(** The statement of version 0 is run at every start and not recorded. *)
Definition queue_migrations : list Stmt := [
  CreateTable "queue_migrations" ["version"; "applied_at"];
  CreateTable "message_queue" ["id"; "recipient_did"; "sender_did"; "data"; "queued_at"; "expires_at"; "delivery_attempts"; "last_attempt"];
  CreateIndex "idx_queue_recipient" "message_queue" ["recipient_did"];
  CreateIndex "idx_queue_expires" "message_queue" ["expires_at"];
  CreateTable "dead_letter_queue" ["id"; "recipient_did"; "sender_did"; "data"; "queued_at"; "expires_at"; "delivery_attempts"; "last_attempt";
                                   "fail_reason"; "moved_at"];
  CreateIndex "idx_dlq_recipient" "dead_letter_queue" ["recipient_did"]].

(** What one start commits: for each statement that is not recorded the statement, then its number. *)
Fixpoint numbered_commits (i : Z) (l : list Stmt) (applied : gset Z) : list Commit :=
  match l with
  | [] => []
  | st :: l =>
      (if decide (i ∈ applied) then []
       else exec st :: (if decide (0 < i) then [record_version_once i] else [])) ++ numbered_commits (i + 1) l applied
  end.

Definition numbered_start (l : list Stmt) (s : Schema) : list Commit := numbered_commits 0 l (sc_versions s).

Definition migrate (s : Schema) : result SchemaError Schema := run (numbered_start queue_migrations s) s.

Section sql.
Context `{Runtime}.
Implicit Types (db : SQLiteStore) (msg : QueuedMessage) (now : Z).

Definition row_of msg : QueueRow := {|
  qr_recipient_did := qm_RecipientDID msg; qr_sender_did := Some (qm_SenderDID msg); qr_data := qm_Data msg;
  qr_queued_at := qm_QueuedAt msg; qr_expires_at := qm_ExpiresAt msg; qr_delivery_attempts := qm_DeliveryAttempts msg;
  qr_last_attempt := qm_LastAttempt msg |}.

Definition message_of (id : uuid) (r : QueueRow) : QueuedMessage := {|
  qm_ID := id; qm_RecipientDID := qr_recipient_did r; qm_Data := qr_data r; qm_QueuedAt := qr_queued_at r;
  qm_ExpiresAt := qr_expires_at r; qm_DeliveryAttempts := qr_delivery_attempts r; qm_LastAttempt := qr_last_attempt r;
  qm_SenderDID := default EmptyString (qr_sender_did r) |}.

Definition scanMessage (kr : string * QueueRow) : option QueuedMessage := (λ id, message_of id kr.2) <$> uuid_Parse kr.1.

(** The limit counts expired messages too; MaxTotalMessages is not looked at. *)
Definition Enqueue db msg : SQLiteStore * option SqlError :=
  let count := Z.of_nat (size (filter (λ kr, qr_recipient_did kr.2 = qm_RecipientDID msg) (sq_queue db))) in
  if bool_decide (0 < MaxQueueSize (sq_config db) ∧ MaxQueueSize (sq_config db) ≤ count) then (db, Some (Failed ErrQueueFull))
  else match sq_queue db !! uuid_String (qm_ID msg) with
       | Some _ => (db, Some ConstraintFailed)
       | None => (with_queue db (<[uuid_String (qm_ID msg) := row_of msg]> (sq_queue db)), None)
       end.

(** WHERE recipient_did = ? AND expires_at > ? ORDER BY queued_at ASC LIMIT ? *)
Definition pending_rows (sort : list (string * QueueRow) → list (string * QueueRow)) now db (recipientDID : string) (limit : Z)
  : list (string * QueueRow) :=
  cap limit (sort (filter (λ kr, qr_recipient_did kr.2 = recipientDID ∧ now < qr_expires_at kr.2) (map_to_list (sq_queue db)))).

(** A row that does not scan is skipped and stays. *)
Definition Dequeue (sort : list (string * QueueRow) → list (string * QueueRow)) now db (recipientDID : string) (limit : Z)
  : SQLiteStore * list QueuedMessage :=
  let messages := omap scanMessage (pending_rows sort now db recipientDID limit) in
  (with_queue db (foldl (λ q m, delete (uuid_String (qm_ID m)) q) (sq_queue db) messages), messages).

Definition Peek (sort : list (string * QueueRow) → list (string * QueueRow)) now db (recipientDID : string) (limit : Z) : list QueuedMessage :=
  omap scanMessage (pending_rows sort now db recipientDID limit).

Definition Ack db (messageID : uuid) : SQLiteStore * option SqlError :=
  match sq_queue db !! uuid_String messageID with
  | None => (db, Some (Failed ErrNotFound))
  | Some _ => (with_queue db (delete (uuid_String messageID) (sq_queue db)), None)
  end.

Definition bump_row now (r : QueueRow) : QueueRow := {|
  qr_recipient_did := qr_recipient_did r; qr_sender_did := qr_sender_did r; qr_data := qr_data r; qr_queued_at := qr_queued_at r;
  qr_expires_at := qr_expires_at r; qr_delivery_attempts := qr_delivery_attempts r + 1; qr_last_attempt := Some now |}.

(** The identifier is the primary key of the dead letters too; when it is taken the message stays. *)
Definition Nack now db (messageID : uuid) (reason : string) : SQLiteStore * option SqlError :=
  let key := uuid_String messageID in
  match sq_queue db !! key with
  | None => (db, Some (Failed ErrNotFound))
  | Some r =>
      let r := bump_row now r in
      if bool_decide (0 < MaxDeliveryAttempts (sq_config db) ∧ MaxDeliveryAttempts (sq_config db) ≤ qr_delivery_attempts r) then
        if EnableDLQ (sq_config db) then
          match sq_dead db !! key with
          | Some _ => (db, Some ConstraintFailed)
          | None => ({| sq_config := sq_config db; sq_queue := delete key (sq_queue db);
                        sq_dead := <[key := {| dr_message := r; dr_fail_reason := Some reason; dr_moved_at := now |}]> (sq_dead db) |}, None)
          end
        else (with_queue db (delete key (sq_queue db)), None)
      else (with_queue db (<[key := r]> (sq_queue db)), None)
  end.

Definition GetQueueSize now db (recipientDID : string) : Z :=
  Z.of_nat (size (filter (λ kr, qr_recipient_did kr.2 = recipientDID ∧ now < qr_expires_at kr.2) (sq_queue db))).

Definition scanDead (kr : string * DeadRow) : option DeadLetterMessage :=
  (λ id, {| dl_QueuedMessage := message_of id (dr_message kr.2); dl_FailReason := default EmptyString (dr_fail_reason kr.2);
            dl_MovedAt := dr_moved_at kr.2 |}) <$> uuid_Parse kr.1.

(** [sort] is ORDER BY moved_at DESC. *)
Definition GetDLQ (sort : list (string * DeadRow) → list (string * DeadRow)) db (recipientDID : string) (limit : Z) : list DeadLetterMessage :=
  omap scanDead (cap limit (sort (filter (λ kr, qr_recipient_did (dr_message kr.2) = recipientDID) (map_to_list (sq_dead db))))).

Definition Cleanup now db : SQLiteStore * Z :=
  (with_queue db (filter (λ kr, ¬ qr_expires_at kr.2 ≤ now) (sq_queue db)),
   Z.of_nat (size (filter (λ kr, qr_expires_at kr.2 ≤ now) (sq_queue db)))).

End sql.

(** ** The tables as bags of messages *)

Section bags.
Context `{UuidLaws}.
Implicit Types (db : SQLiteStore) (msg : QueuedMessage) (now : Z).

Definition pending db : list QueuedMessage := omap scanMessage (map_to_list (sq_queue db)).
Definition dead db : list DeadLetterMessage := omap scanDead (map_to_list (sq_dead db)).

(** The keys are texts of identifiers. *)
Record well_keyed db : Prop := {
  wk_queue k : is_Some (sq_queue db !! k) → ∃ id, k = uuid_String id;
  wk_dead k : is_Some (sq_dead db !! k) → ∃ id, k = uuid_String id;
}.

Lemma scan_known id r : scanMessage (uuid_String id, r) = Some (message_of id r).
Proof. unfold scanMessage. simpl. by rewrite uuid_Parse_String. Qed.

Lemma scan_dead_known id r : scanDead (uuid_String id, r) =
  Some {| dl_QueuedMessage := message_of id (dr_message r); dl_FailReason := default EmptyString (dr_fail_reason r); dl_MovedAt := dr_moved_at r |}.
Proof. unfold scanDead. simpl. by rewrite uuid_Parse_String. Qed.

Lemma message_row msg : message_of (qm_ID msg) (row_of msg) = msg.
Proof. by destruct msg. Qed.

Lemma pending_lookup db id r : sq_queue db !! uuid_String id = Some r →
  pending db ≡ₚ message_of id r :: omap scanMessage (map_to_list (delete (uuid_String id) (sq_queue db))).
Proof.
  intros Hr. unfold pending. rewrite <- (map_to_list_delete (sq_queue db) (uuid_String id) r Hr). simpl. by rewrite scan_known.
Qed.

Lemma pending_missing db id : well_keyed db → sq_queue db !! uuid_String id = None → Forall (λ m, qm_ID m ≠ id) (pending db).
Proof.
  intros Hw Hn. apply Forall_forall. intros m Hm. apply list_elem_of_omap in Hm as ([k r] & Hin & Hs).
  apply elem_of_map_to_list in Hin. destruct (wk_queue _ Hw k) as [id' ->]; [eauto|]. rewrite scan_known in Hs. injection Hs as <-. simpl.
  intros ->. congruence.
Qed.

Lemma pending_insert db id r : sq_queue db !! uuid_String id = None →
  omap scanMessage (map_to_list (<[uuid_String id := r]> (sq_queue db))) ≡ₚ message_of id r :: pending db.
Proof. intros Hn. rewrite map_to_list_insert by done. simpl. by rewrite scan_known. Qed.

Lemma pending_elem db m : well_keyed db → m ∈ pending db ↔ ∃ r, sq_queue db !! uuid_String (qm_ID m) = Some r ∧ m = message_of (qm_ID m) r.
Proof.
  intros Hw. unfold pending. rewrite list_elem_of_omap. split.
  - intros ([k r] & Hin & Hs). apply elem_of_map_to_list in Hin. destruct (wk_queue _ Hw k) as [id ->]; [eauto|].
    rewrite scan_known in Hs. injection Hs as <-. eauto.
  - intros (r & Hr & ->). simpl in *. exists (uuid_String (qm_ID m), r). split; [by apply elem_of_map_to_list | apply scan_known].
Qed.

(** Filtering rows is filtering messages, and so is counting them. *)
Lemma filter_rows (P : string * QueueRow → Prop) (Q : QueuedMessage → Prop) `{!∀ x, Decision (P x)} `{!∀ x, Decision (Q x)} (m : gmap string QueueRow) :
  (∀ k, is_Some (m !! k) → ∃ id, k = uuid_String id) → (∀ id r, P (uuid_String id, r) ↔ Q (message_of id r)) →
  omap scanMessage (map_to_list (filter P m)) ≡ₚ filter Q (omap scanMessage (map_to_list m)).
Proof.
  intros Hk HPQ. induction m as [|k r m Hn IH] using map_ind; [by rewrite map_filter_empty, map_to_list_empty|].
  destruct (Hk k) as [id ->]; [rewrite lookup_insert_eq; eauto|].
  assert (IH' : omap scanMessage (map_to_list (filter P m)) ≡ₚ filter Q (omap scanMessage (map_to_list m))).
  { apply IH. intros k [r' Hr']. apply Hk. rewrite lookup_insert_ne; [eauto|]. intros <-. congruence. }
  rewrite (map_to_list_insert m) by done. cbn [omap list_omap]. rewrite scan_known, filter_cons. destruct (decide (P (uuid_String id, r))) as [Hd|Hd].
  - rewrite decide_True by (by apply HPQ). rewrite map_filter_insert_True by done.
    rewrite map_to_list_insert by (by apply map_lookup_filter_None; left). cbn [omap list_omap]. by rewrite scan_known, IH'.
  - rewrite decide_False by (by rewrite <- HPQ). rewrite map_filter_insert_not'; [done | done |]. intros y Hy. congruence.
Qed.

Lemma omap_scan_length (m : gmap string QueueRow) : (∀ k, is_Some (m !! k) → ∃ id, k = uuid_String id) →
  length (omap scanMessage (map_to_list m)) = size m.
Proof.
  intros Hk. induction m as [|k r m Hn IH] using map_ind; [done|]. destruct (Hk k) as [id ->]; [rewrite lookup_insert_eq; eauto|].
  rewrite map_to_list_insert, map_size_insert_None by done. cbn [omap list_omap]. rewrite scan_known. simpl. rewrite IH; [done|].
  intros k [r' Hr']. apply Hk. rewrite lookup_insert_ne; [eauto|]. intros <-. congruence.
Qed.

Lemma filtered_keys (P : string * QueueRow → Prop) `{!∀ x, Decision (P x)} (m : gmap string QueueRow) :
  (∀ k, is_Some (m !! k) → ∃ id, k = uuid_String id) → ∀ k, is_Some (filter P m !! k) → ∃ id, k = uuid_String id.
Proof. intros Hk k [r [Hr _]%map_lookup_filter_Some]. eauto. Qed.

Lemma count_rows (P : string * QueueRow → Prop) (Q : QueuedMessage → Prop) `{!∀ x, Decision (P x)} `{!∀ x, Decision (Q x)} (m : gmap string QueueRow) :
  (∀ k, is_Some (m !! k) → ∃ id, k = uuid_String id) → (∀ id r, P (uuid_String id, r) ↔ Q (message_of id r)) →
  size (filter P m) = length (filter Q (omap scanMessage (map_to_list m))).
Proof. intros Hk HPQ. rewrite <- (filter_rows P Q m Hk HPQ). symmetry. apply omap_scan_length. by apply filtered_keys. Qed.

Lemma filter_agree {A} (P Q : A → Prop) `{!∀ x, Decision (P x)} `{!∀ x, Decision (Q x)} (l : list A) :
  (∀ x, x ∈ l → P x ↔ Q x) → filter P l = filter Q l.
Proof.
  induction l as [|x l IH]; [done|]. intros Hl. rewrite !filter_cons.
  assert (filter P l = filter Q l) as -> by (apply IH; intros y Hy; apply Hl; by right).
  destruct (decide (P x)) as [Hp|Hp]; [rewrite decide_True | rewrite decide_False]; try done; by rewrite <- (Hl x ltac:(by left)).
Qed.

(** The configuration without a limit on the total. *)
Definition no_total (c : Config) : Config := {|
  MessageTTL := MessageTTL c; MaxQueueSize := MaxQueueSize c; MaxTotalMessages := 0; MaxDeliveryAttempts := MaxDeliveryAttempts c;
  AckTimeout := AckTimeout c; EnableDLQ := EnableDLQ c |}.

(** No message expires at this very instant, which the two stores judge differently. *)
Definition no_boundary now db : Prop := ∀ m, m ∈ pending db → qm_ExpiresAt m ≠ now.

(** The operations, for identifiers that are new where they become keys. *)
Inductive sql_step db : Event → SQLiteStore → Prop :=
| sql_enqueue msg db' e err :
    sq_queue db !! uuid_String (qm_ID msg) = None → Enqueue db msg = (db', e) → e = Failed <$> err → sql_step db (EvEnqueue msg err) db'
| sql_dequeue sort now did limit db' out :
    SortFunc (key_le (λ kr, qr_queued_at kr.2)) sort → no_boundary now db → Dequeue sort now db did limit = (db', out) →
    sql_step db (EvDequeue now did limit (Ok out)) db'
| sql_ack id db' e err : Ack db id = (db', e) → e = Failed <$> err → sql_step db (EvAck id err) db'
| sql_nack now id reason db' e err :
    sq_dead db !! uuid_String id = None → Nack now db id reason = (db', e) → e = Failed <$> err → sql_step db (EvNack now id reason err) db'
| sql_cleanup now db' n : no_boundary now db → Cleanup now db = (db', n) → sql_step db (EvCleanup now (Ok n)) db'.

Abbreviation refines db ev db' := (spec_step (no_total (sq_config db)) (pending db) (dead db) ev (pending db') (dead db')).

Lemma at_limit_spec db did : well_keyed db →
  (0 < MaxQueueSize (sq_config db) ∧ MaxQueueSize (sq_config db) ≤ Z.of_nat (size (filter (λ kr, qr_recipient_did kr.2 = did) (sq_queue db)))) ↔
  at_limit (no_total (sq_config db)) (pending db) did.
Proof.
  intros Hw. unfold at_limit, pending. rewrite (count_rows (λ kr, qr_recipient_did kr.2 = did) (λ m, qm_RecipientDID m = did)); [done | | done].
  apply Hw.
Qed.

Lemma refines_enqueue db msg db' e err : well_keyed db →
  sq_queue db !! uuid_String (qm_ID msg) = None → Enqueue db msg = (db', e) → e = Failed <$> err → refines db (EvEnqueue msg err) db'.
Proof.
  intros Hw Hn. unfold Enqueue. pose proof (at_limit_spec db (qm_RecipientDID msg) Hw) as Hlim. rewrite Hn. case_bool_decide as Hfull.
  - intros [= <- <-] He. destruct err as [err|]; [|done]. injection He as <-. apply spec_full. by apply Hlim.
  - intros [= <- <-] He. destruct err; [done|]. apply spec_enqueue.
    + by rewrite <- Hlim.
    + intros [Hp _]. simpl in Hp. lia.
    + unfold pending. simpl. rewrite pending_insert by done. by rewrite message_row.
Qed.

Lemma refines_ack db id db' e err : well_keyed db → Ack db id = (db', e) → e = Failed <$> err → refines db (EvAck id err) db'.
Proof.
  intros Hw. unfold Ack. destruct (sq_queue db !! uuid_String id) as [r|] eqn:Hr; intros [= <- <-] He; destruct err as [err|]; try done.
  - pose proof (pending_lookup db id r Hr) as Hp. by apply (spec_ack _ _ _ (message_of id r)).
  - injection He as <-. apply spec_ack_missing. by apply pending_missing.
Qed.

Lemma bump_message now id r : message_of id (bump_row now r) = bump_attempt now (message_of id r).
Proof. done. Qed.

Lemma refines_nack db now id reason db' e err : well_keyed db → sq_dead db !! uuid_String id = None →
  Nack now db id reason = (db', e) → e = Failed <$> err → refines db (EvNack now id reason err) db'.
Proof.
  intros Hw Hd. unfold Nack. destruct (sq_queue db !! uuid_String id) as [r|] eqn:Hr.
  2: { intros [= <- <-] He. destruct err as [err|]; [|done]. injection He as <-. apply spec_nack_missing. by apply pending_missing. }
  pose proof (pending_lookup db id r Hr) as Hp. rewrite Hd.
  case_bool_decide as Hex.
  - assert (He' : exhausted (no_total (sq_config db)) (bump_attempt now (message_of id r))) by done.
    destruct (EnableDLQ (sq_config db)) eqn:Hdlq; intros [= <- <-] He; destruct err; try done.
    + apply (spec_nack_dead _ _ _ now (message_of id r)); [done | done |]. simpl. rewrite Hdlq. unfold dead. simpl.
      rewrite map_to_list_insert by done. simpl. by rewrite scan_dead_known.
    + apply (spec_nack_dead _ _ _ now (message_of id r)); [done | done |]. simpl. by rewrite Hdlq.
  - intros [= <- <-] He. destruct err; [done|]. apply (spec_nack_retry _ _ _ now (message_of id r) _ _ _ Hp).
    + done.
    + unfold pending. simpl. rewrite <- (insert_delete_eq (sq_queue db)). rewrite map_to_list_insert by (by rewrite lookup_delete_eq).
      simpl. by rewrite scan_known.
Qed.

Lemma refines_cleanup db now db' n : well_keyed db → no_boundary now db → Cleanup now db = (db', n) → refines db (EvCleanup now (Ok n)) db'.
Proof.
  intros Hw Hb. unfold Cleanup. intros [= <- <-].
  assert (Hle : ∀ m, m ∈ pending db → qm_ExpiresAt m ≤ now ↔ IsExpired now m = true).
  { intros m Hm. unfold IsExpired. rewrite Z.ltb_lt. specialize (Hb m Hm). lia. }
  assert (Hexp : length (expired now (pending db)) = size (filter (λ kr, qr_expires_at kr.2 ≤ now) (sq_queue db))).
  { rewrite (count_rows _ (λ m, qm_ExpiresAt m ≤ now)); [|apply Hw|done]. f_equal. apply filter_agree. intros m Hm. by rewrite Hle. }
  rewrite <- Hexp. apply spec_cleanup. unfold pending at 1. simpl.
  rewrite (filter_rows _ (λ m, ¬ qm_ExpiresAt m ≤ now)); [|apply Hw|done]. erewrite filter_agree; [done|].
  intros m Hm. rewrite Hle by done. by destruct (IsExpired now m).
Qed.

(** ** What a receiver gets *)

Lemma delete_rows db (rows : list (string * QueueRow)) : well_keyed db → NoDup rows.*1 → (∀ kr, kr ∈ rows → sq_queue db !! kr.1 = Some kr.2) →
  let out := omap scanMessage rows in
  let rest := foldl (λ q m, delete (uuid_String (qm_ID m)) q) (sq_queue db) out in
  pending db ≡ₚ out ++ omap scanMessage (map_to_list rest) ∧
  (∀ k r, rest !! k = Some r ↔ sq_queue db !! k = Some r ∧ k ∉ rows.*1).
Proof.
  intros Hw. revert db Hw. induction rows as [|[k r] rows IH]; intros db Hw Hnd Hin; simpl.
  { split; [done|]. intros k r. split; [intros ?; split; [done | apply not_elem_of_nil] | by intros []]. }
  pose proof (Hin (k, r) ltac:(by left)) as Hr. simpl in Hr. destruct (wk_queue _ Hw k) as [id ->]; [eauto|]. rewrite scan_known. simpl.
  apply NoDup_cons in Hnd as [Hk Hnd]. set (db1 := with_queue db (delete (uuid_String id) (sq_queue db))).
  assert (Hw1 : well_keyed db1).
  { destruct Hw as [W1 W2]. split; [|done]. intros k' [r' Hr']. apply W1. simpl in Hr'. apply lookup_delete_Some in Hr' as [_ ?]. eauto. }
  destruct (IH db1 Hw1 Hnd) as [Hp Hl].
  { intros [k' r'] Hkr. simpl. rewrite lookup_delete_ne; [by apply (Hin (k', r')); right|]. intros He. apply Hk. rewrite He. apply list_elem_of_fmap. by exists (k', r'). }
  split.
  - rewrite (pending_lookup db id r Hr). change (omap scanMessage (map_to_list (delete (uuid_String id) (sq_queue db)))) with (pending db1). by rewrite Hp.
  - intros k' r'. simpl in Hl. rewrite Hl, lookup_delete_Some, not_elem_of_cons. naive_solver.
Qed.

Lemma omap_scan_keyed (rows : list (string * QueueRow)) : Forall (λ kr, ∃ id, kr.1 = uuid_String id) rows →
  length (omap scanMessage rows) = length rows ∧ (∀ m, m ∈ omap scanMessage rows → ∃ kr, kr ∈ rows ∧ qm_QueuedAt m = qr_queued_at kr.2) ∧
  (StronglySorted (key_le (λ kr, qr_queued_at kr.2)) rows → StronglySorted (key_le qm_QueuedAt) (omap scanMessage rows)).
Proof.
  induction 1 as [|[k r] rows [id Hid] Hk IH]; [split_and!; [done | by intros m ?%not_elem_of_nil | constructor]|].
  simpl in Hid. subst k. cbn [omap list_omap]. rewrite scan_known. destruct IH as (Hl & Hm & Hs). split_and!.
  - simpl. by rewrite Hl.
  - intros m [->|Hm']%elem_of_cons; [exists (uuid_String id, r); by split; [left|] | destruct (Hm m Hm') as (kr & ? & ?); exists kr; by split; [right|]].
  - intros [Hss Hr]%StronglySorted_inv. constructor; [auto|]. apply Forall_forall. intros m Hm'. destruct (Hm m Hm') as (kr & Hkr & Hq).
    rewrite Forall_forall in Hr. specialize (Hr kr Hkr). unfold key_le in *. simpl in *. lia.
Qed.


Lemma fmap_sublist {A B} (f : A → B) (l1 l2 : list A) : l1 `sublist_of` l2 → f <$> l1 `sublist_of` f <$> l2.
Proof. induction 1; simpl; by constructor. Qed.

Lemma cap_sublist {A} limit (l : list A) : cap limit l `sublist_of` l.
Proof. unfold cap. destruct (0 <? limit); [apply sublist_take | done]. Qed.

(** The rows of a page: those of the recipient that have not expired, oldest first, and what is
    left out is no older and only left out for the limit. *)
Lemma page_spec sort now db did limit : SortFunc (key_le (λ kr, qr_queued_at kr.2)) sort → 
  let page := pending_rows sort now db did limit in
  NoDup page.*1 ∧ StronglySorted (key_le (λ kr, qr_queued_at kr.2)) page ∧
  (∀ kr, kr ∈ page → sq_queue db !! kr.1 = Some kr.2 ∧ qr_recipient_did kr.2 = did ∧ now < qr_expires_at kr.2) ∧
  (0 < limit → Z.of_nat (length page) ≤ limit) ∧
  (∀ k r, sq_queue db !! k = Some r → k ∉ page.*1 → qr_recipient_did r = did → now < qr_expires_at r →
     (0 < limit ∧ Z.of_nat (length page) = limit) ∧ Forall (λ kr, qr_queued_at kr.2 ≤ qr_queued_at r) page).
Proof.
  intros HS page. unfold page, pending_rows. set (hits := filter _ (map_to_list (sq_queue db))).
  pose proof (sort_Permutation hits) as Hperm. pose proof (sort_Sorted hits) as Hsorted.
  assert (Hhit : ∀ k r, (k, r) ∈ hits ↔ sq_queue db !! k = Some r ∧ qr_recipient_did r = did ∧ now < qr_expires_at r).
  { intros k r. unfold hits. rewrite list_elem_of_filter, elem_of_map_to_list. simpl. tauto. }
  assert (Hnd : NoDup (sort hits).*1).
  { rewrite Hperm. apply (sublist_NoDup _ (map_to_list (sq_queue db)).*1); [apply NoDup_fst_map_to_list|]. apply fmap_sublist, sublist_filter. }
  assert (Hin : ∀ kr, kr ∈ cap limit (sort hits) → kr ∈ hits).
  { intros kr Hkr. rewrite <- Hperm. eapply elem_of_submseteq; [exact Hkr|]. apply sublist_submseteq, cap_sublist. }
  assert (Hsplit : ∃ rest, sort hits = cap limit (sort hits) ++ rest ∧ (rest = [] ∨ 0 < limit ∧ Z.of_nat (length (cap limit (sort hits))) = limit)).
  { unfold cap. destruct (0 <? limit) eqn:Hl; [apply Z.ltb_lt in Hl | exists []; rewrite app_nil_r; eauto].
    exists (drop (Z.to_nat limit) (sort hits)). split; [by rewrite take_drop|]. rewrite length_take.
    destruct (decide (Z.to_nat limit ≤ length (sort hits))%nat); [right; split; [done | lia] | left; apply drop_ge; lia]. }
  split_and!.
  - eapply sublist_NoDup; [exact Hnd|]. apply fmap_sublist, cap_sublist.
  - destruct Hsplit as (rest & He & _). rewrite He in Hsorted. rewrite StronglySorted_app in Hsorted. tauto.
  - intros [k r] Hkr. by apply Hhit, Hin.
  - apply cap_length.
  - intros k r Hr Hk Hdid Hexp. destruct Hsplit as (rest & He & Hrest).
    assert (Hkr : (k, r) ∈ rest).
    { assert (Hs : (k, r) ∈ sort hits) by (rewrite Hperm; by apply Hhit). rewrite He, elem_of_app in Hs. destruct Hs as [Hs|]; [|done].
      destruct Hk. apply list_elem_of_fmap. by exists (k, r). }
    destruct Hrest as [->|[Hl Hlen]]; [by apply not_elem_of_nil in Hkr|]. split; [done|].
    rewrite He in Hsorted. apply Forall_forall. intros kr Hin'. by apply (StronglySorted_app_1_elem_of _ _ _ kr (k, r) Hsorted).
Qed.

Lemma refines_dequeue db sort now did limit db' out : well_keyed db → SortFunc (key_le (λ kr, qr_queued_at kr.2)) sort → no_boundary now db →
  Dequeue sort now db did limit = (db', out) → refines db (EvDequeue now did limit (Ok out)) db'.
Proof.
  intros Hw HS Hb. unfold Dequeue. intros [= <- <-]. destruct (page_spec sort now db did limit HS) as (Hnd & Hss & Hin & Hlim & Hrest).
  set (page := pending_rows sort now db did limit) in *.
  assert (Hk : Forall (λ kr, ∃ id, kr.1 = uuid_String id) page).
  { apply Forall_forall. intros kr Hkr. apply (wk_queue _ Hw). destruct (Hin kr Hkr). eauto. }
  destruct (omap_scan_keyed page Hk) as (Hlen & Hq & Hsort).
  destruct (delete_rows db page Hw Hnd) as [Hp Hl]; [intros kr Hkr; by apply Hin|].
  apply spec_dequeue; [exact Hp|]. split_and!.
  - apply Forall_forall. intros m Hm. apply list_elem_of_omap in Hm as ([k r] & Hkr & Hs). destruct (Hin _ Hkr) as (Hr & Hd & He). simpl in *.
    destruct (wk_queue _ Hw k) as [id ->]; [eauto|]. rewrite scan_known in Hs. injection Hs as <-. split; [done|]. unfold IsExpired. simpl. lia.
  - by apply Hsort.
  - intros Hpos. rewrite Hlen. auto.
  - intros b Hbm Hdid Hlive. unfold pending in Hbm. simpl in Hbm. apply list_elem_of_omap in Hbm as ([k r] & Hkr & Hs).
    apply elem_of_map_to_list, Hl in Hkr as [Hr Hout]. destruct (wk_queue _ Hw k) as [id ->]; [eauto|]. rewrite scan_known in Hs. injection Hs as <-.
    assert (Hexp : qr_expires_at r ≠ now).
    { apply (Hb (message_of id r)). apply pending_elem; [done|]. by exists r. }
    unfold IsExpired in Hlive. simpl in *. apply Z.ltb_ge in Hlive.
    destruct (Hrest (uuid_String id) r Hr Hout Hdid) as [Hfull Hold]; [lia|]. rewrite Hlen. split; [done|].
    apply Forall_forall. intros m Hm. destruct (Hq m Hm) as (kr & Hkr' & ->). rewrite Forall_forall in Hold. by apply Hold.
Qed.

(** ** The store implements the queue *)

Lemma step_keyed db ev db' : well_keyed db → sql_step db ev db' → well_keyed db' ∧ sq_config db' = sq_config db.
Proof.
  intros [W1 W2] Hs.
  assert (Hins : ∀ {A} (m : gmap string A) id a, (∀ k, is_Some (m !! k) → ∃ id, k = uuid_String id) →
    ∀ k, is_Some (<[uuid_String id := a]> m !! k) → ∃ id, k = uuid_String id).
  { intros A m id a Hm k [r Hr]. apply lookup_insert_Some in Hr as [[<- _]|[_ Hr]]; eauto. }
  assert (Hdel : ∀ key k, is_Some (delete key (sq_queue db) !! k) → ∃ id, k = uuid_String id).
  { intros key k [r [_ Hr]%lookup_delete_Some]. eauto. }
  inversion Hs as [msg ? e err Hn He|sort now did limit ? out HS Hb He|id ? e err He|now id reason ? e err Hd He|now ? n Hb He]; subst.
  - unfold Enqueue in He. case_bool_decide; [by injection He as <- _|]. rewrite Hn in He. injection He as <- _. split; [|done]. split; simpl; [by apply Hins | done].
  - unfold Dequeue in He. injection He as <- _. split; [|done]. split; simpl; [|done].
    generalize (omap scanMessage (pending_rows sort now db did limit)). intros l. revert W1. generalize (sq_queue db).
    induction l as [|m l IH]; intros q Wq; [done|]. simpl. apply IH. intros k [r [_ Hr]%lookup_delete_Some]. eauto.
  - unfold Ack in He. destruct (sq_queue db !! _); injection He as <- _; [|done]. split; [|done]. split; simpl; [apply Hdel | done].
  - unfold Nack in He. destruct (sq_queue db !! _); [|by injection He as <- _]. rewrite Hd in He.
    case_bool_decide; [destruct (EnableDLQ _)|]; injection He as <- _; (split; [|done]); split; simpl; first [done | by apply Hins | apply Hdel].
  - unfold Cleanup in He. injection He as <- _. split; [|done]. split; simpl; [|done]. by apply filtered_keys.
Qed.

(** The stores that operations leave, from an empty one. *)
Inductive sql_reachable (c : Config) : SQLiteStore → Prop :=
| sql_new : sql_reachable c (NewSQLiteStore c)
| sql_next db ev db' : sql_reachable c db → sql_step db ev db' → sql_reachable c db'.


End bags.

(** ** A small queue *)

Module Example.

Definition message (n : nat) : QueuedMessage := {|
  qm_ID := uuid_lit n; qm_RecipientDID := "did:wba:bob"; qm_Data := "hello"; qm_QueuedAt := Z.of_nat n; qm_ExpiresAt := 100;
  qm_DeliveryAttempts := 0; qm_LastAttempt := None; qm_SenderDID := "did:wba:alice" |}.

Definition config : Config := {|
  MessageTTL := 100; MaxQueueSize := 2; MaxTotalMessages := 1; MaxDeliveryAttempts := 1; AckTimeout := 10; EnableDLQ := true |}.

Definition enqueue (n : nat) (db : SQLiteStore) : SQLiteStore := (@Enqueue HexRuntime.runtime db (message n)).1.
Definition two : SQLiteStore := enqueue 2 (enqueue 1 (NewSQLiteStore config)).

Lemma two_reachable : @sql_reachable HexRuntime.runtime config two.
Proof.
  apply (@sql_next HexRuntime.runtime config (enqueue 1 (NewSQLiteStore config)) (EvEnqueue (message 2) None)).
  - apply (@sql_next HexRuntime.runtime config (NewSQLiteStore config) (EvEnqueue (message 1) None)); [apply sql_new|].
    by apply (@sql_enqueue HexRuntime.runtime _ _ _ None).
  - by apply (@sql_enqueue HexRuntime.runtime _ _ _ None).
Qed.

End Example.

