(* ===== verification/RegistrySql.v ===== *)
(** * The SQLite store of the agent registry (src/pkg/registry/sqlite.go)

    The table agents as a map from the text of the identifiers to rows, with its unique DIDs,
    each statement of the code as what it does to it, and the store refined to the one in
    memory.  encoding/json for the columns of JSON text and SQLite's LIKE are parameters; the
    driver keeps times so that they compare as instants do. *)

From S2P Require Import Prelude Registry Migration QueueSql.
#[local] Open Scope Z_scope.

Class RegistryText := {
  Marshal_keys : list PublicKey → option string;
  Unmarshal_keys : string → option (list PublicKey);
  Marshal_endpoints : list Endpoint → option string;
  Unmarshal_endpoints : string → option (list Endpoint);
  Marshal_capabilities : list Capability → option string;
  Unmarshal_capabilities : string → option (list Capability);
  Marshal_metadata : list (string * any) → option string;
  Unmarshal_metadata : string → option (list (string * any));
  Marshal_acl : ACLPolicy → option string;
  Unmarshal_acl : string → option ACLPolicy;
  Like : string → string → bool;
}.

(** What is read back of a policy, when the column is not NULL. *)
Record AgentRow := {
  ar_did : string; ar_display_name : string; ar_public_keys : string; ar_endpoints : string; ar_capabilities : string;
  ar_acl : option string; ar_status : string; ar_last_seen : Z; ar_metadata : string; ar_tenant_id : string;
}.

Abbreviation SQLiteStore := (gmap string AgentRow).

Inductive SqlError := Failed (e : StoreError) | MarshalFailed | ConstraintFailed | ScanFailed.

(** ** The schema *)

Definition registry_migrations : list Stmt := [
  CreateTable "schema_migrations" ["version"; "applied_at"];
  CreateTable "agents" ["id"; "did"; "display_name"; "public_keys"; "endpoints"; "capabilities"; "acl"; "status"; "last_seen"; "metadata";
                        "created_at"; "updated_at"];
  CreateIndex "idx_agents_did" "agents" ["did"];
  CreateIndex "idx_agents_status" "agents" ["status"];
  CreateIndex "idx_agents_last_seen" "agents" ["last_seen"];
  AddColumn "agents" "tenant_id";
  CreateIndex "idx_agents_tenant" "agents" ["tenant_id"]].

Definition migrate (s : Schema) : result SchemaError Schema := run (numbered_start registry_migrations s) s.

Section sql.
Context `{Runtime} `{RegistryText}.
Implicit Types (db : SQLiteStore) (a : Agent).

Definition scanAgent (idStr : string) (r : AgentRow) : option Agent :=
  id ← uuid_Parse idStr;
  keys ← Unmarshal_keys (ar_public_keys r);
  endpoints ← Unmarshal_endpoints (ar_endpoints r);
  capabilities ← Unmarshal_capabilities (ar_capabilities r);
  metadata ← Unmarshal_metadata (ar_metadata r);
  acl ← match ar_acl r with
        | Some text => if decide (text = EmptyString) then Some None else Some <$> Unmarshal_acl text
        | None => Some None
        end;
  Some {| a_ID := id; a_DID := ar_did r; a_TenantID := ar_tenant_id r; a_DisplayName := ar_display_name r; a_PublicKeys := keys;
          a_Endpoints := endpoints; a_Capabilities := capabilities; a_ACL := acl; a_Status := ar_status r; a_LastSeen := ar_last_seen r;
          a_Metadata := metadata; a_Presence := None; a_PresenceCfg := None; a_Role := EmptyString; a_DelegationNamespace := EmptyString |}.

Definition scan_or_fail (idStr : string) (r : AgentRow) : result SqlError Agent :=
  match scanAgent idStr r with Some a => Ok a | None => Err ScanFailed end.

Definition Get db (id : uuid) : result SqlError Agent :=
  match db !! uuid_String id with None => Err (Failed ErrAgentNotFound) | Some r => scan_or_fail (uuid_String id) r end.

(** The row with a DID: the column is unique. *)
Definition row_by_did db (did : string) : option (string * AgentRow) :=
  snd <$> list_find (λ kr, ar_did kr.2 = did) (map_to_list db).

Definition GetByDID db (did : string) : result SqlError Agent :=
  match row_by_did db did with None => Err (Failed ErrAgentNotFound) | Some (k, r) => scan_or_fail k r end.

Definition agent_row a (keys endpoints capabilities metadata : string) (acl : option string) : AgentRow := {|
  ar_did := a_DID a; ar_display_name := a_DisplayName a; ar_public_keys := keys; ar_endpoints := endpoints; ar_capabilities := capabilities;
  ar_acl := acl; ar_status := a_Status a; ar_last_seen := a_LastSeen a; ar_metadata := metadata; ar_tenant_id := a_TenantID a |}.

(** The JSON texts of the columns. *)
Definition marshal_agent a : option AgentRow :=
  keys ← Marshal_keys (a_PublicKeys a);
  endpoints ← Marshal_endpoints (a_Endpoints a);
  capabilities ← Marshal_capabilities (a_Capabilities a);
  metadata ← Marshal_metadata (a_Metadata a);
  acl ← match a_ACL a with None => Some None | Some p => Some <$> Marshal_acl p end;
  Some (agent_row a keys endpoints capabilities metadata acl).

(** INSERT ... ON CONFLICT(did) DO UPDATE SET id = excluded.id, ...: the row with the DID is
    moved to the new identifier; an identifier that another row has is refused. *)
Definition Put db a : SQLiteStore * option SqlError :=
  match marshal_agent a with
  | None => (db, Some MarshalFailed)
  | Some row =>
      let key := uuid_String (a_ID a) in
      let rest := match row_by_did db (a_DID a) with Some (old, _) => delete old db | None => db end in
      match rest !! key with
      | Some _ => (db, Some ConstraintFailed)
      | None => (<[key := row]> rest, None)
      end
  end.

Definition Delete db (id : uuid) : SQLiteStore * option SqlError :=
  match db !! uuid_String id with
  | None => (db, Some (Failed ErrAgentNotFound))
  | Some _ => (delete (uuid_String id) db, None)
  end.

(** [sort] is ORDER BY last_seen DESC; rows that do not scan are skipped. *)
Definition List_ (sort : list (string * AgentRow) → list (string * AgentRow)) db : list Agent :=
  omap (λ kr, scanAgent kr.1 kr.2) (sort (map_to_list db)).

Definition quote : string := String (Ascii.ascii_of_nat 34) "".

Definition capability_pattern (capability : string) : string :=
  "%" +:+ quote +:+ "name" +:+ quote +:+ ":" +:+ quote +:+ capability +:+ quote +:+ "%".

Definition Search (sort : list (string * AgentRow) → list (string * AgentRow)) db (capability : string) : list Agent :=
  filter (λ a, HasCapability a capability = true)
    (omap (λ kr, scanAgent kr.1 kr.2)
       (sort (filter (λ kr, Like (capability_pattern capability) (ar_capabilities kr.2) = true) (map_to_list db)))).

Definition CountByTenant db (tenantID : string) : Z :=
  if decide (tenantID = EmptyString) then Z.of_nat (size db)
  else Z.of_nat (size (filter (λ kr, ar_tenant_id kr.2 = tenantID) db)).

Definition Stats db : Z * Z * Z :=
  (Z.of_nat (size db), Z.of_nat (size (filter (λ kr, ar_status kr.2 = StatusOnline) db)),
   Z.of_nat (size (filter (λ kr, ar_status kr.2 = StatusOffline) db))).

Definition stale (before : Z) (r : AgentRow) : bool := bool_decide (ar_last_seen r < before) && bool_decide (ar_status r = StatusOffline).

Definition Cleanup (before : Z) db : SQLiteStore * Z :=
  (filter (λ kr, stale before kr.2 = false) db, Z.of_nat (size (filter (λ kr, stale before kr.2 = true) db))).

End sql.

(** ** The schema after an interrupted start *)

Definition stuck_schema : Schema := {|
  sc_tables := {["schema_migrations" := list_to_set ["version"; "applied_at"];
                 "agents" := list_to_set ["id"; "did"; "display_name"; "public_keys"; "endpoints"; "capabilities"; "acl"; "status"; "last_seen";
                                          "metadata"; "created_at"; "updated_at"; "tenant_id"]]};
  sc_indexes := {["idx_agents_did"; "idx_agents_status"; "idx_agents_last_seen"]}; sc_versions := {[1; 2; 3; 4]} |}.

Definition schema_of (r : result SchemaError Schema) : Schema := match r with Ok s => s | Err _ => empty_schema end.

(** The queue's schema recovers from every interruption. *)
Definition full_queue_schema : Schema := schema_of (QueueSql.migrate empty_schema).

Lemma queue_closed : closed (numbered_start queue_migrations) (trail (numbered_start queue_migrations empty_schema) empty_schema) full_queue_schema = true.
Proof. by vm_compute. Qed.

Lemma queue_migration_recovers s : reached (numbered_start queue_migrations) s → QueueSql.migrate s = Ok full_queue_schema.
Proof. intros Hs. exact (proj2 (closed_reached _ _ _ _ queue_closed Hs)). Qed.

Lemma stuck_reached : reached (numbered_start registry_migrations) stuck_schema.
Proof.
  apply (reached_start _ 10 empty_schema); [apply reached_empty|].
  destruct (run (take 10 _) empty_schema) as [s|e] eqn:Hr.
  - f_equal. apply (bool_decide_unpack _). revert Hr.
    assert (Hok : (match run (take 10 (numbered_start registry_migrations empty_schema)) empty_schema with Ok s => bool_decide (s = stuck_schema) | Err _ => false end) = true) by (by vm_compute).
    intros Hr. rewrite Hr in Hok. by rewrite Hok.
  - exfalso. assert (Hok : (match run (take 10 (numbered_start registry_migrations empty_schema)) empty_schema with Ok _ => true | Err _ => false end) = true) by (by vm_compute).
    by rewrite Hr in Hok.
Qed.

(** A start of the relay that is interrupted between adding the column tenant_id and recording
    that it was added: the next start, and every one after it, fails on the duplicate column. *)
Lemma registry_migration_stuck :
  ∃ s, reached (numbered_start registry_migrations) s ∧ migrate s = Err DuplicateColumn.
Proof. exists stuck_schema. split; [apply stuck_reached | by vm_compute]. Qed.

(** ** The store in memory and the one in the table *)

(** What is read back of an agent: presence, role and delegation have no column. *)
Definition stored (a : Agent) : Agent := {|
  a_ID := a_ID a; a_DID := a_DID a; a_TenantID := a_TenantID a; a_DisplayName := a_DisplayName a; a_PublicKeys := a_PublicKeys a;
  a_Endpoints := a_Endpoints a; a_Capabilities := a_Capabilities a; a_ACL := a_ACL a; a_Status := a_Status a; a_LastSeen := a_LastSeen a;
  a_Metadata := a_Metadata a; a_Presence := None; a_PresenceCfg := None; a_Role := EmptyString; a_DelegationNamespace := EmptyString |}.

Section refinement.
Context `{UuidLaws} `{RegistryText}.
Implicit Types (db : SQLiteStore) (a : Agent) (s : MemoryStore).

(** A value whose JSON text is read back. *)
Definition read_back {A} (marshal : A → option string) (unmarshal : string → option A) (v : A) : Prop :=
  ∃ t, t ≠ EmptyString ∧ marshal v = Some t ∧ unmarshal t = Some v.

Record persistable a : Prop := {
  ps_did : a_DID a ≠ EmptyString;
  ps_keys : read_back Marshal_keys Unmarshal_keys (a_PublicKeys a);
  ps_endpoints : read_back Marshal_endpoints Unmarshal_endpoints (a_Endpoints a);
  ps_capabilities : read_back Marshal_capabilities Unmarshal_capabilities (a_Capabilities a);
  ps_metadata : read_back Marshal_metadata Unmarshal_metadata (a_Metadata a);
  ps_acl p : a_ACL a = Some p → read_back Marshal_acl Unmarshal_acl p;
}.

Definition row_of a : AgentRow := default (agent_row a EmptyString EmptyString EmptyString EmptyString None) (marshal_agent a).

Lemma row_of_columns a : ar_did (row_of a) = a_DID a ∧ ar_tenant_id (row_of a) = a_TenantID a.
Proof.
  unfold row_of, marshal_agent. destruct (Marshal_keys _); [|done]. destruct (Marshal_endpoints _); [|done].
  destruct (Marshal_capabilities _); [|done]. destruct (Marshal_metadata _); [|done]. simpl.
  destruct (a_ACL a) as [p|]; [|done]. simpl. by destruct (Marshal_acl p).
Qed.

Lemma persistable_row a : persistable a → marshal_agent a = Some (row_of a) ∧ scanAgent (uuid_String (a_ID a)) (row_of a) = Some (stored a).
Proof.
  intros [_ (tk & _ & Mk & Uk) (te & _ & Me & Ue) (tc & _ & Mc & Uc) (tm & _ & Mm & Um) Ha]. unfold row_of, marshal_agent.
  rewrite Mk, Me, Mc, Mm. simpl. unfold scanAgent, stored. destruct (a_ACL a) as [p|] eqn:Hacl; simpl.
  - destruct (Ha p eq_refl) as (t & Ht & Mp & Up). rewrite Mp. simpl. split; [done|].
    by rewrite uuid_Parse_String, Uk, Ue, Uc, Um, decide_False, Up by done.
  - split; [done|]. by rewrite uuid_Parse_String, Uk, Ue, Uc, Um.
Qed.

(** The table mirrors the map. *)
Definition mirror (m : gmap uuid Agent) : SQLiteStore := kmap uuid_String (row_of <$> m).

Record mirrors db s : Prop := {
  mi_rows : db = mirror (agents s);
  mi_paired : paired s;
  mi_persistable id a : agents s !! id = Some a → persistable a;
}.

Lemma mirror_lookup m id : mirror m !! uuid_String id = row_of <$> m !! id.
Proof. unfold mirror. rewrite lookup_kmap; [by rewrite lookup_fmap | apply _]. Qed.

Lemma mirror_Some m k r : mirror m !! k = Some r → ∃ id a, k = uuid_String id ∧ m !! id = Some a ∧ r = row_of a.
Proof.
  intros (id & -> & Hr)%lookup_kmap_Some; [|apply _]. rewrite lookup_fmap in Hr. destruct (m !! id) as [a|] eqn:Ha; [|done].
  injection Hr as <-. eauto.
Qed.

Lemma mirror_insert m a id : <[uuid_String id := row_of a]> (mirror m) = mirror (<[id := a]> m).
Proof. unfold mirror. rewrite fmap_insert, kmap_insert; [done | apply _]. Qed.

Lemma mirror_delete m id : delete (uuid_String id) (mirror m) = mirror (delete id m).
Proof. unfold mirror. rewrite fmap_delete, kmap_delete; [done | apply _]. Qed.

Lemma row_by_did_spec db did : match row_by_did db did with
  | Some (k, r) => db !! k = Some r ∧ ar_did r = did | None => ∀ k r, db !! k = Some r → ar_did r ≠ did end.
Proof.
  unfold row_by_did. destruct (list_find _ _) as [[i [k r]]|] eqn:Hf; simpl.
  - apply list_find_Some in Hf as (Hl & Hd & _). split; [|done]. by apply elem_of_map_to_list, (list_elem_of_lookup_2 _ i).
  - apply list_find_None in Hf. rewrite Forall_forall in Hf. intros k r Hr. apply (Hf (k, r)). by apply elem_of_map_to_list.
Qed.

Lemma row_by_did_mirror db s did : mirrors db s →
  row_by_did db did = (id ← byDID s !! did; a ← agents s !! id; Some (uuid_String id, row_of a)).
Proof.
  intros [-> [Hs Hc] Hp]. pose proof (row_by_did_spec (mirror (agents s)) did) as Hr. destruct (row_by_did _ did) as [[k r]|].
  - destruct Hr as [(id & a & -> & Ha & ->)%mirror_Some Hd]. rewrite (proj1 (row_of_columns a)) in Hd. subst did.
    destruct (Hc id a Ha) as [_ Hi]. rewrite (Hi (ps_did a (Hp id a Ha))). simpl. by rewrite Ha.
  - destruct (byDID s !! did) as [id|] eqn:Hb; [|done]. destruct (Hs did id Hb) as (_ & a & Ha & Hd).
    exfalso. apply (Hr (uuid_String id) (row_of a)); [by rewrite mirror_lookup, Ha | by rewrite (proj1 (row_of_columns a))].
Qed.

Lemma put_mirrors db s a : mirrors db s → keeps_pairing s a → persistable a →
  (Put db a).2 = None ∧ mirrors (Put db a).1 (put_agent s a).
Proof.
  intros Hm [Hid Hdid] Ha. pose proof (row_by_did_mirror db s (a_DID a) Hm) as Hr. destruct Hm as [-> Hpair Hp].
  assert (Hput : Put (mirror (agents s)) a = (mirror (<[a_ID a := a]> (agents s)), None)).
  { unfold Put. rewrite (proj1 (persistable_row a Ha)), Hr. destruct (byDID s !! a_DID a) as [id|] eqn:Hb; simpl.
    - rewrite (Hdid id eq_refl) in *. destruct (index_sound s Hpair _ _ Hb) as (_ & b & Hb' & _). rewrite Hb'. simpl.
      by rewrite lookup_delete_eq, insert_delete_eq, mirror_insert.
    - rewrite mirror_lookup. destruct (agents s !! a_ID a) as [b|] eqn:Hb'; [|by rewrite <- mirror_insert].
      exfalso. destruct (index_complete s Hpair _ _ Hb') as [_ Hi]. rewrite (Hid b eq_refl) in Hi. rewrite Hi in Hb; [done | by apply ps_did]. }
  rewrite Hput. split; [done|]. split; simpl; [done | by apply paired_put|].
  intros id b [[<- <-]|[_ Hb]]%lookup_insert_Some; [done | by apply (Hp id)].
Qed.

Lemma delete_mirrors db s id : mirrors db s →
  (Delete db id).2 = Failed <$> (MemoryStore_Delete s id).2 ∧ mirrors (Delete db id).1 (MemoryStore_Delete s id).1.
Proof.
  intros [-> Hpair Hp]. pose proof (paired_delete s id Hpair) as Hd. unfold Delete, MemoryStore_Delete in *. rewrite mirror_lookup.
  destruct (agents s !! id) as [a|] eqn:Ha; simpl; [|done]. split; [done|]. split; simpl; [by rewrite mirror_delete | done|].
  intros id' b [_ Hb]%lookup_delete_Some. by apply (Hp id').
Qed.

(** The rows scanned are the agents. *)
Lemma scan_rows (P : string * AgentRow → Prop) (Q : Agent → Prop) `{!∀ x, Decision (P x)} `{!∀ x, Decision (Q x)} (m : gmap uuid Agent) :
  (∀ id a, m !! id = Some a → a_ID a = id ∧ persistable a ∧ (P (uuid_String id, row_of a) ↔ Q a)) →
  omap (λ kr, scanAgent kr.1 kr.2) (filter P (map_to_list (mirror m))) ≡ₚ stored <$> filter Q ((map_to_list m).*2).
Proof.
  induction m as [|id a m Hn IH] using map_ind; intros Hm; [done|].
  destruct (Hm id a) as (Hid & Hp & HPQ); [by rewrite lookup_insert_eq|].
  assert (Hn' : mirror m !! uuid_String id = None) by (by rewrite mirror_lookup, Hn).
  assert (Hm' : ∀ id' b, m !! id' = Some b → a_ID b = id' ∧ persistable b ∧ (P (uuid_String id', row_of b) ↔ Q b)).
  { intros id' b Hb. apply Hm. rewrite lookup_insert_ne; [done|]. intros <-. congruence. }
  specialize (IH Hm'). rewrite <- mirror_insert, !map_to_list_insert by done. rewrite fmap_cons, !filter_cons. simpl.
  destruct (decide (P (uuid_String id, row_of a))) as [HP|HP].
  - rewrite decide_True by (by apply HPQ). cbn [omap list_omap fst snd]. subst id. rewrite (proj2 (persistable_row a Hp)). simpl. by rewrite IH.
  - rewrite decide_False by (by rewrite <- HPQ). done.
Qed.

Lemma count_agents (P : string * AgentRow → Prop) (Q : Agent → Prop) `{!∀ x, Decision (P x)} `{!∀ x, Decision (Q x)} (m : gmap uuid Agent) :
  (∀ id a, m !! id = Some a → P (uuid_String id, row_of a) ↔ Q a) →
  size (filter P (mirror m)) = length (filter Q ((map_to_list m).*2)).
Proof.
  induction m as [|id a m Hn IH] using map_ind; intros Hm; [done|].
  assert (Hn' : mirror m !! uuid_String id = None) by (by rewrite mirror_lookup, Hn).
  assert (HPQ : P (uuid_String id, row_of a) ↔ Q a) by (apply Hm; by rewrite lookup_insert_eq).
  rewrite <- mirror_insert, map_to_list_insert by done. rewrite fmap_cons, filter_cons. simpl.
  assert (IH' : size (filter P (mirror m)) = length (filter Q ((map_to_list m).*2))).
  { apply IH. intros id' b Hb. apply Hm. rewrite lookup_insert_ne; [done|]. intros <-. congruence. }
  destruct (decide (P (uuid_String id, row_of a))) as [HP|HP].
  - rewrite decide_True by (by apply HPQ). rewrite map_filter_insert_True by done.
    rewrite map_size_insert_None by (apply map_lookup_filter_None; by left). simpl. by rewrite IH'.
  - rewrite decide_False by (by rewrite <- HPQ). rewrite map_filter_insert_not'; [done | done |]. intros y Hy. congruence.
Qed.

(** The same history on both stores: registrations that keep the pairing of identifiers and
    DIDs, and deletions. *)
Inductive both : SQLiteStore → MemoryStore → Prop :=
| both_new : both ∅ NewMemoryStore
| both_put db s a : both db s → keeps_pairing s a → persistable a → both (Put db a).1 (MemoryStore_Put s a).1
| both_delete db s id : both db s → both (Delete db id).1 (MemoryStore_Delete s id).1.

Lemma both_mirrors db s : both db s → mirrors db s.
Proof.
  induction 1 as [|db s a _ IH Hk Hp|db s id _ IH].
  - split; [done | apply paired_new |]. intros id a Ha. simpl in Ha. by rewrite lookup_empty in Ha.
  - by apply put_mirrors.
  - by apply delete_mirrors.
Qed.

Lemma filter_found (P : Agent → Prop) `{!∀ x, Decision (P x)} capability (l : list Agent) :
  Forall (λ a, HasCapability a capability = true → P a) l →
  filter (λ a, HasCapability a capability = true) (stored <$> filter P l) = stored <$> filter (λ a, HasCapability a capability = true) l.
Proof.
  induction 1 as [|a l Ha _ IH]; [done|]. rewrite !filter_cons. destruct (decide (HasCapability a capability = true)) as [Hc|Hc].
  - rewrite decide_True by auto. rewrite !fmap_cons, filter_cons, IH. by rewrite decide_True.
  - destruct (decide (P a)); [|done]. rewrite fmap_cons, filter_cons, IH. by rewrite decide_False.
Qed.

(** After the same registrations and deletions the SQLite registry answers as the one in
    memory does, up to presence, role and delegation, which it does not keep: lookups by
    identifier and by DID give the same agents or the same error, listing and searching the
    same agents in some order, the count of every tenant is the same; and the next such
    registration or deletion gives the same result.  Search needs that LIKE finds the name of
    the capability in the text of the capabilities. *)
Theorem registry_sql_refines db s : both db s →
  (∀ id, Get db id = match MemoryStore_Get s id with Ok a => Ok (stored a) | Err e => Err (Failed e) end) ∧
  (∀ did, GetByDID db did = match MemoryStore_GetByDID s did with Ok (Some a) => Ok (stored a) | _ => Err (Failed ErrAgentNotFound) end) ∧
  (∀ sort, (∀ l, sort l ≡ₚ l) → List_ sort db ≡ₚ stored <$> MemoryStore_List s) ∧
  (∀ sort capability, (∀ l, sort l ≡ₚ l) →
     Forall (λ a, HasCapability a capability = true → Like (capability_pattern capability) (ar_capabilities (row_of a)) = true) (MemoryStore_List s) →
     Search sort db capability ≡ₚ stored <$> MemoryStore_Search s capability) ∧
  (∀ tenantID, CountByTenant db tenantID = MemoryStore_CountByTenant s tenantID) ∧
  (∀ a, keeps_pairing s a → persistable a → (Put db a).2 = None) ∧
  (∀ id, (Delete db id).2 = Failed <$> (MemoryStore_Delete s id).2).
Proof.
  intros Hm%both_mirrors. pose proof (mi_paired db s Hm) as Hpair.
  assert (Hrow : ∀ id a, agents s !! id = Some a → a_ID a = id ∧ persistable a)
    by (intros id a Ha; split; [apply (index_complete s Hpair id a Ha) | by apply (mi_persistable db s Hm id)]).
  assert (Hscan : ∀ id a, agents s !! id = Some a → scan_or_fail (uuid_String id) (row_of a) = Ok (stored a)).
  { intros id a Ha. destruct (Hrow id a Ha) as [<- Hp]. unfold scan_or_fail. by rewrite (proj2 (persistable_row a Hp)). }
  refine (conj _ (conj _ (conj _ (conj _ (conj _ (conj _ _)))))).
  - intros id. unfold Get, MemoryStore_Get. rewrite (mi_rows db s Hm), mirror_lookup.
    destruct (agents s !! id) as [a|] eqn:Ha; [by apply Hscan | done].
  - intros did. unfold GetByDID, MemoryStore_GetByDID. rewrite (row_by_did_mirror db s did Hm).
    destruct (byDID s !! did) as [id|]; [|done]. simpl. destruct (agents s !! id) as [a|] eqn:Ha; [by apply Hscan | done].
  - intros sort Hsort. unfold List_. rewrite (Hsort _), (mi_rows db s Hm).
    pose proof (scan_rows (λ _, True) (λ _, True) (agents s)) as Hl. rewrite !filter_all in Hl by (by apply Forall_forall). apply Hl.
    intros id a Ha. destruct (Hrow id a Ha). done.
  - intros sort cap Hsort Hlike. unfold Search. rewrite (Hsort _), (mi_rows db s Hm).
    rewrite (scan_rows _ (λ a, Like (capability_pattern cap) (ar_capabilities (row_of a)) = true) (agents s))
      by (intros id a Ha; destruct (Hrow id a Ha); done).
    by rewrite filter_found.
  - intros t. unfold CountByTenant, MemoryStore_CountByTenant. rewrite (mi_rows db s Hm). case_decide as Ht.
    + unfold mirror. rewrite <- length_map_to_list, (map_to_list_kmap uuid_String), length_fmap, length_map_to_list. by rewrite map_size_fmap.
    + rewrite count_loop, Z.add_0_l. f_equal. apply count_agents. intros id a _. simpl. by rewrite (proj2 (row_of_columns a)).
  - intros a Hk Hp. by apply (put_mirrors db s).
  - intros id. by apply delete_mirrors.
Qed.

(** ** Where the two stores differ *)

(** The row with a DID, when DIDs are unique. *)
Definition unique_dids db : Prop := ∀ k1 k2 r1 r2, db !! k1 = Some r1 → db !! k2 = Some r2 → ar_did r1 = ar_did r2 → k1 = k2.

Lemma row_by_did_unique db k r : unique_dids db → db !! k = Some r → row_by_did db (ar_did r) = Some (k, r).
Proof.
  intros Hu Hr. pose proof (row_by_did_spec db (ar_did r)) as Hs. destruct (row_by_did db _) as [[k' r']|]; [|by destruct (Hs k r)].
  destruct Hs as [Hr' Hd]. assert (k' = k) as -> by (by apply (Hu _ _ r' r)). congruence.
Qed.

Lemma put_unique db a : unique_dids db → unique_dids (Put db a).1.
Proof.
  intros Hu. unfold Put. destruct (marshal_agent a) as [row|] eqn:Hrow; [|done].
  assert (Hd : ar_did row = a_DID a) by (pose proof (proj1 (row_of_columns a)) as Hd; unfold row_of in Hd; by rewrite Hrow in Hd).
  pose proof (row_by_did_spec db (a_DID a)) as Hs.
  set (rest := match row_by_did db (a_DID a) with Some (old, _) => _ | None => _ end).
  assert (Hrest : ∀ k r, rest !! k = Some r → db !! k = Some r ∧ ar_did r ≠ a_DID a).
  { subst rest. destruct (row_by_did db _) as [[old r']|]; [|intros k r Hr; split; [done | by apply (Hs k)]].
    intros k r [Hne Hr]%lookup_delete_Some. split; [done|]. intros Hk. apply Hne. destruct Hs. apply (Hu _ _ r' r); [done | done | congruence]. }
  destruct (rest !! uuid_String (a_ID a)) eqn:He; [done|]. simpl. clearbody rest.
  intros k1 k2 r1 r2 H1' H2' Heq. apply lookup_insert_Some in H1' as [[<- <-]|[_ [H1' N1]%Hrest]];
    apply lookup_insert_Some in H2' as [[<- <-]|[_ [H2' N2]%Hrest]]; [done | congruence | congruence | by apply (Hu _ _ r1 r2)].
Qed.

(** A registration with the identifier of an agent that has another DID is refused by the table;
    in memory it redirects the other agent's DID ([Registry.registry_id_reuse_hijacks_did]). *)
Lemma reused_id_refused db a r : unique_dids db → is_Some (marshal_agent a) →
  db !! uuid_String (a_ID a) = Some r → ar_did r ≠ a_DID a → Put db a = (db, Some ConstraintFailed).
Proof.
  intros Hu [row Hrow] Hr Hne. unfold Put. rewrite Hrow. pose proof (row_by_did_spec db (a_DID a)) as Hs.
  destruct (row_by_did db (a_DID a)) as [[old r']|]; [|by rewrite Hr].
  destruct Hs as [Hr' Hd]. rewrite lookup_delete_ne, Hr by (intros ->; congruence). done.
Qed.

(** A registration of a known DID with a new identifier replaces the agent in the table, where
    the store in memory keeps the old record beside it. *)
Lemma rebound_did_replaces db a k r : unique_dids db → is_Some (marshal_agent a) →
  db !! k = Some r → ar_did r = a_DID a → db !! uuid_String (a_ID a) = None →
  (Put db a).2 = None ∧ (Put db a).1 !! k = None ∧ size (Put db a).1 = size db.
Proof.
  intros Hu [row Hrow] Hr Hd Hn. unfold Put. rewrite Hrow, <- Hd, (row_by_did_unique db k r Hu Hr). simpl.
  rewrite lookup_delete_ne, Hn by (intros ->; congruence). simpl.
  rewrite lookup_insert_ne, lookup_delete_eq by (intros <-; congruence).
  rewrite map_size_insert_None by (apply lookup_delete_None; by right). split_and!; [done | done |].
  by rewrite <- (insert_delete_id db k r Hr) at 2; rewrite map_size_insert_None by (by rewrite lookup_delete_eq).
Qed.

End refinement.

(** ** A small registry *)

Module Example.

Definition named (name : string) : Capability := {| cap_Name := name; cap_Description := ""; cap_Methods := []; cap_Schema := [] |}.
Definition name_text (name : string) : string := quote +:+ "name" +:+ quote +:+ ":" +:+ quote +:+ name +:+ quote.

#[export] Instance codec : RegistryText := {|
  Marshal_keys l := match l with [] => Some "[]" | _ => None end; Unmarshal_keys _ := Some [];
  Marshal_endpoints l := match l with [] => Some "[]" | _ => None end; Unmarshal_endpoints _ := Some [];
  Marshal_capabilities l := match cap_Name <$> l with [] => Some "[]" | [n] => if decide (n = "chat") then Some (name_text n) else None | _ => None end;
  Unmarshal_capabilities t := if decide (t = "[]") then Some [] else if decide (t = name_text "chat") then Some [named "chat"] else None;
  Marshal_metadata l := match l with [] => Some "{}" | _ => None end; Unmarshal_metadata _ := Some [];
  Marshal_acl _ := None; Unmarshal_acl _ := None;
  Like p t := String.eqb p ("%" +:+ t +:+ "%") |}.

Definition alice : Agent := a_with_parts (NewAgent (uuid_lit 1) 0 "did:wba:alice" "Alice") "t1" [] [] [named "chat"].
Definition bob : Agent := NewAgent (uuid_lit 2) 0 "did:wba:bob" "Bob".

Definition history (db : SQLiteStore) : SQLiteStore :=
  (@Delete HexRuntime.runtime (@Put HexRuntime.runtime codec (@Put HexRuntime.runtime codec db alice).1 bob).1 (uuid_lit 2)).1.
Definition memory : MemoryStore :=
  (MemoryStore_Delete (MemoryStore_Put (MemoryStore_Put NewMemoryStore alice).1 bob).1 (uuid_lit 2)).1.

Lemma persistable_alice : @persistable codec alice.
Proof. split; [done | by exists "[]" | by exists "[]" | by exists (name_text "chat") | by exists "{}" | done]. Qed.

Lemma persistable_bob : @persistable codec bob.
Proof. split; [done | by exists "[]" | by exists "[]" | by exists "[]" | by exists "{}" | done]. Qed.

Lemma history_both : @both HexRuntime.runtime codec (history ∅) memory.
Proof.
  apply both_delete, both_put; [apply both_put; [apply both_new | | apply persistable_alice] | | apply persistable_bob].
  - split; intros ? Hl; simpl in Hl; by rewrite lookup_empty in Hl.
  - split; intros ? Hl; vm_compute in Hl; discriminate.
Qed.

Lemma memory_list : MemoryStore_List memory = [alice].
Proof. by vm_compute. Qed.

End Example.

Lemma registry_sql_refines_witness :
  @GetByDID HexRuntime.runtime Example.codec (Example.history ∅) "did:wba:alice" = Ok (stored Example.alice) ∧
  @Search HexRuntime.runtime Example.codec id (Example.history ∅) "chat" ≡ₚ [stored Example.alice] ∧
  CountByTenant (Example.history ∅) "t1" = 1.
Proof.
  destruct (@registry_sql_refines HexRuntime.runtime HexRuntime.runtime_laws Example.codec (Example.history ∅) Example.memory Example.history_both)
    as (_ & Hdid & _ & Hsearch & Hcount & _).
  rewrite Hdid, Hcount. split; [reflexivity|]. split; [|reflexivity].
  rewrite Hsearch; [|done |].
  - unfold MemoryStore_Search. rewrite Example.memory_list. reflexivity.
  - rewrite Example.memory_list. apply Forall_singleton. reflexivity.
Defined.
