(* ===== verification/Signup.v ===== *)
(** * Sign-up and e-mail verification (src/cmd/relay: signup.go, verify_email.go,
    email_resend.go)

    The public endpoints that create tenants and verify their addresses, with their rate
    limits.  Trimming and lower-casing are those of ASCII text; the provider's API, the
    random bytes and SHA-256 are arguments, and a message is sent by a step of its own, as
    the goroutine does it. *)

From S2P Require Import Prelude Oauth Reliability Billing Http BillingHttp Metering Stripe.
From Stdlib Require Import QArith.
#[local] Open Scope Z_scope.

(** ** Checks of the input *)

Definition at_sign : Ascii.ascii := Ascii.ascii_of_nat 64.
Definition dot : Ascii.ascii := Ascii.ascii_of_nat 46.

(** [\s] of package regexp: tab, line feed, form feed, carriage return and space. *)
Definition is_regexp_space (a : Ascii.ascii) : bool :=
  let n := Ascii.nat_of_ascii a in ((n =? 9) || (n =? 10) || (n =? 12) || (n =? 13) || (n =? 32))%nat.

Fixpoint string_exists (p : Ascii.ascii → bool) (s : string) : bool :=
  match s with EmptyString => false | String a s' => p a || string_exists p s' end.

(** A dot that is neither the first nor the last character. *)
Definition inner_dot (domain : string) : bool :=
  match domain with
  | EmptyString => false
  | String _ rest => match index_byte dot rest with
                     | Some i => bool_decide (S i < String.length rest)%nat
                     | None => false
                     end
  end.

(** [^[^@\s]+@[^@\s]+\.[^@\s]+$] *)
Definition emailRe (s : string) : bool :=
  match index_byte at_sign s with
  | None => false
  | Some i =>
      let domain := from (S i) s in
      bool_decide (0 < i)%nat && negb (has_byte at_sign domain) && negb (string_exists is_regexp_space s) && inner_dot domain
  end.

Definition validPlans (plan : string) : option Plan :=
  if decide (plan = "free"%string) then Some PlanFree
  else if decide (plan = "starter"%string) then Some PlanStarter
  else if decide (plan = "team"%string) then Some PlanTeam else None.

(** ** The limiter of sign-ups: requests in the current window, and its end in seconds *)

Definition ipRateLimiter : Type := gmap string (Z * Z).

Definition ip_allow (now : Z) (l : ipRateLimiter) (ip : string) (maxPerWindow windowSec : Z) : bool * ipRateLimiter :=
  let nowSec := now / Second in
  let '(count, reset) := match l !! ip with
                         | Some (count, reset) => if reset <=? nowSec then (0, nowSec + windowSec) else (count, reset)
                         | None => (0, nowSec + windowSec)
                         end in
  (count + 1 <=? maxPerWindow, <[ip := (count + 1, reset)]> l).

(** ** Sign-up *)

Record SignupRequest := { sr_Name : string; sr_Email : string; sr_Plan : string }.
Record SignupResponse := { sp_TenantID : string; sp_APIKey : string; sp_Status : string; sp_CheckoutURL : string }.

(** The clock, the order of the range loop over the tenants, the randomness of [NewTenant]
    and [GenerateAPIKey] ([None]: reading random bytes failed), and the environment name. *)
Record SignupEnv := {
  sg_now : Z; sg_order : list string; sg_tenantID : string; sg_seed : option string; sg_env : string; sg_keyID : string;
  sg_encoded : option string;
}.

Section signup.
Context (hashKey : string → string) (overrides : gmap string QuotaConfig).

(** The fields after trimming and lower-casing. *)
Definition normalise (req : SignupRequest) : SignupRequest := {|
  sr_Name := TrimSpace (sr_Name req);
  sr_Email := TrimSpace (ToLower (sr_Email req));
  sr_Plan := ToLower (TrimSpace (if decide (sr_Plan req = EmptyString) then "free"%string else sr_Plan req)) |}.

(** [origin] is the scheme and host the request came to. *)
Definition checkout_of (client : option StripeClient) (isPaid : bool) (tenant : Tenant) (plan : Plan) (origin : string) : option string :=
  if isPaid then
    match client with
    | Some c => CreateCheckoutSession c (t_ID tenant) plan (origin +:+ "/app/?checkout=success&tenant=" +:+ t_ID tenant) (origin +:+ "/pricing?checkout=canceled")
    | None => None
    end
  else Some EmptyString.

(** From the new tenant to the response. *)
Definition create_account (e : SignupEnv) (client : option StripeClient) (origin : string) (s : BillingStore) (req : SignupRequest) (plan : Plan)
  : BillingStore * result HTTPError SignupResponse :=
  let isPaid := bool_decide (plan ≠ PlanFree) in
  match sg_seed e with
  | None => (s, Err (fail StatusInternalServerError "failed to create tenant"))
  | Some seed =>
      let tenant := NewTenant overrides (sg_tenantID e) seed (sg_now e) (sr_Name req) (sr_Email req) plan in
      let tenant := if isPaid then set_status "incomplete" tenant else tenant in
      match checkout_of client isPaid tenant plan origin with
      | None => (s, Err (fail StatusInternalServerError "failed to create checkout session"))
      | Some checkoutURL =>
          let s := PutTenant s tenant in
          match sg_encoded e ≫= λ encoded, GenerateAPIKey hashKey (sg_env e) (sg_keyID e) encoded (sg_now e) (t_ID tenant) "default" with
          | None => (s, Err (fail StatusInternalServerError "failed to generate API key"))
          | Some (plaintext, key) =>
              (PutAPIKey s key, Ok {| sp_TenantID := t_ID tenant; sp_APIKey := plaintext;
                                      sp_Status := if isPaid then "incomplete" else "active"; sp_CheckoutURL := checkoutURL |})
          end
      end
  end.

(** [body] is the decoded body; its error is the answer to a body that could not be read or
    decoded. *)
Definition signupHandler (e : SignupEnv) (client : option StripeClient) (origin : string) (r : Request) (body : result HTTPError SignupRequest)
    (l : ipRateLimiter) (s : BillingStore) : ipRateLimiter * BillingStore * result HTTPError SignupResponse :=
  if negb (String.eqb (rq_Method r) "POST") then (l, s, Err (fail StatusMethodNotAllowed "method not allowed"))
  else
    let '(ok, l) := ip_allow (sg_now e) l (signupRealIP r) 5 60 in
    if negb ok then (l, s, Err (fail StatusTooManyRequests "signup rate limit exceeded; try again in 60 seconds"))
    else match body with
    | Err err => (l, s, Err err)
    | Ok req =>
        let req := normalise req in
        if bool_decide (String.length (sr_Name req) < 2)%nat || bool_decide (100 < String.length (sr_Name req))%nat
        then (l, s, Err (fail StatusBadRequest "name must be 2-100 characters"))
        else if negb (emailRe (sr_Email req)) then (l, s, Err (fail StatusBadRequest "invalid email address"))
        else match validPlans (sr_Plan req) with
        | None => (l, s, Err (fail StatusBadRequest "plan must be one of: free, starter, team"))
        | Some plan =>
            if bool_decide (plan ≠ PlanFree) && (match client with None => true | Some _ => false end)
            then (l, s, Err (fail StatusServiceUnavailable "paid plans are not available: billing not configured"))
            else match GetTenantByEmail (sg_order e) s (sr_Email req) with
            | Ok _ => (l, s, Err (fail StatusConflict "an account already exists for this email; sign in at /app/"))
            | Err _ => let '(s, answer) := create_account e client origin s req plan in (l, s, answer)
            end
        end
    end.

End signup.

(** ** E-mail verification *)

Section verification.
Context `{OAuthLib}.

(** The step of the goroutine: the link that was mailed, when random bytes could be read. *)
Definition sendVerificationEmail (now : Z) (random : option string) (baseURL tenantID toEmail : string) (s : BillingStore)
  : BillingStore * option (string * string) :=
  match GenerateToken random with
  | None => (s, None)
  | Some (plain, hash) =>
      (PutEmailVerificationToken s hash tenantID toEmail (now + 24 * Hour), Some (toEmail, baseURL +:+ "/oauth/verify?token=" +:+ plain))
  end.

(** The position of [://]. *)
Fixpoint index_scheme (s : string) : option nat :=
  if HasPrefix s "://" then Some 0%nat
  else match s with EmptyString => None | String _ s' => S <$> index_scheme s' end.

Definition dashboard_url (relayBaseURL : string) : string :=
  match index_scheme relayBaseURL with
  | Some idx => before (idx + 3) relayBaseURL +:+ "app." +:+ from (idx + 3) relayBaseURL
  | None => relayBaseURL
  end.

(** [token] is the query parameter; the answer is the address of the redirection. *)
Definition verifyEmailHandler (now : Z) (relayBaseURL token : string) (s : BillingStore) : BillingStore * result HTTPError string :=
  if decide (token = EmptyString) then (s, Err (fail StatusBadRequest "missing token"))
  else match ConsumeEmailVerificationToken now s (HashToken token) with
  | (s, Err _) => (s, Err (fail StatusBadRequest "Verification link expired or already used. Sign in and request a new link."))
  | (s, Ok (tenantID, _)) =>
      match MarkTenantEmailVerified now s tenantID now with
      | (s, Some _) => (s, Err (fail StatusInternalServerError "Internal error. Please try again."))
      | (s, None) => (s, Ok (dashboard_url relayBaseURL +:+ "/app/?verified=1"))
      end
  end.

(** The limiter of repeated mails: when each key was last allowed. *)
Definition resend_window : Z := Minute.

Definition resend_allow (now : Z) (last : gmap string Z) (key : string) : bool * gmap string Z :=
  if (match last !! key with Some t => now - t <? resend_window | None => false end) then (false, last)
  else (true, filter (λ kt, ¬ resend_window < now - kt.2) (<[key := now]> last)).

(** The answer is a status and, when a mail is to be sent, its tenant and address. *)
Definition resendVerificationHandler (now : Z) (order : list string) (r : Request) (email : option string) (last : gmap string Z)
    (s : BillingStore) : gmap string Z * (Z * option (string * string)) :=
  if negb (String.eqb (rq_Method r) "POST") then (last, (StatusMethodNotAllowed, None))
  else match nonempty email with
  | None => (last, (StatusBadRequest, None))
  | Some email =>
      match resend_allow now last email with
      | (false, last) => (last, (StatusTooManyRequests, None))
      | (true, last) =>
          match resend_allow now last (signupRealIP r) with
          | (false, last) => (last, (StatusTooManyRequests, None))
          | (true, last) =>
              match GetTenantByEmail order s email with
              | Err _ => (last, (200, None))
              | Ok tenant => match t_EmailVerifiedAt tenant with
                             | Some _ => (last, (200, None))
                             | None => (last, (200, Some (t_ID tenant, t_Email tenant)))
                             end
              end
          end
      end
  end.

End verification.

(** ** Who can sign up, and what comes of it *)

Section signup_facts.
Context (hashKey : string → string) (overrides : gmap string QuotaConfig).

Lemma GenerateAPIKey_credential env id encoded now tenantID name plaintext k :
  GenerateAPIKey hashKey env id encoded now tenantID name = Some (plaintext, k) →
  IsAPIKeyToken plaintext = true ∧ k_KeyHash k = hashKey plaintext ∧ k_TenantID k = tenantID ∧ k_RevokedAt k = None ∧ k_ExpiresAt k = None.
Proof.
  unfold GenerateAPIKey. case_match; [done|]. intros [= <- <-]. split_and!; try done. unfold IsAPIKeyToken, keyEnvPrefix.
  case_decide; [rewrite (proj2 (HasPrefix_spec (_ +:+ encoded) apiKeyPrefixTest)) by eauto; by rewrite orb_true_r|].
  by rewrite (proj2 (HasPrefix_spec (_ +:+ encoded) apiKeyPrefixLive)) by eauto.
Qed.

(** What a successful sign-up leaves in the store. *)
Lemma create_account_Ok e client origin s req plan s' resp : create_account hashKey overrides e client origin s req plan = (s', Ok resp) →
  ∃ t k, s' = PutAPIKey (PutTenant s t) k ∧ t_ID t = sg_tenantID e ∧ sp_TenantID resp = sg_tenantID e ∧ t_Email t = sr_Email req ∧
    t_Plan t = plan ∧ IsActive t = true ∧ t_BillingStatus t = (if decide (plan = PlanFree) then "active" else "incomplete")%string ∧
    IsAPIKeyToken (sp_APIKey resp) = true ∧ k_KeyHash k = hashKey (sp_APIKey resp) ∧ k_TenantID k = sg_tenantID e ∧
    k_RevokedAt k = None ∧ k_ExpiresAt k = None.
Proof.
  unfold create_account. destruct (sg_seed e) as [seed|]; [|done].
  set (t := if bool_decide (plan ≠ PlanFree) then _ else _).
  assert (t_ID t = sg_tenantID e ∧ t_Email t = sr_Email req ∧ t_Plan t = plan ∧ IsActive t = true ∧
          t_BillingStatus t = (if decide (plan = PlanFree) then "active" else "incomplete")%string) as (Hid & He & Hp & Ha & Hb).
  { unfold t. destruct (decide (plan = PlanFree)) as [Hf|Hf]; [rewrite bool_decide_false by (by intros ?) | rewrite bool_decide_true by done]; by split_and!. }
  destruct (checkout_of _ _ _ _ _) as [url|]; [|done].
  destruct (sg_encoded e ≫= _) as [[plaintext k]|] eqn:Hk; [|done]. intros [= <- <-].
  destruct (sg_encoded e) as [encoded|]; [|done]. simpl in Hk. apply GenerateAPIKey_credential in Hk as (? & ? & ? & ? & ?).
  exists t, k. split_and!; simpl; congruence.
Qed.

Lemma create_account_Err e client origin s req plan s' err : create_account hashKey overrides e client origin s req plan = (s', Err err) →
  http_code err = StatusInternalServerError ∧
  (s' = s ∨ ∃ t, s' = PutTenant s t ∧ t_ID t = sg_tenantID e ∧ t_Email t = sr_Email req).
Proof.
  unfold create_account. destruct (sg_seed e) as [seed|]; [|intros [= <- <-]; by split; [|left]].
  set (t := if bool_decide (plan ≠ PlanFree) then _ else _).
  assert (t_ID t = sg_tenantID e ∧ t_Email t = sr_Email req) as [Hid He] by (unfold t; by case_bool_decide).
  destruct (checkout_of _ _ _ _ _) as [url|]; [|intros [= <- <-]; by split; [|left]].
  destruct (sg_encoded e ≫= _) as [[plaintext k]|]; [done|]. intros [= <- <-]. split; [done|]. right. eauto.
Qed.

(** The requests that get as far as creating an account. *)
Lemma signupHandler_cases e client origin r body l s :
  let '(_, s', answer) := signupHandler hashKey overrides e client origin r body l s in
  (s' = s ∧ ∃ err, answer = Err err) ∨
  ∃ req plan, body = Ok req ∧ validPlans (sr_Plan (normalise req)) = Some plan ∧ emailRe (sr_Email (normalise req)) = true ∧
    (∃ err, GetTenantByEmail (sg_order e) s (sr_Email (normalise req)) = Err err) ∧
    create_account hashKey overrides e client origin s (normalise req) plan = (s', answer).
Proof.
  unfold signupHandler. destruct (negb (String.eqb (rq_Method r) "POST")); [by left; eauto|].
  destruct (ip_allow _ _ _ _ _) as [[] l']; simpl; [|by left; eauto]. destruct body as [req|err]; [|by left; eauto].
  destruct (_ || _); [by left; eauto|]. destruct (emailRe _) eqn:He; simpl; [|by left; eauto].
  destruct (validPlans _) as [plan|] eqn:Hp; [|by left; eauto]. destruct (_ && _); [by left; eauto|].
  destruct (GetTenantByEmail _ _ _) eqn:Hg; [by left; eauto|].
  destruct (create_account _ _ _ _ _ _ _ _) as [s' answer] eqn:Hc. right. exists req, plan. split_and!; eauto.
Qed.

(** The API key that a sign-up returns is a credential of the new tenant. *)
Lemma account_credential jwtVal now s t k tok : IsAPIKeyToken tok = true → k_KeyHash k = hashKey tok → k_TenantID k = t_ID t →
  k_RevokedAt k = None → k_ExpiresAt k = None → keys s !! hashKey tok = Some k → tenants s !! t_ID t = Some t →
  credential hashKey jwtVal now s tok t.
Proof. intros Hk Hh Hid Hr Hx Hl Ht. apply (cred_key _ _ _ _ _ _ k); try done; [congruence | by rewrite Hid]. Qed.

(** C21. A sign-up for the free plan can be used at once with the API key it returns.  The
    key of a sign-up for a paid plan is answered 402 until the provider reports the completed
    checkout of that tenant; from then on it is let in, as that tenant and on that plan. *)
Theorem signup_then_pay `{StripeCodec} {ES} `{EventStore ES} e client origin r0 req l s l' s' resp plan
    {R} base jwtVal (next : Handler (R:=R)) env ctx r g :
  signupHandler hashKey overrides e client origin r0 (Ok req) l s = (l', s', Ok resp) → sg_tenantID e ≠ EmptyString →
  validPlans (sr_Plan (normalise req)) = Some plan →
  public_path r = false → bearer_token r = Some (sp_APIKey resp) → g_store g = s' →
  (auth_Allow (he_now env) (g_limiter g) (realIP r)).1 = true →
  let al := (auth_Allow (he_now env) (g_limiter g) (realIP r)).2 in
  let served g := ∃ t, t_ID t = sp_TenantID resp ∧ t_Plan t = plan ∧
    BearerMiddleware hashKey base jwtVal false next env ctx r g = next env (Some t) r (with_limiter g al) in
  (plan = PlanFree → served g) ∧
  (plan ≠ PlanFree →
     BearerMiddleware hashKey base jwtVal false next env ctx r g =
       (with_limiter g al, Refused (fail StatusPaymentRequired (paymentRequiredMessage base))) ∧
     ∀ se cfg (es : option ES) event sess X, completes event sess → cs_ClientReferenceID sess = sp_TenantID resp →
       cs_Subscription sess = Some X → X ≠ EmptyString →
       served (with_store g (HandleStripeEventWithConfig overrides se cfg s' es event).1.1)).
Proof.
  intros Hs Hid Hplan Hp Htok Hg Hal al served. pose proof (signupHandler_cases e client origin r0 (Ok req) l s) as Hc. rewrite Hs in Hc.
  destruct Hc as [[_ [err Herr]]|(req' & plan' & [= <-] & Hp' & _ & _ & Hc)]; [done|].
  assert (plan' = plan) as -> by congruence. apply create_account_Ok in Hc as (t & k & Hs' & Ht & Hresp & _ & Hpl & Ha & Hb & Hk & Hh & Hkt & Hr & Hx).
  assert (Hlk : keys s' !! hashKey (sp_APIKey resp) = Some k) by (rewrite Hs'; simpl; by rewrite Hh, lookup_insert_eq).
  assert (Hlt : tenants s' !! t_ID t = Some t) by (rewrite Hs'; simpl; by rewrite lookup_insert_eq).
  assert (Hcred : ∀ now, credential hashKey jwtVal now s' (sp_APIKey resp) t).
  { intros now. apply (account_credential _ _ _ _ k); try done. congruence. }
  split.
  - intros Hfree. exists t. split_and!; [congruence | done |]. apply bearer_lets_in; [done | done |]. rewrite Hg.
    exists (sp_APIKey resp). split_and!; [done | apply Hcred |]. rewrite decide_True in Hb by done. split; [|done]. by split; rewrite Hb.
  - intros Hpaid. rewrite decide_False in Hb by done. split.
    + apply (bearer_refuses_tenant _ _ _ _ _ _ _ _ (sp_APIKey resp) t); [done | done | done | rewrite Hg; apply Hcred |].
      unfold admit_tenant. by rewrite decide_True by (by left).
    + intros se cfg es event sess X Hev Href Hsub HX.
      destruct (completed_effect overrides se cfg s' es event sess t X Hev Hlt) as (customer & Hts); [congruence | congruence | done | done |].
      assert (Hkeys : keys (HandleStripeEventWithConfig overrides se cfg s' es event).1.1 = keys s').
      { destruct Hev as [Hty Hun]. unfold HandleStripeEventWithConfig. rewrite Hty. simpl. unfold handleCheckoutCompleted. rewrite Hun.
        case_decide; [done|]. destruct (GetTenant _ _); [|done]. apply save_keys. }
      set (t' := t_with _ _ _ _) in Hts. exists t'. assert (t_ID t' = t_ID t) as Hid' by done.
      split_and!; [congruence | done | apply bearer_lets_in; [done | done |]].
      exists (sp_APIKey resp). split_and!; [done | | by split].
      apply (account_credential _ _ _ _ k); simpl; try done; [congruence | by rewrite Hkeys | by rewrite Hts, lookup_insert_eq].
Qed.

(** No two accounts that are not deleted have the same address. *)
Definition emails_unique (s : BillingStore) : Prop :=
  ∀ id1 id2 t1 t2, tenants s !! id1 = Some t1 → tenants s !! id2 = Some t2 → t_Email t1 = t_Email t2 →
    t_Status t1 ≠ TenantStatusDeleted → t_Status t2 ≠ TenantStatusDeleted → id1 = id2.

Lemma GetTenantByEmail_Err order s email err : RangeOrder (tenants s) order → GetTenantByEmail order s email = Err err →
  ∀ id t, tenants s !! id = Some t → t_Status t ≠ TenantStatusDeleted → t_Email t ≠ email.
Proof.
  intros Ho Hg id t Ht Hst He. unfold GetTenantByEmail in Hg. destruct (list_find _ _) as [[i u]|] eqn:Hf; [done|].
  rewrite list_find_None, Forall_forall in Hf. apply (Hf t); [|done]. apply list_elem_of_omap. exists id. split; [|done].
  apply (range_order_elem_of (tenants s) order); [done | eauto].
Qed.

Lemma emails_unique_put s t : emails_unique s → (∀ id u, tenants s !! id = Some u → t_Status u ≠ TenantStatusDeleted → t_Email u ≠ t_Email t) →
  emails_unique (PutTenant s t).
Proof.
  intros Hu Hnew id1 id2 t1 t2 H1 H2 He S1 S2. simpl in *.
  apply lookup_insert_Some in H1 as [[<- <-]|[N1 H1]]; apply lookup_insert_Some in H2 as [[<- <-]|[N2 H2]]; try done.
  - by destruct (Hnew _ _ H2 S2).
  - by destruct (Hnew _ _ H1 S1).
  - by apply (Hu id1 id2 t1 t2).
Qed.

(** Sign-ups, one at a time, never give an address a second account: the address is
    compared after trimming and lower-casing with those of all accounts that are not
    deleted; an address in use is answered 409 or refused before, and every refusal other
    than an internal error leaves the accounts as they were. *)
Theorem signup_unique_email e client origin r body l s :
  RangeOrder (tenants s) (sg_order e) → emails_unique s →
  let '(_, s', answer) := signupHandler hashKey overrides e client origin r body l s in
  emails_unique s' ∧
  (∀ err, answer = Err err → http_code err ≠ StatusInternalServerError → s' = s) ∧
  (∀ req id t, body = Ok req → tenants s !! id = Some t → t_Status t ≠ TenantStatusDeleted → t_Email t = sr_Email (normalise req) →
     s' = s ∧ ∃ err, answer = Err err).
Proof.
  intros Ho Hu. pose proof (signupHandler_cases e client origin r body l s) as Hc.
  destruct (signupHandler hashKey overrides e client origin r body l s) as [[l' s'] answer].
  destruct Hc as [[-> [err ->]]|(req & plan & -> & Hp & Hre & [err Hg] & Hc)]; [split_and!; eauto|].
  pose proof (GetTenantByEmail_Err _ _ _ _ Ho Hg) as Hnew. split_and!.
  - destruct answer as [resp|x].
    + apply create_account_Ok in Hc as (t & k & -> & _ & _ & He & _). apply (emails_unique_put s t Hu). by rewrite He.
    + apply create_account_Err in Hc as (_ & [->|(t & -> & _ & He)]); [done|]. apply (emails_unique_put s t Hu). by rewrite He.
  - intros x -> Hx. by apply create_account_Err in Hc as [? _].
  - intros req' id t [= <-] Ht Hst He. by destruct (Hnew id t Ht Hst).
Qed.

End signup_facts.

Section verification_facts.
Context `{OAuthLib}.

Lemma hex_nonempty b : b ≠ EmptyString → hex_EncodeToString b ≠ EmptyString.
Proof. by destruct b. Qed.

(** The mailed link verifies the address once: followed within 24 hours it marks the
    tenant as verified at that moment and leads to the dashboard, followed again it is
    refused, and followed later than that it is refused and verifies nothing; no other
    tenant is touched. *)
Theorem email_verified_once now b baseURL relayBaseURL tenantID toEmail s t now' :
  b ≠ EmptyString → tenants s !! tenantID = Some t →
  let plain := hex_EncodeToString b in
  let s1 := (sendVerificationEmail now (Some b) baseURL tenantID toEmail s).1 in
  let '(s2, answer) := verifyEmailHandler now' relayBaseURL plain s1 in
  (sendVerificationEmail now (Some b) baseURL tenantID toEmail s).2 = Some (toEmail, baseURL +:+ "/oauth/verify?token=" +:+ plain) ∧
  (now' ≤ now + 24 * Hour → answer = Ok (dashboard_url relayBaseURL +:+ "/app/?verified=1") ∧
     tenants s2 = <[tenantID := t_with t (t_Status t) now' (Some now')]> (tenants s) ∧
     ∀ later, tenants (verifyEmailHandler later relayBaseURL plain s2).1 = tenants s2 ∧
       ∃ err, (verifyEmailHandler later relayBaseURL plain s2).2 = Err err ∧ http_code err = StatusBadRequest) ∧
  (now + 24 * Hour < now' → tenants s2 = tenants s ∧ ∃ err, answer = Err err ∧ http_code err = StatusBadRequest).
Proof.
  intros Hb Ht plain s1. pose proof (hex_nonempty b Hb) as Hne. fold plain in Hne.
  destruct (verifyEmailHandler now' relayBaseURL plain s1) as [s2 answer] eqn:Hv. split; [done|].
  unfold verifyEmailHandler in Hv. rewrite decide_False in Hv by done. unfold ConsumeEmailVerificationToken in Hv. simpl in Hv.
  rewrite lookup_insert_eq in Hv. simpl in Hv. split.
  - intros Hle. rewrite (proj2 (Z.ltb_ge _ _)) in Hv by done. unfold MarkTenantEmailVerified in Hv. simpl in Hv. rewrite Ht in Hv. simpl in Hv.
    injection Hv as <- <-. split_and!; [done..|]. intros later. unfold verifyEmailHandler. rewrite decide_False by done.
    unfold ConsumeEmailVerificationToken. simpl. rewrite lookup_delete_eq. simpl. eauto.
  - intros Hlt. rewrite (proj2 (Z.ltb_lt _ _)) in Hv by done. injection Hv as <- <-. eauto.
Qed.

(** Between two mails to one key lies the window. *)
Lemma resend_allow_spec now last key :
  let '(ok, last') := resend_allow now last key in
  (ok = true ↔ ∀ t, last !! key = Some t → resend_window ≤ now - t) ∧ (ok = true → last' !! key = Some now) ∧
  (∀ k t, last !! k = Some t → k ≠ key → now - t ≤ resend_window → last' !! k = Some t).
Proof.
  unfold resend_allow. destruct (last !! key) as [t|] eqn:Hl; [destruct (now - t <? resend_window) eqn:Hlt|].
  - apply Z.ltb_lt in Hlt. split_and!; [|done|done]. split; [done|]. intros Ha. specialize (Ha t eq_refl). lia.
  - apply Z.ltb_ge in Hlt. split_and!; [split; [by intros _ ? [= <-] | done] | |].
    + intros _. apply map_lookup_filter_Some_2; [by rewrite lookup_insert_eq|]. simpl. unfold resend_window, Minute, Second, Millisecond. lia.
    + intros k u Hk Hne Hw. apply map_lookup_filter_Some_2; [by rewrite lookup_insert_ne|]. simpl. lia.
  - split_and!; [done | |].
    + intros _. apply map_lookup_filter_Some_2; [by rewrite lookup_insert_eq|]. simpl. unfold resend_window, Minute, Second, Millisecond. lia.
    + intros k u Hk Hne Hw. apply map_lookup_filter_Some_2; [by rewrite lookup_insert_ne|]. simpl. lia.
Qed.
End verification_facts.

(** ** Examples *)

Example emailRe_examples : emailRe "a@b.c" = true ∧ emailRe "a@b@c.d" = false ∧ emailRe "a@.b" = false ∧ emailRe "a@b.c." = true ∧ emailRe "a@b" = false.
Proof. by vm_compute. Qed.

Module SignupExample.

Definition env : SignupEnv := {|
  sg_now := 5; sg_order := []; sg_tenantID := "t_1"; sg_seed := Some "seed"%string; sg_env := ""; sg_keyID := "k_1";
  sg_encoded := Some "abcdefghij"%string |}.
Definition client : StripeClient := {|
  CreateCustomer _ _ _ := Some "cus_1"%string; checkout_session _ _ _ _ := Some "https://pay.test"%string; portal_session _ _ := None;
  client_config := {| sc_PriceIDs := {[PlanTeam := "price_team"%string]} |} |}.
Definition request : Request := {|
  rq_Method := "POST"; rq_Path := "/api/tenants"; rq_Authorization := ""; rq_XRealIP := ""; rq_XForwardedFor := ""; rq_RemoteAddr := "10.0.0.1:9" |}.
Definition form (plan : string) : SignupRequest := {| sr_Name := " Acme "; sr_Email := "A@Acme.test"; sr_Plan := plan |}.
Definition signed_up (plan : string) := signupHandler id ∅ env (Some client) "https://relay.test" request (Ok (form plan)) ∅ NewBillingStore.

End SignupExample.

Lemma signup_then_pay_witness :
  let g := {| g_store := (SignupExample.signed_up "team").1.2; g_limiter := ∅ |} in
  let r := GateExample.request "Bearer sk_live_abcdefghij" in
  BearerMiddleware id "" None false GateExample.whoami GateExample.env None r g =
    (with_limiter g (auth_Allow 7 ∅ (realIP r)).2, Refused (fail StatusPaymentRequired (paymentRequiredMessage ""))).
Proof.
  intros g r. destruct (signup_then_pay (H:=StripeExample.codec) (ES:=BillingStore) id ∅ SignupExample.env (Some SignupExample.client) "https://relay.test" SignupExample.request
    (SignupExample.form "team") ∅ NewBillingStore (SignupExample.signed_up "team").1.1 (SignupExample.signed_up "team").1.2
    {| sp_TenantID := "t_1"; sp_APIKey := "sk_live_abcdefghij"; sp_Status := "incomplete"; sp_CheckoutURL := "https://pay.test" |} PlanTeam
    "" None GateExample.whoami GateExample.env None r g) as [_ Hpaid]; [by vm_compute | done | by vm_compute | done | done | done | by vm_compute |].
  destruct Hpaid as [Hr _]; [done | exact Hr].
Defined.

Lemma signup_unique_email_witness : emails_unique (SignupExample.signed_up "free").1.2.
Proof.
  pose proof (signup_unique_email id ∅ SignupExample.env (Some SignupExample.client) "https://relay.test" SignupExample.request
    (Ok (SignupExample.form "free")) ∅ NewBillingStore) as Hs. unfold SignupExample.signed_up.
  destruct (signupHandler _ _ _ _ _ _ _ _ _) as [[l s] answer]. simpl.
  apply Hs; [apply RangeOrder_empty | intros ? ? ? ? Hl; simpl in Hl; by rewrite lookup_empty in Hl].
Defined.

Lemma email_verified_once_witness :
  let s1 := (sendVerificationEmail (H:=OauthExample.lib) 10 (Some "random"%string) "https://relay.test" "t_1" "a@acme.test" (SignupExample.signed_up "free").1.2).1 in
  ∃ err, (verifyEmailHandler (H:=OauthExample.lib) (11 + 24 * Hour) "https://relay.test" (hex_EncodeToString "random") s1).2 = Err err ∧ http_code err = StatusBadRequest.
Proof.
  destruct (tenants (SignupExample.signed_up "free").1.2 !! "t_1"%string) as [t|] eqn:Ht; [|by vm_compute in Ht].
  apply (email_verified_once (H:=OauthExample.lib) 10 "random" "https://relay.test" "https://relay.test" "t_1" "a@acme.test"
    (SignupExample.signed_up "free").1.2 t (11 + 24 * Hour)); [done | exact Ht | lia].
Defined.
