(* ===== verification/Paths.v ===== *)
(** * Packages path/filepath and strings, as the agent runner uses them

    Slash-separated paths with their components, [filepath.Clean], [filepath.Join] and
    [filepath.Rel] as on Unix, and [strings.ReplaceAll]; what lies below a directory, and
    that a replaced delimiter does not occur. *)

From S2P Require Import Prelude Http.
Import Stdlib.Strings.Ascii.

(** ** Components *)

(** [strings.Join]. *)
Fixpoint JoinWith (sep : string) (l : list string) : string :=
  match l with
  | [] => EmptyString
  | [s] => s
  | s :: l => s +:+ sep +:+ JoinWith sep l
  end.

(** The text between slashes, empty pieces left out. *)
Fixpoint parts_from (acc s : string) : list string :=
  let done := if decide (acc = EmptyString) then [] else [acc] in
  match s with
  | EmptyString => done
  | String c s => if is_slash c then done ++ parts_from EmptyString s else parts_from (acc +:+ String c EmptyString) s
  end.
Definition parts (s : string) : list string := parts_from EmptyString s.

Definition IsAbs (s : string) : bool := HasPrefix s "/".

(** One component on the stack of those before it. *)
Definition clean_step (rooted : bool) (st : list string) (x : string) : list string :=
  if decide (x = ".") then st
  else if decide (x = "..") then
    match st with
    | y :: st' => if decide (y = "..") then x :: st else st'
    | [] => if rooted then [] else [x]
    end
  else x :: st.

Definition clean_parts (rooted : bool) (l : list string) : list string := rev (foldl (clean_step rooted) [] l).

(** [filepath.Clean]. *)
Definition Clean (s : string) : string :=
  let l := clean_parts (IsAbs s) (parts s) in
  if IsAbs s then "/" +:+ JoinWith "/" l
  else match l with [] => "." | _ => JoinWith "/" l end.

(** The components that [Clean] leaves. *)
Definition components (s : string) : list string := clean_parts (IsAbs s) (parts s).

(** [filepath.Join]. *)
Definition Join (l : list string) : string :=
  match filter (λ s, s ≠ EmptyString) l with [] => EmptyString | l => Clean (JoinWith "/" l) end.

(** What is left of two paths after their common components. *)
Fixpoint strip_common (b t : list string) : list string * list string :=
  match b, t with
  | x :: b', y :: t' => if decide (x = y) then strip_common b' t' else (b, t)
  | _, _ => (b, t)
  end.

(** [filepath.Rel]. *)
Definition Rel (base targ : string) : option string :=
  if decide (IsAbs base = IsAbs targ) then
    match strip_common (components base) (components targ) with
    | ([], []) => Some "."
    | ([], t) => Some (JoinWith "/" t)
    | (x :: b, t) => if decide (x = "..") then None else Some (JoinWith "/" (".." :: repeat ".." (length b) ++ t))
    end
  else None.

(** [s] is [root] or lies below it. *)
Definition inside (root s : string) : Prop := IsAbs root = IsAbs s ∧ components root `prefix_of` components s.

#[export] Instance inside_dec root s : Decision (inside root s).
Proof. apply _. Defined.

(** The guard of the code on the result of [Rel]. *)
Definition does_not_climb (rel : string) : bool := negb (bool_decide (rel = "..")) && negb (HasPrefix rel "../").

(** ** Facts about components *)

Fixpoint no_slash (s : string) : bool :=
  match s with EmptyString => true | String c s => negb (is_slash c) && no_slash s end.

Definition name (s : string) : Prop := no_slash s = true ∧ s ≠ EmptyString.

Lemma no_slash_app s t : no_slash (s +:+ t) = no_slash s && no_slash t.
Proof. induction s as [|c s IH]; simpl; [done|]. by rewrite IH, andb_assoc. Qed.

Lemma app_nonempty s c : s +:+ String c EmptyString ≠ EmptyString.
Proof. by destruct s. Qed.

Lemma parts_from_names acc s : no_slash acc = true → Forall name (parts_from acc s).
Proof.
  revert acc. induction s as [|c s IH]; intros acc Ha; simpl.
  - case_decide; repeat constructor; auto.
  - destruct (is_slash c) eqn:Hc.
    + apply Forall_app. split; [case_decide; repeat constructor; auto | by apply IH].
    + apply IH. rewrite no_slash_app, Ha. simpl. by rewrite Hc.
Qed.

Lemma clean_step_names rooted st x : Forall name st → name x → Forall name (clean_step rooted st x).
Proof.
  intros Hs Hx. unfold clean_step. case_decide; [done|]. case_decide; [|by constructor].
  destruct st as [|y st]; [destruct rooted; [done | by constructor]|]. case_decide; [by constructor | by inversion Hs].
Qed.

Lemma components_names s : Forall name (components s).
Proof.
  unfold components, clean_parts. apply Forall_rev. pose proof (parts_from_names EmptyString s eq_refl) as Hp. fold (parts s) in Hp.
  generalize (IsAbs s). intros rooted. assert (Hst : Forall name []) by constructor. revert Hst. generalize (@nil string).
  induction Hp as [|x l Hx _ IH]; intros st Hst; simpl; [done|]. apply IH. by apply clean_step_names.
Qed.

(** Rooted paths have no component that climbs. *)
Lemma rooted_no_climb s : IsAbs s = true → Forall (λ x, x ≠ "..") (components s).
Proof.
  intros Hr. unfold components. rewrite Hr. unfold clean_parts. apply Forall_rev.
  assert (Hst : Forall (λ x, x ≠ "..") (@nil string)) by constructor. revert Hst. generalize (@nil string).
  induction (parts s) as [|x l IH]; intros st Hst; simpl; [done|]. apply IH. unfold clean_step. case_decide; [done|].
  case_decide; [|by constructor]. destruct st as [|y st]; [done|]. inversion Hst. by rewrite decide_False.
Qed.

Lemma strip_common_spec b t : let '(b', t') := strip_common b t in ∃ l, b = l ++ b' ∧ t = l ++ t'.
Proof.
  revert t. induction b as [|x b IH]; intros t; simpl; [by exists []|]. destruct t as [|y t]; [by exists []|].
  case_decide as Hx; [|by exists []]. subst. specialize (IH t). destruct (strip_common b t) as [b' t'].
  destruct IH as (l & -> & ->). by exists (y :: l).
Qed.

Lemma strip_common_prefix b t : b `prefix_of` t ↔ (strip_common b t).1 = [].
Proof.
  revert t. induction b as [|x b IH]; intros t; simpl; [split; [done|]; intros _; apply prefix_nil|].
  destruct t as [|y t]; [split; [by intros [k Hk] | done]|]. case_decide as Hx.
  - subst. rewrite <- IH. split; [apply prefix_cons_inv_2 | apply prefix_cons].
  - split; [intros Hp; by apply prefix_cons_inv_1 in Hp | done].
Qed.

Lemma HasPrefix_cons a s b p : HasPrefix (String a s) (String b p) = bool_decide (a = b) && HasPrefix s p.
Proof. unfold HasPrefix. cbn [String.prefix]. destruct (ascii_dec b a) as [->|Hn]; [by rewrite bool_decide_true|]. by rewrite bool_decide_false by congruence. Qed.

Lemma HasPrefix_short b p : HasPrefix EmptyString (String b p) = false.
Proof. done. Qed.

(** The text of components does not climb unless the first of them does. *)
Lemma join_no_climb x l : name x → x ≠ ".." → does_not_climb (JoinWith "/" (x :: l)) = true.
Proof.
  intros [Hn He] Hx. assert (Hshape : ∃ r, JoinWith "/" (x :: l) = x +:+ r ∧ (r = EmptyString ∨ ∃ r', r = String "/" r')).
  { destruct l as [|y l]; [exists EmptyString | exists ("/" +:+ JoinWith "/" (y :: l))]; simpl; [|eauto].
    split; [|by left]. clear. by induction x as [|c x IH]; simpl; f_equal. }
  destruct Hshape as (r & -> & Hr). unfold does_not_climb. apply andb_true_intro. rewrite !negb_true_iff, bool_decide_eq_false.
  destruct x as [|a [|b [|c x]]]; cbn [String.append no_slash] in *; [done | ..]; rewrite ?HasPrefix_cons.
  - destruct Hr as [->|[r' ->]]; rewrite ?HasPrefix_cons; (split; [congruence|]); by destruct (bool_decide (a = _)).
  - split.
    + destruct Hr as [->|[r' ->]]; [done | congruence].
    + case_bool_decide as Ha; [|done]. case_bool_decide as Hb; [|done]. by subst.
  - split; [congruence|]. destruct (bool_decide (c = "/"%char)) eqn:Hc; [|by rewrite !andb_false_r].
    apply bool_decide_eq_true in Hc as ->. by rewrite !andb_false_r in Hn.
Qed.

Lemma HasPrefix_nil s : HasPrefix s EmptyString = true.
Proof. by destruct s. Qed.

Lemma climbs l : does_not_climb (JoinWith "/" (".." :: l)) = false.
Proof.
  unfold does_not_climb. destruct l as [|x l]; [done|]. cbn [JoinWith String.append]. rewrite !HasPrefix_cons, !(bool_decide_true (_ = _ :> ascii)) by done.
  by rewrite HasPrefix_nil, andb_false_r.
Qed.

(** A path whose relative path does not climb is inside, and conversely below the root. *)
Lemma Rel_inside root s : IsAbs s = true →
  (∃ rel, Rel root s = Some rel ∧ does_not_climb rel = true) ↔ inside root s.
Proof.
  intros Hs. unfold Rel, inside. case_decide as Ha; [|split; [by intros (? & ? & _) | by intros [? _]]].
  pose proof (strip_common_spec (components root) (components s)) as Hsp.
  pose proof (rooted_no_climb s Hs) as Hc. pose proof (components_names s) as Hn.
  rewrite strip_common_prefix. destruct (strip_common _ _) as [b t]. simpl. destruct Hsp as (l & Hb & Ht).
  destruct b as [|x b].
  - split; [done|]. intros _. destruct t as [|y t]; [by exists "."|]. eexists. split; [done|]. rewrite Ht in Hc, Hn.
    apply Forall_app in Hc as [_ Hc]. apply Forall_app in Hn as [_ Hn]. inversion Hc. inversion Hn. by apply join_no_climb.
  - split; [|by intros [_ ?]]. case_decide; [by intros (? & ? & _)|]. intros (rel & Heq%(inj Some) & Hrel). 
    assert (Hf : does_not_climb rel = false) by (rewrite <- Heq; exact (climbs (repeat ".." (length b) ++ t))). congruence.
Qed.

(** ** Paths that are joined *)

Lemma app_assoc' (s t u : string) : (s +:+ t) +:+ u = s +:+ (t +:+ u).
Proof. induction s as [|c s IH]; simpl; [done|]. by rewrite IH. Qed.

Lemma app_empty_r (s : string) : s +:+ EmptyString = s.
Proof. induction s as [|c s IH]; simpl; [done|]. by rewrite IH. Qed.

Lemma parts_from_slash acc s t : parts_from acc (s +:+ String "/" t) = parts_from acc s ++ parts t.
Proof.
  revert acc. induction s as [|c s IH]; intros acc; [done|]. cbn [String.append parts_from].
  destruct (is_slash c); [by rewrite IH, app_assoc | apply IH].
Qed.

Lemma parts_from_name acc x : no_slash x = true → acc +:+ x ≠ EmptyString → parts_from acc x = [acc +:+ x].
Proof.
  revert acc. induction x as [|c x IH]; intros acc Hn He; cbn [parts_from].
  - rewrite app_empty_r in *. by rewrite decide_False.
  - simpl in Hn. apply andb_prop in Hn as [Hc Hn]. apply negb_true_iff in Hc. rewrite Hc, IH; rewrite ?app_assoc'; done.
Qed.

Lemma parts_join l : Forall name l → parts (JoinWith "/" l) = l.
Proof.
  induction 1 as [|x l [Hx He] _ IH]; [done|]. destruct l as [|y l]; [by apply (parts_from_name EmptyString)|].
  change (JoinWith "/" (x :: y :: l)) with (x +:+ String "/" (JoinWith "/" (y :: l))).
  unfold parts at 1. rewrite parts_from_slash, IH, (parts_from_name EmptyString) by done. done.
Qed.

(** The stacks that cleaning leaves. *)
Definition clean_stack (rooted : bool) (st : list string) : Prop :=
  ∃ st0 k, st = st0 ++ repeat ".." k ∧ Forall (λ x, x ≠ "." ∧ x ≠ "..") st0 ∧ (rooted = true → k = 0%nat).

Lemma clean_stack_step rooted st x : clean_stack rooted st → clean_stack rooted (clean_step rooted st x).
Proof.
  intros (st0 & k & -> & Hst & Hk). unfold clean_step. case_decide as H1; [by exists st0, k|]. case_decide as H2.
  - subst x. destruct st0 as [|y st0]; simpl.
    + destruct k as [|k]; simpl; [|exists [], (S (S k)); by split_and!; [|constructor|intros Hr; specialize (Hk Hr)]].
      destruct rooted; [by exists [], 0%nat|]. exists [], 1%nat. by split_and!.
    + inversion Hst as [|? ? [_ Hy]]; subst. rewrite decide_False by done. by exists st0, k.
  - exists (x :: st0), k. split_and!; [done | by constructor | done].
Qed.

Lemma clean_stack_fold rooted l st : clean_stack rooted st → clean_stack rooted (foldl (clean_step rooted) st l).
Proof. revert st. induction l as [|x l IH]; intros st Hst; [done|]. apply IH. by apply clean_stack_step. Qed.

Lemma clean_stack_nil rooted : clean_stack rooted [].
Proof. by exists [], 0%nat. Qed.

(** Cleaning what is clean changes nothing. *)
Lemma clean_again rooted st : clean_stack rooted st → foldl (clean_step rooted) [] (rev st) = st.
Proof.
  intros (st0 & k & -> & Hst & Hk). rewrite rev_app_distr, foldl_app.
  assert (foldl (clean_step rooted) [] (rev (repeat ".." k)) = repeat ".." k) as ->.
  { destruct rooted; [by rewrite Hk|]. clear. induction k as [|k IH]; [done|]. cbn [repeat rev]. rewrite foldl_app, IH. simpl.
    unfold clean_step. rewrite decide_False, decide_True by done. by destruct k. }
  clear Hk. induction Hst as [|x st0 [H1 H2] _ IH]; [done|]. cbn [rev app]. rewrite foldl_app, IH. simpl. unfold clean_step. by rewrite !decide_False.
Qed.

Lemma clean_parts_again rooted l : clean_parts rooted (clean_parts rooted l) = clean_parts rooted l.
Proof. unfold clean_parts. f_equal. apply clean_again, clean_stack_fold, clean_stack_nil. Qed.

Lemma IsAbs_slash s : IsAbs (String "/" s) = true.
Proof. unfold IsAbs. by rewrite HasPrefix_cons, HasPrefix_nil. Qed.

Lemma IsAbs_app s t : s ≠ EmptyString → IsAbs (s +:+ t) = IsAbs s.
Proof. destruct s as [|c s]; [done|]. intros _. unfold IsAbs. cbn [String.append]. by rewrite !HasPrefix_cons, !HasPrefix_nil. Qed.

Lemma name_not_abs x : name x → IsAbs x = false.
Proof.
  intros [Hn He]. destruct x as [|c x]; [done|]. unfold IsAbs. rewrite HasPrefix_cons. case_bool_decide as Hc; [|done]. by subst.
Qed.

Lemma join_not_abs l : Forall name l → IsAbs (JoinWith "/" l) = false.
Proof.
  intros Hl. destruct l as [|x [|y l]]; [done | inversion Hl; by apply name_not_abs|]. inversion Hl as [|? ? Hx].
  change (JoinWith "/" (x :: y :: l)) with (x +:+ String "/" (JoinWith "/" (y :: l))). rewrite IsAbs_app by apply Hx. by apply name_not_abs.
Qed.

Lemma Clean_IsAbs s : IsAbs (Clean s) = IsAbs s.
Proof.
  unfold Clean. fold (components s). destruct (IsAbs s) eqn:Hs; [apply IsAbs_slash|].
  pose proof (components_names s) as Hn. destruct (components s) as [|x l]; [done|]. by apply join_not_abs.
Qed.

Lemma Clean_components s : components (Clean s) = components s.
Proof.
  unfold components at 1. rewrite Clean_IsAbs. unfold Clean. fold (components s). pose proof (components_names s) as Hn.
  assert (Hp : parts (JoinWith "/" (components s)) = components s) by (by apply parts_join).
  destruct (IsAbs s) eqn:Hs.
  - change (parts ("/" +:+ JoinWith "/" (components s))) with (parts (JoinWith "/" (components s))). rewrite Hp. unfold components. rewrite Hs. apply clean_parts_again.
  - destruct (components s) as [|x l] eqn:Hc; [done|]. rewrite Hp, <- Hc. unfold components. rewrite Hs. apply clean_parts_again.
Qed.

(** A path that does not climb is cleaned on top of another as on its own. *)
Lemma clean_on_top rooted st l : Forall (λ x, x ≠ "..") (foldl (clean_step false) [] l) →
  foldl (clean_step rooted) st l = foldl (clean_step false) [] l ++ st.
Proof.
  induction l as [|x l IH] using rev_ind; [done|]. rewrite !foldl_app. cbn [foldl].
  revert IH. generalize (foldl (clean_step rooted) st l), (foldl (clean_step false) [] l). intros f r IH.
  unfold clean_step. case_decide as H1; [done|]. case_decide as H2.
  - destruct r as [|y r]; [by inversion 1|]. case_decide as Hy; [by inversion 1|].
    intros Hf. rewrite IH by (by constructor). simpl. by rewrite decide_False.
  - intros Hf. inversion Hf. by rewrite IH.
Qed.

(** The path of [rel] below [d]. *)
Lemma Join_components d rel : d ≠ EmptyString → IsAbs rel = false → Forall (λ x, x ≠ "..") (components rel) →
  IsAbs (Join [d; rel]) = IsAbs d ∧ components (Join [d; rel]) = components d ++ components rel.
Proof.
  intros Hd Hr Hc. unfold Join. rewrite filter_cons_True by done. destruct (decide (rel = EmptyString)) as [->|Hne].
  - rewrite filter_cons_False by (by intros ?). simpl. by rewrite Clean_IsAbs, Clean_components, app_nil_r.
  - rewrite filter_cons_True by done. change (JoinWith "/" (d :: rel :: filter (λ s, s ≠ EmptyString) [])) with (d +:+ String "/" rel).
    rewrite Clean_IsAbs, Clean_components, IsAbs_app by done. split; [done|]. unfold components. rewrite IsAbs_app by done.
    unfold parts at 1. rewrite parts_from_slash. fold (parts d). unfold clean_parts. rewrite foldl_app, clean_on_top.
    + by rewrite Hr, rev_app_distr.
    + unfold components, clean_parts in Hc. rewrite Hr in Hc. apply Forall_rev in Hc. by rewrite rev_involutive in Hc.
Qed.

(** What is inside a directory joined to another is inside the other. *)
Lemma inside_Join d rel p : d ≠ EmptyString → IsAbs rel = false → Forall (λ x, x ≠ "..") (components rel) →
  inside (Join [d; rel]) p → inside d p.
Proof.
  intros Hd Hr Hc [Ha Hp]. destruct (Join_components d rel Hd Hr Hc) as [Hj Hl]. split; [congruence|].
  rewrite Hl in Hp. etrans; [|exact Hp]. by apply prefix_app_r.
Qed.

(** ** strings.ReplaceAll *)

(** [skip] characters of an occurrence are still to be passed over. *)
Fixpoint replace_from (old new : string) (skip : nat) (s : string) : string :=
  match s with
  | EmptyString => EmptyString
  | String c s' =>
      match skip with
      | S k => replace_from old new k s'
      | O => if HasPrefix s old then new +:+ replace_from old new (pred (String.length old)) s'
             else String c (replace_from old new O s')
      end
  end.

(** [strings.ReplaceAll] for a text that is not empty. *)
Definition ReplaceAll (s old new : string) : string := replace_from old new O s.

(** [strings.Contains]. *)
Fixpoint Contains (s p : string) : bool :=
  HasPrefix s p || match s with EmptyString => false | String _ s' => Contains s' p end.

Lemma replace_none old new s : Contains s old = false → ReplaceAll s old new = s.
Proof.
  unfold ReplaceAll. induction s as [|c s IH]; [done|]. intros [Hp Hs]%orb_false_elim. cbn [replace_from]. rewrite Hp. f_equal. by apply IH.
Qed.

(** A text without the first character of [old] and [new] that begins what is left begins the
    text before. *)
Lemma replace_prefix a old new w s : HasPrefix (replace_from (String a old) (String a new) O s) w = true →
  (∀ w1 w2, w ≠ w1 +:+ String a w2) → HasPrefix s w = true.
Proof.
  revert w. induction s as [|c s IH]; intros w Hw Hno; [done|]. cbn [replace_from] in Hw.
  destruct w as [|b w]; [done|]. assert (Hb : b ≠ a) by (intros ->; by apply (Hno EmptyString w)).
  destruct (HasPrefix (String c s) (String a old)).
  - cbn [String.append] in Hw. rewrite HasPrefix_cons, bool_decide_false in Hw by congruence. done.
  - rewrite HasPrefix_cons in Hw |- *. apply andb_prop in Hw as [Hc Hw]. rewrite Hc. simpl. apply IH; [done|].
    intros w1 w2 ->. by apply (Hno (String b w1) w2).
Qed.

(** The text that is replaced does not occur in the result, when its first character occurs
    nowhere else in it nor in its replacement, which differs from it before it ends. *)
Lemma replaced_gone a old new s :
  (∀ w1 w2, old ≠ w1 +:+ String a w2) → old ≠ EmptyString →
  (∀ t, Contains t (String a old) = false → Contains (String a new +:+ t) (String a old) = false) →
  Contains (ReplaceAll s (String a old) (String a new)) (String a old) = false.
Proof.
  intros Hno Hne Hnew. unfold ReplaceAll. generalize 0%nat. induction s as [|c s IH]; intros k; [by destruct old|].
  cbn [replace_from]. destruct k as [|k]; [|apply IH]. destruct (HasPrefix (String c s) (String a old)) eqn:Hp; [by apply Hnew|].
  cbn [Contains]. rewrite IH, orb_false_r. rewrite HasPrefix_cons in Hp |- *. destruct (bool_decide (c = a)); [|done]. simpl in *.
  destruct (HasPrefix (replace_from _ _ _ s) old) eqn:Hq; [|done]. by rewrite (replace_prefix a old new old s Hq Hno) in Hp.
Qed.

(** A character that does not occur in [p] at the end of a text changes nothing. *)
Lemma HasPrefix_snoc c s p : (∀ w1 w2, p ≠ w1 +:+ String c w2) → HasPrefix (s +:+ String c EmptyString) p = HasPrefix s p.
Proof.
  revert p. induction s as [|a s IH]; intros p Hp; destruct p as [|b p]; [done | | by rewrite !HasPrefix_nil|].
  - cbn [String.append]. rewrite HasPrefix_cons, bool_decide_false; [done|]. intros ->. by apply (Hp EmptyString p).
  - cbn [String.append]. rewrite !HasPrefix_cons, IH; [done|]. intros w1 w2 ->. by apply (Hp (String b w1) w2).
Qed.

Lemma Contains_snoc c s p : p ≠ EmptyString → (∀ w1 w2, p ≠ w1 +:+ String c w2) → Contains (s +:+ String c EmptyString) p = Contains s p.
Proof.
  intros Hne Hp. induction s as [|a s IH].
  - pose proof (HasPrefix_snoc c EmptyString p Hp) as Hs. cbn [String.append Contains] in *. rewrite Hs. by destruct p.
  - cbn [String.append Contains]. rewrite IH. f_equal. apply (HasPrefix_snoc c (String a s) p Hp).
Qed.

(** Decided by trying every place. *)
Lemma no_char c p : Contains p (String c EmptyString) = false → ∀ w1 w2, p ≠ w1 +:+ String c w2.
Proof.
  intros Hp w1. revert p Hp. induction w1 as [|a w1 IH]; intros p Hp w2 ->; cbn [String.append Contains] in Hp.
  - by rewrite HasPrefix_cons, HasPrefix_nil, bool_decide_true in Hp.
  - apply orb_false_elim in Hp as [_ Hp]. by apply (IH _ Hp w2).
Qed.
