(* ===== verification/Runner.v ===== *)
(** * The agent runner (src/cmd/agent-runner: config.go, store.go, runner.go, executor.go)

    Configuration and policy, the task store, and the runner as a state machine: submitted
    tasks, each with a thread that takes the slot of its worker and one of the global slots,
    runs the jailed command, settles the task and answers its sender.  The steps of the threads
    interleave with each other and with requests.  The command itself, the file system, git and
    JSON are parameters; a write to the task store fails only on a taken primary key. *)

From S2P Require Import Prelude Http Paths Sandbox.
#[local] Open Scope Z_scope.

(** ** Configuration *)

Record WorkerConfig := {
  w_Name : string; w_Tool : string; w_Model : string; w_ROBinds : list string; w_Overlays : list (string * string);
}.

(** [c_Timeout] in nanoseconds; [c_Sandbox] is nil when it is not set. *)
Record Config := {
  c_Relay : string; c_Domain : string; c_StateDir : string; c_IdentityDir : string; c_Roots : list string;
  c_Senders : list string; c_RWAllow : list string; c_Timeout : Z; c_MaxConcurrent : Z; c_Slice : string;
  c_Sandbox : option bool; c_Workers : list WorkerConfig;
}.

Inductive ConfigError := DirsRequired | RootsRequired | NoWorkers | UnknownTool (name tool : string) | PathNotRelative (name rel : string) | BadWorkerName (name : string).

Definition nonempty_or (s d : string) : string := if decide (s = EmptyString) then d else s.

Section config.
Context `{Host}.

Definition expandHome (p : string) : string :=
  if decide (p = "~" ∨ HasPrefix p "~/" = true) then Join [UserHomeDir; from 1 p] else p.

Definition with_defaults (c : Config) : Config := {|
  c_Relay := nonempty_or (c_Relay c) "ws://127.0.0.1:8080"; c_Domain := nonempty_or (c_Domain c) "localhost";
  c_StateDir := expandHome (c_StateDir c); c_IdentityDir := expandHome (c_IdentityDir c); c_Roots := expandHome <$> c_Roots c;
  c_Senders := c_Senders c; c_RWAllow := c_RWAllow c; c_Timeout := if decide (c_Timeout c = 0) then 15 * Minute else c_Timeout c;
  c_MaxConcurrent := if decide (c_MaxConcurrent c ≤ 0) then 2 else c_MaxConcurrent c; c_Slice := nonempty_or (c_Slice c) "agents.slice";
  c_Sandbox := Some (default true (c_Sandbox c)); c_Workers := c_Workers c |}.

(** A path of a worker that leaves the home directory. *)
Definition leaves_home (rel : string) : bool := IsAbs rel || HasPrefix (Clean rel) "..".

Definition worker_paths (w : WorkerConfig) : list string := w_ROBinds w ++ (w_Overlays w).*1.

Fixpoint check_workers (seen : list string) (ws : list WorkerConfig) : option ConfigError :=
  match ws with
  | [] => None
  | w :: ws =>
      match tool_named (w_Tool w) with
      | None => Some (UnknownTool (w_Name w) (w_Tool w))
      | Some _ =>
          match List.find leaves_home (worker_paths w) with
          | Some rel => Some (PathNotRelative (w_Name w) rel)
          | None => if decide (w_Name w = EmptyString ∨ w_Name w ∈ seen) then Some (BadWorkerName (w_Name w))
                    else check_workers (w_Name w :: seen) ws
          end
      end
  end.

Definition normalize (c : Config) : result ConfigError Config :=
  let c := with_defaults c in
  if decide (c_StateDir c = EmptyString ∨ c_IdentityDir c = EmptyString) then Err DirsRequired
  else if decide (c_Roots c = []) then Err RootsRequired
  else if decide (c_Workers c = []) then Err NoWorkers
  else match check_workers [] (c_Workers c) with Some e => Err e | None => Ok c end.

End config.

Definition senderAllowed (c : Config) (did : string) : bool := bool_decide (did ∈ c_Senders c).
Definition rwAllowed (c : Config) (did : string) : bool := bool_decide (did ∈ c_RWAllow c).

Definition zero_worker : WorkerConfig := {| w_Name := EmptyString; w_Tool := EmptyString; w_Model := EmptyString; w_ROBinds := []; w_Overlays := [] |}.
Definition worker_named (c : Config) (name : string) : option WorkerConfig := List.find (λ w, String.eqb (w_Name w) name) (c_Workers c).
Definition worker (c : Config) (name : string) : WorkerConfig := default zero_worker (worker_named c name).
Definition modelOf (c : Config) (name : string) : string := w_Model (worker c name).
Definition toolOf (c : Config) (name : string) : string := w_Tool (worker c name).

(** The tool's overlays under the worker's own, which replace those with the same path. *)
Definition overlaysOf (c : Config) (name : string) : list (string * string) :=
  let w := worker c name in
  filter (λ kv, kv.1 ∉ (w_Overlays w).*1) (Overlays (tool_of (w_Tool w))) ++ w_Overlays w.

(** ** The task store *)

Definition StateSubmitted : string := "submitted".
Definition StateWorking : string := "working".
Definition StateCompleted : string := "completed".
Definition StateFailed : string := "failed".
Definition StateCanceled : string := "canceled".

Record Task := {
  tk_ID : string; tk_Worker : string; tk_Sender : string; tk_Profile : Profile; tk_Dir : string; tk_Prompt : string;
  tk_State : string; tk_Result : string; tk_Diff : string; tk_Error : string; tk_ExitCode : Z; tk_Created : Z; tk_Updated : Z;
}.

Definition terminal (t : Task) : bool := bool_decide (tk_State t = StateCompleted ∨ tk_State t = StateFailed ∨ tk_State t = StateCanceled).

(** Times are stored in milliseconds. *)
Definition millis (t : Z) : Z := t / Millisecond * Millisecond.

Abbreviation Store := (gmap string Task).

Definition stored_times (t : Task) : Task := {|
  tk_ID := tk_ID t; tk_Worker := tk_Worker t; tk_Sender := tk_Sender t; tk_Profile := tk_Profile t; tk_Dir := tk_Dir t; tk_Prompt := tk_Prompt t;
  tk_State := tk_State t; tk_Result := tk_Result t; tk_Diff := tk_Diff t; tk_Error := tk_Error t; tk_ExitCode := tk_ExitCode t;
  tk_Created := millis (tk_Created t); tk_Updated := millis (tk_Updated t) |}.

Definition store_Create (rows : Store) (t : Task) : option Store :=
  match rows !! tk_ID t with Some _ => None | None => Some (<[tk_ID t := stored_times t]> rows) end.

Definition set_outcome (t row : Task) : Task := {|
  tk_ID := tk_ID row; tk_Worker := tk_Worker row; tk_Sender := tk_Sender row; tk_Profile := tk_Profile row; tk_Dir := tk_Dir row; tk_Prompt := tk_Prompt row;
  tk_State := tk_State t; tk_Result := tk_Result t; tk_Diff := tk_Diff t; tk_Error := tk_Error t; tk_ExitCode := tk_ExitCode t;
  tk_Created := tk_Created row; tk_Updated := millis (tk_Updated t) |}.

Definition store_Update (rows : Store) (t : Task) : Store := alter (set_outcome t) (tk_ID t) rows.

Definition orphaned (t : Task) : bool := bool_decide (tk_State t = StateSubmitted ∨ tk_State t = StateWorking).

Definition fail_orphan (now : Z) (t : Task) : Task := {|
  tk_ID := tk_ID t; tk_Worker := tk_Worker t; tk_Sender := tk_Sender t; tk_Profile := tk_Profile t; tk_Dir := tk_Dir t; tk_Prompt := tk_Prompt t;
  tk_State := StateFailed; tk_Result := tk_Result t; tk_Diff := tk_Diff t; tk_Error := "runner restarted before completion"; tk_ExitCode := tk_ExitCode t;
  tk_Created := tk_Created t; tk_Updated := millis now |}.

Definition FailOrphans (now : Z) (rows : Store) : Store * Z :=
  ((λ t, if orphaned t then fail_orphan now t else t) <$> rows, Z.of_nat (size (filter (λ kt, orphaned kt.2 = true) rows))).

(** ** Admission *)

Definition maxPromptBytes : Z := 65536.
Definition maxReplyBytes : Z := 49152.
Definition maxHops : Z := 1.

Record taskRequest := { tr_Prompt : string; tr_Dir : string; tr_Profile : Profile; tr_Hops : Z }.

(** encoding/json: the texts of the parts as they are in the request ("" where there is none), a
    string, a request object, the field id. *)
Class TaskCodec := {
  UnmarshalParts : string → option (list string);
  UnmarshalString : string → option string;
  UnmarshalRequest : string → option taskRequest;
  UnmarshalID : string → option string;
}.

Inductive Rejection :=
| InvalidParams | TextRequired | BadText | SenderNotAllowed | HopLimit | EmptyPrompt | PromptTooLong | RWNotAllowed | RWNeedsDir
| UnknownProfile | DirNotAbsolute | DirMissing | NotADirectory | OutsideRoots | NotAWorkTree | PersistFailed | IDRequired | errNotFound.

Section admission.
Context `{Host} `{TaskCodec}.

Definition parseTaskRequest (params : string) : result Rejection taskRequest :=
  match UnmarshalParts params with
  | None => Err InvalidParams
  | Some [] => Err TextRequired
  | Some (raw :: _) =>
      if decide (raw = EmptyString) then Err TextRequired
      else match (match UnmarshalString raw with
                  | Some s => Some {| tr_Prompt := s; tr_Dir := EmptyString; tr_Profile := EmptyString; tr_Hops := 0 |}
                  | None => UnmarshalRequest raw
                  end) with
           | None => Err BadText
           | Some req => Ok {| tr_Prompt := tr_Prompt req; tr_Dir := tr_Dir req; tr_Profile := nonempty_or (tr_Profile req) ProfileRO; tr_Hops := tr_Hops req |}
           end
  end.

(** Below one of the roots; a root that does not resolve is passed over. *)
Definition under_root (real root : string) : bool :=
  match EvalSymlinks root with
  | Some rr => match Rel rr real with Some rel => does_not_climb rel | None => false end
  | None => false
  end.

Definition resolveDir (c : Config) (d : string) : result Rejection string :=
  let d := expandHome d in
  if negb (IsAbs d) then Err DirNotAbsolute
  else match EvalSymlinks d with
       | None => Err DirMissing
       | Some real =>
           if negb (IsDir real) then Err NotADirectory
           else if existsb (under_root real) (c_Roots c) then Ok real else Err OutsideRoots
       end.

Definition check_profile (c : Config) (sender : string) (req : taskRequest) : option Rejection :=
  if decide (tr_Profile req = ProfileRO) then None
  else if decide (tr_Profile req = ProfileRW) then
    if negb (rwAllowed c sender) then Some RWNotAllowed
    else if decide (tr_Dir req = EmptyString) then Some RWNeedsDir else None
  else Some UnknownProfile.

Definition validate (c : Config) (sender : string) (req : taskRequest) : result Rejection string :=
  if negb (senderAllowed c sender) then Err SenderNotAllowed
  else if decide (maxHops < tr_Hops req) then Err HopLimit
  else if decide (TrimSpace (tr_Prompt req) = EmptyString) then Err EmptyPrompt
  else if decide (maxPromptBytes < Z.of_nat (String.length (tr_Prompt req))) then Err PromptTooLong
  else match check_profile c sender req with
       | Some e => Err e
       | None =>
           if decide (tr_Dir req = EmptyString) then Ok EmptyString
           else match resolveDir c (tr_Dir req) with
                | Err e => Err e
                | Ok dir => if bool_decide (tr_Profile req = ProfileRW) && negb (InsideWorkTree dir) then Err NotAWorkTree else Ok dir
                end
       end.

End admission.

(** ** Preparing and running a task *)

(** What git and the file system answer while the directory of a task is prepared. *)
Record Prepared := { pr_mkdir : option string; pr_common_dir : string + string; pr_worktree : option string }.

(** [prepareDir]: the working directory and the git directory of a writable run; an error text otherwise. *)
Definition prepareDir (c : Config) (h : Prepared) (t : Task) : result string (string * string) :=
  if decide (tk_Profile t = ProfileRO) then
    if decide (tk_Dir t ≠ EmptyString) then Ok (tk_Dir t, EmptyString)
    else match pr_mkdir h with
         | Some e => Err e
         | None => Ok (Join [c_StateDir c; "scratch"; tk_ID t], EmptyString)
         end
  else match pr_common_dir h with
       | inr e => Err ("git common dir: " +:+ e)
       | inl common =>
           match pr_worktree h with
           | Some e => Err ("worktree add: " +:+ e)
           | None => Ok (Join [c_StateDir c; "worktrees"; tk_ID t], TrimSpace common)
           end
       end.

(** [materializeOverlays] when the files can be written: targets with their sources, and the
    contents with [random] for the placeholder. *)
Definition overlay_source (stateDir worker rel : string) : string := Join [stateDir; "overlays"; worker; ReplaceAll rel "/" "__"].
Definition materializeOverlays (stateDir worker home : string) (overlays : list (string * string)) : list (string * string) :=
  (λ kv, (Join [home; kv.1], overlay_source stateDir worker kv.1)) <$> overlays.
Definition overlay_content (random content : string) : string :=
  if Contains content overlayRandom then ReplaceAll content overlayRandom random else content.

(** The specification of the jail of a task. *)
Definition spec_of (home : string) (c : Config) (t : Task) (cwd repoGit : string) : sandboxSpec := {|
  s_Tool := toolOf c (tk_Worker t); s_Cwd := cwd; s_Writable := bool_decide (tk_Profile t = ProfileRW); s_RepoGit := repoGit; s_Home := home;
  s_Overlays := materializeOverlays (c_StateDir c) (tk_Worker t) home (overlaysOf c (tk_Worker t)); s_ExtraRO := w_ROBinds (worker c (tk_Worker t)) |}.

(** The command of a task; [None] where the code would panic on a tool without a command line. *)
Definition run_command `{Host} (c : Config) (t : Task) (cwd repoGit : string) : option (list string) :=
  (λ argv, let cmd := argv (tk_Profile t) (buildPrompt (tk_Worker t) (tk_Sender t) (tk_Profile t) (tk_Prompt t)) cwd (modelOf c (tk_Worker t)) in
           if default true (c_Sandbox c) then wrapSandbox cmd (spec_of UserHomeDir c t cwd repoGit) else cmd)
  <$> argv (tool_of (toolOf c (tk_Worker t))).

(** [systemdExecutor.args]; [itoa] prints the seconds. *)
Definition executor_args (itoa : Z → string) (slice : string) (runtimeMax : Z) (unit cwd : string) (argv env : list string) : list string :=
  ["--user"; "--quiet"; "--wait"; "--pipe"; "--collect"; "--unit=" +:+ unit; "--slice=" +:+ slice; "--working-directory=" +:+ cwd;
   "-p"; "RuntimeMaxSec=" +:+ itoa (Z.quot runtimeMax Second)]
  ++ concat ((λ kv, ["-E"; kv]) <$> env) ++ ["--"] ++ argv.

(** What the run of the command gave. *)
Record Outcome := {
  oc_out : string; oc_code : Z; oc_err : option string; oc_timed_out : bool; oc_diff : string; oc_diff_err : option string;
}.

(** Texts of numbers and durations. *)
Class NumberText := { Itoa : Z → string; DurationText : Z → string }.

Definition set_state (state err : string) (now : Z) (t : Task) : Task := {|
  tk_ID := tk_ID t; tk_Worker := tk_Worker t; tk_Sender := tk_Sender t; tk_Profile := tk_Profile t; tk_Dir := tk_Dir t; tk_Prompt := tk_Prompt t;
  tk_State := state; tk_Result := tk_Result t; tk_Diff := tk_Diff t; tk_Error := err; tk_ExitCode := tk_ExitCode t;
  tk_Created := tk_Created t; tk_Updated := now |}.

Definition with_run (code : Z) (result state err diff : string) (t : Task) : Task := {|
  tk_ID := tk_ID t; tk_Worker := tk_Worker t; tk_Sender := tk_Sender t; tk_Profile := tk_Profile t; tk_Dir := tk_Dir t; tk_Prompt := tk_Prompt t;
  tk_State := state; tk_Result := result; tk_Diff := diff; tk_Error := err; tk_ExitCode := code; tk_Created := tk_Created t; tk_Updated := tk_Updated t |}.

Section run.
Context `{ToolOutput} `{NumberText}.

(** The switch of [execute], and the diff of a writable run. *)
Definition finish (c : Config) (canceled : bool) (oc : Outcome) (t : Task) : Task :=
  let '(state, err) :=
    if canceled then (StateCanceled, "canceled"%string)
    else if oc_timed_out oc then (StateFailed, "timeout after " +:+ DurationText (c_Timeout c))
    else match oc_err oc with
         | Some e => (StateFailed, e)
         | None => if decide (oc_code oc ≠ 0) then (StateFailed, "exit code " +:+ Itoa (oc_code oc)) else (StateCompleted, tk_Error t)
         end in
  let result := extractText (toolOf c (tk_Worker t)) (oc_out oc) in
  if decide (tk_Profile t = ProfileRW) then
    let err := match oc_diff_err oc with Some e => TrimSpace (err +:+ "; diff: " +:+ e) | None => err end in
    with_run (oc_code oc) result state err (oc_diff oc) t
  else with_run (oc_code oc) result state err (tk_Diff t) t.

End run.

(** ** Answers and the audit log *)

(** [truncate]. *)
Definition truncate (s : string) (n : Z) : string * bool :=
  if decide (Z.of_nat (String.length s) ≤ n) then (s, false) else (before (Z.to_nat n) s, true).

Record ReplyPayload := {
  rp_task_id : string; rp_worker : string; rp_state : string; rp_profile : Profile; rp_exit_code : Z; rp_error : option string;
  rp_result : string; rp_result_truncated : bool; rp_diff : option (string * bool * string); rp_output_path : string;
}.

Definition replyPayload (t : Task) (stateDir : string) : ReplyPayload := {|
  rp_task_id := tk_ID t; rp_worker := tk_Worker t; rp_state := tk_State t; rp_profile := tk_Profile t; rp_exit_code := tk_ExitCode t;
  rp_error := if decide (tk_Error t = EmptyString) then None else Some (tk_Error t);
  rp_result := (truncate (tk_Result t) maxReplyBytes).1; rp_result_truncated := (truncate (tk_Result t) maxReplyBytes).2;
  rp_diff := if decide (tk_Diff t = EmptyString) then None
             else Some (truncate (tk_Diff t) maxReplyBytes, Join [stateDir; "diffs"; tk_ID t +:+ ".patch"]);
  rp_output_path := Join [stateDir; "results"; tk_ID t +:+ ".out"] |}.

Record AuditLine := {
  al_ts : Z; al_task_id : string; al_sender : string; al_worker : string; al_profile : Profile; al_dir : string; al_state : string;
  al_exit_code : Z; al_duration : Z; al_prompt_sha : string; al_result_sha : string; al_diff_bytes : Z; al_error : string; al_sandbox : bool;
}.

(** [sum] is the beginning of the SHA-256 of a text. *)
Definition audit (sum : string → string) (c : Config) (now : Z) (t : Task) : AuditLine := {|
  al_ts := now; al_task_id := tk_ID t; al_sender := tk_Sender t; al_worker := tk_Worker t; al_profile := tk_Profile t; al_dir := tk_Dir t;
  al_state := tk_State t; al_exit_code := tk_ExitCode t; al_duration := tk_Updated t - tk_Created t; al_prompt_sha := sum (tk_Prompt t);
  al_result_sha := sum (tk_Result t); al_diff_bytes := Z.of_nat (String.length (tk_Diff t)); al_error := tk_Error t;
  al_sandbox := default true (c_Sandbox c) |}.

Record Reply := { re_worker : string; re_to : string; re_payload : ReplyPayload }.

(** ** The runner *)

(** Where the goroutine of a task is in [run]. *)
Inductive Phase := WaitTool | WaitGlobal | Starting | Running | Settling | Closing.

#[export] Instance Phase_eq_dec : EqDecision Phase.
Proof. solve_decision. Defined.

(** [rn_threads]: the goroutines with the task each of them works on; [rn_canceled]: the canceled
    contexts; [rn_busy]: the workers whose slot is taken; [rn_running]: the global slots taken. *)
Record Runner := {
  rn_store : Store; rn_cancels : gset string; rn_canceled : gset string; rn_busy : gset string; rn_running : Z;
  rn_threads : gmap string (Phase * Task); rn_audit : list AuditLine; rn_replies : list Reply;
}.

Definition newRunner (rows : Store) : Runner := {|
  rn_store := rows; rn_cancels := ∅; rn_canceled := ∅; rn_busy := ∅; rn_running := 0; rn_threads := ∅; rn_audit := []; rn_replies := [] |}.

(** Thread [t] moves to a phase; slots and rows are changed with it. *)
Definition move (rn : Runner) (rows : Store) (busy : gset string) (running : Z) (p : Phase) (t : Task) : Runner := {|
  rn_store := rows; rn_cancels := rn_cancels rn; rn_canceled := rn_canceled rn; rn_busy := busy; rn_running := running;
  rn_threads := <[tk_ID t := (p, t)]> (rn_threads rn); rn_audit := rn_audit rn; rn_replies := rn_replies rn |}.

Definition is_canceled (rn : Runner) (t : Task) : bool := bool_decide (tk_ID t ∈ rn_canceled rn).

Section runner.
Context `{Host} `{TaskCodec} `{ToolOutput} `{NumberText} (c : Config).
Implicit Types (rn : Runner) (t : Task).

Definition new_task (id worker sender dir : string) (req : taskRequest) (now : Z) : Task := {|
  tk_ID := id; tk_Worker := worker; tk_Sender := sender; tk_Profile := tr_Profile req; tk_Dir := dir; tk_Prompt := tr_Prompt req;
  tk_State := StateSubmitted; tk_Result := EmptyString; tk_Diff := EmptyString; tk_Error := EmptyString; tk_ExitCode := 0;
  tk_Created := now; tk_Updated := now |}.

(** [id] is the new identifier. *)
Definition Submit (id : string) (now : Z) (worker sender params : string) rn : Runner * result Rejection string :=
  match parseTaskRequest params with
  | Err e => (rn, Err e)
  | Ok req =>
      match validate c sender req with
      | Err e => (rn, Err e)
      | Ok dir =>
          let t := new_task id worker sender dir req now in
          match store_Create (rn_store rn) t with
          | None => (rn, Err PersistFailed)
          | Some rows =>
              ({| rn_store := rows; rn_cancels := {[id]} ∪ rn_cancels rn; rn_canceled := rn_canceled rn; rn_busy := rn_busy rn;
                  rn_running := rn_running rn; rn_threads := <[id := (WaitTool, t)]> (rn_threads rn); rn_audit := rn_audit rn;
                  rn_replies := rn_replies rn |}, Ok id)
          end
      end
  end.

Definition ownedTask (sender params : string) rn : result Rejection Task :=
  match UnmarshalID params with
  | None => Err IDRequired
  | Some id =>
      if decide (id = EmptyString) then Err IDRequired
      else match rn_store rn !! id with
           | None => Err errNotFound
           | Some t => if decide (tk_Sender t ≠ sender) then Err errNotFound else Ok t
           end
  end.

Definition Get (sender params : string) rn : result Rejection Task := ownedTask sender params rn.

Definition set_canceled (ids : gset string) rn : Runner := {|
  rn_store := rn_store rn; rn_cancels := rn_cancels rn; rn_canceled := ids ∪ rn_canceled rn; rn_busy := rn_busy rn; rn_running := rn_running rn;
  rn_threads := rn_threads rn; rn_audit := rn_audit rn; rn_replies := rn_replies rn |}.

(** The answer holds the state of the stored task, or "canceling". *)
Definition Cancel (sender params : string) rn : Runner * result Rejection (string * string) :=
  match ownedTask sender params rn with
  | Err e => (rn, Err e)
  | Ok t => if decide (tk_ID t ∈ rn_cancels rn) then (set_canceled {[tk_ID t]} rn, Ok (tk_ID t, "canceling"%string)) else (rn, Ok (tk_ID t, tk_State t))
  end.

Definition CancelAll rn : Runner := set_canceled (rn_cancels rn) rn.

(** *** The steps of a thread *)

Definition acquire_tool t rn : option Runner :=
  if decide (is_Some (worker_named c (tk_Worker t)) ∧ tk_Worker t ∉ rn_busy rn)
  then Some (move rn (rn_store rn) ({[tk_Worker t]} ∪ rn_busy rn) (rn_running rn) WaitGlobal t) else None.

Definition give_up_tool t rn : option Runner :=
  if is_canceled rn t then Some (move rn (rn_store rn) (rn_busy rn) (rn_running rn) Settling t) else None.

Definition acquire_global t rn : option Runner :=
  if decide (rn_running rn < c_MaxConcurrent c) then Some (move rn (rn_store rn) (rn_busy rn) (rn_running rn + 1) Starting t) else None.

Definition give_up_global t rn : option Runner :=
  if is_canceled rn t then Some (move rn (rn_store rn) (rn_busy rn ∖ {[tk_Worker t]}) (rn_running rn) Settling t) else None.

(** The beginning of [execute]; [overlays] is the error of writing the overlays. *)
Definition start_run (now : Z) (h : Prepared) (overlays : option string) t rn : Runner :=
  let t := set_state StateWorking (tk_Error t) now t in
  let rows := store_Update (rn_store rn) t in
  let failed e := move rn rows (rn_busy rn ∖ {[tk_Worker t]}) (rn_running rn - 1) Settling (set_state StateFailed e now t) in
  match prepareDir c h t with
  | Err e => failed e
  | Ok _ =>
      match (if default true (c_Sandbox c) then overlays else None) with
      | Some e => failed e
      | None => move rn rows (rn_busy rn) (rn_running rn) Running t
      end
  end.

(** The end of [execute], and the release of the slots. *)
Definition end_run (oc : Outcome) t rn : Runner :=
  move rn (rn_store rn) (rn_busy rn ∖ {[tk_Worker t]}) (rn_running rn - 1) Settling (finish c (is_canceled rn t) oc t).

(** What [run] does when the task is settled: persist, log, answer. *)
Definition settle (sum : string → string) (now : Z) t rn : Runner :=
  let t := if terminal t then set_state (tk_State t) (tk_Error t) now t else set_state StateCanceled "canceled before start" now t in
  {| rn_store := store_Update (rn_store rn) t; rn_cancels := rn_cancels rn; rn_canceled := rn_canceled rn; rn_busy := rn_busy rn;
     rn_running := rn_running rn; rn_threads := <[tk_ID t := (Closing, t)]> (rn_threads rn); rn_audit := rn_audit rn ++ [audit sum c now t];
     rn_replies := rn_replies rn ++ [{| re_worker := tk_Worker t; re_to := tk_Sender t; re_payload := replyPayload t (c_StateDir c) |}] |}.

(** The deferred calls. *)
Definition close_thread t rn : Runner := {|
  rn_store := rn_store rn; rn_cancels := rn_cancels rn ∖ {[tk_ID t]}; rn_canceled := {[tk_ID t]} ∪ rn_canceled rn; rn_busy := rn_busy rn;
  rn_running := rn_running rn; rn_threads := delete (tk_ID t) (rn_threads rn); rn_audit := rn_audit rn; rn_replies := rn_replies rn |}.

(** One step of the thread [t], which is in the phase of the rule. *)
Inductive thread_step t rn : Phase → Runner → Prop :=
| step_acquire_tool rn' : acquire_tool t rn = Some rn' → thread_step t rn WaitTool rn'
| step_give_up_tool rn' : give_up_tool t rn = Some rn' → thread_step t rn WaitTool rn'
| step_acquire_global rn' : acquire_global t rn = Some rn' → thread_step t rn WaitGlobal rn'
| step_give_up_global rn' : give_up_global t rn = Some rn' → thread_step t rn WaitGlobal rn'
| step_start now h overlays : thread_step t rn Starting (start_run now h overlays t rn)
| step_end oc : thread_step t rn Running (end_run oc t rn)
| step_settle sum now : thread_step t rn Settling (settle sum now t rn)
| step_close : thread_step t rn Closing (close_thread t rn).

Inductive internal : Runner → Runner → Prop :=
| internal_step id p t rn rn' : rn_threads rn !! id = Some (p, t) → thread_step t rn p rn' → internal rn rn'.

(** A request for one of the workers. *)
Inductive external : Runner → Runner → Prop :=
| ext_submit id now worker sender params rn :
    is_Some (worker_named c worker) → external rn (Submit id now worker sender params rn).1
| ext_cancel sender params rn : external rn (Cancel sender params rn).1
| ext_cancel_all rn : external rn (CancelAll rn).

Inductive reachable (rows : Store) : Runner → Prop :=
| reach_new : reachable rows (newRunner rows)
| reach_internal rn rn' : reachable rows rn → internal rn rn' → reachable rows rn'
| reach_external rn rn' : reachable rows rn → external rn rn' → reachable rows rn'.

End runner.
