(* ===== verification/RunnerFacts.v ===== *)
(** * The agent runner keeps its promises (src/cmd/agent-runner)

    Facts about [Runner]: what is admitted, that the slots are never oversubscribed, that every
    accepted task is settled and answered once, that the threads never block each other for
    good, and who may read a task. *)

From S2P Require Import Prelude Http Paths Sandbox Runner.
#[local] Open Scope Z_scope.

(** ** Slots *)

Definition holds_tool (p : Phase) : bool := match p with WaitGlobal | Starting | Running => true | _ => false end.
Definition holds_global (p : Phase) : bool := match p with Starting | Running => true | _ => false end.

Definition global_holders (rn : Runner) : nat := size (filter (λ kv : string * (Phase * Task), holds_global kv.2.1 = true) (rn_threads rn)).

(** The slots taken are those of the threads that hold them. *)
Record slots (c : Config) (rn : Runner) : Prop := {
  sl_busy w : w ∈ rn_busy rn ↔ ∃ id p t, rn_threads rn !! id = Some (p, t) ∧ holds_tool p = true ∧ tk_Worker t = w;
  sl_one id1 id2 p1 p2 t1 t2 : rn_threads rn !! id1 = Some (p1, t1) → rn_threads rn !! id2 = Some (p2, t2) →
    holds_tool p1 = true → holds_tool p2 = true → tk_Worker t1 = tk_Worker t2 → id1 = id2;
  sl_running : rn_running rn = Z.of_nat (global_holders rn);
  sl_max : 0 ≤ c_MaxConcurrent c → rn_running rn ≤ c_MaxConcurrent c;
}.

Definition b2z (b : bool) : Z := if b then 1 else 0.

Lemma holders_change (m : gmap string (Phase * Task)) id p t p' t' : m !! id = Some (p, t) →
  Z.of_nat (size (filter (λ kv : string * (Phase * Task), holds_global kv.2.1 = true) (<[id := (p', t')]> m)))
  = Z.of_nat (size (filter (λ kv : string * (Phase * Task), holds_global kv.2.1 = true) m)) - b2z (holds_global p) + b2z (holds_global p').
Proof.
  intros Hm. rewrite <- (insert_delete_id m id (p, t) Hm) at 2. rewrite <- insert_delete_eq.
  assert (Hn : delete id m !! id = None) by apply lookup_delete_eq. revert Hn. generalize (delete id m). clear m Hm. intros m Hn.
  assert (Hcount : ∀ q u, Z.of_nat (size (filter (λ kv : string * (Phase * Task), holds_global kv.2.1 = true) (<[id := (q, u)]> m)))
    = Z.of_nat (size (filter (λ kv : string * (Phase * Task), holds_global kv.2.1 = true) m)) + b2z (holds_global q)).
  { intros q u. destruct (holds_global q) eqn:Hq.
    - rewrite map_filter_insert_True by done. rewrite map_size_insert_None by (by apply map_lookup_filter_None; left). simpl. lia.
    - rewrite map_filter_insert_not'; [simpl; lia | by simpl; rewrite Hq |]. intros y Hy. congruence. }
  rewrite !Hcount. lia.
Qed.

(** How the slot of a worker changes with the phase of a thread. *)
Definition busy_change (w : string) (h h' : bool) (b b' : gset string) : Prop :=
  match h, h' with
  | false, true => (w ∉ b) ∧ (b' = {[w]} ∪ b)
  | true, false => (b' = b ∖ {[w]})
  | _, _ => b' = b
  end.

Lemma slots_move c rn id p t p' t' rows busy running : slots c rn → rn_threads rn !! id = Some (p, t) →
  tk_ID t' = id → tk_Worker t' = tk_Worker t → busy_change (tk_Worker t) (holds_tool p) (holds_tool p') (rn_busy rn) busy →
  running = rn_running rn - b2z (holds_global p) + b2z (holds_global p') → (holds_global p = false → holds_global p' = true → running ≤ c_MaxConcurrent c) →
  slots c (move rn rows busy running p' t').
Proof.
  intros [Hb Ho Hr Hm] Ht Hid Hw Hbusy Hrun Hmax. subst id.
  assert (Hother : ∀ id q u, rn_threads (move rn rows busy running p' t') !! id = Some (q, u) →
    (id = tk_ID t' ∧ q = p' ∧ u = t') ∨ (id ≠ tk_ID t' ∧ rn_threads rn !! id = Some (q, u))).
  { simpl. intros id q u [[<- [= <- <-]]|[? ?]]%lookup_insert_Some; [by left | right; by split]. }
  split.
  - intros w. split.
    + intros Hin. destruct (decide (w = tk_Worker t ∧ holds_tool p' = true)) as [[-> Hp']|Hno].
      { exists (tk_ID t'), p', t'. simpl. by rewrite lookup_insert_eq. }
      assert (Hw' : w ∈ rn_busy rn ∧ (holds_tool p = true → holds_tool p' = false → w ≠ tk_Worker t)).
      { unfold busy_change in Hbusy. destruct (holds_tool p), (holds_tool p'); set_solver. }
      destruct Hw' as [Hw' Hne]. apply Hb in Hw' as (id & q & u & Hu & Hq & <-). destruct (decide (id = tk_ID t')) as [->|Hd].
      * exfalso. assert (q = p ∧ u = t) as [-> ->] by (split; congruence). destruct (holds_tool p') eqn:Hp'; [by apply Hno | by apply Hne].
      * exists id, q, u. simpl. by rewrite lookup_insert_ne.
    + intros (id & q & u & [(-> & -> & ->)|[Hd Hu]]%Hother & Hq & <-).
      * rewrite Hw. simpl. unfold busy_change in Hbusy. rewrite Hq in Hbusy. destruct (holds_tool p) eqn:Hp; [|set_solver].
        subst busy. apply Hb. eauto 10.
      * assert (Hin : tk_Worker u ∈ rn_busy rn) by (apply Hb; eauto 10). simpl. unfold busy_change in Hbusy.
        destruct (holds_tool p) eqn:Hp, (holds_tool p'); subst; [done | | set_solver | done].
        apply elem_of_difference. split; [done|]. intros Heq%elem_of_singleton. apply Hd. by apply (Ho id (tk_ID t') q p u t).
  - assert (Hself : ∀ id q u, id ≠ tk_ID t' → rn_threads rn !! id = Some (q, u) → holds_tool q = true → holds_tool p' = true → tk_Worker u ≠ tk_Worker t).
    { intros id q u Hd Hu Hq Hp' Heq. destruct (holds_tool p) eqn:Hp; [by apply Hd, (Ho id (tk_ID t') q p u t)|].
      unfold busy_change in Hbusy. rewrite Hp' in Hbusy. destruct Hbusy as [Hn _]. apply Hn, Hb. eauto 10. }
    intros i1 i2 p1 p2 t1 t2 [(-> & -> & ->)|[D1 L1]]%Hother [(-> & -> & ->)|[D2 L2]]%Hother H1 H2 Heq; [done | | |by apply (Ho i1 i2 p1 p2 t1 t2)].
    + destruct (Hself i2 p2 t2); congruence.
    + destruct (Hself i1 p1 t1); congruence.
  - unfold global_holders. simpl. rewrite (holders_change _ _ p t p' t' Ht). unfold global_holders in Hr. lia.
  - simpl. intros H0. specialize (Hm H0). unfold b2z in Hrun. destruct (holds_global p), (holds_global p'); [lia | lia | auto | lia].
Qed.

Lemma slots_new c rows : slots c (newRunner rows).
Proof.
  split; simpl; [| | done | done].
  - intros w. split; [by intros ?%not_elem_of_empty | intros (id & p & t & Hl & _); by rewrite lookup_empty in Hl].
  - intros ? ? ? ? ? ? Hl. by rewrite lookup_empty in Hl.
Qed.

(** Threads that hold nothing come and go freely. *)
Lemma slots_same c rn rn' : slots c rn → rn_busy rn' = rn_busy rn → rn_running rn' = rn_running rn →
  (∀ id p t, holds_tool p = true → rn_threads rn' !! id = Some (p, t) ↔ rn_threads rn !! id = Some (p, t)) →
  global_holders rn' = global_holders rn → slots c rn'.
Proof.
  intros [Hb Ho Hr Hm] Eb Er Et Eg. split.
  - intros w. rewrite Eb, Hb. f_equiv. intros id. f_equiv. intros p. f_equiv. intros t. split; intros (Hl & Hh & Hw); (split; [|done]); by apply Et.
  - intros i1 i2 p1 p2 t1 t2 L1 L2 H1 H2. apply Et in L1; [|done]. apply Et in L2; [|done]. by apply (Ho i1 i2 p1 p2 t1 t2).
  - by rewrite Er, Eg.
  - by rewrite Er.
Qed.

Section steps.
Context `{Host} `{TaskCodec} `{ToolOutput} `{NumberText} (c : Config).
Implicit Types (rn : Runner) (t : Task).

(** Threads are found under the identifiers of their tasks and work for configured workers. *)
Definition threads_named rn : Prop :=
  ∀ id p t, rn_threads rn !! id = Some (p, t) → tk_ID t = id ∧ is_Some (worker_named c (tk_Worker t)).

Lemma global_holders_insert rn rn' id p t : rn_threads rn !! id = None → holds_global p = false →
  rn_threads rn' = <[id := (p, t)]> (rn_threads rn) → global_holders rn' = global_holders rn.
Proof.
  intros Hn Hp Et. unfold global_holders. rewrite Et. rewrite map_filter_insert_not'; [done | by simpl; rewrite Hp |].
  intros y Hy. congruence.
Qed.

Lemma global_holders_delete rn rn' id p t : rn_threads rn !! id = Some (p, t) → holds_global p = false →
  rn_threads rn' = delete id (rn_threads rn) → global_holders rn' = global_holders rn.
Proof.
  intros Ht Hp Et. symmetry. apply (global_holders_insert rn' rn id p t); [by rewrite Et, lookup_delete_eq | done |].
  by rewrite Et, insert_delete_id.
Qed.

Lemma submit_cases id now worker sender params rn rn' r : Submit c id now worker sender params rn = (rn', r) →
  (∃ e, r = Err e ∧ rn' = rn) ∨
  (∃ req dir, r = Ok id ∧ parseTaskRequest params = Ok req ∧ validate c sender req = Ok dir ∧ rn_store rn !! id = None ∧
     let t := new_task id worker sender dir req now in
     rn' = {| rn_store := <[id := stored_times t]> (rn_store rn); rn_cancels := {[id]} ∪ rn_cancels rn; rn_canceled := rn_canceled rn;
              rn_busy := rn_busy rn; rn_running := rn_running rn; rn_threads := <[id := (WaitTool, t)]> (rn_threads rn);
              rn_audit := rn_audit rn; rn_replies := rn_replies rn |}).
Proof.
  unfold Submit. destruct (parseTaskRequest params) as [req|e] eqn:Hp; [|intros [= <- <-]; eauto].
  destruct (validate c sender req) as [dir|e] eqn:Hv; [|intros [= <- <-]; eauto].
  unfold store_Create. simpl. destruct (rn_store rn !! id) eqn:Hs; intros [= <- <-]; [eauto|]. right. exists req, dir. split_and!; done.
Qed.

(** The settled task. *)
Definition settled (now : Z) t : Task :=
  if terminal t then set_state (tk_State t) (tk_Error t) now t else set_state StateCanceled "canceled before start" now t.

Lemma settled_facts now t : tk_ID (settled now t) = tk_ID t ∧ tk_Worker (settled now t) = tk_Worker t ∧ tk_Sender (settled now t) = tk_Sender t ∧
  terminal (settled now t) = true.
Proof. unfold settled. by destruct (terminal t) eqn:Ht. Qed.

Lemma finish_facts canceled oc t : tk_ID (finish c canceled oc t) = tk_ID t ∧ tk_Worker (finish c canceled oc t) = tk_Worker t ∧
  tk_Sender (finish c canceled oc t) = tk_Sender t ∧ terminal (finish c canceled oc t) = true.
Proof. unfold finish. go_cases; done. Qed.

(** What a step does to its thread: every step is a [move], settling, or the end of the thread. *)
Lemma slots_step rn rn' : slots c rn → threads_named rn → internal c rn rn' → slots c rn' ∧ threads_named rn'.
Proof.
  intros Hs Hn Hi. destruct Hi as [id p t rn0 rn1 Ht Hstep]. destruct (Hn id p t Ht) as [Hid Hw].
  assert (Hmove : ∀ rows busy running p' t', tk_ID t' = id → tk_Worker t' = tk_Worker t → busy_change (tk_Worker t) (holds_tool p) (holds_tool p') (rn_busy rn0) busy →
    running = rn_running rn0 - b2z (holds_global p) + b2z (holds_global p') → (holds_global p = false → holds_global p' = true → running ≤ c_MaxConcurrent c) →
    slots c (move rn0 rows busy running p' t') ∧ threads_named (move rn0 rows busy running p' t')).
  { intros rows busy running p' t' H1' H2' H3' H4' H5'. split; [by apply (slots_move c rn0 id p t p' t' rows busy running)|].
    intros i q u. simpl. intros [[<- [= <- <-]]|[_ Hl]]%lookup_insert_Some; [|by apply (Hn i q)]. split; [done|]. by rewrite H2'. }
  assert (Hsame : ∀ rn' p' t', holds_tool p = false → holds_tool p' = false → holds_global p = false → holds_global p' = false →
    tk_ID t' = id → tk_Worker t' = tk_Worker t → rn_busy rn' = rn_busy rn0 → rn_running rn' = rn_running rn0 →
    rn_threads rn' = <[id := (p', t')]> (rn_threads rn0) → slots c rn' ∧ threads_named rn').
  { intros rn' p' t' H1' H2' H3' H4' H5' H6' Eb Er Et.
    destruct (Hmove (rn_store rn0) (rn_busy rn0) (rn_running rn0) p' t') as [S N]; try done; [by rewrite H1', H2' | rewrite H3', H4'; simpl; lia | congruence |].
    assert (Etm : rn_threads rn' = rn_threads (move rn0 (rn_store rn0) (rn_busy rn0) (rn_running rn0) p' t')) by (simpl; by rewrite H5').
    split.
    - apply (slots_same c _ rn' S); [done | done | intros ? ? ? _; by rewrite Etm | unfold global_holders; by rewrite Etm].
    - intros i q u Hl. rewrite Etm in Hl. by apply (N i q u). }
  inversion Hstep; subst.
  - unfold acquire_tool in *. case_decide as Hd; [|done]. simplify_eq. destruct Hd as [_ Hd]. apply Hmove; simpl; [done.. | lia | done].
  - unfold give_up_tool in *. destruct (is_canceled _ _); simplify_eq. apply Hmove; simpl; [done.. | lia | done].
  - unfold acquire_global in *. case_decide as Hd; [|done]. simplify_eq. apply Hmove; simpl; [done.. | lia | lia].
  - unfold give_up_global in *. destruct (is_canceled _ _); simplify_eq. apply Hmove; simpl; [done.. | lia | done].
  - unfold start_run. go_cases; apply Hmove; simpl; try done; lia.
  - destruct (finish_facts (is_canceled rn0 t) oc t) as (F1 & F2 & _). unfold end_run. apply Hmove; simpl; [congruence.. | | done | lia | done]. done.
  - destruct (settled_facts now t) as (F1 & F2 & _). apply (Hsame _ Closing (settled now t)); try done.
    by transitivity (<[tk_ID (settled now t) := (Closing, settled now t)]> (rn_threads rn0)); [|rewrite F1].
  - split.
    + apply (slots_same c rn0); simpl; [done | done | done | |].
      * intros i q u Hq. rewrite lookup_delete_Some. split; [by intros [_ ?]|]. intros Hl. split; [|done]. intros <-. rewrite Ht in Hl. by simplify_eq.
      * by apply (global_holders_delete rn0 _ (tk_ID t) Closing t).
    + intros i q u. simpl. intros [_ Hl]%lookup_delete_Some. by apply (Hn i q).
Qed.

Lemma slots_external rn rn' : slots c rn → threads_named rn → (∀ id, rn_store rn !! id = None → rn_threads rn !! id = None) → external c rn rn' →
  slots c rn' ∧ threads_named rn'.
Proof.
  intros Hs Hn Hlive Hext. destruct Hext as [id now worker sender params rn Hw|sender params rn|rn].
  - destruct (Submit c id now worker sender params rn) as [rn' r] eqn:Hsub. simpl.
    destruct (submit_cases _ _ _ _ _ _ _ _ Hsub) as [(e & -> & ->)|(req & dir & -> & _ & _ & Hfresh & ->)]; [done|].
    specialize (Hlive id Hfresh). split.
    + apply (slots_same c rn); simpl; [done | done | done | |].
      * intros i q u Hq. rewrite lookup_insert_Some. split; [intros [[_ [= <- _]]|[_ ?]]; done|]. intros Hl. right. split; [|done]. intros <-. congruence.
      * by apply (global_holders_insert rn _ id WaitTool (new_task id worker sender dir req now)).
    + intros i q u. simpl. intros [[<- [= <- <-]]|[_ Hl]]%lookup_insert_Some; [done | by apply (Hn i q)].
  - unfold Cancel. destruct (ownedTask sender params rn) as [t|e]; [|done]. case_decide; [|done]. split; [by apply (slots_same c rn) | done].
  - split; [by apply (slots_same c rn) | done].
Qed.

(** ** Every task is accounted for *)

Definition replies_for rn (id : string) : list Reply := filter (λ r, rp_task_id (re_payload r) = id) (rn_replies rn).

(** The answer that tells what the store holds. *)
Definition reply_of (row : Task) : Reply := {| re_worker := tk_Worker row; re_to := tk_Sender row; re_payload := replyPayload row (c_StateDir c) |}.

Definition answered (row : Task) (l : list Reply) : Prop := terminal row = true ∧ l = [reply_of row].

Definition same_task (row t : Task) : Prop :=
  tk_ID row = tk_ID t ∧ tk_Worker row = tk_Worker t ∧ tk_Sender row = tk_Sender t ∧ tk_Profile row = tk_Profile t.

Definition phase_ok (p : Phase) (row t : Task) (l : list Reply) : Prop :=
  match p with
  | WaitTool | WaitGlobal | Starting => tk_State row = StateSubmitted ∧ tk_State t = StateSubmitted ∧ l = []
  | Running => tk_State row = StateWorking ∧ tk_State t = StateWorking ∧ l = []
  | Settling => (terminal t = true ∨ tk_State t = StateSubmitted) ∧ orphaned row = true ∧ l = []
  | Closing => answered row l
  end.

(** [rows]: the tasks that the store held when the runner started. *)
Definition account (rows : Store) rn (id : string) : Prop :=
  match rn_threads rn !! id with
  | Some (p, t) => rows !! id = None ∧ ∃ row, rn_store rn !! id = Some row ∧ same_task row t ∧ tk_ID t = id ∧ phase_ok p row t (replies_for rn id)
  | None =>
      match rn_store rn !! id with
      | None => rows !! id = None ∧ replies_for rn id = []
      | Some row => (rows !! id = Some row ∧ replies_for rn id = []) ∨ (rows !! id = None ∧ answered row (replies_for rn id))
      end
  end.

Lemma account_frame rows rn rn' id : rn_threads rn' !! id = rn_threads rn !! id → rn_store rn' !! id = rn_store rn !! id →
  replies_for rn' id = replies_for rn id → account rows rn id → account rows rn' id.
Proof. unfold account. intros -> -> ->. done. Qed.

Lemma update_lookup (db : Store) t id : id ≠ tk_ID t → store_Update db t !! id = db !! id.
Proof. intros Hne. unfold store_Update. by rewrite lookup_alter_ne. Qed.

Lemma update_self (db : Store) t row : db !! tk_ID t = Some row → store_Update db t !! tk_ID t = Some (set_outcome t row).
Proof. intros Hr. unfold store_Update. by rewrite lookup_alter_eq, Hr. Qed.

Lemma reply_settled now t row : same_task row t →
  {| re_worker := tk_Worker (settled now t); re_to := tk_Sender (settled now t); re_payload := replyPayload (settled now t) (c_StateDir c) |}
  = reply_of (set_outcome (settled now t) row).
Proof.
  intros (H1' & H2' & H3' & H4'). unfold reply_of, replyPayload. unfold settled. destruct (terminal t); simpl; by rewrite H1', H2', H3', H4'.
Qed.

(** A move of a thread keeps the accounts when the phase fits the row and the task. *)
Lemma account_move rows rn id p t p' t' db busy running : (∀ id, account rows rn id) → rn_threads rn !! id = Some (p, t) →
  tk_ID t' = id → (∀ i, i ≠ id → db !! i = rn_store rn !! i) →
  (∀ row, rn_store rn !! id = Some row → same_task row t → phase_ok p row t (replies_for rn id) →
     ∃ row', db !! id = Some row' ∧ same_task row' t' ∧ phase_ok p' row' t' (replies_for rn id)) →
  ∀ i, account rows (move rn db busy running p' t') i.
Proof.
  intros Ha Ht Hid Hdb Hrow i. destruct (decide (i = id)) as [->|Hne].
  - specialize (Ha id). unfold account in *. rewrite Ht in Ha. simpl. rewrite Hid, lookup_insert_eq.
    destruct Ha as (Hn & row & Hr & Hs & _ & Hp). split; [done|]. destruct (Hrow row Hr Hs Hp) as (row' & Hr' & Hs' & Hp'). by exists row'.
  - apply (account_frame rows rn); [| by apply Hdb | done | done]. simpl. by rewrite lookup_insert_ne by congruence.
Qed.

Lemma account_step rows rn rn' : (∀ id, account rows rn id) → internal c rn rn' → ∀ id, account rows rn' id.
Proof.
  intros Ha Hi. destruct Hi as [id p t rn0 rn1 Ht Hstep].
  assert (Hid : tk_ID t = id) by (specialize (Ha id); unfold account in Ha; rewrite Ht in Ha; naive_solver).
  inversion Hstep; subst.
  - unfold acquire_tool in *. case_decide; simplify_eq. apply (account_move rows rn0 (tk_ID t) WaitTool t); try done. simpl. eauto.
  - unfold give_up_tool in *. destruct (is_canceled _ _); simplify_eq. apply (account_move rows rn0 (tk_ID t) WaitTool t); try done. simpl.
    intros row Hr Hs (S1 & S2 & S3). exists row. split_and!; [done.. | by right | by apply bool_decide_eq_true; left | done].
  - unfold acquire_global in *. case_decide; simplify_eq. apply (account_move rows rn0 (tk_ID t) WaitGlobal t); try done. simpl. eauto.
  - unfold give_up_global in *. destruct (is_canceled _ _); simplify_eq. apply (account_move rows rn0 (tk_ID t) WaitGlobal t); try done. simpl.
    intros row Hr Hs (S1 & S2 & S3). exists row. split_and!; [done.. | by right | by apply bool_decide_eq_true; left | done].
  - assert (Hup : ∀ p' t' busy running, tk_ID t' = tk_ID t → same_task t t' →
      (p' = Running ∧ tk_State t' = StateWorking ∨ p' = Settling ∧ terminal t' = true) →
      ∀ i, account rows (move rn0 (store_Update (rn_store rn0) (set_state StateWorking (tk_Error t) now t)) busy running p' t') i).
    { intros p' t' busy running Hid' Hsame Hp. apply (account_move rows rn0 (tk_ID t) Starting t); [done | done | done | |].
      - intros i Hne. by apply update_lookup.
      - intros row Hr Hs (Hr1 & Hr2 & Hr3). eexists. split; [by apply (update_self _ (set_state StateWorking (tk_Error t) now t))|]. unfold same_task in *. simpl.
        split; [destruct Hs as (? & ? & ? & ?), Hsame as (? & ? & ? & ?); split_and!; congruence|].
        destruct Hp as [[-> Hp]|[-> Hp]]; simpl; [done|]. by split; [left|]. }
    unfold start_run. go_cases; apply Hup; first [done | by left | by right; split; [|apply bool_decide_eq_true; naive_solver]].
  - destruct (finish_facts (is_canceled rn0 t) oc t) as (F1 & F2 & F3 & F4). unfold end_run.
    apply (account_move rows rn0 (tk_ID t) Running t); [done | done | done | done |].
    intros row Hr Hs (Hw & _ & Hl). exists row. split; [done|]. split; [|split; [by left | split; [by apply bool_decide_eq_true; right | done]]].
    destruct Hs as (S1 & S2 & S3 & S4). unfold same_task. split_and!; try congruence. unfold finish. by go_cases.
  - assert (Hacc := Ha (tk_ID t)). unfold account in Hacc. rewrite Ht in Hacc. destruct Hacc as (Hn & row & Hr & Hs & _ & _ & _ & Hl).
    destruct (settled_facts now t) as (F1 & F2 & F3 & F4). intros i. destruct (decide (i = tk_ID t)) as [->|Hne].
    + unfold account.
      assert (rn_threads (settle c sum now t rn0) !! tk_ID t = Some (Closing, settled now t)) as ->
        by (change (rn_threads (settle c sum now t rn0)) with (<[tk_ID (settled now t) := (Closing, settled now t)]> (rn_threads rn0)); by rewrite F1, lookup_insert_eq).
      split; [done|]. exists (set_outcome (settled now t) row). split.
      { change (rn_store (settle c sum now t rn0)) with (store_Update (rn_store rn0) (settled now t)). rewrite <- F1. apply update_self. by rewrite F1. }
      split; [unfold same_task in *; simpl; destruct Hs as (? & ? & ? & ?); split_and!; try congruence; unfold settled; by go_cases|].
      split; [done|]. split; [done|]. unfold replies_for in *. simpl. rewrite filter_app, Hl, filter_cons_True by done.
      simpl. f_equal. by apply reply_settled.
    + apply (account_frame rows rn0); [| | | done].
      * change (rn_threads (settle c sum now t rn0)) with (<[tk_ID (settled now t) := (Closing, settled now t)]> (rn_threads rn0)). by rewrite lookup_insert_ne by congruence.
      * apply update_lookup. fold (settled now t). congruence.
      * unfold replies_for. simpl. rewrite filter_app, filter_cons_False; [apply app_nil_r|]. simpl. fold (settled now t). congruence.
  - assert (Hacc := Ha (tk_ID t)). unfold account in Hacc. rewrite Ht in Hacc. destruct Hacc as (Hn & row & Hr & Hs & _ & Hans).
    intros i. destruct (decide (i = tk_ID t)) as [->|Hne].
    + unfold account. simpl. rewrite lookup_delete_eq, Hr. by right.
    + apply (account_frame rows rn0); [| done | done | done]. simpl. by rewrite lookup_delete_ne.
Qed.

Lemma account_external rows rn rn' : (∀ id, account rows rn id) → external c rn rn' → ∀ id, account rows rn' id.
Proof.
  intros Ha Hext. destruct Hext as [id now worker sender params rn Hw|sender params rn|rn].
  - destruct (Submit c id now worker sender params rn) as [rn' r] eqn:Hsub. simpl.
    destruct (submit_cases _ _ _ _ _ _ _ _ Hsub) as [(e & -> & ->)|(req & dir & -> & _ & _ & Hfresh & ->)]; [done|].
    intros i. specialize (Ha i). destruct (decide (i = id)) as [->|Hne].
    + unfold account in *. simpl. rewrite !lookup_insert_eq. rewrite Hfresh in Ha.
      destruct (rn_threads rn !! id) as [[q u]|]; [by destruct Ha as (_ & row & ? & _)|]. destruct Ha as [Hn Hl]. split; [done|].
      eexists. split; [done|]. by repeat split.
    + apply (account_frame rows rn); [| | done | done]; simpl; by rewrite lookup_insert_ne.
  - unfold Cancel. destruct (ownedTask sender params rn) as [t|e]; [|done]. by case_decide.
  - done.
Qed.

Record well_formed (rows : Store) rn : Prop := {
  wf_slots : slots c rn;
  wf_named : threads_named rn;
  wf_account id : account rows rn id;
}.

Lemma account_live rows rn id : account rows rn id → rn_store rn !! id = None → rn_threads rn !! id = None.
Proof. unfold account. intros Ha Hn. destruct (rn_threads rn !! id) as [[p t]|]; [|done]. destruct Ha as (_ & row & Hr & _). congruence. Qed.

Lemma reachable_well_formed rows rn : reachable c rows rn → well_formed rows rn.
Proof.
  induction 1 as [|rn rn' _ [Hs Hn Ha] Hi|rn rn' _ [Hs Hn Ha] He].
  - split; [apply slots_new | intros id p t Hl; simpl in Hl; by rewrite lookup_empty in Hl |].
    intros id. unfold account, replies_for. simpl. rewrite lookup_empty. destruct (rows !! id) as [row|]; [by left | done].
  - destruct (slots_step rn rn' Hs Hn Hi). split; [done | done | by apply (account_step rows rn)].
  - destruct (slots_external rn rn' Hs Hn) as [S N]; [intros id; by apply (account_live rows), Ha | done |].
    split; [done | done | by apply (account_external rows rn)].
Qed.

(** ** The limits *)

(** However submissions, cancellations and the threads interleave, a worker runs at most one
    task at a time, and at most the configured number of tasks run at once. *)
Theorem runner_slots rows rn : reachable c rows rn → 0 ≤ c_MaxConcurrent c →
  (∀ id1 id2 p1 p2 t1 t2, rn_threads rn !! id1 = Some (p1, t1) → rn_threads rn !! id2 = Some (p2, t2) →
     holds_global p1 = true → holds_global p2 = true → tk_Worker t1 = tk_Worker t2 → id1 = id2) ∧
  Z.of_nat (size (filter (λ kv : string * (Phase * Task), holds_global kv.2.1 = true) (rn_threads rn))) ≤ c_MaxConcurrent c.
Proof.
  intros [Hs _ _]%reachable_well_formed Hmax. split.
  - intros i1 i2 p1 p2 t1 t2 L1 L2 H1' H2'. apply (sl_one c rn Hs i1 i2 p1 p2 t1 t2 L1 L2); [by destruct p1 | by destruct p2].
  - pose proof (sl_running c rn Hs) as Hr. pose proof (sl_max c rn Hs Hmax). unfold global_holders in Hr. lia.
Qed.

(** C23. Every task of the runner is accounted for.  A task whose thread has ended is completed,
    failed or canceled, and exactly one answer was sent for it, to its sender from its worker,
    with the stored result; a task with a thread is not answered before it is settled; tasks
    of an earlier run are left alone; and after a crash at any moment the next start finds every
    task settled once it has failed the orphans. *)
Theorem tasks_settled rows rn : reachable c rows rn →
  (∀ id row, rn_store rn !! id = Some row → rn_threads rn !! id = None → rows !! id = None →
     terminal row = true ∧ replies_for rn id = [reply_of row]) ∧
  (∀ id p t, rn_threads rn !! id = Some (p, t) →
     ∃ row, rn_store rn !! id = Some row ∧ tk_Sender row = tk_Sender t ∧ (replies_for rn id = [] ∨ terminal row = true ∧ replies_for rn id = [reply_of row])) ∧
  (∀ id row, rows !! id = Some row → rn_store rn !! id = Some row ∧ replies_for rn id = []) ∧
  (∀ now id row, (∀ id row, rows !! id = Some row → terminal row = true) → (FailOrphans now (rn_store rn)).1 !! id = Some row → terminal row = true).
Proof.
  intros [_ _ Ha]%reachable_well_formed. split_and!.
  - intros id row Hr Ht Hn. specialize (Ha id). unfold account in Ha. rewrite Ht, Hr in Ha. destruct Ha as [[? _]|[_ Hans]]; [congruence | done].
  - intros id p t Ht. specialize (Ha id). unfold account in Ha. rewrite Ht in Ha. destruct Ha as (_ & row & Hr & (_ & _ & Hs & _) & _ & Hp).
    exists row. split; [done|]. split; [done|]. destruct p; simpl in Hp; naive_solver.
  - intros id row Hr. specialize (Ha id). unfold account in Ha. destruct (rn_threads rn !! id) as [[p t]|]; [naive_solver|].
    destruct (rn_store rn !! id) as [row'|]; naive_solver.
  - intros now id row Hrows Hl. unfold FailOrphans in Hl. simpl in Hl. rewrite lookup_fmap in Hl.
    destruct (rn_store rn !! id) as [row'|] eqn:Hr; [|done]. injection Hl as <-. destruct (orphaned row') eqn:Ho; [done|].
    specialize (Ha id). unfold account in Ha. rewrite Hr in Ha. destruct (rn_threads rn !! id) as [[p t]|].
    + destruct Ha as (_ & row & [= <-] & _ & _ & Hp). unfold orphaned in Ho. apply bool_decide_eq_false in Ho.
      destruct p; simpl in Hp; [naive_solver.. | | by destruct Hp]. destruct Hp as (_ & Hp & _). apply bool_decide_eq_true in Hp. done.
    + destruct Ha as [[Hrow _]|[_ [? _]]]; [by apply (Hrows id) | done].
Qed.

(** ** Every task is answered in the end *)

Definition weight (p : Phase) : nat :=
  match p with WaitTool => 6 | WaitGlobal => 5 | Starting => 4 | Running => 3 | Settling => 2 | Closing => 1 end.

(** The steps that are left to the threads. *)
Definition load (m : gmap string (Phase * Task)) : nat := sum_list_with (λ kv, weight kv.2.1) (map_to_list m).

Lemma load_insert m id p t : m !! id = None → load (<[id := (p, t)]> m) = (weight p + load m)%nat.
Proof. intros Hn. unfold load. rewrite map_to_list_insert by done. done. Qed.

Lemma load_move m id p t p' t' : m !! id = Some (p, t) → (load (<[id := (p', t')]> m) + weight p = load m + weight p')%nat.
Proof.
  intros Hm. rewrite <- (insert_delete_id m id (p, t) Hm) at 2. rewrite <- insert_delete_eq.
  rewrite !load_insert by apply lookup_delete_eq. lia.
Qed.

Lemma load_bound m : (load m <= 6 * size m)%nat.
Proof.
  unfold load. rewrite <- (length_map_to_list m). induction (map_to_list m) as [|[id [p t]] l IH]; [simpl; lia|]. simpl in *.
  assert (weight p ≤ 6)%nat by (destruct p; simpl; lia). lia.
Qed.

Lemma load_step rn rn' : threads_named rn → internal c rn rn' → (load (rn_threads rn') < load (rn_threads rn))%nat.
Proof.
  intros Hn Hi. destruct Hi as [id p t rn0 rn1 Ht Hstep]. destruct (Hn id p t Ht) as [Hid _].
  assert (Hmove : ∀ p' t', (weight p' < weight p)%nat → (load (<[id := (p', t')]> (rn_threads rn0)) < load (rn_threads rn0))%nat).
  { intros p' t' Hw. pose proof (load_move (rn_threads rn0) id p t p' t' Ht). lia. }
  inversion Hstep; subst.
  - unfold acquire_tool in *. case_decide; simplify_eq. apply Hmove. simpl. lia.
  - unfold give_up_tool in *. destruct (is_canceled _ _); simplify_eq. apply Hmove. simpl. lia.
  - unfold acquire_global in *. case_decide; simplify_eq. apply Hmove. simpl. lia.
  - unfold give_up_global in *. destruct (is_canceled _ _); simplify_eq. apply Hmove. simpl. lia.
  - unfold start_run. go_cases; apply Hmove; simpl; lia.
  - destruct (finish_facts (is_canceled rn0 t) oc t) as (F1 & _). unfold end_run, move. simpl. rewrite F1. apply Hmove. simpl. lia.
  - destruct (settled_facts now t) as (F1 & _). change (rn_threads (settle c sum now t rn0)) with (<[tk_ID (settled now t) := (Closing, settled now t)]> (rn_threads rn0)).
    rewrite F1. apply Hmove. simpl. lia.
  - simpl. rewrite <- (insert_delete_id (rn_threads rn0) (tk_ID t) (Closing, t) Ht) at 2. rewrite load_insert by apply lookup_delete_eq. simpl. lia.
Qed.

(** While there is a thread, one of them can go on. *)
Lemma some_step rows rn : well_formed rows rn → 1 ≤ c_MaxConcurrent c → rn_threads rn ≠ ∅ → ∃ rn', internal c rn rn'.
Proof.
  intros [Hs Hn Ha] Hmax Hne.
  assert (Hgo : ∀ id p t rn', rn_threads rn !! id = Some (p, t) → thread_step c t rn p rn' → ∃ rn', internal c rn rn') by (intros; eexists; by eapply internal_step).
  destruct (decide (map_Forall (λ _ kv, holds_global kv.1 = false ∧ kv.1 ≠ Settling ∧ kv.1 ≠ Closing) (rn_threads rn))) as [Hwait|Hgone].
  2:{ apply map_not_Forall in Hgone as (id & [p t] & Ht & Hp); [|apply _]. destruct p; simpl in Hp; try (by destruct Hp).
      - eapply Hgo; [done|]. by apply (step_start c t rn 0 {| pr_mkdir := None; pr_common_dir := inl EmptyString; pr_worktree := None |} None).
      - eapply Hgo; [done|]. by apply (step_end c t rn {| oc_out := EmptyString; oc_code := 0; oc_err := None; oc_timed_out := false; oc_diff := EmptyString; oc_diff_err := None |}).
      - eapply Hgo; [done|]. by apply (step_settle c t rn (λ x, x) 0).
      - eapply Hgo; [done|]. by apply step_close. }
  assert (Hrun : rn_running rn = 0).
  { rewrite (sl_running c rn Hs). unfold global_holders. rewrite map_empty_filter_2; [done|]. intros id kv Hkv. destruct (Hwait id kv Hkv) as [Hq _]. simpl. by rewrite Hq. }
  destruct (decide (map_Forall (λ _ kv, kv.1 = WaitTool) (rn_threads rn))) as [Htool|Hglobal].
  - destruct (map_choose (rn_threads rn) Hne) as (id & [p t] & Ht). pose proof (Htool id (p, t) Ht) as Hp. simpl in Hp. subst p.
    eapply Hgo; [done|]. eapply step_acquire_tool. unfold acquire_tool. rewrite decide_True; [done|]. split; [apply (Hn id WaitTool t Ht)|].
    intros (i & q & u & Hu & Hq & _)%(sl_busy c rn Hs). specialize (Htool i (q, u) Hu). simpl in Htool. by subst.
  - apply map_not_Forall in Hglobal as (id & [p t] & Ht & Hp); [|apply _]. destruct (Hwait id (p, t) Ht) as (W1 & W2 & W3).
    assert (p = WaitGlobal) as -> by (by destruct p). eapply Hgo; [done|]. eapply step_acquire_global. unfold acquire_global. by rewrite decide_True by lia.
Qed.

Lemma internal_well_formed rows rn rn' : well_formed rows rn → rtc (internal c) rn rn' → well_formed rows rn'.
Proof.
  intros Hw Hi. induction Hi as [|rn rn1 rn2 Hstep _ IH]; [done|]. apply IH. destruct Hw as [Hs Hn Ha].
  destruct (slots_step rn rn1 Hs Hn Hstep). split; [done | done | by apply (account_step rows rn)].
Qed.

Lemma load_steps rows n rn rn' : well_formed rows rn → nsteps (internal c) n rn rn' → (load (rn_threads rn') + n <= load (rn_threads rn))%nat.
Proof.
  intros Hw Hi. induction Hi as [rn|n rn rn1 rn2 Hstep Hrest IH]; [lia|].
  pose proof (load_step rn rn1 (wf_named _ _ Hw) Hstep). assert (well_formed rows rn1) as Hw1 by (apply (internal_well_formed rows rn); [done | by apply rtc_once]).
  specialize (IH Hw1). lia.
Qed.

(** C24. The threads never block each other for good.  From every reachable state they take at
    most six steps per task, they can go on until the last of them has ended whatever they have
    done so far, and then every task accepted by this runner is settled and answered once. *)
Theorem runner_drains rows rn : reachable c rows rn → 1 ≤ c_MaxConcurrent c →
  (∀ n rn', nsteps (internal c) n rn rn' → (n <= 6 * size (rn_threads rn))%nat) ∧
  (∀ rn', rtc (internal c) rn rn' → rn_threads rn' = ∅ ∨ ∃ rn'', internal c rn' rn'') ∧
  ∃ rn', rtc (internal c) rn rn' ∧ rn_threads rn' = ∅ ∧
    ∀ id row, rn_store rn' !! id = Some row → rows !! id = None → terminal row = true ∧ replies_for rn' id = [reply_of row].
Proof.
  intros Hw%reachable_well_formed Hmax.
  assert (Hgo : ∀ rn', rtc (internal c) rn rn' → rn_threads rn' = ∅ ∨ ∃ rn'', internal c rn' rn'').
  { intros rn' Hi. destruct (decide (rn_threads rn' = ∅)) as [He|He]; [by left | right]. apply (some_step rows); [|done..]. by apply (internal_well_formed rows rn). }
  split_and!; [| done |].
  - intros n rn' Hi. pose proof (load_steps rows n rn rn' Hw Hi). pose proof (load_bound (rn_threads rn)). lia.
  - assert (Hend : ∃ rn', rtc (internal c) rn rn' ∧ rn_threads rn' = ∅).
    { clear Hgo. remember (load (rn_threads rn)) as k eqn:Hk. revert rn Hw Hk. induction (lt_wf k) as [k _ IH]. intros rn Hw ->.
      destruct (decide (rn_threads rn = ∅)) as [He|He]; [by exists rn|]. destruct (some_step rows rn Hw Hmax He) as [rn1 Hstep].
      destruct (IH _ (load_step rn rn1 (wf_named _ _ Hw) Hstep) rn1) as (rn' & Hi & He'); [|done|].
      - apply (internal_well_formed rows rn); [done | by apply rtc_once].
      - exists rn'. split; [by apply rtc_l with rn1 | done]. }
    destruct Hend as (rn' & Hi & He). exists rn'. split_and!; [done..|]. intros id row Hr Hn.
    pose proof (wf_account _ _ (internal_well_formed rows rn rn' Hw Hi) id) as Ha. unfold account in Ha. rewrite He, lookup_empty, Hr in Ha.
    destruct Ha as [[? _]|[_ ?]]; [congruence | done].
Qed.

End steps.

(** ** What is admitted *)

(** filepath.EvalSymlinks of a rooted path is rooted. *)
Class HostLaws `{Host} : Prop := { EvalSymlinks_abs p r : IsAbs p = true → EvalSymlinks p = Some r → IsAbs r = true }.

Section admission.
Context `{HostLaws} `{TaskCodec} `{ToolOutput} `{NumberText} (c : Config).

(** A directory that a task may run in: it exists and is inside one of the roots, links resolved. *)
Definition allowed_dir (d dir : string) : Prop :=
  IsAbs (expandHome d) = true ∧ EvalSymlinks (expandHome d) = Some dir ∧ IsDir dir = true ∧
  ∃ root rr, root ∈ c_Roots c ∧ EvalSymlinks root = Some rr ∧ inside rr dir.

(** The policy. *)
Definition admitted (sender : string) (req : taskRequest) (dir : string) : Prop :=
  sender ∈ c_Senders c ∧ tr_Hops req ≤ maxHops ∧ TrimSpace (tr_Prompt req) ≠ EmptyString ∧
  Z.of_nat (String.length (tr_Prompt req)) ≤ maxPromptBytes ∧
  (tr_Profile req = ProfileRO ∨ tr_Profile req = ProfileRW ∧ sender ∈ c_RWAllow c ∧ tr_Dir req ≠ EmptyString ∧ InsideWorkTree dir = true) ∧
  (tr_Dir req = EmptyString ∧ dir = EmptyString ∨ tr_Dir req ≠ EmptyString ∧ allowed_dir (tr_Dir req) dir).

Lemma under_root_spec real root : IsAbs real = true → under_root real root = true ↔ ∃ rr, EvalSymlinks root = Some rr ∧ inside rr real.
Proof.
  intros Hr. unfold under_root. destruct (EvalSymlinks root) as [rr|]; [|naive_solver]. split.
  - intros Hrel. exists rr. split; [done|]. apply Rel_inside; [done|]. destruct (Rel rr real); [eauto | done].
  - intros (? & [= <-] & (rel & -> & Hc)%Rel_inside); done.
Qed.

Lemma resolveDir_spec d dir : resolveDir c d = Ok dir ↔ allowed_dir d dir.
Proof.
  unfold resolveDir, allowed_dir. destruct (IsAbs (expandHome d)) eqn:Ha; simpl; [|naive_solver].
  destruct (EvalSymlinks (expandHome d)) as [real|] eqn:He; [|by split; [|intros (_ & ? & _)]].
  pose proof (EvalSymlinks_abs _ _ Ha He) as Hr. destruct (IsDir real) eqn:Hd; simpl; [|split; [done|]; intros (_ & [= <-] & ? & _); congruence].
  assert (Hroots : existsb (under_root real) (c_Roots c) = true ↔ ∃ root rr, root ∈ c_Roots c ∧ EvalSymlinks root = Some rr ∧ inside rr real).
  { rewrite existsb_exists. setoid_rewrite <- list_elem_of_In. split.
    - intros (root & Hin & (rr & ? & ?)%under_root_spec); eauto.
    - intros (root & rr & Hin & ? & ?). exists root. split; [done|]. apply under_root_spec; eauto. }
  destruct (existsb _ _).
  - split; [intros [= <-]; split_and!; [done..|]; by apply Hroots | intros (_ & [= <-] & _); done].
  - split; [done|]. intros (_ & [= <-] & _ & Hx). by apply Hroots in Hx.
Qed.

Lemma validate_spec sender req dir : validate c sender req = Ok dir ↔ admitted sender req dir.
Proof.
  unfold validate, admitted, senderAllowed. case_bool_decide as Hs; simpl; [|naive_solver].
  case_decide as Hh; [split; [done | lia]|]. case_decide as Hp; [naive_solver|]. case_decide as Hl; [split; [done | lia]|].
  unfold check_profile, rwAllowed. destruct (decide (tr_Profile req = ProfileRO)) as [Hro|Hro].
  - rewrite Hro. destruct (decide (tr_Dir req = EmptyString)) as [Hd|Hd]; [rewrite Hd; split; [intros [= <-] | ]; naive_solver (lia)|].
    pose proof (resolveDir_spec (tr_Dir req) dir) as Hr. destruct (resolveDir c (tr_Dir req)) as [real|e]; simpl.
    + split; [intros [= ->]; split_and!; [done | lia | done | lia | by left | right; split; [done | by apply Hr]] | naive_solver].
    + split; [done | naive_solver].
  - case_decide as Hrw; [|naive_solver]. case_bool_decide as Ha; simpl; [|naive_solver]. case_decide as Hd; [naive_solver|].
    rewrite (bool_decide_true (tr_Profile req = ProfileRW)) by done. simpl.
    pose proof (resolveDir_spec (tr_Dir req) dir) as Hr. destruct (resolveDir c (tr_Dir req)) as [real|e]; simpl.
    + destruct (InsideWorkTree real) eqn:Hw; simpl.
      * split; [intros [= ->]; split_and!; [done | lia | done | lia | by right | right; split; [done | by apply Hr]] | naive_solver].
      * split; [done|]. intros (_ & _ & _ & _ & [?|(_ & _ & _ & Hw')] & [[? _]|[_ Hx]]); [done | done | done |]. apply Hr in Hx. congruence.
    + split; [done | naive_solver].
Qed.

(** C25. A submission is accepted exactly when the policy admits the request and its identifier is
    new: a listed sender, at most one hop, a prompt that is not blank and not too long, reading
    only unless the sender may write and names a git work tree, and a directory that exists
    inside one of the roots once links are resolved.  Accepted, the task is stored and its
    thread waits for the worker; otherwise nothing changes. *)
Theorem task_admission id now worker sender params rn rn' r : Submit c id now worker sender params rn = (rn', r) →
  (r = Ok id ↔ rn_store rn !! id = None ∧ ∃ req dir, parseTaskRequest params = Ok req ∧ admitted sender req dir) ∧
  match r with
  | Err _ => rn' = rn
  | Ok i => i = id ∧ id ∈ rn_cancels rn' ∧ ∃ req dir, admitted sender req dir ∧
      let t := new_task id worker sender dir req now in
      rn_threads rn' = <[id := (WaitTool, t)]> (rn_threads rn) ∧ rn_store rn' = <[id := stored_times t]> (rn_store rn)
  end.
Proof.
  intros Hsub. destruct (submit_cases c _ _ _ _ _ _ _ _ Hsub) as [(e & -> & ->)|(req & dir & -> & Hp & Hv & Hf & ->)].
  - split; [|done]. split; [done|]. intros (Hf & req & dir & Hp & Ha%validate_spec). unfold Submit in Hsub.
    rewrite Hp, Ha in Hsub. unfold store_Create in Hsub. simpl in Hsub. by rewrite Hf in Hsub.
  - apply validate_spec in Hv. split; [naive_solver|]. split; [done|]. split; [simpl; set_solver|]. eauto.
Qed.

(** ** Who may read and cancel *)

(** A task is read and canceled by its sender alone; to others it looks as if it did not exist. *)
Lemma get_private sender params rn t : Get sender params rn = Ok t ↔
  ∃ id, UnmarshalID params = Some id ∧ id ≠ EmptyString ∧ rn_store rn !! id = Some t ∧ tk_Sender t = sender.
Proof.
  unfold Get, ownedTask. destruct (UnmarshalID params) as [id|]; [|by split; [|intros (? & ? & _)]]. split.
  - case_decide; [done|]. destruct (rn_store rn !! id) as [t'|] eqn:Hr; [|done]. case_decide as Hs; [done|]. intros [= ->]. eauto.
  - intros (i & [= <-] & Hi & -> & Hs). rewrite decide_False by done. rewrite decide_False; [done|]. by intros ?.
Qed.

Lemma foreign_task_hidden sender params id t rn : UnmarshalID params = Some id → id ≠ EmptyString → rn_store rn !! id = Some t → tk_Sender t ≠ sender →
  Get sender params rn = Err errNotFound ∧ Cancel sender params rn = (rn, Err errNotFound).
Proof. intros Hid Hne Hr Hs. unfold Cancel, Get, ownedTask. rewrite Hid, Hr, decide_False, decide_True by done. done. Qed.

End admission.

(** ** What a normalized configuration guarantees *)

Section configuration.
Context `{Host}.

Lemma leaves_home_spec rel : leaves_home rel = false → IsAbs rel = false ∧ Forall (λ x, x ≠ "..") (components rel).
Proof.
  unfold leaves_home. intros [Ha Hp]%orb_false_elim. split; [done|].
  assert (Hshape : ∃ k l, components rel = repeat ".." k ++ l ∧ Forall (λ x, x ≠ "..") l).
  { unfold components. rewrite Ha. unfold clean_parts.
    destruct (clean_stack_fold false (parts rel) [] (clean_stack_nil false)) as (st & k & -> & Hst & _). exists k, (rev st). split.
    - rewrite rev_app_distr. f_equal. clear. induction k as [|k IH]; [done|]. simpl. rewrite IH. clear. induction k as [|k IH]; [done|]. simpl. by rewrite IH.
    - apply Forall_rev. eapply Forall_impl; [exact Hst|]. by intros x [_ ?]. }
  destruct Hshape as (k & l & Hc & Hl). destruct k as [|k]; [by rewrite Hc|]. exfalso. unfold Clean in Hp. rewrite Ha in Hp.
  change (clean_parts false (parts rel)) with (clean_parts false (parts rel)) in Hp. unfold components in Hc. rewrite Ha in Hc. rewrite Hc in Hp. cbn [repeat app] in Hp.
  destruct (repeat ".." k ++ l); [done|]. cbn [JoinWith String.append] in Hp. rewrite !HasPrefix_cons, HasPrefix_nil in Hp. done.
Qed.

Lemma check_workers_spec seen ws : check_workers seen ws = None →
  Forall (λ w, is_Some (tool_named (w_Tool w)) ∧ Forall (λ rel, leaves_home rel = false) (worker_paths w) ∧ w_Name w ≠ EmptyString ∧ w_Name w ∉ seen) ws ∧
  NoDup (w_Name <$> ws).
Proof.
  revert seen. induction ws as [|w ws IH]; intros seen Hc; [split; constructor|]. simpl in Hc.
  destruct (tool_named (w_Tool w)) as [tl|] eqn:Ht; [|done]. destruct (List.find leaves_home (worker_paths w)) as [rel|] eqn:Hf; [done|].
  case_decide as Hn; [done|]. destruct (IH _ Hc) as [Hws Hnd]. split.
  - constructor; [|eapply Forall_impl; [exact Hws|]; simpl; set_solver].
    split_and!; [eauto | | tauto | tauto]. apply Forall_forall. intros rel Hrel. apply list_elem_of_In in Hrel. by apply (find_none _ _ Hf).
  - simpl. constructor; [|done]. intros (w' & Hw' & Hin)%list_elem_of_fmap. rewrite Forall_forall in Hws. destruct (Hws w' Hin) as (_ & _ & _ & Hno). set_solver.
Qed.

Lemma tools_run t tool : tool_named t = Some tool → is_Some (argv tool).
Proof.
  unfold tool_named. destruct (List.find _ tools) as [kt|] eqn:Hf; [|done]. intros [= <-]. apply find_some in Hf as [Hin%list_elem_of_In _].
  assert (Hall : Forall (λ kt, is_Some (argv kt.2)) tools) by (repeat constructor; eauto). rewrite Forall_forall in Hall. by apply Hall.
Qed.

(** A configuration that is accepted has at least one place for tasks, a jail unless it is
    switched off, workers with known tools and different names, and its extra binds and overlays
    are below the home directory, whatever dots and slashes they are written with. *)
Theorem config_sound c c' : normalize c = Ok c' → UserHomeDir ≠ EmptyString →
  1 ≤ c_MaxConcurrent c' ∧ c_Timeout c' ≠ 0 ∧ c_Roots c' ≠ [] ∧ (c_Sandbox c ≠ Some false → c_Sandbox c' = Some true) ∧
  NoDup (w_Name <$> c_Workers c') ∧
  ∀ w, w ∈ c_Workers c' → (∃ tool, tool_named (w_Tool w) = Some tool ∧ is_Some (argv tool)) ∧
    ∀ rel p, rel ∈ worker_paths w → inside (Join [UserHomeDir; rel]) p → inside UserHomeDir p.
Proof.
  unfold normalize. case_decide; [done|]. case_decide as Hr; [done|]. case_decide; [done|]. intros Hok Hhome.
  destruct (check_workers [] (c_Workers (with_defaults c))) eqn:Hc; [done|]. injection Hok as <-. apply check_workers_spec in Hc as [Hws Hnd].
  split_and!; [simpl; case_decide; lia | simpl; by case_decide | done | simpl; by destruct (c_Sandbox c) as [[]|] | done |].
  intros w Hw. rewrite Forall_forall in Hws. destruct (Hws w Hw) as ((tl & Ht) & Hp & _). split.
  - exists tl. split; [done | by apply tools_run in Ht].
  - intros rel p Hrel. rewrite Forall_forall in Hp. destruct (leaves_home_spec rel (Hp rel Hrel)). by apply inside_Join.
Qed.

End configuration.

(** ** A small runner *)

Module Example.

#[export] Instance host : Host := {|
  UserHomeDir := "/home/u"; exists_ _ := true; Readlink _ := None; EvalSymlinks p := Some (Clean p); IsDir _ := true; InsideWorkTree _ := true;
  LookPath_bwrap := Some "/usr/bin/bwrap"; Getenv _ := EmptyString |}.

#[export] Instance host_laws : HostLaws.
Proof. split. intros p r Hp [= <-]. by rewrite Clean_IsAbs. Qed.

Definition request : taskRequest := {| tr_Prompt := "fix it"; tr_Dir := "~/src/./x/../y"; tr_Profile := ProfileRW; tr_Hops := 1 |}.

#[export] Instance codec : TaskCodec := {|
  UnmarshalParts p := Some [p]; UnmarshalString p := if decide (p = "write") then None else Some p; UnmarshalRequest _ := Some request;
  UnmarshalID p := Some p |}.

#[export] Instance output : ToolOutput := {| TextEvent _ := None; StringField out _ := Some out |}.
#[export] Instance numbers : NumberText := {| Itoa _ := "1"; DurationText _ := "15m0s" |}.

Definition alice : string := "did:wba:localhost:agent:alice".

Definition raw : Config := {|
  c_Relay := EmptyString; c_Domain := EmptyString; c_StateDir := "~/.local/state/runner"; c_IdentityDir := "/etc/ids"; c_Roots := ["~/src"];
  c_Senders := [alice]; c_RWAllow := [alice]; c_Timeout := 0; c_MaxConcurrent := 0; c_Slice := EmptyString; c_Sandbox := None;
  c_Workers := [{| w_Name := "claude-worker"; w_Tool := "claude"; w_Model := EmptyString; w_ROBinds := [".config/tokens"]; w_Overlays := [] |};
                {| w_Name := "codex-worker"; w_Tool := "codex"; w_Model := EmptyString; w_ROBinds := []; w_Overlays := [] |}] |}.

Definition cfg : Config := with_defaults raw.

Definition submitted (rn : Runner) : Runner := (Submit cfg "t1" 0 "claude-worker" alice "review" rn).1.
Definition both_submitted : Runner := (Submit cfg "t2" 1 "codex-worker" alice "write" (submitted (newRunner ∅))).1.

Definition outcome : Outcome := {| oc_out := "fine"; oc_code := 0; oc_err := None; oc_timed_out := false; oc_diff := EmptyString; oc_diff_err := None |}.
Definition answers : Prepared := {| pr_mkdir := None; pr_common_dir := inl EmptyString; pr_worktree := None |}.

(** The thread of a task goes through its next phase. *)
Definition advance (id : string) (rn : Runner) : Runner :=
  match rn_threads rn !! id with
  | None => rn
  | Some (p, t) =>
      match p with
      | WaitTool => default rn (acquire_tool cfg t rn)
      | WaitGlobal => default rn (acquire_global cfg t rn)
      | Starting => start_run cfg 2 answers None t rn
      | Running => end_run cfg outcome t rn
      | Settling => settle cfg (λ s, s) 3 t rn
      | Closing => close_thread t rn
      end
  end.

Lemma advance_rtc id rn : rtc (internal cfg) rn (advance id rn).
Proof.
  unfold advance. destruct (rn_threads rn !! id) as [[p t]|] eqn:Ht; [|done]. destruct p.
  - destruct (acquire_tool cfg t rn) as [rn'|] eqn:Ha; [|done]. apply rtc_once. eapply internal_step; [done|]. by apply step_acquire_tool.
  - destruct (acquire_global cfg t rn) as [rn'|] eqn:Ha; [|done]. apply rtc_once. eapply internal_step; [done|]. by apply step_acquire_global.
  - apply rtc_once. eapply internal_step; [done|]. by apply step_start.
  - apply rtc_once. eapply internal_step; [done|]. by apply step_end.
  - apply rtc_once. eapply internal_step; [done|]. by apply step_settle.
  - apply rtc_once. eapply internal_step; [done|]. by apply step_close.
Qed.

Lemma reachable_rtc rows rn rn' : reachable cfg rows rn → rtc (internal cfg) rn rn' → reachable cfg rows rn'.
Proof. intros Hr Hi. induction Hi as [|rn rn1 rn2 Hs _ IH]; [done|]. apply IH. by eapply reach_internal. Qed.

Lemma both_reachable : reachable cfg ∅ both_submitted.
Proof.
  eapply reach_external; [|apply ext_submit; by vm_compute; eauto].
  eapply reach_external; [apply reach_new | apply ext_submit; by vm_compute; eauto].
Qed.

(** The first task has run to its end, the second one is running. *)
Definition one_done : Runner := Nat.iter 3 (advance "t2") (Nat.iter 6 (advance "t1") both_submitted).

Lemma iter_reachable rows id n rn : reachable cfg rows rn → reachable cfg rows (Nat.iter n (advance id) rn).
Proof. intros Hr. induction n as [|n IH]; [done|]. simpl. by eapply reachable_rtc, advance_rtc. Qed.

Lemma one_done_reachable : reachable cfg ∅ one_done.
Proof. apply iter_reachable, iter_reachable, both_reachable. Qed.

End Example.

Import Example.

Lemma task_admission_witness : ∃ req dir, parseTaskRequest "write" = Ok req ∧ admitted Example.cfg Example.alice req dir.
Proof.
  refine (proj2 (proj1 (proj1 (task_admission Example.cfg "t2" 1 "codex-worker" Example.alice "write" (newRunner ∅) _ _ (surjective_pairing _))) _)).
  vm_compute. reflexivity.
Defined.

Lemma runner_slots_witness :
  Z.of_nat (size (filter (λ kv : string * (Phase * Task), holds_global kv.2.1 = true) (rn_threads Example.one_done))) ≤ 2.
Proof. refine (proj2 (runner_slots Example.cfg ∅ Example.one_done Example.one_done_reachable _)). done. Defined.

Lemma tasks_settled_witness : ∃ row, rn_store Example.one_done !! "t1" = Some row ∧ terminal row = true ∧
  replies_for Example.one_done "t1" = [reply_of Example.cfg row].
Proof.
  destruct (rn_store Example.one_done !! "t1") as [row|] eqn:Hr; [|vm_compute in Hr; discriminate].
  exists row. split; [reflexivity|]. refine (proj1 (tasks_settled Example.cfg ∅ Example.one_done Example.one_done_reachable) "t1" row Hr _ _); vm_compute; reflexivity.
Defined.

Lemma runner_drains_witness : ∃ rn', rtc (internal Example.cfg) Example.one_done rn' ∧ rn_threads rn' = ∅.
Proof.
  destruct (runner_drains Example.cfg ∅ Example.one_done Example.one_done_reachable) as (_ & _ & rn' & Hi & He & _); [done | exists rn'; by split].
Defined.

Lemma config_sound_witness : 1 ≤ c_MaxConcurrent Example.cfg ∧ NoDup (w_Name <$> c_Workers Example.cfg).
Proof.
  destruct (config_sound Example.raw Example.cfg) as (H1 & _ & _ & _ & H2 & _); [vm_compute; reflexivity | done | exact (conj H1 H2)].
Defined.
