(* ===== verification/Transport.v ===== *)
(** * Transports (src/pkg/transport: interface.go, stdio.go, sse.go, websocket.go)

    Framing over pipes, by length and by lines; server-sent events, written and parsed; and
    the life of a WebSocket transport and of its listener.  A reader is what will still be
    read before its end or an error; a writer is what was written to it. *)

From S2P Require Import Prelude Http.
#[local] Open Scope Z_scope.

Inductive TransportError :=
| ErrClosed | ErrNotConnected | ErrStdioClosed | ErrSSEClosed | ErrNoFlusher
| ErrMissingLength | ErrReadOnly | ErrCanceled | ErrEOF | ErrUnexpectedEOF | ErrIO (text : string) | ErrStatus (code : Z)
| MakePanic.

(** ** Configuration *)

Record Config := {
  Address : string; MaxMessageSize : Z; ReadBufferSize : Z; WriteBufferSize : Z; TLSEnabled : bool; TLSCertFile : string;
  TLSKeyFile : string; TLSSkipVerify : bool; AllowedOrigins : list string; BearerToken : string;
}.

Definition DefaultConfig (addr : string) : Config := {|
  Address := addr; MaxMessageSize := 1048576; ReadBufferSize := 4096; WriteBufferSize := 4096; TLSEnabled := false; TLSCertFile := "";
  TLSKeyFile := ""; TLSSkipVerify := false; AllowedOrigins := []; BearerToken := "" |}.

(** ** Bytes *)

Definition newline : Ascii.ascii := Ascii.ascii_of_nat 10.
Definition carriage : Ascii.ascii := Ascii.ascii_of_nat 13.
Definition nl : string := String newline "".
Definition crlf : string := String carriage nl.
Definition is_crlf (a : Ascii.ascii) : bool := Ascii.eqb a carriage || Ascii.eqb a newline.

Definition trimCRLF (s : string) : string := trim_right_by is_crlf s.

(** The loop of [itoa] fills its buffer of twenty bytes from the end. *)
Fixpoint digits (fuel : nat) (n : Z) (acc : string) : string :=
  match fuel with
  | O => acc
  | S fuel => if 0 <? n then digits fuel (n / 10) (String (Ascii.ascii_of_nat (Z.to_nat (n mod 10) + 48)) acc) else acc
  end.

Definition itoa (n : Z) : string :=
  if decide (n = 0) then "0"
  else if n <? 0 then "-" +:+ digits 20 (int64 (- n)) "" else digits 20 n "".

Definition is_digit (a : Ascii.ascii) : bool := let n := Ascii.nat_of_ascii a in ((48 <=? n) && (n <=? 57))%nat.

(** Characters that are no digits are skipped, and the number wraps around. *)
Fixpoint atoi_from (result : Z) (s : string) : Z :=
  match s with
  | EmptyString => result
  | String c s => atoi_from (if is_digit c then int64 (result * 10 + Z.of_nat (Ascii.nat_of_ascii c - 48)) else result) s
  end.
Definition atoi (s : string) : Z := atoi_from 0 s.

(** ** Readers and writers *)

Record Reader := { rd_data : string; rd_error : option string }.

Definition at_end (r : Reader) : Reader := {| rd_data := ""; rd_error := rd_error r |}.
Definition left_with (r : Reader) (s : string) : Reader := {| rd_data := s; rd_error := rd_error r |}.

(** [ReadString] of a newline; [None] when the input ends before one. *)
Fixpoint read_line (s : string) : option (string * string) :=
  match s with
  | EmptyString => None
  | String a s =>
      if decide (a = newline) then Some (nl, s)
      else match read_line s with Some (line, rest) => Some (String a line, rest) | None => None end
  end.

(** [wr k] is the number of bytes that the [k]-th write manages when it fails. *)
Fixpoint write_chunks (wr : nat → option nat) (k : nat) (chunks : list string) (out : string) : string * option TransportError :=
  match chunks with
  | [] => (out, None)
  | c :: chunks =>
      match wr k with
      | Some n => (out +:+ before n c, Some (ErrIO "write"))
      | None => write_chunks wr (S k) chunks (out +:+ c)
      end
  end.

(** ** Pipes: [StdioTransport] and [LineTransport], whose fields are the same *)

Record StdioTransport := { sd_reader : Reader; sd_out : string; sd_closed : bool; sd_connected : bool }.
Definition LineTransport : Type := StdioTransport.

Definition NewStdioTransport (r : Reader) : StdioTransport := {| sd_reader := r; sd_out := ""; sd_closed := false; sd_connected := false |}.
Definition NewLineTransport (r : Reader) : LineTransport := NewStdioTransport r.

Definition sd_with (t : StdioTransport) (r : Reader) (out : string) : StdioTransport :=
  {| sd_reader := r; sd_out := out; sd_closed := sd_closed t; sd_connected := sd_connected t |}.

Definition pipe_Connect (t : StdioTransport) : StdioTransport * option TransportError :=
  if sd_closed t then (t, Some ErrStdioClosed)
  else ({| sd_reader := sd_reader t; sd_out := sd_out t; sd_closed := false; sd_connected := true |}, None).

Definition pipe_Close (t : StdioTransport) : StdioTransport :=
  if sd_closed t then t else {| sd_reader := sd_reader t; sd_out := sd_out t; sd_closed := true; sd_connected := false |}.

Definition pipe_IsConnected (t : StdioTransport) : bool := sd_connected t && negb (sd_closed t).

Definition line_Connect (t : LineTransport) : LineTransport * option TransportError := pipe_Connect t.
Definition line_Close (t : LineTransport) : LineTransport := pipe_Close t.
Definition line_IsConnected (t : LineTransport) : bool := pipe_IsConnected t.

(** The select before a read, which picks one of two ready cases. *)
Definition poll (canceled closed pick : bool) : option TransportError :=
  match canceled, closed with
  | true, true => Some (if pick then ErrCanceled else ErrStdioClosed)
  | true, false => Some ErrCanceled
  | false, true => Some ErrStdioClosed
  | false, false => None
  end.

Definition content_length : string := "Content-Length: ".

Definition stdio_Send (wr : nat → option nat) (data : string) (t : StdioTransport) : StdioTransport * option TransportError :=
  if sd_closed t then (t, Some ErrStdioClosed)
  else let '(out, err) := write_chunks wr 0 [content_length; itoa (Z.of_nat (String.length data)); crlf +:+ crlf; data] (sd_out t) in
       (sd_with t (sd_reader t) out, err).

(** The loop over the header lines; [None] when the input ends. *)
Fixpoint read_headers (fuel : nat) (s : string) (contentLength : Z) : option (Z * string) :=
  match fuel with
  | O => None
  | S fuel =>
      match read_line s with
      | None => None
      | Some (line, rest) =>
          let line := trimCRLF line in
          if decide (line = "") then Some (contentLength, rest)
          else read_headers fuel rest (if (16 <? String.length line)%nat && HasPrefix line content_length then atoi (from 16 line) else contentLength)
      end
  end.

(** [io.ReadFull] of [n] bytes. *)
Definition ReadFull (n : nat) (r : Reader) : Reader * result TransportError string :=
  if (n <=? String.length (rd_data r))%nat then (left_with r (from n (rd_data r)), Ok (before n (rd_data r)))
  else (at_end r, Err (match rd_error r with
                       | Some e => ErrIO e
                       | None => if decide (rd_data r = "") then ErrEOF else ErrUnexpectedEOF
                       end)).

Section pipes.
(** The longest slice that can be made; json.Valid. *)
Context (maxSlice : Z) (Valid : string → bool).

Definition stdio_Receive (canceled pick : bool) (t : StdioTransport) : StdioTransport * result TransportError string :=
  match poll canceled (sd_closed t) pick with
  | Some e => (t, Err e)
  | None =>
      let r := sd_reader t in
      match read_headers (S (String.length (rd_data r))) (rd_data r) (-1) with
      | None => (sd_with t (at_end r) (sd_out t), Err (match rd_error r with None => ErrStdioClosed | Some e => ErrIO e end))
      | Some (contentLength, rest) =>
          let r := left_with r rest in
          if contentLength <? 0 then (sd_with t r (sd_out t), Err ErrMissingLength)
          else if maxSlice <? contentLength then (sd_with t r (sd_out t), Err MakePanic)
          else let '(r, body) := ReadFull (Z.to_nat contentLength) r in (sd_with t r (sd_out t), body)
      end
  end.

Definition is_json_space (a : Ascii.ascii) : bool := Ascii.eqb a (Ascii.ascii_of_nat 32) || Ascii.eqb a (Ascii.ascii_of_nat 9) || is_crlf a.

(** The loop of [LineTransport.Send], which drops every blank, inside strings too. *)
Fixpoint compact (s : string) : string :=
  match s with
  | EmptyString => EmptyString
  | String a s => if is_json_space a then compact s else String a (compact s)
  end.

Definition line_text (data : string) : string := if Valid data then compact data else data.

Definition line_Send (wr : nat → option nat) (data : string) (t : LineTransport) : LineTransport * option TransportError :=
  if sd_closed t then (t, Some ErrStdioClosed)
  else let '(out, err) := write_chunks wr 0 [line_text data; nl] (sd_out t) in (sd_with t (sd_reader t) out, err).

(** One newline, then one carriage return. *)
Definition trim_last (c : Ascii.ascii) (s : string) : string := TrimSuffix s (String c "").

Definition line_Receive (canceled pick : bool) (t : LineTransport) : LineTransport * result TransportError string :=
  match poll canceled (sd_closed t) pick with
  | Some e => (t, Err e)
  | None =>
      let r := sd_reader t in
      match read_line (rd_data r) with
      | None => (sd_with t (at_end r) (sd_out t), Err (match rd_error r with None => ErrStdioClosed | Some e => ErrIO e end))
      | Some (line, rest) => (sd_with t (left_with r rest) (sd_out t), Ok (trim_last carriage (trim_last newline line)))
      end
  end.

End pipes.

(** ** Server-sent events *)

Record SSEEvent := { se_ID : string; se_Event : string; se_Data : string; se_Retry : Z }.

Definition no_event : SSEEvent := {| se_ID := ""; se_Event := ""; se_Data := ""; se_Retry := 0 |}.

(** [bytes.SplitSeq] at newlines. *)
Fixpoint split_nl (s : string) : list string :=
  match s with
  | EmptyString => [""]
  | String a s =>
      if decide (a = newline) then "" :: split_nl s
      else match split_nl s with l :: ls => String a l :: ls | [] => [String a ""] end
  end.

Fixpoint lines_text (ls : list string) : string :=
  match ls with [] => nl | l :: ls => "data: " +:+ l +:+ nl +:+ lines_text ls end.

(** What [WriteEvent] writes; [%d] of a positive number is [itoa]. *)
Definition event_text (e : SSEEvent) : string :=
  (if decide (se_ID e = "") then "" else "id: " +:+ se_ID e +:+ nl) +:+
  (if decide (se_Event e = "") then "" else "event: " +:+ se_Event e +:+ nl) +:+
  (if 0 <? se_Retry e then "retry: " +:+ itoa (se_Retry e) +:+ nl else "") +:+
  lines_text (split_nl (se_Data e)).

Record SSEWriter := { sw_out : string; sw_closed : bool }.

Definition NewSSEWriter (flusher : bool) : result TransportError SSEWriter :=
  if flusher then Ok {| sw_out := ""; sw_closed := false |} else Err ErrNoFlusher.

Definition WriteEvent (wr : nat → option nat) (e : SSEEvent) (w : SSEWriter) : SSEWriter * option TransportError :=
  if sw_closed w then (w, Some ErrSSEClosed)
  else let '(out, err) := write_chunks wr 0 [event_text e] (sw_out w) in ({| sw_out := out; sw_closed := false |}, err).

Definition WriteData (wr : nat → option nat) (data : string) (w : SSEWriter) : SSEWriter * option TransportError :=
  WriteEvent wr {| se_ID := ""; se_Event := ""; se_Data := data; se_Retry := 0 |} w.

Definition sse_Close (w : SSEWriter) : SSEWriter := {| sw_out := sw_out w; sw_closed := true |}.

Definition heartbeat_text : string := ": heartbeat" +:+ nl +:+ nl.

(** A tick of [SSEHeartbeat]; the error of the write is ignored. *)
Definition heartbeat (wr : nat → option nat) (w : SSEWriter) : SSEWriter :=
  if sw_closed w then w else {| sw_out := (write_chunks wr 0 [heartbeat_text] (sw_out w)).1; sw_closed := false |}.

Definition cut_prefix (line p : string) : option string := if HasPrefix line p then Some (from (String.length p) line) else None.

(** One field of an event. *)
Definition sse_field (e : SSEEvent) (buf line : string) : SSEEvent * string :=
  match cut_prefix line "data:" with
  | Some after =>
      let after := default after (cut_prefix after " ") in
      (e, (if decide (buf = "") then "" else buf +:+ nl) +:+ after)
  | None =>
      match cut_prefix line "event:" with
      | Some after => ({| se_ID := se_ID e; se_Event := TrimSpace after; se_Data := se_Data e; se_Retry := se_Retry e |}, buf)
      | None =>
          match cut_prefix line "id:" with
          | Some after => ({| se_ID := TrimSpace after; se_Event := se_Event e; se_Data := se_Data e; se_Retry := se_Retry e |}, buf)
          | None =>
              match cut_prefix line "retry:" with
              | Some after => ({| se_ID := se_ID e; se_Event := se_Event e; se_Data := se_Data e; se_Retry := atoi (TrimSpace after) |}, buf)
              | None => (e, buf)
              end
          end
      end
  end.

(** The loop of [ReceiveEvent]; [None] when the input ends. *)
Fixpoint event_loop (fuel : nat) (s : string) (e : SSEEvent) (buf : string) : option (SSEEvent * string) :=
  match fuel with
  | O => None
  | S fuel =>
      match read_line s with
      | None => None
      | Some (line, rest) =>
          let line := trimCRLF line in
          if decide (line = "") then
            if decide (buf = "") then event_loop fuel rest e buf
            else Some ({| se_ID := se_ID e; se_Event := se_Event e; se_Data := buf; se_Retry := se_Retry e |}, rest)
          else let '(e, buf) := sse_field e buf line in event_loop fuel rest e buf
      end
  end.

Record SSEClient := { sc_reader : option Reader; sc_closed : bool; sc_connected : bool }.

Definition NewSSEClient : SSEClient := {| sc_reader := None; sc_closed := false; sc_connected := false |}.

(** [response]: the status and the body of the answer, or the error of the request. *)
Definition sse_Connect (response : result string (Z * Reader)) (c : SSEClient) : SSEClient * option TransportError :=
  if sc_closed c then (c, Some ErrSSEClosed)
  else match response with
       | Err e => (c, Some (ErrIO e))
       | Ok (status, body) =>
           if decide (status = 200) then ({| sc_reader := Some body; sc_closed := false; sc_connected := true |}, None)
           else (c, Some (ErrStatus status))
       end.

Definition client_Close (c : SSEClient) : SSEClient :=
  if sc_closed c then c else {| sc_reader := sc_reader c; sc_closed := true; sc_connected := false |}.

Definition client_IsConnected (c : SSEClient) : bool := sc_connected c && negb (sc_closed c).
Definition client_Send (c : SSEClient) : option TransportError := Some ErrReadOnly.

Definition ReceiveEvent (canceled pick : bool) (c : SSEClient) : SSEClient * result TransportError SSEEvent :=
  match poll canceled (sc_closed c) pick with
  | Some ErrStdioClosed => (c, Err ErrSSEClosed)
  | Some e => (c, Err e)
  | None =>
      match sc_reader c with
      | None => (c, Err ErrSSEClosed)
      | Some r =>
          match event_loop (S (String.length (rd_data r))) (rd_data r) no_event "" with
          | None => ({| sc_reader := Some (at_end r); sc_closed := sc_closed c; sc_connected := sc_connected c |},
                     Err (match rd_error r with None => ErrSSEClosed | Some e => ErrIO e end))
          | Some (e, rest) => ({| sc_reader := Some (left_with r rest); sc_closed := sc_closed c; sc_connected := sc_connected c |}, Ok e)
          end
      end
  end.

Definition sse_Receive (canceled pick : bool) (c : SSEClient) : SSEClient * result TransportError string :=
  let '(c, r) := ReceiveEvent canceled pick c in (c, match r with Ok e => Ok (se_Data e) | Err e => Err e end).

(** The server: its writers by number, and the ones it broadcasts to. *)
Record SSEServer := { ss_clients : gset nat; ss_writers : gmap nat SSEWriter }.

Definition NewSSEServer : SSEServer := {| ss_clients := ∅; ss_writers := ∅ |}.

(** [ServeHTTP] up to its handler, and after it. *)
Definition serve_begin (id : nat) (flusher : bool) (s : SSEServer) : SSEServer * option TransportError :=
  match NewSSEWriter flusher with
  | Err e => (s, Some e)
  | Ok w => ({| ss_clients := {[id]} ∪ ss_clients s; ss_writers := <[id := w]> (ss_writers s) |}, None)
  end.
Definition serve_end (id : nat) (s : SSEServer) : SSEServer :=
  {| ss_clients := ss_clients s ∖ {[id]}; ss_writers := alter sse_Close id (ss_writers s) |}.

(** [Broadcast] in its two halves: the snapshot, and the writes, which may come after a
    client has gone. *)
Definition broadcast_snapshot (s : SSEServer) : list nat := elements (ss_clients s).
Definition broadcast_write (wr : nat → nat → option nat) (e : SSEEvent) (s : SSEServer) (id : nat) : SSEServer :=
  {| ss_clients := ss_clients s; ss_writers := alter (λ w, (WriteEvent (wr id) e w).1) id (ss_writers s) |}.
Definition Broadcast (wr : nat → nat → option nat) (e : SSEEvent) (s : SSEServer) : SSEServer :=
  foldl (broadcast_write wr e) s (broadcast_snapshot s).
Definition ClientCount (s : SSEServer) : nat := size (ss_clients s).

(** ** WebSockets *)

(** The connection and the loop that keeps it alive; the dialled connections are numbered. *)
Record WebSocketTransport := {
  wt_conn : option nat; wt_closed : bool; wt_addr : string; wt_config : Config; wt_pinging : bool; wt_stopPing : bool;
}.

Definition NewWebSocketTransport (config : Config) : WebSocketTransport :=
  {| wt_conn := None; wt_closed := false; wt_addr := Address config; wt_config := config; wt_pinging := false; wt_stopPing := false |}.

(** [dial]: the connection or the error that dialling gives. *)
Definition ws_Connect (dial : result string nat) (t : WebSocketTransport) : WebSocketTransport * option TransportError :=
  match wt_conn t with
  | Some _ => (t, None)
  | None =>
      match dial with
      | Err e => (t, Some (ErrIO e))
      | Ok conn => ({| wt_conn := Some conn; wt_closed := false; wt_addr := wt_addr t; wt_config := wt_config t; wt_pinging := true;
                       wt_stopPing := true |}, None)
      end
  end.

(** [err]: what closing the connection gives.  The stop channel is there once connected, and
    closing it ends the loop. *)
Definition ws_Close (err : option string) (t : WebSocketTransport) : WebSocketTransport * option TransportError :=
  match wt_conn t with
  | Some conn =>
      if wt_closed t then (t, None)
      else ({| wt_conn := Some conn; wt_closed := true; wt_addr := wt_addr t; wt_config := wt_config t;
               wt_pinging := wt_pinging t && negb (wt_stopPing t); wt_stopPing := wt_stopPing t |}, ErrIO <$> err)
  | None => (t, None)
  end.

Definition ws_live (t : WebSocketTransport) : option nat := if wt_closed t then None else wt_conn t.

(** [write] and [read]: what the connection answers. *)
Definition ws_Send (write : nat → option string) (t : WebSocketTransport) : option TransportError :=
  match ws_live t with None => Some ErrNotConnected | Some conn => ErrIO <$> write conn end.
Definition ws_Receive (read : nat → result string string) (t : WebSocketTransport) : result TransportError string :=
  match ws_live t with
  | None => Err ErrNotConnected
  | Some conn => match read conn with Err e => Err (ErrIO e) | Ok data => Ok data end
  end.

Definition ws_IsConnected (t : WebSocketTransport) : bool := bool_decide (is_Some (wt_conn t)) && negb (wt_closed t).

(** A tick of [pingLoop]: it ends when the connection is gone or the write fails. *)
Definition keepalive : string := "{" +:+ String (Ascii.ascii_of_nat 34) "jsonrpc" +:+ String (Ascii.ascii_of_nat 34) ":" +:+
  String (Ascii.ascii_of_nat 34) "2.0" +:+ String (Ascii.ascii_of_nat 34) "," +:+ String (Ascii.ascii_of_nat 34) "method" +:+
  String (Ascii.ascii_of_nat 34) ":" +:+ String (Ascii.ascii_of_nat 34) "keepalive" +:+ String (Ascii.ascii_of_nat 34) "}".
Definition ping_tick (write : nat → string → option string) (t : WebSocketTransport) : WebSocketTransport :=
  let stop := {| wt_conn := wt_conn t; wt_closed := wt_closed t; wt_addr := wt_addr t; wt_config := wt_config t; wt_pinging := false;
                 wt_stopPing := wt_stopPing t |} in
  if wt_pinging t then
    match ws_live t with
    | None => stop
    | Some conn => match write conn keepalive with None => t | Some _ => stop end
    end
  else t.

(** The listener's channel holds sixteen connections. *)
Record WebSocketListener := { wl_connCh : list nat; wl_closed : bool; wl_panicked : bool; wl_refused : list nat }.

Definition NewWebSocketListener : WebSocketListener := {| wl_connCh := []; wl_closed := false; wl_panicked := false; wl_refused := [] |}.

(** The select of the HTTP handler for an accepted connection: the channel, once it has room
    (a send on the closed channel panics), or the end of the context.  [None]: it waits. *)
Definition listener_offer (done pick : bool) (conn : nat) (l : WebSocketListener) : option WebSocketListener :=
  let ready := wl_closed l || bool_decide (length (wl_connCh l) < 16)%nat in
  let refuse := {| wl_connCh := wl_connCh l; wl_closed := wl_closed l; wl_panicked := wl_panicked l; wl_refused := wl_refused l ++ [conn] |} in
  let send := if wl_closed l then {| wl_connCh := wl_connCh l; wl_closed := true; wl_panicked := true; wl_refused := wl_refused l |}
              else {| wl_connCh := wl_connCh l ++ [conn]; wl_closed := false; wl_panicked := wl_panicked l; wl_refused := wl_refused l |} in
  match ready, done with
  | true, true => Some (if pick then send else refuse)
  | true, false => Some send
  | false, true => Some refuse
  | false, false => None
  end.

(** The two halves of [Accept]: the check of the flag, and the receive, which a [Close] may
    precede.  [None]: it waits. *)
Definition accept_begin (l : WebSocketListener) : option TransportError := if wl_closed l then Some ErrClosed else None.
Definition accept_receive (config : Config) (subprotocol : nat → string) (l : WebSocketListener)
  : option (WebSocketListener * result TransportError WebSocketTransport) :=
  match wl_connCh l with
  | conn :: rest =>
      Some ({| wl_connCh := rest; wl_closed := wl_closed l; wl_panicked := wl_panicked l; wl_refused := wl_refused l |},
            Ok {| wt_conn := Some conn; wt_closed := false; wt_addr := subprotocol conn; wt_config := config; wt_pinging := false; wt_stopPing := false |})
  | [] => if wl_closed l then Some (l, Err ErrClosed) else None
  end.

Definition listener_Close (l : WebSocketListener) : WebSocketListener :=
  if wl_closed l then l else {| wl_connCh := wl_connCh l; wl_closed := true; wl_panicked := wl_panicked l; wl_refused := wl_refused l |}.
