(* ===== verification/TransportFacts.v ===== *)
(** * Frames are read back (src/pkg/transport)

    Facts about [Transport]: texts and numbers, the framing by length, by lines and of
    server-sent events with their round trips, broadcasts, and the life of a WebSocket. *)

From S2P Require Import Prelude Http Transport.
#[local] Open Scope Z_scope.

(** ** Texts *)

Fixpoint all_chars (p : Ascii.ascii → bool) (s : string) : bool :=
  match s with EmptyString => true | String a s => p a && all_chars p s end.

Lemma all_chars_app p s t : all_chars p (s +:+ t) = all_chars p s && all_chars p t.
Proof. induction s as [|a s IH]; simpl; [done|]. by rewrite IH, andb_assoc. Qed.

Lemma all_chars_impl (p q : Ascii.ascii → bool) s : (∀ a, p a = true → q a = true) → all_chars p s = true → all_chars q s = true.
Proof. intros Hpq. induction s as [|a s IH]; simpl; [done|]. rewrite !andb_true_iff. intros [Ha Hs]. auto. Qed.

Lemma string_rev_append_app s t acc : string_rev_append (s +:+ t) acc = string_rev_append t (string_rev_append s acc).
Proof. revert acc. induction s as [|a s IH]; intros acc; simpl; [done | apply IH]. Qed.

Lemma string_rev_append_acc s acc : string_rev_append s acc = string_rev s +:+ acc.
Proof.
  unfold string_rev. revert acc. induction s as [|a s IH]; intros acc; simpl; [done|].
  rewrite IH, (IH (String a "")), <- string_app_assoc. done.
Qed.

Lemma string_rev_app s t : string_rev (s +:+ t) = string_rev t +:+ string_rev s.
Proof. unfold string_rev at 1. rewrite string_rev_append_app, string_rev_append_acc. done. Qed.

Lemma string_rev_cons a s : string_rev (String a s) = string_rev s +:+ String a "".
Proof. unfold string_rev at 1. simpl. apply string_rev_append_acc. Qed.

Lemma string_rev_involutive s : string_rev (string_rev s) = s.
Proof. induction s as [|a s IH]; [done|]. rewrite string_rev_cons, string_rev_app, IH. done. Qed.

Lemma string_rev_length s : String.length (string_rev s) = String.length s.
Proof. induction s as [|a s IH]; [done|]. rewrite string_rev_cons, string_app_length, IH. simpl. lia. Qed.

Lemma drop_while_length p s : (String.length (drop_while p s) ≤ String.length s)%nat.
Proof. induction s as [|a s IH]; simpl; [done|]. destruct (p a); simpl; lia. Qed.

(** The last character decides what is trimmed from the right. *)
Fixpoint last_char (s : string) : option Ascii.ascii :=
  match s with EmptyString => None | String a s => match last_char s with Some b => Some b | None => Some a end end.

Lemma last_char_snoc s a : last_char (s +:+ String a "") = Some a.
Proof. induction s as [|b s IH]; simpl; [done|]. by rewrite IH. Qed.

Lemma last_char_app s t : t ≠ "" → last_char (s +:+ t) = last_char t.
Proof.
  intros Ht. induction s as [|a s IH]; simpl; [done|]. rewrite IH. destruct t as [|b t]; [done|]. simpl. by destruct (last_char t).
Qed.

Lemma string_snoc s : s = "" ∨ ∃ s' a, s = s' +:+ String a "".
Proof.
  induction s as [|b s IH]; [by left | right]. destruct IH as [->|(s' & a & ->)]; [by exists "", b | by exists (String b s'), a].
Qed.

Lemma trim_right_snoc p s a : trim_right_by p (s +:+ String a "") = if p a then trim_right_by p s else s +:+ String a "".
Proof.
  unfold trim_right_by. rewrite string_rev_app. change (string_rev (String a "") +:+ string_rev s) with (String a (string_rev s)). cbn [drop_while].
  destruct (p a); [done|]. by rewrite string_rev_cons, string_rev_involutive.
Qed.

Lemma trim_right_app p s t : all_chars p t = true → trim_right_by p (s +:+ t) = trim_right_by p s.
Proof.
  revert s. induction t as [|a t IH]; intros s; simpl; [by rewrite string_app_nil_r|]. rewrite andb_true_iff. intros [Ha Ht].
  change (String a t) with (String a "" +:+ t). rewrite string_app_assoc, IH by done. by rewrite trim_right_snoc, Ha.
Qed.

Lemma trim_right_id p s : (∀ a, last_char s = Some a → p a = false) ↔ trim_right_by p s = s.
Proof.
  destruct (string_snoc s) as [->|(s' & a & ->)]; [done|]. rewrite last_char_snoc, trim_right_snoc. destruct (p a) eqn:Ha; [|naive_solver].
  split; [intros Hx; specialize (Hx a eq_refl); congruence|]. intros Heq. exfalso. apply (f_equal String.length) in Heq.
  unfold trim_right_by in Heq. rewrite string_rev_length, string_app_length in Heq. pose proof (drop_while_length p (string_rev s')) as Hl.
  rewrite string_rev_length in Hl. simpl in Heq. lia.
Qed.

(** A trimmed text is trimmed at its end. *)
Lemma trim_by_right p s : trim_by p s = s → trim_right_by p s = s.
Proof.
  unfold trim_by. intros Heq. assert (Hd : drop_while p s = s); [|by rewrite Hd in Heq].
  assert (Hl : (String.length s ≤ String.length (drop_while p s))%nat).
  { rewrite <- Heq at 1. rewrite string_rev_length. etransitivity; [apply drop_while_length|]. by rewrite string_rev_length. }
  destruct s as [|a s]; simpl in *; [done|]. destruct (p a); [|done]. pose proof (drop_while_length p s). lia.
Qed.

Lemma trim_line p s : all_chars (λ a, negb (p a)) s = true → trim_by p s = s.
Proof.
  intros Hs. assert (Hd : drop_while p s = s) by (destruct s as [|a s]; simpl in *; [done|]; by destruct (p a)).
  unfold trim_by. rewrite Hd. apply trim_right_id. intros a Ha. clear Hd. induction s as [|b s IH]; simpl in *; [done|].
  apply andb_true_iff in Hs as [Hb Hs]. destruct (last_char s) eqn:Hl; [naive_solver|]. injection Ha as ->. by apply negb_true_iff.
Qed.

Lemma from_app s t : from (String.length s) (s +:+ t) = t.
Proof.
  unfold from. rewrite string_app_length, Nat.add_comm, Nat.add_sub. induction s as [|a s IH]; simpl; [|done].
  induction t as [|a t IH]; simpl; [done | by rewrite IH].
Qed.

Lemma before_app s t : before (String.length s) (s +:+ t) = s.
Proof. apply substring_app. Qed.

Lemma HasPrefix_app p s : HasPrefix (p +:+ s) p = true.
Proof. apply HasPrefix_spec. eauto. Qed.

Lemma cut_prefix_app p s : cut_prefix (p +:+ s) p = Some s.
Proof. unfold cut_prefix. by rewrite HasPrefix_app, from_app. Qed.

Definition no_newline (s : string) : bool := all_chars (λ a, negb (Ascii.eqb a newline)) s.

Lemma read_line_app s rest : no_newline s = true → read_line (s +:+ nl +:+ rest) = Some (s +:+ nl, rest).
Proof.
  change (nl +:+ rest) with (String newline rest). unfold no_newline. induction s as [|a s IH]; simpl; [done|]. rewrite andb_true_iff. intros [Ha Hs].
  apply negb_true_iff, Ascii.eqb_neq in Ha. rewrite decide_False by done. by rewrite (IH Hs).
Qed.

(** A line that ends with neither of its line's ends is read back. *)
Lemma trimCRLF_line s : trimCRLF s = s → trimCRLF (s +:+ nl) = s ∧ trimCRLF (s +:+ crlf) = s.
Proof. intros Hs. unfold trimCRLF in *. by rewrite !trim_right_app by done. Qed.

(** ** Numbers *)

Lemma digit_char n a : 0 ≤ n → a = Ascii.ascii_of_nat (Z.to_nat (n mod 10) + 48) →
  is_digit a = true ∧ Z.of_nat (Ascii.nat_of_ascii a - 48) = n mod 10.
Proof.
  intros Hn ->. pose proof (Z.mod_pos_bound n 10 ltac:(lia)) as Hb. unfold is_digit.
  rewrite Ascii.nat_ascii_embedding by lia. split; [|lia]. apply andb_true_iff. rewrite !Nat.leb_le. lia.
Qed.

Lemma atoi_digits fuel n acc : 0 ≤ n < 10 ^ Z.of_nat fuel → n < 2 ^ 63 → atoi_from 0 (digits fuel n acc) = atoi_from n acc.
Proof.
  revert n acc. induction fuel as [|fuel IH]; intros n acc Hn H63; cbn [digits].
  - change (10 ^ Z.of_nat 0) with 1 in Hn. by replace n with 0 by lia.
  - destruct (Z.ltb_spec 0 n); [|by replace n with 0 by lia].
    rewrite Nat2Z.inj_succ, Z.pow_succ_r in Hn by lia.
    assert (Hq : 0 ≤ n / 10 < 10 ^ Z.of_nat fuel) by (split; [apply Z.div_pos; lia | apply Z.div_lt_upper_bound; lia]).
    assert (Hle : n / 10 ≤ n) by (apply Z.div_le_upper_bound; lia).
    rewrite IH by lia. cbn [atoi_from]. destruct (digit_char n _ ltac:(lia) eq_refl) as [-> ->].
    pose proof (Z.div_mod n 10 ltac:(lia)) as Hdm. replace (n / 10 * 10 + n mod 10) with n by lia. by rewrite int64_id by lia.
Qed.

Lemma digits_are_digits fuel n acc : 0 ≤ n → all_chars is_digit acc = true → all_chars is_digit (digits fuel n acc) = true.
Proof.
  revert n acc. induction fuel as [|fuel IH]; intros n acc Hn Ha; cbn [digits]; [done|]. destruct (0 <? n); [|done].
  apply IH; [apply Z.div_pos; lia|]. cbn [all_chars]. destruct (digit_char n _ Hn eq_refl) as [-> _]. done.
Qed.

Lemma digits_nonempty fuel n acc : acc ≠ "" → digits fuel n acc ≠ "".
Proof. revert n acc. induction fuel as [|fuel IH]; intros n acc Ha; cbn [digits]; [done|]. destruct (0 <? n); [by apply IH | done]. Qed.

Lemma digits_positive fuel n acc : 0 < n → digits (S fuel) n acc ≠ "".
Proof. intros Hn. cbn [digits]. destruct (Z.ltb_spec 0 n); [by apply digits_nonempty | lia]. Qed.

(** Numbers in the range of [int] are printed in decimal digits and read back. *)
Lemma itoa_spec n : 0 ≤ n < 2 ^ 63 → atoi (itoa n) = n ∧ all_chars is_digit (itoa n) = true ∧ itoa n ≠ "".
Proof.
  intros Hn. unfold itoa. destruct (decide (n = 0)) as [->|Hne]; [done|]. destruct (Z.ltb_spec n 0); [lia|]. split_and!.
  - apply atoi_digits; [|lia]. split; [lia|]. transitivity (2 ^ 63); [lia|]. by vm_compute.
  - apply digits_are_digits; [lia | done].
  - apply (digits_positive 19). lia.
Qed.

Lemma digits_plain (p : Ascii.ascii → bool) s : (∀ a, is_digit a = true → p a = true) → all_chars is_digit s = true → all_chars p s = true.
Proof. apply all_chars_impl. Qed.

Lemma digit_not_space a : is_digit a = true → negb (is_space a) = true.
Proof. unfold is_digit, is_space. rewrite andb_true_iff, !Nat.leb_le, negb_true_iff. intros ?. apply not_true_iff_false. rewrite orb_true_iff, andb_true_iff, Nat.eqb_eq, !Nat.leb_le. lia. Qed.

Lemma crlf_is_space a : is_crlf a = true → is_space a = true.
Proof. unfold is_crlf. rewrite orb_true_iff, !Ascii.eqb_eq. by intros [->| ->]. Qed.

Lemma newline_is_crlf a : Ascii.eqb a newline = true → is_crlf a = true.
Proof. unfold is_crlf. intros ->. by rewrite orb_true_r. Qed.

Lemma digit_not_newline a : is_digit a = true → negb (Ascii.eqb a newline) = true.
Proof.
  intros Ha. apply digit_not_space in Ha. apply negb_true_iff in Ha. apply negb_true_iff, not_true_iff_false. intros Hn.
  apply newline_is_crlf, crlf_is_space in Hn. congruence.
Qed.

Lemma digits_trimmed s : all_chars is_digit s = true → TrimSpace s = s.
Proof. intros Hs. apply trim_line. eapply all_chars_impl; [apply digit_not_space | done]. Qed.

(** A text that ends with no white space, after a label. *)
Lemma label_trimmed label s : s ≠ "" → TrimSpace s = s → trimCRLF (label +:+ s) = label +:+ s.
Proof.
  intros Hne Hs. apply trim_right_id. rewrite last_char_app by done. intros a Ha. apply trim_by_right in Hs.
  apply not_true_iff_false. intros Hc%crlf_is_space. rewrite (proj2 (trim_right_id is_space s) Hs a Ha) in Hc. done.
Qed.

(** ** Frames are read back *)

Definition no_failure : nat → option nat := λ _, None.

(** What a pipe transport writes for a message. *)
Definition frame (m : string) : string := content_length +:+ itoa (Z.of_nat (String.length m)) +:+ crlf +:+ crlf +:+ m.

(** Messages sent, or received, in turn. *)
Definition stdio_send_all (ms : list string) (t : StdioTransport) : StdioTransport * list (option TransportError) :=
  foldl (λ '(t, es) m, let '(t, e) := stdio_Send no_failure m t in (t, es ++ [e])) (t, []) ms.

Section frames.
Context (maxSlice : Z).

Fixpoint receive_all {T A} (receive : T → T * A) (n : nat) (t : T) : T * list A :=
  match n with O => (t, []) | S n => let '(t, a) := receive t in let '(t, l) := receive_all receive n t in (t, a :: l) end.

Lemma stdio_Send_open m t : sd_closed t = false → stdio_Send no_failure m t = (sd_with t (sd_reader t) (sd_out t +:+ frame m), None).
Proof. intros Hc. unfold stdio_Send. rewrite Hc. cbn [write_chunks no_failure]. unfold frame. by rewrite !string_app_assoc. Qed.

Lemma stdio_send_all_open ms t : sd_closed t = false →
  stdio_send_all ms t = (sd_with t (sd_reader t) (sd_out t +:+ String.concat "" (frame <$> ms)), replicate (length ms) None).
Proof.
  intros Hc. unfold stdio_send_all.
  enough (Hgen : ∀ es, foldl (λ '(t, es) m, let '(t, e) := stdio_Send no_failure m t in (t, es ++ [e])) (t, es) ms =
    (sd_with t (sd_reader t) (sd_out t +:+ String.concat "" (frame <$> ms)), es ++ replicate (length ms) None)) by exact (Hgen []).
  revert t Hc. induction ms as [|m ms IH]; intros t Hc es; cbn [foldl].
  - simpl. rewrite string_app_nil_r, app_nil_r. by destruct t.
  - rewrite stdio_Send_open by done. rewrite IH by done. cbn [sd_out sd_reader sd_with length replicate]. rewrite <- app_assoc. f_equal.
    unfold sd_with. cbn [sd_closed sd_connected sd_out]. f_equal. rewrite <- string_app_assoc. f_equal.
    destruct ms as [|m' ms]; cbn [fmap list_fmap String.concat]; [by rewrite string_app_nil_r | done].
Qed.

Lemma header_line m : let h := content_length +:+ itoa (Z.of_nat (String.length m)) in Z.of_nat (String.length m) < 2 ^ 63 →
  no_newline (h +:+ String carriage "") = true ∧ trimCRLF (h +:+ crlf) = h ∧ h ≠ "" ∧
  (16 <? String.length h)%nat && HasPrefix h content_length = true ∧ atoi (from 16 h) = Z.of_nat (String.length m).
Proof.
  intros h Hm. destruct (itoa_spec (Z.of_nat (String.length m)) ltac:(lia)) as (Ha & Hd & Hne). unfold h. split_and!.
  - unfold no_newline. rewrite !all_chars_app. rewrite (all_chars_impl _ _ _ digit_not_newline Hd). by vm_compute.
  - apply trimCRLF_line, label_trimmed; [done | by apply digits_trimmed].
  - done.
  - rewrite HasPrefix_app, andb_true_r. apply Nat.ltb_lt. rewrite string_app_length. destruct (itoa _); [done|]. simpl. lia.
  - change 16%nat with (String.length content_length). by rewrite from_app.
Qed.

(** One frame at the head of the input. *)
Lemma stdio_Receive_frame pick m rest t : sd_closed t = false → rd_data (sd_reader t) = frame m +:+ rest →
  Z.of_nat (String.length m) ≤ maxSlice → Z.of_nat (String.length m) < 2 ^ 63 →
  stdio_Receive maxSlice false pick t = (sd_with t (left_with (sd_reader t) rest) (sd_out t), Ok m).
Proof.
  intros Hc Hd Hmax Hm. unfold stdio_Receive. rewrite Hc, Hd. cbn [poll].
  set (h := content_length +:+ itoa (Z.of_nat (String.length m))). destruct (header_line m Hm) as (Hnl & Htrim & Hne & Hhead & Hlen). fold h in Hnl, Htrim, Hne, Hhead, Hlen.
  assert (Hread : read_headers (S (String.length (frame m +:+ rest))) (frame m +:+ rest) (-1) = Some (Z.of_nat (String.length m), m +:+ rest)).
  { replace (frame m +:+ rest) with ((h +:+ String carriage "") +:+ nl +:+ (String carriage "" +:+ nl +:+ (m +:+ rest))) at 2
      by (unfold frame, h, crlf; rewrite <- !string_app_assoc; done).
    cbn [read_headers]. rewrite read_line_app by done. change ((h +:+ String carriage "") +:+ nl) with ((h +:+ String carriage "") +:+ nl).
    rewrite <- (string_app_assoc h (String carriage "") nl). change (String carriage "" +:+ nl) with crlf. rewrite Htrim, decide_False, Hhead, Hlen by done.
    destruct (String.length (frame m +:+ rest)) as [|k] eqn:Hk; [|reflexivity].
    exfalso. rewrite string_app_length in Hk. unfold frame in Hk. rewrite !string_app_length in Hk. simpl in Hk. lia. }
  rewrite Hread. destruct (Z.ltb_spec (Z.of_nat (String.length m)) 0); [lia|]. destruct (Z.ltb_spec maxSlice (Z.of_nat (String.length m))); [lia|].
  unfold ReadFull. cbn [rd_data left_with]. rewrite Nat2Z.id, string_app_length.
  destruct (Nat.leb_spec (String.length m) (String.length m + String.length rest)); [|lia]. by rewrite from_app, before_app.
Qed.

Lemma stdio_receive_frames pick ms rest t : sd_closed t = false → rd_data (sd_reader t) = String.concat "" (frame <$> ms) +:+ rest →
  Forall (λ m, Z.of_nat (String.length m) ≤ maxSlice ∧ Z.of_nat (String.length m) < 2 ^ 63) ms →
  receive_all (stdio_Receive maxSlice false pick) (length ms) t = (sd_with t (left_with (sd_reader t) rest) (sd_out t), Ok <$> ms).
Proof.
  revert t. induction ms as [|m ms IH]; intros t Hc Hd Hms; cbn [receive_all length fmap list_fmap].
  - simpl in Hd. subst rest. by destruct t as [[]].
  - apply Forall_cons in Hms as [[Hmax Hm] Hms].
    rewrite (stdio_Receive_frame pick m (String.concat "" (frame <$> ms) +:+ rest)); [|done| |done..].
    + by rewrite (IH _) by done.
    + rewrite Hd. destruct ms as [|m' ms]; cbn [fmap list_fmap String.concat]; [done | by rewrite <- !string_app_assoc].
Qed.

End frames.

(** C40. What is sent over a pipe is received: the messages that an open transport sends,
    whatever they hold, are read back one by one and unchanged by the transport at the other
    end, in their order, and what follows them is left to be read. *)
Theorem stdio_roundtrip maxSlice pick ms s r rest : sd_closed s = false → sd_out s = "" → sd_closed r = false →
  maxSlice < 2 ^ 63 → Forall (λ m, Z.of_nat (String.length m) ≤ maxSlice) ms →
  let '(s', errs) := stdio_send_all ms s in
  errs = replicate (length ms) None ∧
  (rd_data (sd_reader r) = sd_out s' +:+ rest →
   let '(r', got) := receive_all (stdio_Receive maxSlice false pick) (length ms) r in
   got = Ok <$> ms ∧ rd_data (sd_reader r') = rest).
Proof.
  intros Hs Ho Hr Hmax Hms. rewrite (stdio_send_all_open ms s Hs). split; [done|]. cbn [sd_out sd_with]. rewrite Ho. intros Hd.
  rewrite (stdio_receive_frames maxSlice pick ms rest r Hr Hd); [done|]. eapply Forall_impl; [exact Hms|]. simpl. lia.
Qed.

(** ** Lines *)

Lemma compact_blanks s : all_chars (λ a, negb (is_json_space a)) (compact s) = true.
Proof. induction s as [|a s IH]; simpl; [done|]. destruct (is_json_space a) eqn:Ha; simpl; [done | by rewrite Ha]. Qed.

Lemma compact_id s : compact s = s ↔ all_chars (λ a, negb (is_json_space a)) s = true.
Proof.
  split; [intros <-; apply compact_blanks|]. induction s as [|a s IH]; simpl; [done|]. rewrite andb_true_iff, negb_true_iff.
  intros [-> Hs]. by rewrite IH.
Qed.

Lemma trim_last_app s : trim_last newline (s +:+ nl) = s.
Proof. apply TrimSuffix_app. Qed.

Lemma TrimSuffix_none s p : HasSuffix s p = false → p ≠ "" → TrimSuffix s p = s.
Proof.
  induction s as [|a s IH]; cbn [HasSuffix TrimSuffix]; intros Hs Hp.
  - by destruct (String.eqb EmptyString p).
  - destruct (String.eqb (String a s) p); [done|]. by rewrite IH.
Qed.

(** A valid JSON text arrives without its blanks, and any other text as it is if it is one line. *)
Lemma line_roundtrip Valid pick m rest t : sd_closed t = false → rd_data (sd_reader t) = line_text Valid m +:+ nl +:+ rest →
  (Valid m = false → no_newline m = true ∧ HasSuffix m (String carriage "") = false) →
  line_Receive false pick t = (sd_with t (left_with (sd_reader t) rest) (sd_out t), Ok (line_text Valid m)).
Proof.
  intros Hc Hd Hm. unfold line_Receive. rewrite Hc, Hd. cbn [poll].
  assert (Hl : no_newline (line_text Valid m) = true ∧ HasSuffix (line_text Valid m) (String carriage "") = false).
  { unfold line_text. destruct (Valid m); [|by apply Hm]. pose proof (compact_blanks m) as Hb. split.
    - eapply all_chars_impl; [|exact Hb]. intros a. unfold is_json_space, is_crlf. rewrite !negb_true_iff, !orb_false_iff. tauto.
    - apply not_true_iff_false. intros [u Hu]%HasSuffix_spec. rewrite Hu, all_chars_app in Hb. by rewrite andb_false_r in Hb. }
  destruct Hl as [Hn Hs]. rewrite read_line_app by done. rewrite trim_last_app. unfold trim_last at 1. by rewrite TrimSuffix_none.
Qed.

(** The blank of a JSON string is lost on the way. *)
Example line_loses_blanks : compact "{'text':'hello world'}" = "{'text':'helloworld'}".
Proof. reflexivity. Qed.

(** ** Events are read back *)

Lemma read_line_length s line rest : read_line s = Some (line, rest) → (String.length rest < String.length s)%nat.
Proof.
  revert line. induction s as [|a s IH]; intros line; simpl; [done|]. case_decide; [intros [= _ <-]; lia|].
  destruct (read_line s) as [[l r]|]; [|done]. intros [= _ <-]. specialize (IH l eq_refl). lia.
Qed.

(** The fuel is enough: more of it changes nothing. *)
Lemma event_loop_fuel f f' s e buf : (String.length s < f)%nat → (String.length s < f')%nat → event_loop f s e buf = event_loop f' s e buf.
Proof.
  revert f' s e buf. induction f as [|f IH]; intros [|f'] s e buf Hf Hf'; try lia. cbn [event_loop].
  destruct (read_line s) as [[line rest]|] eqn:Hr; [|done]. apply read_line_length in Hr.
  case_decide; [case_decide; [apply IH; lia | done]|]. destruct (sse_field _ _ _). apply IH; lia.
Qed.

Lemma event_loop_mono f f' s e buf x : event_loop f s e buf = Some x → (f ≤ f')%nat → event_loop f' s e buf = Some x.
Proof.
  revert f' s e buf. induction f as [|f IH]; intros [|f'] s e buf Hf Hle; try done; try lia. cbn [event_loop] in *.
  destruct (read_line s) as [[line rest]|]; [|done]. case_decide; [case_decide; [apply IH; [done | lia] | done]|].
  destruct (sse_field _ _ _). apply IH; [done | lia].
Qed.

Lemma event_loop_reads f s e buf x : event_loop f s e buf = Some x → event_loop (S (String.length s)) s e buf = Some x.
Proof.
  intros Hf. rewrite (event_loop_fuel _ (Nat.max f (S (String.length s)))) by lia. eapply event_loop_mono; [exact Hf | lia].
Qed.

(** A line of text: one that keeps its end when it is trimmed. *)
Definition plain_line (s : string) : Prop := no_newline s = true ∧ trimCRLF s = s.

Lemma plain_label label s : plain_line label → plain_line s → plain_line (label +:+ s).
Proof.
  intros [Hl1 Hl2] [Hs1 Hs2]. split; [unfold no_newline in *; by rewrite all_chars_app, Hl1|].
  destruct s as [|a s]; [by rewrite string_app_nil_r|]. apply trim_right_id. rewrite last_char_app by done. by apply trim_right_id.
Qed.

Lemma plain_trimmed s : no_newline s = true → TrimSpace s = s → plain_line s.
Proof. intros Hn Hs. split; [done|]. destruct s as [|a s]; [done|]. by apply (label_trimmed ""). Qed.

Lemma event_loop_line f line rest e buf : plain_line line → line ≠ "" →
  event_loop (S f) (line +:+ nl +:+ rest) e buf = let '(e, buf) := sse_field e buf line in event_loop f rest e buf.
Proof.
  intros [Hn Ht] Hne. cbn [event_loop]. rewrite read_line_app by done. destruct (trimCRLF_line line Ht) as [-> _]. by rewrite decide_False.
Qed.

Lemma event_loop_blank f rest e buf : event_loop (S f) (nl +:+ rest) e buf =
  if decide (buf = "") then event_loop f rest e buf
  else Some ({| se_ID := se_ID e; se_Event := se_Event e; se_Data := buf; se_Retry := se_Retry e |}, rest).
Proof. reflexivity. Qed.

Lemma plain_const s : no_newline s = true → trimCRLF s = s → plain_line s.
Proof. by split. Qed.

Lemma sse_field_data e buf l : sse_field e buf ("data: " +:+ l) = (e, (if decide (buf = "") then "" else buf +:+ nl) +:+ l).
Proof.
  unfold sse_field. change ("data: " +:+ l) with ("data:" +:+ (" " +:+ l)). rewrite cut_prefix_app. by rewrite cut_prefix_app.
Qed.

Lemma TrimSpace_blank s : TrimSpace (" " +:+ s) = TrimSpace s.
Proof. reflexivity. Qed.

Lemma sse_field_id e buf s : TrimSpace s = s →
  sse_field e buf ("id: " +:+ s) = ({| se_ID := s; se_Event := se_Event e; se_Data := se_Data e; se_Retry := se_Retry e |}, buf).
Proof.
  intros Hs. unfold sse_field. change (cut_prefix ("id: " +:+ s) "data:") with (@None string). change (cut_prefix ("id: " +:+ s) "event:") with (@None string).
  change ("id: " +:+ s) with ("id:" +:+ (" " +:+ s)). by rewrite cut_prefix_app, TrimSpace_blank, Hs.
Qed.

Lemma sse_field_event e buf s : TrimSpace s = s →
  sse_field e buf ("event: " +:+ s) = ({| se_ID := se_ID e; se_Event := s; se_Data := se_Data e; se_Retry := se_Retry e |}, buf).
Proof.
  intros Hs. unfold sse_field. change (cut_prefix ("event: " +:+ s) "data:") with (@None string).
  change ("event: " +:+ s) with ("event:" +:+ (" " +:+ s)). by rewrite cut_prefix_app, TrimSpace_blank, Hs.
Qed.

Lemma sse_field_retry e buf n : 0 ≤ n < 2 ^ 63 →
  sse_field e buf ("retry: " +:+ itoa n) = ({| se_ID := se_ID e; se_Event := se_Event e; se_Data := se_Data e; se_Retry := n |}, buf).
Proof.
  intros Hn. destruct (itoa_spec n Hn) as (Ha & Hd & _). unfold sse_field. generalize dependent (itoa n). intros s Ha Hd.
  change (cut_prefix ("retry: " +:+ s) "data:") with (@None string). change (cut_prefix ("retry: " +:+ s) "event:") with (@None string).
  change (cut_prefix ("retry: " +:+ s) "id:") with (@None string). change ("retry: " +:+ s) with ("retry:" +:+ (" " +:+ s)).
  by rewrite cut_prefix_app, TrimSpace_blank, digits_trimmed, Ha.
Qed.

(** The lines of a text, joined again. *)
Definition joined (l : string) (ls : list string) : string := foldl (λ b l, b +:+ nl +:+ l) l ls.

Lemma joined_app x l ls : joined (x +:+ l) ls = x +:+ joined l ls.
Proof. unfold joined. revert l. induction ls as [|l' ls IH]; intros l; simpl; [done|]. by rewrite <- string_app_assoc, IH. Qed.

Lemma split_nl_joined s : ∃ l ls, split_nl s = l :: ls ∧ joined l ls = s.
Proof.
  induction s as [|a s (l & ls & Hs & Hj)]; [by exists "", []|]. simpl. rewrite Hs. case_decide as Ha.
  - exists "", (l :: ls). split; [done|]. change (joined "" (l :: ls)) with (joined (nl +:+ l) ls). rewrite joined_app, Hj. by subst a.
  - exists (String a l), ls. split; [done|]. change (String a l) with (String a "" +:+ l). by rewrite joined_app, Hj.
Qed.

Lemma split_nl_no_newline s : Forall (λ l, no_newline l = true) (split_nl s).
Proof.
  induction s as [|a s IH]; simpl; [by repeat constructor|]. case_decide as Ha; [by constructor|].
  destruct (split_nl s) as [|l ls]; [constructor; [|constructor] | apply Forall_cons in IH as [Hl Hls]; constructor; [|done]];
    unfold no_newline in *; cbn [all_chars]; apply andb_true_iff; (split; [by apply negb_true_iff, Ascii.eqb_neq | done]).
Qed.

Lemma event_loop_data f ls rest e buf : Forall plain_line ls → buf ≠ "" →
  event_loop (length ls + S f) (lines_text ls +:+ rest) e buf =
    Some ({| se_ID := se_ID e; se_Event := se_Event e; se_Data := joined buf ls; se_Retry := se_Retry e |}, rest).
Proof.
  revert buf. induction ls as [|l ls IH]; intros buf Hls Hb; cbn [lines_text length Nat.add].
  - rewrite event_loop_blank. by rewrite decide_False.
  - apply Forall_cons in Hls as [Hl Hls]. rewrite <- !string_app_assoc. rewrite (string_app_assoc "data: " l).
    rewrite event_loop_line; [|by apply plain_label|done]. rewrite sse_field_data, decide_False by done. rewrite IH; [|done|by destruct buf].
    unfold joined. simpl. by rewrite <- string_app_assoc.
Qed.

(** The events that the framing keeps: no white space around identifier and name, data that
    does not begin with an empty line, and no carriage return at the end of a line. *)
Record framed (e : SSEEvent) : Prop := {
  fr_ID : no_newline (se_ID e) = true ∧ TrimSpace (se_ID e) = se_ID e;
  fr_Event : no_newline (se_Event e) = true ∧ TrimSpace (se_Event e) = se_Event e;
  fr_Retry : 0 ≤ se_Retry e < 2 ^ 63;
  fr_first : head (split_nl (se_Data e)) ≠ Some "";
  fr_lines : Forall (λ l, trimCRLF l = l) (split_nl (se_Data e));
}.

Lemma event_loop_event e rest : framed e → ∃ f, event_loop f (event_text e +:+ rest) no_event "" = Some (e, rest).
Proof.
  intros [[Hi1 Hi2] [He1 He2] Hr Hfirst Hlines]. unfold event_text. rewrite <- !string_app_assoc.
  destruct (split_nl_joined (se_Data e)) as (l & ls & Hs & Hj). pose proof (split_nl_no_newline (se_Data e)) as Hn. rewrite Hs in *.
  assert (Hdata : ∀ e0, event_loop (S (length ls + 1)) (lines_text (l :: ls) +:+ rest) e0 "" =
    Some ({| se_ID := se_ID e0; se_Event := se_Event e0; se_Data := se_Data e; se_Retry := se_Retry e0 |}, rest)).
  { intros e0. apply Forall_cons in Hn as [Hn Hns]. apply Forall_cons in Hlines as [Hl Hls]. cbn [lines_text]. rewrite <- !string_app_assoc.
    rewrite (string_app_assoc "data: " l). rewrite event_loop_line; [|by apply plain_label|done]. rewrite sse_field_data, decide_True by done. change ("" +:+ l) with l.
    rewrite event_loop_data; [by rewrite Hj | | by intros ->]. apply Forall_forall. intros x Hx. split; [by eapply Forall_forall in Hns | by eapply Forall_forall in Hls]. }
  set (d := lines_text (l :: ls) +:+ rest) in *.
  assert (Hretry : ∀ e0, se_Retry e0 = 0 → ∃ f, event_loop f ((if 0 <? se_Retry e then "retry: " +:+ itoa (se_Retry e) +:+ nl else "") +:+ d) e0 "" =
    Some ({| se_ID := se_ID e0; se_Event := se_Event e0; se_Data := se_Data e; se_Retry := se_Retry e |}, rest)).
  { intros e0 H0. destruct (Z.ltb_spec 0 (se_Retry e)) as [Hp|Hp].
    - exists (S (S (length ls + 1))). rewrite <- !string_app_assoc, (string_app_assoc "retry: " (itoa (se_Retry e))).
      destruct (itoa_spec _ Hr) as (_ & Hd & Hne). rewrite event_loop_line; [rewrite sse_field_retry by done; etransitivity; [apply Hdata | reflexivity] | | done].
      apply plain_label; [done|]. apply plain_trimmed; [|by apply digits_trimmed]. unfold no_newline. by eapply all_chars_impl; [apply digit_not_newline|].
    - exists (S (length ls + 1)). change ("" +:+ d) with d. rewrite Hdata. by replace (se_Retry e0) with (se_Retry e) by lia. }
  assert (Hev : ∀ e0, se_Retry e0 = 0 → se_Event e0 = "" → ∃ f, event_loop f ((if decide (se_Event e = "") then "" else "event: " +:+ se_Event e +:+ nl) +:+
      (if 0 <? se_Retry e then "retry: " +:+ itoa (se_Retry e) +:+ nl else "") +:+ d) e0 "" =
    Some ({| se_ID := se_ID e0; se_Event := se_Event e; se_Data := se_Data e; se_Retry := se_Retry e |}, rest)).
  { intros e0 H0 H1. destruct (decide (se_Event e = "")) as [Hd|Hd].
    - destruct (Hretry e0 H0) as [f Hf]. exists f. assert (Heq : se_Event e0 = se_Event e) by congruence.
      rewrite Heq in Hf. exact Hf.
    - destruct (Hretry {| se_ID := se_ID e0; se_Event := se_Event e; se_Data := se_Data e0; se_Retry := se_Retry e0 |} H0) as [f Hf]. exists (S f).
      rewrite <- !string_app_assoc, (string_app_assoc "event: " (se_Event e)).
      rewrite event_loop_line; [by rewrite sse_field_event | apply plain_label; [done | by apply plain_trimmed] | done]. }
  destruct (decide (se_ID e = "")) as [Hd|Hd].
  - destruct (Hev no_event eq_refl eq_refl) as [f Hf]. exists f. etransitivity; [exact Hf|].
    clear -Hd. destruct e. simpl in *. by subst.
  - destruct (Hev {| se_ID := se_ID e; se_Event := ""; se_Data := ""; se_Retry := 0 |} eq_refl eq_refl) as [f Hf]. exists (S f).
    rewrite <- !string_app_assoc, (string_app_assoc "id: " (se_ID e)).
    rewrite event_loop_line; [rewrite sse_field_id by done; etransitivity; [exact Hf|]; clear; by destruct e | apply plain_label; [done | by apply plain_trimmed] | done].
Qed.

(** What a writer does: events, and the ticks of its heartbeat. *)
Inductive WriterOp := OpEvent (e : SSEEvent) | OpBeat.

Definition run_op (w : SSEWriter) (op : WriterOp) : SSEWriter :=
  match op with OpEvent e => (WriteEvent no_failure e w).1 | OpBeat => heartbeat no_failure w end.
Definition op_text (op : WriterOp) : string := match op with OpEvent e => event_text e | OpBeat => heartbeat_text end.
Definition op_event (op : WriterOp) : option SSEEvent := match op with OpEvent e => Some e | OpBeat => None end.

Lemma run_ops_text ops w : sw_closed w = false →
  foldl run_op w ops = {| sw_out := sw_out w +:+ String.concat "" (op_text <$> ops); sw_closed := false |}.
Proof.
  revert w. induction ops as [|op ops IH]; intros w Hw; cbn [foldl].
  - simpl. rewrite string_app_nil_r. destruct w; simpl in *. by subst.
  - assert (Hop : run_op w op = {| sw_out := sw_out w +:+ op_text op; sw_closed := false |}).
    { destruct op; unfold run_op, WriteEvent, heartbeat; by rewrite Hw. }
    rewrite Hop, IH by done. cbn [sw_out]. rewrite <- string_app_assoc. f_equal. f_equal.
    destruct ops; cbn [fmap list_fmap String.concat]; [by rewrite string_app_nil_r | done].
Qed.

Definition client_over (c : SSEClient) (r : Reader) : SSEClient := {| sc_reader := Some r; sc_closed := sc_closed c; sc_connected := sc_connected c |}.

Lemma ReceiveEvent_loop pick c r e rest f : sc_closed c = false → sc_reader c = Some r → event_loop f (rd_data r) no_event "" = Some (e, rest) →
  ReceiveEvent false pick c = (client_over c (left_with r rest), Ok e).
Proof. intros Hc Hr Hf. unfold ReceiveEvent. rewrite Hc, Hr. cbn [poll]. rewrite (event_loop_reads _ _ _ _ _ Hf).
  unfold client_over. by rewrite Hc.
Qed.

Lemma event_loop_beat f s : event_loop (S (S f)) (heartbeat_text +:+ s) no_event "" = event_loop f s no_event "".
Proof. reflexivity. Qed.

(** The next event after the heartbeats before it. *)
Lemma event_loop_ops ops rest e evs : omap op_event ops = e :: evs → framed e →
  ∃ f ops', event_loop f (String.concat "" (op_text <$> ops) +:+ rest) no_event "" = Some (e, String.concat "" (op_text <$> ops') +:+ rest) ∧
    omap op_event ops' = evs.
Proof.
  assert (Hcons : ∀ op ops, String.concat "" (op_text <$> op :: ops) = op_text op +:+ String.concat "" (op_text <$> ops)).
  { intros op [|op' l]; cbn [fmap list_fmap String.concat]; [by rewrite string_app_nil_r | done]. }
  induction ops as [|op ops IH]; [done|]. rewrite Hcons, <- string_app_assoc. intros He Hf. destruct op as [e0|].
  - change (e0 :: omap op_event ops = e :: evs) in He. cbn [op_text]. injection He as -> <-. destruct (event_loop_event e (String.concat "" (op_text <$> ops) +:+ rest) Hf) as [f Hl]. by exists f, ops.
  - change (omap op_event ops = e :: evs) in He. cbn [op_text]. destruct (IH He Hf) as (f & ops' & Hl & He'). exists (S (S f)), ops'. by split.
Qed.

(** The events that a writer sends are received: whatever heartbeats come between, a client
    that reads what an open writer wrote gets its events one by one, in their order and
    unchanged, as long as they can be framed. *)
Theorem sse_roundtrip pick ops w c r rest : sw_closed w = false → sw_out w = "" → sc_closed c = false → sc_reader c = Some r →
  rd_data r = sw_out (foldl run_op w ops) +:+ rest → Forall framed (omap op_event ops) →
  (receive_all (ReceiveEvent false pick) (length (omap op_event ops)) c).2 = Ok <$> omap op_event ops.
Proof.
  intros Hw Ho Hc Hr. rewrite run_ops_text, Ho by done. cbn [sw_out]. change ("" +:+ ?s) with s. clear Hw Ho w.
  remember (omap op_event ops) as evs eqn:He. revert ops c r Hc Hr He.
  induction evs as [|e evs IH]; intros ops c r Hc Hr He Hd Hf; [done|]. apply Forall_cons in Hf as [Hf Hfs].
  destruct (event_loop_ops ops rest e evs (eq_sym He) Hf) as (f & ops' & Hl & He'). cbn [length receive_all].
  rewrite <- Hd in Hl. rewrite (ReceiveEvent_loop pick c r e _ f Hc Hr Hl).
  specialize (IH ops' (client_over c (left_with r (String.concat "" (op_text <$> ops') +:+ rest))) _ Hc eq_refl (eq_sym He') eq_refl Hfs).
  destruct (receive_all _ _ _) as [c' l]. simpl in IH |- *. by rewrite IH.
Qed.

(** ** The server's clients *)

Lemma broadcast_write_other wr e s i j : i ≠ j → ss_writers (broadcast_write wr e s i) !! j = ss_writers s !! j.
Proof. intros Hne. simpl. by rewrite lookup_alter_ne. Qed.

(** A broadcast that meets no failure gives the event to every client once, and to no writer
    of a client that has gone. *)
Lemma broadcast_once wr e s i w : (∀ i k, wr i k = None) → ss_writers s !! i = Some w →
  ss_writers (Broadcast wr e s) !! i =
    Some (if decide (i ∈ ss_clients s) then (WriteEvent no_failure e w).1 else w).
Proof.
  intros Hwr Hw. unfold Broadcast, broadcast_snapshot.
  assert (Hwe : ∀ w, (WriteEvent (wr i) e w).1 = (WriteEvent no_failure e w).1).
  { intros u. unfold WriteEvent. destruct (sw_closed u); [done|]. simpl. by rewrite Hwr. }
  assert (Hgo : ∀ l s, NoDup l → ss_writers s !! i = Some w →
    ss_writers (foldl (broadcast_write wr e) s l) !! i = Some (if decide (i ∈ l) then (WriteEvent no_failure e w).1 else w)).
  { clear Hw s. intros l. induction l as [|j l IH]; intros s Hnd Hs; [cbn [foldl]; rewrite decide_False by set_solver; exact Hs|].
    apply NoDup_cons in Hnd as [Hj Hnd]. cbn [foldl]. destruct (decide (j = i)) as [->|Hne].
    - assert (Hrest : ∀ s, ss_writers (foldl (broadcast_write wr e) s l) !! i = ss_writers s !! i).
      { clear IH Hnd Hs. intros s'. revert s'. induction l as [|k l IHl]; intros s'; [done|]. cbn [foldl]. rewrite IHl by set_solver.
        apply broadcast_write_other. set_solver. }
      rewrite Hrest, decide_True by set_solver. simpl. rewrite lookup_alter_eq, Hs. simpl. by rewrite Hwe.
    - rewrite (IH _ Hnd) by by rewrite broadcast_write_other. f_equal. destruct (decide (i ∈ l)); [rewrite decide_True by set_solver | rewrite decide_False by set_solver]; done. }
  rewrite Hgo; [|apply NoDup_elements|done]. f_equal.
  destruct (decide (i ∈ ss_clients s)); [by rewrite decide_True by set_solver | by rewrite decide_False by set_solver].
Qed.

(** ** The life of a WebSocket *)

(** A transport that was closed does not come back: connecting again reports success and
    leaves it closed. *)
Lemma closed_for_good dial dial' err conn t : wt_conn t = None → dial = Ok conn →
  let t1 := (ws_Close err (ws_Connect dial t).1).1 in
  ws_Connect dial' t1 = (t1, None) ∧ ws_IsConnected t1 = false ∧ wt_pinging t1 = false ∧ ∀ write, ws_Send write t1 = Some ErrNotConnected.
Proof. intros Hn ->. unfold ws_Connect. rewrite Hn. by split_and!. Qed.

(** The keepalive loop does not outlive its connection. *)
Lemma ping_stops write t : ws_live t = None → wt_pinging (ping_tick write t) = false.
Proof. intros Hl. unfold ping_tick. destruct (wt_pinging t) eqn:Hp; [by rewrite Hl | done]. Qed.

(** Connections are accepted in the order in which they were offered. *)
Lemma accepted_in_order conns config sub l : wl_closed l = false → (length (wl_connCh l) + length conns ≤ 16)%nat →
  ∃ l', foldl (λ ol conn, ol ≫= listener_offer false true conn) (Some l) conns = Some l' ∧ wl_panicked l' = wl_panicked l ∧
    wl_connCh l' = wl_connCh l ++ conns ∧
    ∀ conn rest, wl_connCh l' = conn :: rest → ∃ t l'', accept_receive config sub l' = Some (l'', Ok t) ∧ wt_conn t = Some conn ∧ wl_connCh l'' = rest.
Proof.
  intros Hc. revert l Hc. induction conns as [|conn conns IH]; intros l Hc Hlen; cbn [foldl].
  - exists l. rewrite app_nil_r. split_and!; try done. intros c rest Hl. unfold accept_receive. rewrite Hl. by eexists _, _.
  - cbn [mbind option_bind]. unfold listener_offer at 2. rewrite Hc. rewrite bool_decide_true by (simpl in Hlen; lia). cbn [orb].
    destruct (IH {| wl_connCh := wl_connCh l ++ [conn]; wl_closed := false; wl_panicked := wl_panicked l; wl_refused := wl_refused l |} eq_refl) as (l' & Hf & Hp & Hl & Ha).
    { cbn [wl_connCh]. rewrite length_app. simpl in *. lia. }
    exists l'. split_and!; [exact Hf | done | cbn [wl_connCh] in Hl; by rewrite Hl, <- app_assoc | done].
Qed.

(** A connection that arrives after the listener was closed makes its handler panic. *)
Lemma offer_after_close conn l : ∃ l', listener_offer false true conn (listener_Close l) = Some l' ∧ wl_panicked l' = true.
Proof. unfold listener_offer, listener_Close. destruct (wl_closed l) eqn:Hc; [rewrite Hc|]; simpl; by eexists. Qed.

(** ** Concrete frames *)

Module Example.

Definition open_pipe (data : string) : StdioTransport := (pipe_Connect (NewStdioTransport {| rd_data := data; rd_error := None |})).1.
Definition two : list string := ["{'id':1}"; ""].

Example frame_text : frame "ab" = "Content-Length: 2" +:+ crlf +:+ crlf +:+ "ab".
Proof. reflexivity. Qed.
Example number_wraps : atoi "18446744073709551617" = 1.
Proof. reflexivity. Qed.
(** The sign of a length is skipped. *)
Example sign_skipped : (stdio_Receive 10 false true (open_pipe ("Content-Length: -2" +:+ crlf +:+ crlf +:+ "ab"))).2 = Ok "ab".
Proof. reflexivity. Qed.
(** A length that cannot be allocated ends the program. *)
Example length_panics : (stdio_Receive 10 false true (open_pipe ("Content-Length: 999" +:+ crlf +:+ crlf))).2 = Err MakePanic.
Proof. reflexivity. Qed.
Example short_body : (stdio_Receive 10 false true (open_pipe ("Content-Length: 3" +:+ crlf +:+ crlf +:+ "ab"))).2 = Err ErrUnexpectedEOF.
Proof. reflexivity. Qed.

Lemma stdio_roundtrip_witness : let '(s', _) := stdio_send_all two (open_pipe "") in
  (receive_all (stdio_Receive 100 false true) 2 (open_pipe (sd_out s' +:+ "rest"))).2 = Ok <$> two.
Proof.
  pose proof (stdio_roundtrip 100 true two (open_pipe "") (open_pipe (sd_out (stdio_send_all two (open_pipe "")).1 +:+ "rest")) "rest"
    eq_refl eq_refl eq_refl ltac:(lia) ltac:(by repeat constructor)) as Hr.
  destruct (stdio_send_all two (open_pipe "")) as [s' errs]. destruct Hr as [_ Hr]. specialize (Hr eq_refl).
  destruct (receive_all _ _ _) as [r' got]. apply Hr.
Defined.

Definition named (name data : string) : SSEEvent := {| se_ID := "7"; se_Event := name; se_Data := data; se_Retry := 1500 |}.
Definition client (data : string) : SSEClient := (sse_Connect (Ok (200, {| rd_data := data; rd_error := None |})) NewSSEClient).1.
Definition history : list WriterOp := [OpBeat; OpEvent (named "tick" ("one" +:+ nl +:+ " two")); OpBeat; OpEvent (named "" "three")].

Lemma sse_roundtrip_witness :
  (receive_all (ReceiveEvent false true) 2 (client (sw_out (foldl run_op {| sw_out := ""; sw_closed := false |} history)))).2 =
    [Ok (named "tick" ("one" +:+ nl +:+ " two")); Ok (named "" "three")].
Proof.
  apply (sse_roundtrip true history {| sw_out := ""; sw_closed := false |} (client (sw_out (foldl run_op {| sw_out := ""; sw_closed := false |} history)))
    {| rd_data := sw_out (foldl run_op {| sw_out := ""; sw_closed := false |} history); rd_error := None |} "" eq_refl eq_refl eq_refl eq_refl).
  - by rewrite string_app_nil_r.
  - repeat constructor; done.
Defined.

(** An event without data is not delivered, and its name and identifier go to the next. *)
Example empty_event_lost :
  (receive_all (ReceiveEvent false true) 1 (client (event_text (named "gone" "") +:+ event_text {| se_ID := ""; se_Event := ""; se_Data := "x"; se_Retry := 0 |}))).2 =
    [Ok (named "gone" "x")].
Proof. reflexivity. Qed.
(** A line break in a name makes fields of what follows it. *)
Example name_injects : (ReceiveEvent false true (client (event_text (named ("a" +:+ nl +:+ "data: forged") "x")))).2 = Ok (named "a" ("forged" +:+ nl +:+ "x")).
Proof. reflexivity. Qed.

End Example.
