(* ===== verification/Jwt.v ===== *)
(** * Tokens of other issuers (src/adapters/a2a/auth.go)

    The validation of a JSON Web Token against a configured issuer, audience and scopes and
    the issuer's key set, which is fetched and kept for an hour; the middleware over it.  Base64,
    JSON, SHA-256 and the signature schemes are parameters, and so is what a fetch gives. *)

From S2P Require Import Prelude Http BillingHttp.
#[local] Open Scope Z_scope.

(** ** Configuration, claims and keys *)

Record OAuth2Config := { JWKSURL : string; Issuer : string; Audience : string; RequiredScopes : list string; SkipValidation : bool }.

Definition DefaultGoogleOAuth2Config (audience : string) : OAuth2Config := {|
  JWKSURL := "https://www.googleapis.com/oauth2/v3/certs"; Issuer := "https://accounts.google.com"; Audience := audience;
  RequiredScopes := []; SkipValidation := false |}.

Record Claims := {
  cl_Subject : string; cl_Issuer : string; cl_Audience : list string; cl_Email : string; cl_ExpiresAt : Z; cl_IssuedAt : Z;
  cl_Scopes : list string; cl_Raw : gmap string any;
}.

Record JWK := { Kid : string; Kty : string; Alg : string; Use : string; N_ : string; E_ : string; Crv : string; X_ : string }.

Inductive TokenError :=
| ErrMissingToken | ErrInvalidToken (detail : string) | ErrTokenExpired | ErrInvalidIssuer | ErrInvalidAudience
| ErrInvalidSignature (detail : string) | ErrJWKSFetchFailed | ErrKeyNotFound | MissingScope (scope : string).

(** [JsonObject] gives a JSON text that is an object, or null, as its map of values, a number as
    its integral part, which is all that the conversion [int64] keeps of it; that conversion
    ([Int64]) and the one of a big integer ([BigInt64]) are unspecified out of range.  An RSA
    key is its modulus and exponent. *)
Class JwtLib := {
  Base64 : string → option string;
  JsonObject : string → option (gmap string any);
  Int64 : Z → Z;
  BigInt64 : Z → Z;
  Ed25519Verify : string → string → string → bool;
  SHA256 : string → string;
  BytesToInt : string → Z;
  VerifyPKCS1v15 : Z * Z → string → string → bool;
}.

Section jwt.
Context `{JwtLib}.

Definition string_field (raw : gmap string any) (k : string) : string := match raw !! k with Some (JString s) => s | _ => EmptyString end.
Definition number_field (raw : gmap string any) (k : string) : Z := match raw !! k with Some (JNumber n) => Int64 n | _ => 0 end.
Definition strings_of (l : list any) : list string := omap (λ v, match v with JString s => Some s | _ => None end) l.

(** [strings.Split] at a character. *)
Fixpoint SplitAt (c : Ascii.ascii) (v acc : string) : list string :=
  match v with
  | EmptyString => [string_rev acc]
  | String a v => if decide (a = c) then string_rev acc :: SplitAt c v EmptyString else SplitAt c v (String a acc)
  end.
Definition dot : Ascii.ascii := Ascii.ascii_of_nat 46.
Definition space : Ascii.ascii := Ascii.ascii_of_nat 32.

(** [Claims.UnmarshalJSON]. *)
Definition UnmarshalClaims (data : string) : option Claims :=
  raw ← JsonObject data;
  Some {| cl_Subject := string_field raw "sub"; cl_Issuer := string_field raw "iss"; cl_Email := string_field raw "email";
          cl_ExpiresAt := number_field raw "exp"; cl_IssuedAt := number_field raw "iat";
          cl_Audience := match raw !! "aud" with Some (JString s) => [s] | Some (JArray l) => strings_of l | _ => [] end;
          cl_Scopes := match raw !! "scope" with Some (JString s) => SplitAt space s EmptyString | Some (JArray l) => strings_of l | _ => [] end;
          cl_Raw := raw |}.

Definition base64URLDecode (s : string) : option string :=
  let n := (String.length s mod 4)%nat in
  Base64 (s +:+ (if decide (n = 2%nat) then "==" else if decide (n = 3%nat) then "=" else EmptyString)).

Definition jwkToRSAPublicKey (key : JWK) : option (Z * Z) :=
  if decide (Kty key = "RSA") then
    n ← base64URLDecode (N_ key); e ← base64URLDecode (E_ key); Some (BytesToInt n, BigInt64 (BytesToInt e))
  else None.

Definition jwkToEd25519PublicKey (key : JWK) : option string :=
  if decide (Kty key ≠ "OKP") then None
  else if decide (Crv key ≠ EmptyString ∧ Crv key ≠ "Ed25519") then None
  else x ← base64URLDecode (X_ key); if decide (String.length x = 32%nat) then Some x else None.

Definition verifyRS256 (message signature : string) (pubKey : Z * Z) : bool := VerifyPKCS1v15 pubKey (SHA256 message) signature.

(** The switch of [verifySignature] over the algorithm of the token and the type of the key. *)
Definition check_signature (key : JWK) (alg signingInput sig : string) : option TokenError :=
  if decide (alg = "EdDSA" ∨ Kty key = "OKP") then
    match jwkToEd25519PublicKey key with
    | None => Some (ErrInvalidSignature "key")
    | Some pub => if Ed25519Verify pub signingInput sig then None else Some (ErrInvalidSignature EmptyString)
    end
  else if decide (alg = "RS256" ∨ Kty key = "RSA") then
    match jwkToRSAPublicKey key with
    | None => Some (ErrInvalidSignature "key")
    | Some pub => if verifyRS256 signingInput sig pub then None else Some (ErrInvalidSignature EmptyString)
    end
  else Some (ErrInvalidSignature "unsupported").

(** ** The validator *)

Record OAuth2Validator := { ov_config : OAuth2Config; ov_jwks : option (list JWK); ov_jwksExp : Z; ov_jwksTTL : Z }.

Definition NewOAuth2Validator (cfg : OAuth2Config) : OAuth2Validator := {| ov_config := cfg; ov_jwks := None; ov_jwksExp := 0; ov_jwksTTL := Hour |}.

(** [fetch]: what a request of the key set would give now. *)
Definition getJWKS (now : Z) (fetch : option (list JWK)) (v : OAuth2Validator) : OAuth2Validator * result TokenError (list JWK) :=
  match ov_jwks v with
  | Some keys =>
      if decide (now < ov_jwksExp v) then (v, Ok keys)
      else match fetch with
           | None => (v, Err ErrJWKSFetchFailed)
           | Some keys => ({| ov_config := ov_config v; ov_jwks := Some keys; ov_jwksExp := now + ov_jwksTTL v; ov_jwksTTL := ov_jwksTTL v |}, Ok keys)
           end
  | None =>
      match fetch with
      | None => (v, Err ErrJWKSFetchFailed)
      | Some keys => ({| ov_config := ov_config v; ov_jwks := Some keys; ov_jwksExp := now + ov_jwksTTL v; ov_jwksTTL := ov_jwksTTL v |}, Ok keys)
      end
  end.

Definition find_key (kid : string) (keys : list JWK) : option JWK := List.find (λ k, String.eqb (Kid k) kid || String.eqb kid EmptyString) keys.

Definition verifySignature (now : Z) (fetch : option (list JWK)) (signingInput signature kid alg : string) (v : OAuth2Validator)
  : OAuth2Validator * option TokenError :=
  match getJWKS now fetch v with
  | (v, Err e) => (v, Some e)
  | (v, Ok keys) =>
      match find_key kid keys with
      | None => (v, Some ErrKeyNotFound)
      | Some key =>
          match base64URLDecode signature with
          | None => (v, Some (ErrInvalidSignature "encoding"))
          | Some sig => (v, check_signature key alg signingInput sig)
          end
      end
  end.

(** The checks of the claims; the clock is read in seconds. *)
Definition check_claims (cfg : OAuth2Config) (now : Z) (c : Claims) : option TokenError :=
  if decide (0 < cl_ExpiresAt c ∧ cl_ExpiresAt c < now / Second) then Some ErrTokenExpired
  else if decide (Issuer cfg ≠ EmptyString ∧ cl_Issuer c ≠ Issuer cfg ∧ cl_Issuer c ≠ "accounts.google.com") then Some ErrInvalidIssuer
  else if decide (Audience cfg ≠ EmptyString ∧ Audience cfg ∉ cl_Audience c) then Some ErrInvalidAudience
  else MissingScope <$> List.find (λ s, negb (bool_decide (s ∈ cl_Scopes c))) (RequiredScopes cfg).

(** Header and payload of a token. *)
Definition decode_token (token : string) : result TokenError (string * string * string * gmap string any * Claims) :=
  match SplitAt dot token EmptyString with
  | [h; p; s] =>
      match base64URLDecode h with
      | None => Err (ErrInvalidToken "invalid header")
      | Some header =>
          match JsonObject header with
          | None => Err (ErrInvalidToken "malformed header")
          | Some headerMap =>
              match base64URLDecode p with
              | None => Err (ErrInvalidToken "invalid payload")
              | Some payload => match UnmarshalClaims payload with None => Err (ErrInvalidToken "malformed payload") | Some c => Ok (h, p, s, headerMap, c) end
              end
          end
      end
  | _ => Err (ErrInvalidToken EmptyString)
  end.

Definition test_claims (cfg : OAuth2Config) : Claims :=
  {| cl_Subject := "test-user"; cl_Issuer := Issuer cfg; cl_Audience := []; cl_Email := EmptyString; cl_ExpiresAt := 0; cl_IssuedAt := 0; cl_Scopes := []; cl_Raw := ∅ |}.

Definition ValidateToken (now : Z) (fetch : option (list JWK)) (token : string) (v : OAuth2Validator) : OAuth2Validator * result TokenError Claims :=
  if SkipValidation (ov_config v) then (v, Ok (test_claims (ov_config v)))
  else match decode_token token with
       | Err e => (v, Err e)
       | Ok (h, p, s, headerMap, c) =>
           match check_claims (ov_config v) now c with
           | Some e => (v, Err e)
           | None =>
               if decide (JWKSURL (ov_config v) = EmptyString) then (v, Ok c)
               else match verifySignature now fetch (h +:+ "." +:+ p) s (string_field headerMap "kid") (string_field headerMap "alg") v with
                    | (v, Some e) => (v, Err e)
                    | (v, None) => (v, Ok c)
                    end
           end
       end.

(** [ValidateTokenToBillingClaims]. *)
Definition ValidateTokenToBillingClaims (now : Z) (fetch : option (list JWK)) (token : string) (v : OAuth2Validator)
  : OAuth2Validator * result TokenError OAuthClaims :=
  match ValidateToken now fetch token v with
  | (v, Err e) => (v, Err e)
  | (v, Ok c) => (v, Ok {| oc_Subject := cl_Subject c; oc_Issuer := cl_Issuer c; oc_Email := cl_Email c |})
  end.

(** The middleware: the request goes on with the claims, or is refused. *)
Inductive Gatekeeper := PassPublic | PassWith (c : Claims) | RefuseWith (e : HTTPError) | RefuseToken (e : TokenError).

Definition Middleware (now : Z) (fetch : option (list JWK)) (r : Request) (v : OAuth2Validator) : OAuth2Validator * Gatekeeper :=
  if decide (rq_Path r = "/.well-known/agent.json" ∨ rq_Path r = "/health") then (v, PassPublic)
  else if decide (rq_Authorization r = EmptyString) then (v, RefuseWith (fail StatusUnauthorized "missing authorization header"))
  else match bearer_token r with
       | None => (v, RefuseWith (fail StatusUnauthorized "invalid authorization header format"))
       | Some token => match ValidateToken now fetch token v with
                       | (v, Err e) => (v, RefuseToken e)
                       | (v, Ok c) => (v, PassWith c)
                       end
       end.

(** ** What an accepted token stands for *)

(** [key] vouches for the text with the signature. *)
Definition signed_by (key : JWK) (text sig : string) : Prop :=
  (∃ pub, Kty key = "OKP" ∧ jwkToEd25519PublicKey key = Some pub ∧ Ed25519Verify pub text sig = true) ∨
  (∃ pub, Kty key = "RSA" ∧ jwkToRSAPublicKey key = Some pub ∧ VerifyPKCS1v15 pub (SHA256 text) sig = true).

Lemma check_signature_sound key alg text sig : check_signature key alg text sig = None → signed_by key text sig.
Proof.
  unfold check_signature, signed_by. case_decide as Ha.
  - destruct (jwkToEd25519PublicKey key) as [pub|] eqn:Hp; [|done]. destruct (Ed25519Verify pub text sig) eqn:Hv; [|done].
    intros _. left. exists pub. split_and!; [|done..]. unfold jwkToEd25519PublicKey in Hp. by destruct (decide (Kty key = "OKP")) as [Hk|Hk]; [|rewrite decide_True in Hp by done].
  - case_decide; [|done]. destruct (jwkToRSAPublicKey key) as [pub|] eqn:Hp; [|done]. unfold verifyRS256.
    destruct (VerifyPKCS1v15 pub (SHA256 text) sig) eqn:Hv; [|done]. intros _. right. exists pub. split_and!; [|done..].
    unfold jwkToRSAPublicKey in Hp. by case_decide.
Qed.

(** The key sets in use were fetched, and less than their time to live ago. *)
Lemma getJWKS_fresh now fetch v v' keys : getJWKS now fetch v = (v', Ok keys) →
  ov_config v' = ov_config v ∧ ov_jwks v' = Some keys ∧
  (fetch = Some keys ∧ ov_jwksExp v' = now + ov_jwksTTL v ∨ v' = v ∧ now < ov_jwksExp v).
Proof. unfold getJWKS. destruct (ov_jwks v) as [ks|] eqn:Hk; [case_decide|]; destruct fetch; intros [= <- <-]; auto. Qed.

(** The claims as the configuration demands them. *)
Definition acceptable (cfg : OAuth2Config) (now : Z) (c : Claims) : Prop :=
  (0 < cl_ExpiresAt c → now / Second ≤ cl_ExpiresAt c) ∧
  (Issuer cfg ≠ EmptyString → cl_Issuer c = Issuer cfg ∨ cl_Issuer c = "accounts.google.com") ∧
  (Audience cfg ≠ EmptyString → Audience cfg ∈ cl_Audience c) ∧
  (∀ s, s ∈ RequiredScopes cfg → s ∈ cl_Scopes c).

Lemma check_claims_spec cfg now c : check_claims cfg now c = None ↔ acceptable cfg now c.
Proof.
  unfold check_claims, acceptable. case_decide as He; [split; [done | lia]|]. case_decide as Hi; [split; [done|]; intros (_ & Hx & _); naive_solver|].
  case_decide as Ha; [split; [done | naive_solver]|].
  assert (Hs : List.find (λ s, negb (bool_decide (s ∈ cl_Scopes c))) (RequiredScopes cfg) = None ↔ ∀ s, s ∈ RequiredScopes cfg → s ∈ cl_Scopes c).
  { split.
    - intros Hn s Hin. apply list_elem_of_In in Hin. pose proof (find_none _ _ Hn s Hin) as Hb. apply negb_false_iff in Hb. by apply bool_decide_eq_true in Hb.
    - intros Hall. destruct (List.find _ _) as [s|] eqn:Hf; [|done]. apply find_some in Hf as [Hin Hb]. apply negb_true_iff, bool_decide_eq_false in Hb.
      destruct Hb. apply Hall. by apply list_elem_of_In. }
  destruct (List.find _ _) as [s|]; simpl; split; intros Hx; try done.
  - destruct Hx as (_ & _ & _ & Hx). by apply Hs in Hx.
  - split_and!; [lia | | | by apply Hs].
    + intros Hne. destruct (decide (cl_Issuer c = Issuer cfg)); [by left|]. destruct (decide (cl_Issuer c = "accounts.google.com")); [by right|]. by destruct Hi.
    + intros Hne. destruct (decide (Audience cfg ∈ cl_Audience c)); [done|]. by destruct Ha.
Qed.

(** C32. A token that is accepted while validation is on and a key set is configured carries a
    signature, over exactly the header and payload it is read from, of a key of the issuer's
    set that the token names, with the algorithm of that key's type; the set was fetched now or
    has not yet expired; and its claims are those that are returned and satisfy the
    configuration. *)
Theorem token_genuine now fetch token v v' c : SkipValidation (ov_config v) = false → JWKSURL (ov_config v) ≠ EmptyString →
  ValidateToken now fetch token v = (v', Ok c) →
  acceptable (ov_config v) now c ∧
  ∃ h p s headerMap sig key keys,
    decode_token token = Ok (h, p, s, headerMap, c) ∧ base64URLDecode s = Some sig ∧ ov_jwks v' = Some keys ∧ key ∈ keys ∧
    (Kid key = string_field headerMap "kid" ∨ string_field headerMap "kid" = EmptyString) ∧ signed_by key (h +:+ "." +:+ p) sig ∧
    (fetch = Some keys ∧ ov_jwksExp v' = now + ov_jwksTTL v ∨ v' = v ∧ now < ov_jwksExp v).
Proof.
  intros Hskip Hurl. unfold ValidateToken. rewrite Hskip. destruct (decode_token token) as [[[[[h p] s] hm] c0]|] eqn:Hd; [|done].
  destruct (check_claims (ov_config v) now c0) eqn:Hc; [done|]. rewrite decide_False by done. unfold verifySignature.
  destruct (getJWKS now fetch v) as [v1 [keys|]] eqn:Hg; [|done]. destruct (find_key (string_field hm "kid") keys) as [key|] eqn:Hf; [|done].
  destruct (base64URLDecode s) as [sig|] eqn:Hb; [|done]. destruct (check_signature key _ _ sig) eqn:Hs; [done|]. intros [= <- <-].
  split; [by apply check_claims_spec|]. destruct (getJWKS_fresh _ _ _ _ _ Hg) as (_ & Hk & Hfresh).
  exists h, p, s, hm, sig, key, keys. apply find_some in Hf as [Hin Hkid]. split_and!; try done.
  - by apply list_elem_of_In.
  - apply orb_true_iff in Hkid as [Hkid%String.eqb_eq|Hkid%String.eqb_eq]; auto.
  - by apply check_signature_sound in Hs.
Qed.

(** A token without a time of expiry is accepted at any time at which the rest of it is. *)
Lemma token_never_expires now now' cfg c : cl_ExpiresAt c ≤ 0 → acceptable cfg now c → acceptable cfg now' c.
Proof. unfold acceptable. intros Hle (_ & Ha). split; [lia | done]. Qed.

(** Without the address of a key set no signature is looked at. *)
Lemma unsigned_token_accepted now fetch token v h p s hm c : SkipValidation (ov_config v) = false → JWKSURL (ov_config v) = EmptyString →
  decode_token token = Ok (h, p, s, hm, c) → acceptable (ov_config v) now c → ValidateToken now fetch token v = (v, Ok c).
Proof.
  intros Hskip Hurl Hd Ha. unfold ValidateToken. rewrite Hskip, Hd. apply check_claims_spec in Ha as ->. by rewrite decide_True.
Qed.

End jwt.

(** ** An issuer with one key *)

Module Example.

#[local] Instance lib : JwtLib := {
  Base64 := Some;
  JsonObject := λ t, if decide (t = "H") then Some {["kid" := JString "k1"; "alg" := JString "EdDSA"]}
                     else if decide (t = "P") then Some {["iss" := JString "accounts.google.com"; "aud" := JArray [JString "app"]; "exp" := JNumber 100; "scope" := JString "mail profile"; "sub" := JString "ada"]}
                     else None;
  Int64 := id; BigInt64 := id; BytesToInt := λ _, 3;
  Ed25519Verify := λ _ text sig, bool_decide (text = "H.P" ∧ sig = "S");
  SHA256 := id;
  VerifyPKCS1v15 := λ _ _ _, false;
}.

Definition google_key : JWK :=
  {| Kid := "k1"; Kty := "OKP"; Alg := "EdDSA"; Use := "sig"; N_ := EmptyString; E_ := EmptyString; Crv := "Ed25519"; X_ := "0123456789abcdef0123456789abcdef" |}.
Definition google : OAuth2Validator := NewOAuth2Validator (DefaultGoogleOAuth2Config "app").
Definition cached : OAuth2Validator := (ValidateToken (50 * Second) (Some [google_key]) "H.P.S" google).1.

Example scopes_split : cl_Scopes <$> UnmarshalClaims "P" = Some ["mail"; "profile"].
Proof. reflexivity. Qed.
Example cached_once : ov_jwksExp cached = 50 * Second + Hour ∧ (ValidateToken (60 * Second) None "H.P.S" cached).1 = cached.
Proof. split; reflexivity. Qed.
Example expired : (ValidateToken (101 * Second) None "H.P.S" cached).2 = Err ErrTokenExpired.
Proof. reflexivity. Qed.
Example forged : (ValidateToken (60 * Second) None "H.P.T" cached).2 = Err (ErrInvalidSignature EmptyString).
Proof. reflexivity. Qed.

Lemma token_genuine_witness : ∃ c, (ValidateToken (50 * Second) (Some [google_key]) "H.P.S" google).2 = Ok c ∧ "app" ∈ cl_Audience c ∧ 50 ≤ cl_ExpiresAt c.
Proof.
  destruct (UnmarshalClaims "P") as [c|] eqn:Hc; [|by vm_compute in Hc].
  pose proof (token_genuine (50 * Second) (Some [google_key]) "H.P.S" google cached c eq_refl ltac:(by vm_compute)) as Ht.
  exists c. destruct Ht as ((Hexp & _ & Haud & _) & _).
  - vm_compute in Hc. injection Hc as <-. vm_compute. reflexivity.
  - split_and!; [|by apply Haud|apply Hexp].
    + vm_compute in Hc. injection Hc as <-. vm_compute. reflexivity.
    + vm_compute in Hc. injection Hc as <-. vm_compute. reflexivity.
Defined.

End Example.
