(* ===== verification/Bridge.v ===== *)
(** * Agents behind A2A (src/adapters/a2a/adapter.go and integration.go)

    The conversion between A2A messages and the agents' own, the handler of message/send
    that forwards to a remote agent, the bridge from tasks to the methods of a local agent, the
    router over both, and the correspondence of task and thread states.  Registered methods
    and the agent that sends are values of the model; JSON and version-5 UUIDs are parameters. *)

From S2P Require Import Prelude Messaging Conversation Tasks.
#[local] Open Scope Z_scope.

(** What a sender is given as parameters: a body, or what the router builds for a task. *)
Record RouterParams := {
  rp_task_id : string; rp_session_id : string; rp_message : A2AMessage; rp_metadata : gmap string any; rp_content : option string;
}.
Inductive SendParams := PBody (body : gmap string any) | PTask (p : RouterParams).

(** [MessageSender]: what a send gives is a value or the text of its error. *)
Record MessageSender := { ms_DID : string; ms_Send : string → string → SendParams → result string Messaging.Message }.

(** The values a method returns that are told apart: messages, strings, maps, and others,
    known by their JSON. *)
Inductive Field := FMessage (m : option A2AMessage) | FArtifacts (l : list Artifact) | FAny (v : any).
Inductive HandlerValue := VMessage (m : option A2AMessage) | VString (s : string) | VMap (m : gmap string Field) | VOther (v : any).

(** [json.Marshal], with the text of its error; [json.Unmarshal] into a map, where null gives
    the nil map; the JSON text of a method's value; version-5 UUIDs of the OID name space. *)
Class BridgeLib := {
  Marshal : any → option string;
  marshal_error : any → string;
  Unmarshal_object : string → option (option (gmap string any));
  Marshal_value : HandlerValue → string;
  NewSHA1 : string → uuid;
  utf8_Valid : string → bool;
}.

(** An object of strings is read back as it was written. *)
Class BridgeLaws `{BridgeLib} : Prop := {
  strings_roundtrip (l : list (string * string)) s : NoDup l.*1 → Forall (λ v, utf8_Valid v = true) l.*2 →
    Marshal (JObject (prod_map id JString <$> l)) = Some s →
    Unmarshal_object s = Some (Some (JString <$> list_to_map l));
}.

Definition object_of (m : gmap string any) : any := JObject (map_to_list m).

Section bridge.
Context `{Runtime} `{BridgeLib}.

(** ** Messages *)

Definition text_part (s : string) : Part := {| pt_Type := "text"; pt_Text := s; pt_File := None; pt_Data := [] |}.

(** [v.(string)] on an entry of a map. *)
Definition string_of (v : option any) : option string := match v with Some (JString s) => Some s | _ => None end.

Definition isConversational (m : A2AMessage) (method : string) : bool :=
  bool_decide (string_of (am_Metadata m !! "type") = Some "chat") || HasPrefix method "chat." || bool_decide (am_Role m = "user").

Definition ExtractTextContent (m : A2AMessage) : string :=
  foldl (λ text part, if decide (pt_Type part = "text") then text +:+ pt_Text part else text) EmptyString (am_Parts m).

Definition ExtractFiles (m : A2AMessage) : list FileData :=
  omap (λ part, if decide (pt_Type part = "file") then pt_File part else None) (am_Parts m).

Definition sessionToThreadID (sessionID : string) : uuid :=
  match uuid_Parse sessionID with Some id => id | None => NewSHA1 sessionID end.

(** The metadata that [ToMessage] writes. *)
Definition message_metadata (msg : Messaging.Message) : gmap string any :=
  let md : gmap string any :=
    <["method" := JString (Method msg)]> (<["from" := JString (From msg)]> {["messageId" := JString (uuid_String (ID msg))]}) in
  let md := match ThreadID msg with Some t => <["thread_id" := JString (uuid_String t)]> md | None => md end in
  let md := match ParentID msg with Some t => <["parent_id" := JString (uuid_String t)]> md | None => md end in
  let md := if 0 <? ThreadSeqNo msg then <["thread_seq_no" := JNumber (ThreadSeqNo msg)]> md else md in
  <["type" := JString (Type_ msg)]> md.

(** The parsed body, or the raw one. *)
Definition parsed_body (msg : Messaging.Message) : option (gmap string any) :=
  let body := default EmptyString (Body msg) in
  match Unmarshal_object body with Some b => b | None => Some {["raw" := JString body]} end.

Definition body_text (msg : Messaging.Message) : string :=
  default EmptyString (Marshal (match parsed_body msg with Some b => object_of b | None => JNull end)).

Definition ToMessage (msg : Messaging.Message) : A2AMessage :=
  {| am_Role := "agent"; am_Parts := [text_part (body_text msg)]; am_Metadata := message_metadata msg |}.

(** [id] and [now] are the new message's; [None] when its body cannot be encoded. *)
Definition FromMessageWithOptions (id : uuid) (now : Z) (m : A2AMessage) (from to method sessionID : string)
  : option Messaging.Message :=
  let msg := NewMessage id now from to (if isConversational m method then TypeChat else TypeRequest) method in
  let msg := if decide (sessionID = EmptyString) then msg else set_links msg None (Some (sessionToThreadID sessionID)) None 0 in
  SetBody Marshal msg (JObject [("content", JString (ExtractTextContent m)); ("role", JString (am_Role m))]).

Definition FromMessage (id : uuid) (now : Z) (m : A2AMessage) (from to method : string) : option Messaging.Message :=
  FromMessageWithOptions id now m from to method EmptyString.

Definition ToTask (id state : string) (history : list TaskMessage) : Task :=
  {| tk_ID := id; tk_SessionID := EmptyString; tk_Status := {| ts_State := state; ts_Message := None; ts_Timestamp := None |};
     tk_History := history; tk_Artifacts := []; tk_Metadata := ∅ |}.

(** ** The handler of message/send *)

(** [resolveRecipient] of the handler and of the router, and [resolveMethod]: a string that is
    there and not empty. *)
Definition string_entry (md : gmap string any) (k : string) : option string :=
  match string_of (md !! k) with Some s => if decide (s = EmptyString) then None else Some s | None => None end.

Definition resolveRecipient (md : gmap string any) : string :=
  match string_entry md "recipient" with Some r => r | None => default EmptyString (string_entry md "to") end.

Definition resolveMethod (md : gmap string any) : string := default "a2a.message" (string_entry md "method").

Definition result_of (taskID sessionID state : string) (m : option A2AMessage) : SendMessageResult :=
  {| sr_ID := taskID; sr_SessionID := sessionID; sr_Status := {| ts_State := state; ts_Message := m; ts_Timestamp := None |};
     sr_Artifacts := []; sr_Metadata := ∅ |}.

Definition errorResult (taskID sessionID errMsg : string) : SendMessageResult :=
  result_of taskID sessionID TaskStateFailed (Some (agent_text errMsg)).

Definition buildSuccessResult (taskID sessionID : string) (response : Messaging.Message) : SendMessageResult :=
  result_of taskID sessionID TaskStateCompleted (Some (ToMessage response)).

(** No agent is an error of the call; writing to a nil map panics. *)
Inductive HandlerError := NoAgent | NilMapPanic.

(** The entries that are added to the body.  The metadata map is not nil here, since the
    recipient was found in it. *)
Definition add_a2a (taskID sessionID : string) (metadata body : gmap string any) : gmap string any :=
  <["a2a_metadata" := object_of metadata]> (<["a2a_session_id" := JString sessionID]> (<["a2a_task_id" := JString taskID]> body)).

Definition handleRemoteMessage (agent : MessageSender) (id : uuid) (now : Z) (taskID sessionID recipient : string)
    (params : Tasks.SendMessageParams) : result HandlerError SendMessageResult :=
  let method := resolveMethod (sp_Metadata params) in
  match FromMessageWithOptions id now (sp_Message params) (ms_DID agent) recipient method sessionID with
  | None => Ok (errorResult taskID sessionID ("failed to convert message: " +:+
      marshal_error (JObject [("content", JString (ExtractTextContent (sp_Message params))); ("role", JString (am_Role (sp_Message params)))])))
  | Some internalMsg =>
      match Unmarshal_object (default EmptyString (Body internalMsg)) with
      | Some None => Err NilMapPanic
      | parsed =>
          let body := add_a2a taskID sessionID (sp_Metadata params) (match parsed with Some (Some b) => b | _ => ∅ end) in
          match SetBody Marshal internalMsg (object_of body) with
          | None => Ok (errorResult taskID sessionID ("failed to set message body: " +:+ marshal_error (object_of body)))
          | Some _ =>
              match ms_Send agent recipient method (PBody body) with
              | Err e => Ok (errorResult taskID sessionID ("failed to send message: " +:+ e))
              | Ok response => Ok (buildSuccessResult taskID sessionID response)
              end
          end
      end
  end.

(** [newTask] and [newSession] are fresh UUID texts. *)
Definition HandleSendMessage (agent : option MessageSender) (newTask newSession : string) (id : uuid) (now : Z)
    (params : Tasks.SendMessageParams) : result HandlerError SendMessageResult :=
  let taskID := if decide (sp_ID params = EmptyString) then newTask else sp_ID params in
  let sessionID := if decide (sp_SessionID params = EmptyString) then newSession else sp_SessionID params in
  match agent with
  | None => Err NoAgent
  | Some agent =>
      let recipient := resolveRecipient (sp_Metadata params) in
      if decide (recipient = EmptyString) then Ok (result_of taskID sessionID TaskStateCompleted None)
      else handleRemoteMessage agent id now taskID sessionID recipient params
  end.

(** ** The bridge to local methods *)

(** A method is given the message and the task. *)
Definition MethodHandler := A2AMessage → Task → result string HandlerValue.

Record AgentBridge := { br_methods : gmap string MethodHandler }.

Definition NewAgentBridge : AgentBridge := {| br_methods := ∅ |}.
Definition RegisterMethod (name : string) (handler : MethodHandler) (b : AgentBridge) : AgentBridge :=
  {| br_methods := <[name := handler]> (br_methods b) |}.

Definition resultToMessage (v : HandlerValue) : option A2AMessage * list Artifact :=
  match v with
  | VMessage m => (m, [])
  | VString s => (Some {| am_Role := "agent"; am_Parts := [text_part s]; am_Metadata := ∅ |}, [])
  | VMap fields =>
      match fields !! "message" with
      | Some (FMessage m) => (m, match fields !! "artifacts" with Some (FArtifacts l) => l | _ => [] end)
      | _ => (Some {| am_Role := "agent"; am_Parts := [text_part (Marshal_value v)]; am_Metadata := ∅ |}, [])
      end
  | VOther _ => (Some {| am_Role := "agent"; am_Parts := [text_part (Marshal_value v)]; am_Metadata := ∅ |}, [])
  end.

Definition bridge_method (task : Task) : string := default "default" (string_of (tk_Metadata task !! "method")).

Definition find_method (b : AgentBridge) (method : string) : option MethodHandler :=
  match br_methods b !! method with Some h => Some h | None => br_methods b !! "default" end.

(** [AgentBridge.TaskHandler]. *)
Definition bridge_TaskHandler (b : AgentBridge) (task : Task) (message : A2AMessage) : HandlerResult :=
  let method := bridge_method task in
  match find_method b method with
  | None => Err ("no handler for method: " +:+ method)
  | Some handler => match handler message task with Err e => Err e | Ok v => Ok (resultToMessage v) end
  end.

(** ** The router *)

Record AgentRouter := { rt_agent : MessageSender; rt_bridge : option AgentBridge }.

Definition router_params (task : Task) (message : A2AMessage) : RouterParams :=
  let text := ExtractTextContent message in
  {| rp_task_id := tk_ID task; rp_session_id := tk_SessionID task; rp_message := message; rp_metadata := tk_Metadata task;
     rp_content := if decide (text = EmptyString) then None else Some text |}.

Definition handleRemote (r : AgentRouter) (task : Task) (message : A2AMessage) (recipient : string) : HandlerResult :=
  match ms_Send (rt_agent r) recipient (resolveMethod (tk_Metadata task)) (PTask (router_params task message)) with
  | Err e => Err ("remote call failed: " +:+ e)
  | Ok response => Ok (Some (ToMessage response), [])
  end.

(** [AgentRouter.TaskHandler]. *)
Definition router_TaskHandler (r : AgentRouter) (task : Task) (message : A2AMessage) : HandlerResult :=
  let recipient := resolveRecipient (tk_Metadata task) in
  if decide (recipient = EmptyString) then
    match rt_bridge r with
    | Some b => bridge_TaskHandler b task message
    | None => Err "no recipient specified and no local handlers configured"
    end
  else handleRemote r task message recipient.

(** ** Task and thread states *)

Definition TaskStateToThreadState (taskState : string) : string :=
  if decide (taskState = TaskStateInputRequired) then ThreadStateAwaitingInput
  else if decide (taskState = TaskStateCompleted) then Conversation.ThreadStateCompleted
  else if decide (taskState = TaskStateFailed ∨ taskState = TaskStateCanceled) then Conversation.ThreadStateFailed
  else ThreadStateActive.

Definition ThreadStateToTaskState (threadState : string) : string :=
  if decide (threadState = ThreadStateAwaitingInput) then TaskStateInputRequired
  else if decide (threadState = Conversation.ThreadStateCompleted) then TaskStateCompleted
  else if decide (threadState = Conversation.ThreadStateFailed) then TaskStateFailed
  else TaskStateWorking.

Definition th_with_a2a (t : Thread) (state : string) (updated : Z) (tasks sessions : list string) : Thread :=
  {| th_ID := th_ID t; th_Title := th_Title t; th_Participants := th_Participants t; th_CreatedAt := th_CreatedAt t; th_UpdatedAt := updated;
     th_LastMessage := th_LastMessage t; th_MessageCount := th_MessageCount t; th_Metadata := th_Metadata t; th_State := state;
     th_TaskIDs := tasks; th_SessionIDs := sessions |}.

Definition append_new (x : string) (l : list string) : list string :=
  if decide (x ≠ EmptyString ∧ x ∉ l) then l ++ [x] else l.

(** The flag is the panic at a nil timestamp, when the state is already written. *)
Definition SyncThreadWithTask (thread : Thread) (task : Task) : Thread * bool :=
  let state := TaskStateToThreadState (ts_State (tk_Status task)) in
  match ts_Timestamp (tk_Status task) with
  | None => (th_with_a2a thread state (th_UpdatedAt thread) (th_TaskIDs thread) (th_SessionIDs thread), true)
  | Some ts => (th_with_a2a thread state ts (append_new (tk_ID task) (th_TaskIDs thread)) (append_new (tk_SessionID task) (th_SessionIDs thread)), false)
  end.

Definition SyncTaskWithThread (task : Task) (thread : Thread) : Task :=
  let newState := ThreadStateToTaskState (th_State thread) in
  let status := if decide (ts_State (tk_Status task) = newState) then tk_Status task
                else {| ts_State := newState; ts_Message := ts_Message (tk_Status task); ts_Timestamp := Some (th_UpdatedAt thread) |} in
  tk_with task status (tk_History task) (tk_Artifacts task) (<["thread_id" := JString (uuid_String (th_ID thread))]> (tk_Metadata task)).

(** ** States correspond *)

(** The task states that a thread keeps. *)
Definition kept_states : list string := [TaskStateWorking; TaskStateInputRequired; TaskStateCompleted; TaskStateFailed].
Definition thread_states : list string :=
  [ThreadStateActive; ThreadStateAwaitingInput; Conversation.ThreadStateCompleted; Conversation.ThreadStateFailed].

Lemma thread_state_kept st : st ∈ thread_states → TaskStateToThreadState (ThreadStateToTaskState st) = st.
Proof. unfold thread_states. rewrite !elem_of_cons, elem_of_nil. by intros [->|[->|[->|[->|[]]]]]. Qed.

Lemma task_state_kept s : ThreadStateToTaskState (TaskStateToThreadState s) = s ↔ s ∈ kept_states.
Proof.
  split.
  - intros <-. unfold ThreadStateToTaskState, kept_states. repeat case_decide; set_solver.
  - unfold kept_states. rewrite !elem_of_cons, elem_of_nil. by intros [->|[->|[->|[->|[]]]]].
Qed.

Lemma append_new_idemp x l : append_new x (append_new x l) = append_new x l.
Proof. unfold append_new. destruct (decide (x ≠ EmptyString ∧ x ∉ l)) as [Hd|Hd]; [|by rewrite decide_False]. rewrite decide_False; [done|]. intros [_ Hn]. apply Hn. set_solver. Qed.

Lemma append_new_NoDup x l : NoDup l → NoDup (append_new x l).
Proof. intros Hl. unfold append_new. case_decide as Hd; [|done]. apply NoDup_app. split_and!; [done | set_solver | apply NoDup_singleton]. Qed.

Lemma append_new_elem x y l : y ∈ append_new x l ↔ y ∈ l ∨ y = x ∧ x ≠ EmptyString.
Proof.
  unfold append_new. destruct (decide (x ≠ EmptyString ∧ x ∉ l)) as [[Hx Hn]|Hd].
  - rewrite elem_of_app, list_elem_of_singleton. naive_solver.
  - split; [by left|]. intros [?|[-> Hx]]; [done|]. destruct (decide (x ∈ l)); [done|]. by destruct Hd.
Qed.

(** Syncing a thread with a task and the task with the thread keeps the status of the
    tasks that work, wait for input, are complete or failed, and no other: a submitted task
    comes back working, a canceled one failed.  Every thread state survives the way over the
    task.  Syncing again changes nothing, the task and its session are listed once, and a
    task without a timestamp panics. *)
Theorem states_correspond thread task :
  (∀ st, st ∈ thread_states → TaskStateToThreadState (ThreadStateToTaskState st) = st) ∧
  let '(synced, panicked) := SyncThreadWithTask thread task in
  (panicked = true ↔ ts_Timestamp (tk_Status task) = None) ∧
  (tk_Status (SyncTaskWithThread task synced) = tk_Status task ↔ ts_State (tk_Status task) ∈ kept_states) ∧
  SyncThreadWithTask synced task = (synced, panicked) ∧
  (NoDup (th_TaskIDs thread) → NoDup (th_SessionIDs thread) → NoDup (th_TaskIDs synced) ∧ NoDup (th_SessionIDs synced)) ∧
  (panicked = false → tk_ID task ≠ EmptyString → tk_ID task ∈ th_TaskIDs synced).
Proof.
  split; [exact thread_state_kept|]. unfold SyncThreadWithTask.
  assert (Hback : ∀ th, th_State th = TaskStateToThreadState (ts_State (tk_Status task)) →
    (tk_Status (SyncTaskWithThread task th) = tk_Status task ↔ ts_State (tk_Status task) ∈ kept_states)).
  { intros th Hth. rewrite <- task_state_kept. unfold SyncTaskWithThread. rewrite Hth. cbn [tk_Status tk_with]. case_decide as Hd; [by split|].
    split; [|intros He; by rewrite He in Hd]. intros He. by apply (f_equal ts_State) in He. }
  destruct (ts_Timestamp (tk_Status task)) as [ts|] eqn:Hts; (split; [done|]); (split; [by apply Hback|]); (split; [|split]); cbn -[append_new]; try done.
  - by rewrite !append_new_idemp.
  - intros ??. split; by apply append_new_NoDup.
  - intros _ Hne. apply append_new_elem. by right.
Qed.

(** ** Messages keep their thread *)

Lemma FromMessage_fields id now m from to method sid msg : FromMessageWithOptions id now m from to method sid = Some msg →
  ID msg = id ∧ From msg = from ∧ To msg = to ∧ Method msg = method ∧
  Type_ msg = (if isConversational m method then TypeChat else TypeRequest) ∧
  ThreadID msg = (if decide (sid = EmptyString) then None else Some (sessionToThreadID sid)) ∧
  Body msg = Marshal (JObject [("content", JString (ExtractTextContent m)); ("role", JString (am_Role m))]).
Proof.
  unfold FromMessageWithOptions, SetBody. destruct (Marshal _) as [s|]; [|done]. intros [= <-]. by case_decide.
Qed.

Lemma ToMessage_text msg : ExtractTextContent (ToMessage msg) = body_text msg.
Proof. done. Qed.

Lemma ToMessage_thread msg t : ThreadID msg = Some t → am_Metadata (ToMessage msg) !! "thread_id" = Some (JString (uuid_String t)).
Proof.
  intros Ht. cbn [am_Metadata ToMessage]. unfold message_metadata. rewrite Ht. rewrite lookup_insert_ne by done.
  destruct (0 <? ThreadSeqNo msg); rewrite ?lookup_insert_ne by done; destruct (ParentID msg); rewrite ?lookup_insert_ne by done; apply lookup_insert_eq.
Qed.

Lemma content_body `{!BridgeLaws} m s :
  utf8_Valid (ExtractTextContent m) = true → utf8_Valid (am_Role m) = true →
  Marshal (JObject [("content", JString (ExtractTextContent m)); ("role", JString (am_Role m))]) = Some s →
  Unmarshal_object s = Some (Some (<["content" := JString (ExtractTextContent m)]> {["role" := JString (am_Role m)]})).
Proof.
  intros Hc Hr Hm. rewrite (strings_roundtrip [("content", ExtractTextContent m); ("role", am_Role m)] s).
  - done.
  - repeat constructor; set_solver.
  - by repeat constructor.
  - done.
Qed.

(** A message answered in the session that its A2A form names stays in its thread, and a
    message of any session carries the thread of that session, the same one each time: the
    session itself when it is a UUID.  The A2A form has the message's body as its text, and
    the message made of it has that text and the role in its body. *)
Theorem session_names_thread `{!UuidLaws} `{!BridgeLaws} id now id' now' msg t from to method reply :
  ThreadID msg = Some t →
  let m := ToMessage msg in
  FromMessageWithOptions id now m from to method (default EmptyString (string_of (am_Metadata m !! "thread_id"))) = Some reply →
  utf8_Valid (body_text msg) = true → utf8_Valid "agent" = true →
  ThreadID reply = Some t ∧ From reply = from ∧ To reply = to ∧
  ThreadID <$> FromMessageWithOptions id' now' m from to method (uuid_String t) = Some (Some t) ∧
  parsed_body reply = Some (<["content" := JString (body_text msg)]> {["role" := JString "agent"]}).
Proof.
  intros Ht. cbn zeta. rewrite (ToMessage_thread _ _ Ht). cbn [string_of from_option Datatypes.id]. intros Hr Hv Ha.
  assert (Hne : uuid_String t ≠ EmptyString) by (intros He; pose proof (uuid_String_length t) as Hl; by rewrite He in Hl).
  assert (Hses : sessionToThreadID (uuid_String t) = t) by (unfold sessionToThreadID; by rewrite uuid_Parse_String).
  destruct (FromMessage_fields _ _ _ _ _ _ _ _ Hr) as (_ & Hf & Hto & _ & _ & Hth & Hb).
  rewrite decide_False, Hses in Hth by done. split_and!; [done..| |].
  - unfold FromMessageWithOptions, SetBody in Hr |- *. destruct (Marshal _) as [s|]; [|done]. simpl. rewrite decide_False by done. simpl. by rewrite Hses.
  - unfold parsed_body. rewrite Hb. unfold FromMessageWithOptions, SetBody in Hr. destruct (Marshal _) as [s|] eqn:Hm; [|done].
    rewrite ToMessage_text in Hm. cbn [from_option Datatypes.id]. erewrite (content_body (ToMessage msg) s); rewrite ?ToMessage_text; eauto.
Qed.

(** ** Sending to a remote agent *)

Lemma resolveRecipient_spec md : resolveRecipient md ≠ EmptyString ↔ is_Some (string_entry md "recipient") ∨ is_Some (string_entry md "to").
Proof.
  assert (Hs : ∀ k s, string_entry md k = Some s → s ≠ EmptyString).
  { intros k s. unfold string_entry. destruct (string_of _); [|done]. case_decide; [done|]. by intros [= <-]. }
  unfold resolveRecipient. destruct (string_entry md "recipient") as [r|] eqn:Hr; [split; [by eauto|]; intros _; by eapply Hs|].
  destruct (string_entry md "to") as [r|] eqn:Ht; simpl; [split; [by eauto|]; intros _; by eapply Hs|].
  split; [done|]. by intros [[? [=]]|[? [=]]].
Qed.

(** The body that a remote agent is sent. *)
Definition remote_body (taskID sessionID : string) (p : Tasks.SendMessageParams) : gmap string any :=
  add_a2a taskID sessionID (sp_Metadata p)
    (<["content" := JString (ExtractTextContent (sp_Message p))]> {["role" := JString (am_Role (sp_Message p))]}).

(** message/send with a recipient: one request is sent to it, with the text, the role, the task
    and the session in its body, and the result is completed with the response, of whatever
    type it is, or failed with the error. *)
Lemma remote_send `{!BridgeLaws} agent nt ns id now p :
  let recipient := resolveRecipient (sp_Metadata p) in
  let taskID := if decide (sp_ID p = EmptyString) then nt else sp_ID p in
  let sessionID := if decide (sp_SessionID p = EmptyString) then ns else sp_SessionID p in
  recipient ≠ EmptyString →
  utf8_Valid (ExtractTextContent (sp_Message p)) = true → utf8_Valid (am_Role (sp_Message p)) = true →
  is_Some (Marshal (JObject [("content", JString (ExtractTextContent (sp_Message p))); ("role", JString (am_Role (sp_Message p)))])) →
  is_Some (Marshal (object_of (remote_body taskID sessionID p))) →
  HandleSendMessage (Some agent) nt ns id now p =
    Ok (match ms_Send agent recipient (resolveMethod (sp_Metadata p)) (PBody (remote_body taskID sessionID p)) with
        | Err e => errorResult taskID sessionID ("failed to send message: " +:+ e)
        | Ok response => buildSuccessResult taskID sessionID response
        end).
Proof.
  cbn zeta. intros Hr Hc Hro [s Hs] [s2 Hs2]. unfold HandleSendMessage. rewrite decide_False by done. unfold handleRemoteMessage.
  set (taskID := if decide (sp_ID p = _) then _ else _) in *. set (sessionID := if decide (sp_SessionID p = _) then _ else _) in *.
  unfold FromMessageWithOptions at 1. unfold SetBody at 1. rewrite Hs. cbn [mbind option_bind].
  cbn [Body with_body set_content from_option Datatypes.id]. rewrite (content_body _ _ Hc Hro Hs). unfold SetBody.
  change (add_a2a _ _ _ _) with (remote_body taskID sessionID p). rewrite Hs2. simpl. by destruct (ms_Send _ _ _ _).
Qed.

(** The handler of message/send reports a call that the remote agent refused as completed. *)
Lemma refused_call_completes taskID sessionID response : Type_ response = TypeError →
  ts_State (sr_Status (buildSuccessResult taskID sessionID response)) = TaskStateCompleted.
Proof. done. Qed.

(** ** The router behind the server *)

Lemma task_metadata_other p k : k ≠ "thread_id" → task_metadata p ∅ !! k = sp_Metadata p !! k.
Proof.
  intros Hk. unfold task_metadata. rewrite (right_id_L ∅ (∪)). destruct (am_Metadata (sp_Message p) !! "thread_id") as [[]|]; try done.
  by rewrite lookup_insert_ne.
Qed.

Lemma task_metadata_routing p : resolveRecipient (task_metadata p ∅) = resolveRecipient (sp_Metadata p) ∧
  resolveMethod (task_metadata p ∅) = resolveMethod (sp_Metadata p).
Proof. unfold resolveRecipient, resolveMethod, string_entry. by rewrite !task_metadata_other. Qed.

(** What a method of the bridge makes of a message, its name taken from the request. *)
Definition local_outcome (b : AgentBridge) (p : Tasks.SendMessageParams) (task : Task) : HandlerResult :=
  let method := default "default" (string_of (sp_Metadata p !! "method")) in
  match find_method b method with
  | None => Err ("no handler for method: " +:+ method)
  | Some h => match h (sp_Message p) task with Err e => Err e | Ok v => Ok (resultToMessage v) end
  end.

(** What the answer reports of an outcome. *)
Definition reported (now : Z) (o : HandlerResult) : TaskStatus * list Artifact :=
  match o with
  | Err text => ({| ts_State := TaskStateFailed; ts_Message := Some (agent_text text); ts_Timestamp := Some now |}, [])
  | Ok (m, l) => ({| ts_State := TaskStateCompleted; ts_Message := m; ts_Timestamp := Some now |}, l)
  end.


End bridge.

(** ** A router with a remote agent and a local method *)

Module Example.

#[local] Instance lib : BridgeLib := {
  Marshal v := match v with JObject [(_, JString a); (_, JString b)] => Some (a +:+ "|" +:+ b) | _ => Some "{}" end;
  marshal_error _ := "";
  Unmarshal_object s := None;
  Marshal_value _ := "";
  NewSHA1 _ := uuid_lit 5;
  utf8_Valid _ := true;
}.
#[local] Instance rt : Runtime := HexRuntime.runtime.

Definition result_value {E A} (r : result E A) : option A := match r with Ok a => Some a | Err _ => None end.

(** The remote agent answers requests for the method it knows. *)
Definition pong : Messaging.Message := with_body (NewMessage (uuid_lit 1) 0 "did:b" "did:a" TypeResponse "ping") (Some "pong").
Definition remote : MessageSender :=
  {| ms_DID := "did:a"; ms_Send to method _ := if decide (method = "ping") then Ok pong else Err "timeout" |}.
Definition local : AgentBridge := RegisterMethod "default" (λ m t, Ok (VString (ExtractTextContent m))) NewAgentBridge.
Definition router : AgentRouter := {| rt_agent := remote; rt_bridge := Some local |}.

Definition hello : A2AMessage := {| am_Role := "user"; am_Parts := [text_part "hel"; text_part "lo"]; am_Metadata := ∅ |}.
Definition params (md : gmap string any) : Tasks.SendMessageParams := {| sp_ID := ""; sp_SessionID := "s"; sp_Message := hello; sp_Metadata := md |}.
Definition send (md : gmap string any) := (handleMessageSend 5 "t" "new" (Some (router_TaskHandler router)) NewServer (Some (params md))).2.

Example sent_locally : (λ r, ts_Message (sr_Status r)) <$> result_value (send ∅) = Some (Some (agent_text "hello")).
Proof. reflexivity. Qed.
Example sent_remotely : (λ r, am_Metadata <$> ts_Message (sr_Status r)) <$> result_value (send {["to" := JString "did:b"; "method" := JString "ping"]})
  = Some (Some (message_metadata pong)).
Proof. reflexivity. Qed.


End Example.
