(* ===== verification/A2aHttp.v ===== *)
(** * A2A over HTTP (src/adapters/a2a/agent.go, and the agent cards of adapter.go)

    The handler in front of the task server: public documents, authentication by API key or
    by the tokens of another issuer, JSON-RPC over POST and over a WebSocket with its streams,
    and the metering of the requests; and the agent cards.  The tokens are those of [Jwt], the
    server is that of [Tasks], the stores are those of [Billing] and [Metering]. *)

From S2P Require Import Prelude Registry Reliability Billing Http BillingHttp Metering Tasks Jwt.
#[local] Open Scope Z_scope.

(** ** Agent cards *)

Record Provider := { pv_Organization : string; pv_URL : string }.
Record Capabilities := { cp_Streaming : bool; cp_PushNotifications : bool; cp_StateTransitionHistory : bool }.
Record OAuthFlow := { of_AuthorizationURL : string; of_TokenURL : string; of_RefreshURL : string; of_Scopes : option (gmap string string) }.
Record SecurityScheme := { ss_Type : string; ss_Description : string; ss_AuthorizationCode : option OAuthFlow }.
Record Skill := {
  sk_ID : string; sk_Name : string; sk_Description : string; sk_Tags : list string; sk_Examples : list string;
  sk_InputModes : list string; sk_OutputModes : list string;
}.

Record AgentCard := {
  ac_AgentID : string; ac_Name : string; ac_Description : string; ac_URL : string; ac_Provider : option Provider;
  ac_Version : string; ac_ProtocolVersions : list string; ac_DocumentationURL : string; ac_Capabilities : Capabilities;
  ac_SecuritySchemes : gmap string SecurityScheme; ac_Security : list (gmap string (list string));
  ac_DefaultInputModes : list string; ac_DefaultOutputModes : list string; ac_Skills : list Skill;
}.

Record AgentCardConfig := {
  BaseURL : string; OAuth2Enabled : bool; OAuth2AuthURL : string; OAuth2TokenURL : string; OAuth2Scopes : option (gmap string string);
  ProviderOrganization : string; ProviderURL : string; DocumentationURL : string;
}.

Definition DefaultAgentCardConfig : AgentCardConfig := {|
  BaseURL := ""; OAuth2Enabled := true; OAuth2AuthURL := "https://accounts.google.com/o/oauth2/auth";
  OAuth2TokenURL := "https://oauth2.googleapis.com/token";
  OAuth2Scopes := Some {["openid" := "OpenID Connect"; "email" := "Email address"; "profile" := "User profile"]};
  ProviderOrganization := ""; ProviderURL := ""; DocumentationURL := "" |}.

(** What the two ways to make a card share. *)
Definition card_of (id name description url schemeText authURL tokenURL : string) (scopes : option (gmap string string))
    (cfg : AgentCardConfig) (skills : list Skill) : AgentCard := {|
  ac_AgentID := id; ac_Name := name; ac_Description := description; ac_URL := url;
  ac_Provider := if decide (ProviderOrganization cfg = "") then None
                 else Some {| pv_Organization := ProviderOrganization cfg; pv_URL := ProviderURL cfg |};
  ac_Version := "1.0.0"; ac_ProtocolVersions := ["1.0"]; ac_DocumentationURL := DocumentationURL cfg;
  ac_Capabilities := {| cp_Streaming := true; cp_PushNotifications := false; cp_StateTransitionHistory := true |};
  ac_SecuritySchemes :=
    if OAuth2Enabled cfg then
      {["oauth2" := {| ss_Type := "oauth2"; ss_Description := schemeText;
                       ss_AuthorizationCode := Some {| of_AuthorizationURL := authURL; of_TokenURL := tokenURL; of_RefreshURL := ""; of_Scopes := scopes |} |}]}
    else ∅;
  ac_Security := if OAuth2Enabled cfg then [{["oauth2" := ["openid"]]}] else [];
  ac_DefaultInputModes := ["text"]; ac_DefaultOutputModes := ["text"]; ac_Skills := skills |}.

Definition ToA2AAgentCardWithConfig (agent : Registry.Agent) (cfg : AgentCardConfig) : AgentCard :=
  let url := if decide (BaseURL cfg = "") then match a_Endpoints agent with e :: _ => ep_URL e | [] => "" end else BaseURL cfg in
  card_of (a_DID agent) (a_DisplayName agent) "" url "OAuth 2.0 authorization code flow"
    (OAuth2AuthURL cfg) (OAuth2TokenURL cfg) (OAuth2Scopes cfg) cfg
    ((λ c, {| sk_ID := cap_Name c; sk_Name := cap_Name c; sk_Description := cap_Description c; sk_Tags := []; sk_Examples := [];
              sk_InputModes := ["text"]; sk_OutputModes := ["text"] |}) <$> a_Capabilities agent).

Definition ToA2AAgentCard (agent : Registry.Agent) : AgentCard :=
  ToA2AAgentCardWithConfig agent {| BaseURL := ""; OAuth2Enabled := false; OAuth2AuthURL := ""; OAuth2TokenURL := "";
    OAuth2Scopes := None; ProviderOrganization := ""; ProviderURL := ""; DocumentationURL := "" |}.

(** ** The handler *)

Record AgentInfo := { ai_DID : string; ai_Name : string; ai_Description : string; ai_Skills : list Skill }.

Record AgentHandler := {
  h_server : Server;
  h_cardConfig : AgentCardConfig;
  h_agentInfo : option AgentInfo;
  h_oauth2 : option OAuth2Validator;
  h_requireAuth : bool;
  h_billingStore : option BillingStore;
  h_billingMeter : option Meter;
  h_billingAllowAnon : bool;
}.

Definition no_card_config : AgentCardConfig :=
  {| BaseURL := ""; OAuth2Enabled := false; OAuth2AuthURL := ""; OAuth2TokenURL := ""; OAuth2Scopes := None;
     ProviderOrganization := ""; ProviderURL := ""; DocumentationURL := "" |}.

Inductive AgentHandlerOption :=
| WithAgentCardConfig (cfg : AgentCardConfig)
| WithAgentInfo (info : AgentInfo)
| WithOAuth2 (cfg : OAuth2Config)
| WithAPIKeyBilling (store : BillingStore) (meter : option Meter) (allowAnon : bool).

Definition apply_option (h : AgentHandler) (o : AgentHandlerOption) : AgentHandler :=
  match o with
  | WithAgentCardConfig cfg =>
      {| h_server := h_server h; h_cardConfig := cfg; h_agentInfo := h_agentInfo h; h_oauth2 := h_oauth2 h; h_requireAuth := h_requireAuth h;
         h_billingStore := h_billingStore h; h_billingMeter := h_billingMeter h; h_billingAllowAnon := h_billingAllowAnon h |}
  | WithAgentInfo info =>
      {| h_server := h_server h; h_cardConfig := h_cardConfig h; h_agentInfo := Some info; h_oauth2 := h_oauth2 h; h_requireAuth := h_requireAuth h;
         h_billingStore := h_billingStore h; h_billingMeter := h_billingMeter h; h_billingAllowAnon := h_billingAllowAnon h |}
  | WithOAuth2 cfg =>
      {| h_server := h_server h; h_cardConfig := h_cardConfig h; h_agentInfo := h_agentInfo h; h_oauth2 := Some (NewOAuth2Validator cfg);
         h_requireAuth := true; h_billingStore := h_billingStore h; h_billingMeter := h_billingMeter h; h_billingAllowAnon := h_billingAllowAnon h |}
  | WithAPIKeyBilling store meter allowAnon =>
      {| h_server := h_server h; h_cardConfig := h_cardConfig h; h_agentInfo := h_agentInfo h; h_oauth2 := h_oauth2 h; h_requireAuth := h_requireAuth h;
         h_billingStore := Some store; h_billingMeter := meter; h_billingAllowAnon := allowAnon |}
  end.

Definition NewAgentHandler (opts : list AgentHandlerOption) : AgentHandler :=
  foldl apply_option
    {| h_server := NewServer; h_cardConfig := no_card_config; h_agentInfo := None; h_oauth2 := None; h_requireAuth := false;
       h_billingStore := None; h_billingMeter := None; h_billingAllowAnon := false |} opts.

Definition h_with (h : AgentHandler) (v : Server) (o : option OAuth2Validator) (m : option Meter) : AgentHandler :=
  {| h_server := v; h_cardConfig := h_cardConfig h; h_agentInfo := h_agentInfo h; h_oauth2 := o; h_requireAuth := h_requireAuth h;
     h_billingStore := h_billingStore h; h_billingMeter := m; h_billingAllowAnon := h_billingAllowAnon h |}.

(** A request: [aq_Body] is the JSON value of the body, when it has one. *)
Record A2ARequest := {
  aq_http : Request; aq_Upgrade : string; aq_Host : string; aq_TLS : bool; aq_XForwardedProto : string; aq_Body : option string;
}.

(** The values that the context of a request carries. *)
Record RequestContext := { cx_tenant : option Tenant; cx_claims : option Claims }.

(** What a request takes from outside: the clock, fresh UUID texts, the order in which maps
    are walked, and what fetching the key set gives. *)
Record A2AEnv := { ae_now : Z; ae_taskID : string; ae_session : string; ae_order : list string; ae_fetch : option (list JWK) }.

Inductive A2AResponse :=
| NoContent | Health | Card (c : AgentCard) | Failed (e : HTTPError) | FailedToken (e : TokenError) | Reply (r : A2AReply)
| Upgraded (ctx : RequestContext).

Definition StatusNotFound : Z := 404.

(** What encoding/json makes of the method of a request and of the parameters of a stream. *)
Class A2APeek := { Peek_method : string → option string; Stream_params : string → option SendMessageParams }.

Section handler.
(** SHA-256 in hexadecimal, and the task handler. *)
Context `{JwtLib} `{A2ACodec} `{A2APeek} (hashKey : string → string) (handler : option (Task → A2AMessage → HandlerResult)).

Definition buildAgentCard (h : AgentHandler) (r : A2ARequest) : AgentCard :=
  let cfg := h_cardConfig h in
  let scheme := if decide (aq_XForwardedProto r = "") then (if aq_TLS r then "https" else "http") else aq_XForwardedProto r in
  let url := if decide (BaseURL cfg = "") then scheme +:+ "://" +:+ aq_Host r +:+ "/" else BaseURL cfg in
  let '(id, name, description, skills) :=
    match h_agentInfo h with Some i => (ai_DID i, ai_Name i, ai_Description i, ai_Skills i) | None => ("", "A2A Agent", "", []) end in
  card_of id name description url "OAuth 2.0 authorization code flow for Gemini Enterprise"
    (if decide (OAuth2AuthURL cfg = "") then "https://accounts.google.com/o/oauth2/auth" else OAuth2AuthURL cfg)
    (if decide (OAuth2TokenURL cfg = "") then "https://oauth2.googleapis.com/token" else OAuth2TokenURL cfg)
    (Some (default {["openid" := "OpenID Connect"]} (OAuth2Scopes cfg))) cfg skills.

(** [validateAuth]. *)
Definition validateAuth (e : A2AEnv) (v : OAuth2Validator) (r : Request) : OAuth2Validator * result TokenError Claims :=
  if decide (rq_Authorization r = "") then (v, Err ErrMissingToken)
  else match bearer_token r with
       | None => (v, Err (ErrInvalidToken ""))
       | Some token => ValidateToken (ae_now e) (ae_fetch e) token v
       end.

(** The authentication by API key, up to the switch over the path.  A token that has not the
    form of an API key passes without a tenant. *)
Definition billing_auth (now : Z) (s : BillingStore) (allowAnon : bool) (r : Request) : result HTTPError (option Tenant) :=
  if decide (rq_Authorization r = "") then
    if allowAnon then Ok None else Err (fail StatusUnauthorized "missing Authorization header")
  else match bearer_token r with
       | None => Err (fail StatusUnauthorized "invalid Authorization format; expected: Bearer msg2a_...")
       | Some token =>
           match HashAPIKey hashKey token with
           | Err _ => Ok None
           | Ok hash =>
               match GetAPIKeyByHash s hash with
               | Err _ => Err (fail StatusUnauthorized "invalid or revoked API key")
               | Ok key =>
                   if negb (IsValid now key) then Err (fail StatusUnauthorized "invalid or revoked API key")
                   else match GetTenant s (k_TenantID key) with
                        | Err _ => Err (fail StatusForbidden "tenant not found or suspended")
                        | Ok t => if IsActive t then Ok (Some t) else Err (fail StatusForbidden "tenant not found or suspended")
                        end
               end
           end
       end.

Definition A2AMessageSend : string := "message/send".
Definition A2AMessageStream : string := "message/stream".

Definition a2aMethodEvent (method : string) : UsageEvent :=
  if decide (method = A2AMessageSend ∨ method = A2AMessageStream) then EventMessage else EventToolCall.

Definition meterA2ARequest (now : Z) (ctx : RequestContext) (data : string) (m : option Meter) : option Meter :=
  match m, cx_tenant ctx, Peek_method data with
  | Some m, Some tenant, Some method =>
      if decide (method = "") then Some m else Some (RecordAudit now m (t_ID tenant) (a2aMethodEvent method) method "" 1)
  | m, _, _ => m
  end.

(** The server's answer to a request, and the state it leaves. *)
Definition serve_data (e : A2AEnv) (ctx : RequestContext) (data : string) (h : AgentHandler) : AgentHandler * A2AReply :=
  let m := meterA2ARequest (ae_now e) ctx data (h_billingMeter h) in
  let '(v, reply) := HandleRequest (ae_now e) (ae_taskID e) (ae_session e) (ae_order e) handler (h_server h) data in
  (h_with h v (h_oauth2 h) m, reply).

Definition handleJSONRPC (e : A2AEnv) (ctx : RequestContext) (r : A2ARequest) (h : AgentHandler) : AgentHandler * A2AResponse :=
  if decide (rq_Method (aq_http r) ≠ "POST") then (h, Failed (fail StatusMethodNotAllowed "Method not allowed"))
  else match aq_Body r with
       | None => (h, Failed (fail StatusBadRequest "Invalid JSON"))
       | Some data => let '(h, reply) := serve_data e ctx data h in (h, Reply reply)
       end.

(** The authentication that is configured, API keys first. *)
Definition authenticate_request (e : A2AEnv) (r : Request) (h : AgentHandler) : AgentHandler * (RequestContext + A2AResponse) :=
  match h_billingStore h with
  | Some s =>
      (h, match billing_auth (ae_now e) s (h_billingAllowAnon h) r with
          | Err err => inr (Failed err)
          | Ok t => inl {| cx_tenant := t; cx_claims := None |}
          end)
  | None =>
      match h_requireAuth h, h_oauth2 h with
      | true, Some v =>
          let '(v, res) := validateAuth e v r in
          (h_with h (h_server h) (Some v) (h_billingMeter h),
           match res with Err err => inr (FailedToken err) | Ok c => inl {| cx_tenant := None; cx_claims := Some c |} end)
      | _, _ => (h, inl {| cx_tenant := None; cx_claims := None |})
      end
  end.

Definition ServeHTTP (e : A2AEnv) (r : A2ARequest) (h : AgentHandler) : AgentHandler * A2AResponse :=
  let path := rq_Path (aq_http r) in
  if decide (rq_Method (aq_http r) = "OPTIONS") then (h, NoContent)
  else if decide (path = "/.well-known/agent.json") then (h, Card (buildAgentCard h r))
  else if decide (path = "/health") then (h, Health)
  else match authenticate_request e (aq_http r) h with
       | (h, inr refused) => (h, refused)
       | (h, inl ctx) =>
           if decide (path = "/") then
             if decide (aq_Upgrade r = "websocket") then (h, Upgraded ctx) else handleJSONRPC e ctx r h
           else (h, Failed (fail StatusNotFound "404 page not found"))
       end.

(** ** A WebSocket *)

Inductive Frame := FrameReply (r : A2AReply) | FrameEvent (ev : StreamEvent) | FrameStreamError (id : any) (e : StreamError).

(** What is sent for a message that was read; [send k] tells whether the [k]-th frame of a
    stream is written, [written] whether the answer of another request is.  The flag tells
    whether the loop goes on: it ends when an answer cannot be written, and with a panic when
    a stream's task has left the store. *)
Definition handleStreamingRequest (e : A2AEnv) (id : any) (send : nat → bool) (params : option SendMessageParams) (h : AgentHandler)
  : AgentHandler * list Frame * bool :=
  match HandleStreamRequest (ae_now e) (ae_taskID e) (ae_session e) handler send (h_server h) params with
  | (v, evs, err) =>
      (h_with h v (h_oauth2 h) (h_billingMeter h),
       (FrameEvent <$> evs) ++ match err with Some SErrNil | None => [] | Some e => [FrameStreamError id e] end,
       match err with Some SErrNil => false | _ => true end)
  end.

Definition ws_message (e : A2AEnv) (ctx : RequestContext) (data : string) (send : nat → bool) (written : bool) (h : AgentHandler)
  : AgentHandler * list Frame * bool :=
  match Decode_a2a data with
  | None => (h, [FrameReply (ReplyError JNull ErrCodeInvalidRequest TextInvalidRequest)], true)
  | Some (id, PUnknown method) =>
      if decide (method = A2AMessageStream) then
        handleStreamingRequest e id send (Stream_params data)
          (h_with h (h_server h) (h_oauth2 h) (meterA2ARequest (ae_now e) ctx data (h_billingMeter h)))
      else let '(h, reply) := serve_data e ctx data h in (h, [FrameReply reply], written)
  | Some _ => let '(h, reply) := serve_data e ctx data h in (h, [FrameReply reply], written)
  end.

(** ** Who is served *)

(** An API key admits the active tenant it belongs to; without a tenant come the requests
    without credentials, where that is allowed, and those whose token is no API key. *)
Definition api_key_gate (now : Z) (s : BillingStore) (allowAnon : bool) (r : Request) (t : option Tenant) : Prop :=
  match t with
  | Some t => ∃ token hash key, bearer_token r = Some token ∧ HashAPIKey hashKey token = Ok hash ∧ GetAPIKeyByHash s hash = Ok key ∧
      IsValid now key = true ∧ GetTenant s (k_TenantID key) = Ok t ∧ IsActive t = true
  | None => rq_Authorization r = "" ∧ allowAnon = true ∨ ∃ token, bearer_token r = Some token ∧ IsAPIKeyToken token = false
  end.

Lemma bearer_token_nonempty r token : bearer_token r = Some token → rq_Authorization r ≠ "".
Proof. unfold bearer_token. intros Hb He. by rewrite He in Hb. Qed.

Lemma HashAPIKey_error token : is_Some (result_error (HashAPIKey hashKey token)) ↔ IsAPIKeyToken token = false.
Proof. unfold HashAPIKey, IsAPIKeyToken. destruct (_ || _); simpl; split; try done; by eauto. Qed.

Lemma billing_auth_sound now s allowAnon r t : billing_auth now s allowAnon r = Ok t → api_key_gate now s allowAnon r t.
Proof.
  unfold billing_auth. case_decide as He; [destruct allowAnon; intros [= <-]; by left|].
  destruct (bearer_token r) as [token|] eqn:Hb; [|done]. pose proof (HashAPIKey_error token) as Hh.
  destruct (HashAPIKey hashKey token) as [hash|er] eqn:Ehash; simpl in Hh.
  - destruct (GetAPIKeyByHash s hash) as [key|] eqn:Hg; [|done]. destruct (IsValid now key) eqn:Hv; [|done].
    destruct (GetTenant s (k_TenantID key)) as [u|] eqn:Ht; [|done]. destruct (IsActive u) eqn:Ha; [|done].
    intros [= <-]. exists token, hash, key. by split_and!.
  - intros [= <-]. right. exists token. split; [done|]. by apply Hh.
Qed.

Lemma billing_auth_complete now s allowAnon r t : api_key_gate now s allowAnon r t → billing_auth now s allowAnon r = Ok t.
Proof.
  unfold billing_auth. destruct t as [t|].
  - intros (token & hash & key & Hb & Hh & Hg & Hv & Ht & Ha). rewrite decide_False by by eapply bearer_token_nonempty.
    by rewrite Hb, Hh, Hg, Hv, Ht, Ha.
  - intros [[He ->]|(token & Hb & Hk)]; [by rewrite decide_True|]. rewrite decide_False by by eapply bearer_token_nonempty.
    rewrite Hb. apply HashAPIKey_error in Hk. destruct (HashAPIKey hashKey token); [by destruct Hk | done].
Qed.

Lemma billing_auth_spec now s allowAnon r t : billing_auth now s allowAnon r = Ok t ↔ api_key_gate now s allowAnon r t.
Proof. split; [apply billing_auth_sound | apply billing_auth_complete]. Qed.

(** The requests that pass, with the context they carry on. *)
Definition admitted (e : A2AEnv) (h : AgentHandler) (r : Request) (ctx : RequestContext) : Prop :=
  match h_billingStore h, h_requireAuth h, h_oauth2 h with
  | Some s, _, _ => api_key_gate (ae_now e) s (h_billingAllowAnon h) r (cx_tenant ctx) ∧ cx_claims ctx = None
  | None, true, Some v => cx_tenant ctx = None ∧
      ∃ token c, bearer_token r = Some token ∧ (ValidateToken (ae_now e) (ae_fetch e) token v).2 = Ok c ∧ cx_claims ctx = Some c
  | None, _, _ => cx_tenant ctx = None ∧ cx_claims ctx = None
  end.

Lemma authenticate_spec e r h : let '(h', res) := authenticate_request e r h in
  (∀ ctx, res = inl ctx ↔ admitted e h r ctx) ∧
  h_server h' = h_server h ∧ h_billingMeter h' = h_billingMeter h ∧ h_billingStore h' = h_billingStore h.
Proof.
  unfold authenticate_request, admitted. destruct (h_billingStore h) as [s|] eqn:Hs.
  - split; [|done]. intros [t cl]. simpl. rewrite <- billing_auth_spec. destruct (billing_auth _ _ _ _); naive_solver.
  - destruct (h_requireAuth h); [destruct (h_oauth2 h) as [v|]|]; try (split; [|done]; intros [t cl]; naive_solver).
    unfold validateAuth. case_decide as He.
    + split; [|done]. intros ctx. split; [done|]. intros (_ & token & c & Hb & _). by apply bearer_token_nonempty in Hb.
    + destruct (bearer_token r) as [token|]; [|split; [|done]; intros ctx; naive_solver].
      destruct (ValidateToken (ae_now e) (ae_fetch e) token v) as [v' res] eqn:Hv. split; [|done]. intros [t cl]. cbn [cx_tenant cx_claims]. split.
      * destruct res as [c|]; [|done]. intros [= <- <-]. split; [done|]. exists token, c. by rewrite Hv.
      * intros (-> & tk & c & [= <-] & Hc & ->). rewrite Hv in Hc. cbn [snd] in Hc. by rewrite Hc.
Qed.


(** A made-up token is as good as none is where anonymous requests are refused. *)
Lemma unshaped_token_admitted now s r token : bearer_token r = Some token → IsAPIKeyToken token = false →
  billing_auth now s false r = Ok None.
Proof. intros Hb Hk. apply billing_auth_spec. right. eauto. Qed.

End handler.

(** ** A handler with billing *)

Module Example.

#[local] Instance jwt : JwtLib := Jwt.Example.lib.
#[local] Instance codec : A2ACodec := {| Decode_a2a d := if decide (d = "get") then Some (JNumber 1, PGet (Some "t1")) else None |}.
#[local] Instance peek : A2APeek := {| Peek_method d := if decide (d = "get") then Some "tasks/get" else None; Stream_params _ := None |}.

Definition handler : AgentHandler := NewAgentHandler [WithAPIKeyBilling NewBillingStore (Some NewMeter) false].
Definition request (auth : string) : A2ARequest := {|
  aq_http := {| rq_Method := "POST"; rq_Path := "/"; rq_Authorization := auth; rq_XRealIP := ""; rq_XForwardedFor := ""; rq_RemoteAddr := "10.0.0.1:9" |};
  aq_Upgrade := ""; aq_Host := "agent.example"; aq_TLS := true; aq_XForwardedProto := ""; aq_Body := Some "get" |}.
Definition env : A2AEnv := {| ae_now := 7; ae_taskID := "t"; ae_session := "s"; ae_order := []; ae_fetch := None |}.
Definition answer (auth : string) : A2AResponse := (ServeHTTP (λ s, s) None env (request auth) handler).2.

Example no_credentials : answer "" = Failed (fail StatusUnauthorized "missing Authorization header").
Proof. reflexivity. Qed.
Example unknown_key : answer "Bearer sk_live_x" = Failed (fail StatusUnauthorized "invalid or revoked API key").
Proof. reflexivity. Qed.
(** The request of a client that made up its token is carried out. *)
Example made_up_token : answer "Bearer x" = Reply (ReplyError (JNumber 1) ErrCodeInternalError (TextTask ErrTaskNotFound)).
Proof. reflexivity. Qed.
Example card_url : ac_URL (buildAgentCard handler (request "")) = "https://agent.example/".
Proof. reflexivity. Qed.
Example default_card : ac_Name (buildAgentCard handler (request "")) = "A2A Agent".
Proof. reflexivity. Qed.

End Example.
