(* ===== verification/Mcp.v ===== *)
(** * The MCP server (src/pkg/mcp)

    The validation of tool arguments, the inbox, the tracked tasks, the notifications, and the
    tools and resources over them.  What a tool asks of other agents is recorded with its
    result; how they answer is given by the caller it is run with. *)

From S2P Require Import Prelude Registry Http A2aHttp.
#[local] Open Scope Z_scope.

(** ** Validation *)

Definition MaxDIDLength : nat := 2048.
Definition MaxParamsLength : N := 1048576.
Definition MaxCapabilityLength : nat := 256.
Definition MaxMethodLength : nat := 128.
Definition MaxTaskIDLength : nat := 128.
Definition MaxCapabilities : nat := 100.

Inductive ValidationError :=
| ErrDIDEmpty | ErrDIDTooLong | ErrDIDInvalidFormat
| ErrMethodEmpty | ErrMethodTooLong | ErrMethodInvalidFormat
| ErrParamsTooLarge
| ErrTaskIDEmpty | ErrTaskIDTooLong
| ErrCapabilityEmpty | ErrCapabilityTooLong | ErrCapabilitiesEmpty | ErrTooManyCapabilities.

Definition in_range (lo hi : nat) (a : Ascii.ascii) : bool := let n := Ascii.nat_of_ascii a in ((lo <=? n) && (n <=? hi))%nat.
Definition is_lower := in_range 97 122.
Definition is_upper := in_range 65 90.
Definition is_digit := in_range 48 57.
Fixpoint has_char (s : string) (a : Ascii.ascii) : bool :=
  match s with EmptyString => false | String b s => Ascii.eqb a b || has_char s a end.

Fixpoint all_of (p : Ascii.ascii → bool) (s : string) : bool :=
  match s with EmptyString => true | String a s => p a && all_of p s end.

Definition did_method_char (a : Ascii.ascii) : bool := is_lower a || is_digit a.
Definition did_id_char (a : Ascii.ascii) : bool := is_lower a || is_upper a || is_digit a || has_char "._:%-" a.

(** The longest prefix of characters, and the rest. *)
Fixpoint span_of (p : Ascii.ascii → bool) (s : string) : string * string :=
  match s with
  | EmptyString => (EmptyString, EmptyString)
  | String a s' => if p a then let '(x, y) := span_of p s' in (String a x, y) else (EmptyString, s)
  end.

(** ^did:[a-z0-9]+:[a-zA-Z0-9._:%-]+$ *)
Definition didRegex (s : string) : bool :=
  if HasPrefix s "did:" then
    match span_of did_method_char (from 4 s) with
    | (String _ _, String c rest) => Ascii.eqb c colon && negb (String.eqb rest "") && all_of did_id_char rest
    | _ => false
    end
  else false.

Definition ValidateDID (did : string) : option ValidationError :=
  if decide (did = "") then Some ErrDIDEmpty
  else if (MaxDIDLength <? String.length did)%nat then Some ErrDIDTooLong
  else if negb (didRegex did) then Some ErrDIDInvalidFormat else None.

Definition isMethodChar (c : Ascii.ascii) : bool := is_lower c || is_upper c || is_digit c || has_char "./_-" c.

Definition ValidateMethod (method : string) : option ValidationError :=
  if decide (method = "") then Some ErrMethodEmpty
  else if (MaxMethodLength <? String.length method)%nat then Some ErrMethodTooLong
  else if negb (all_of isMethodChar method) then Some ErrMethodInvalidFormat else None.

Definition ValidateParams (params : string) : option ValidationError :=
  if (MaxParamsLength <? N.of_nat (String.length params))%N then Some ErrParamsTooLarge else None.

Definition ValidateTaskID (taskID : string) : option ValidationError :=
  if decide (taskID = "") then Some ErrTaskIDEmpty
  else if (MaxTaskIDLength <? String.length taskID)%nat then Some ErrTaskIDTooLong else None.

Definition ValidateCapability (cap : string) : option ValidationError :=
  if decide (cap = "") then Some ErrCapabilityEmpty
  else if (MaxCapabilityLength <? String.length cap)%nat then Some ErrCapabilityTooLong else None.

(** [strings.Split] at commas. *)
Fixpoint split_at_comma (v acc : string) : list string :=
  match v with
  | EmptyString => [string_rev acc]
  | String a v => if decide (a = comma) then string_rev acc :: split_at_comma v "" else split_at_comma v (String a acc)
  end.

Fixpoint check_capabilities (caps : list string) : result ValidationError (list string) :=
  match caps with
  | [] => Ok []
  | cap :: caps =>
      let cap := TrimSpace cap in
      if decide (cap = "") then check_capabilities caps
      else match ValidateCapability cap with
           | Some e => Err e
           | None => match check_capabilities caps with Ok l => Ok (cap :: l) | Err e => Err e end
           end
  end.

Definition ValidateCapabilities (capsStr : string) : result ValidationError (list string) :=
  if decide (capsStr = "") then Err ErrCapabilitiesEmpty
  else let caps := split_at_comma capsStr "" in
       if (MaxCapabilities <? length caps)%nat then Err ErrTooManyCapabilities
       else match check_capabilities caps with
            | Err e => Err e
            | Ok [] => Err ErrCapabilitiesEmpty
            | Ok l => Ok l
            end.

(** ** The inbox *)

Record InboxMessage := {
  im_ID : string; im_From : string; im_Method : string; im_Body : option string; im_Timestamp : Z; im_Read : bool;
}.

Record Inbox := { ib_messages : list InboxMessage; ib_maxSize : nat }.

Definition NewInbox (maxSize : nat) : Inbox := {| ib_messages := []; ib_maxSize := maxSize |}.
Definition ib_with (i : Inbox) (l : list InboxMessage) : Inbox := {| ib_messages := l; ib_maxSize := ib_maxSize i |}.

(** [id] is the fresh UUID text.  The newest comes first. *)
Definition Add (id : string) (now : Z) (from_ method : string) (body : option string) (i : Inbox) : Inbox :=
  let msg := {| im_ID := id; im_From := from_; im_Method := method; im_Body := body; im_Timestamp := now; im_Read := false |} in
  let l := msg :: ib_messages i in
  ib_with i (if (ib_maxSize i <? length l)%nat then take (ib_maxSize i) l else l).

Definition Get (id : string) (i : Inbox) : option InboxMessage := List.find (λ m, String.eqb (im_ID m) id) (ib_messages i).

Definition set_read (m : InboxMessage) : InboxMessage :=
  {| im_ID := im_ID m; im_From := im_From m; im_Method := im_Method m; im_Body := im_Body m; im_Timestamp := im_Timestamp m; im_Read := true |}.

Fixpoint mark_first (id : string) (l : list InboxMessage) : list InboxMessage * bool :=
  match l with
  | [] => ([], false)
  | m :: l => if decide (im_ID m = id) then (set_read m :: l, true) else let '(l, ok) := mark_first id l in (m :: l, ok)
  end.
Definition MarkRead (id : string) (i : Inbox) : Inbox * bool := let '(l, ok) := mark_first id (ib_messages i) in (ib_with i l, ok).

Definition List_ (unreadOnly : bool) (i : Inbox) : list InboxMessage :=
  if unreadOnly then filter (λ m, im_Read m = false) (ib_messages i) else ib_messages i.

Fixpoint delete_first (id : string) (l : list InboxMessage) : list InboxMessage * bool :=
  match l with
  | [] => ([], false)
  | m :: l => if decide (im_ID m = id) then (l, true) else let '(l, ok) := delete_first id l in (m :: l, ok)
  end.
Definition Delete (id : string) (i : Inbox) : Inbox * bool := let '(l, ok) := delete_first id (ib_messages i) in (ib_with i l, ok).

Definition Count (unreadOnly : bool) (i : Inbox) : nat :=
  if unreadOnly then length (filter (λ m, im_Read m = false) (ib_messages i)) else length (ib_messages i).

(** ** The server *)

Record TrackedTask := { tt_ID : string; tt_AgentDID : string; tt_Status : string }.

Inductive Notification :=
| NotificationMessage (id from_ method : string) (body : option string) (now : Z)
| NotificationTaskUpdate (taskID agentDID status message : string)
| NotificationResourceUpdated (uri : string).

Record Server := { sv_tasks : gmap string TrackedTask; sv_inbox : Inbox; sv_notified : list Notification }.

Definition NewServer : Server := {| sv_tasks := ∅; sv_inbox := NewInbox 1000; sv_notified := [] |}.

Definition sv_with (s : Server) (t : gmap string TrackedTask) (i : Inbox) (n : list Notification) : Server :=
  {| sv_tasks := t; sv_inbox := i; sv_notified := n |}.

Definition trackTask (taskID agentDID : string) (s : Server) : Server :=
  sv_with s (<[taskID := {| tt_ID := taskID; tt_AgentDID := agentDID; tt_Status := "submitted" |}]> (sv_tasks s)) (sv_inbox s) (sv_notified s).
Definition untrackTask (taskID : string) (s : Server) : Server := sv_with s (delete taskID (sv_tasks s)) (sv_inbox s) (sv_notified s).
Definition updateTaskStatus (taskID status : string) (s : Server) : Server :=
  sv_with s (alter (λ t, {| tt_ID := tt_ID t; tt_AgentDID := tt_AgentDID t; tt_Status := status |}) taskID (sv_tasks s)) (sv_inbox s) (sv_notified s).

(** [ks]: the order of the range. *)
Definition getTrackedTasks (ks : list string) (s : Server) : list TrackedTask := omap (λ k, sv_tasks s !! k) ks.

Definition notify (n : Notification) (s : Server) : Server := sv_with s (sv_tasks s) (sv_inbox s) (sv_notified s ++ [n]).
Definition notifyResourceUpdated (uri : string) (s : Server) : Server := notify (NotificationResourceUpdated uri) s.

Definition NotifyMessageReceived (now : Z) (id from_ method : string) (body : option string) (s : Server) : Server :=
  notifyResourceUpdated "msg2agent://inbox" (notify (NotificationMessage id from_ method body now) s).

Definition NotifyTaskUpdate (taskID agentDID status message : string) (s : Server) : Server :=
  notifyResourceUpdated "msg2agent://tasks" (updateTaskStatus taskID status (notify (NotificationTaskUpdate taskID agentDID status message) s)).

Definition HandleIncomingMessage (id : string) (now : Z) (from_ method : string) (body : option string) (s : Server) : Server * string :=
  (NotifyMessageReceived now id from_ method body (sv_with s (sv_tasks s) (Add id now from_ method body (sv_inbox s)) (sv_notified s)), id).

Definition HandleTaskStatusUpdate (taskID status message : string) (s : Server) : Server :=
  match sv_tasks s !! taskID with None => s | Some task => NotifyTaskUpdate taskID (tt_AgentDID task) status message s end.

(** ** Tools *)

Record AgentMessage := { rs_IsError : bool; rs_RawBody : option string }.

(** [AgentCaller]: the agent the server runs for, and how its calls are answered. *)
Record AgentCaller := {
  ca_DID : string;
  ca_Record : Registry.Agent;
  ca_Send : string → string → any → result string AgentMessage;
  ca_SendAsync : string → string → any → result string string;
  ca_CallRelay : string → any → result string (option string);
}.

Inductive Outgoing := OSend (to method : string) (params : any) | OSendAsync (to method : string) (params : any) | OCallRelay (method : string) (params : any).

(** encoding/json: values, lists of agents (whose entries may be null), an agent or null, the
    identifier in a task's JSON, and which raw texts can be encoded again. *)
Class McpCodec := {
  Unmarshal_any : string → option any;
  Unmarshal_agents : string → option (list (option Registry.Agent));
  Unmarshal_agent : string → option (option Registry.Agent);
  Unmarshal_task_id : string → option string;
  Valid_json : string → bool;
}.

Inductive ArgError := InvalidArguments | MissingArg (name : string) | InvalidArg (name : string) (e : ValidationError) | InvalidJSON (name : string).

Inductive ToolValue :=
| VAgents (l : list (option Registry.Agent)) | VCard (c : AgentCard) | VSent (message_id : string) | VRaw (body : option string)
| VSelf (did : string) (a : Registry.Agent) | VTasks (l : list TrackedTask) | VMessages (l : list InboxMessage) | VMessage (m : InboxMessage)
| VDeleted | VCounts (total unread : nat) | VCount (unread : nat).

(** A text, an error of one kind or another, or a panic. *)
Inductive ToolResult :=
| ToolText (v : ToolValue) | ToolArg (e : ArgError) | ToolFailed (text : string) | ToolAgentError (body : option string) | ToolParse
| ToolEncoding | ToolNotFound (id : string) | ToolPanic.

Definition arg_string (args : gmap string any) (k : string) : option string := match args !! k with Some (JString s) => Some s | _ => None end.
Definition arg_bool (args : gmap string any) (k : string) : bool := match args !! k with Some (JBool b) => b | _ => false end.

Definition checked_arg (validate : string → option ValidationError) (args : gmap string any) (name : string) : result ArgError string :=
  match arg_string args name with
  | None => Err (MissingArg name)
  | Some s => match validate s with Some e => Err (InvalidArg name e) | None => Ok s end
  end.

Section tools.
Context `{McpCodec}.

Definition json_arg (args : gmap string any) (name : string) : result ArgError any :=
  (s <-? checked_arg ValidateParams args name;
   match Unmarshal_any s with None => Err (InvalidJSON name) | Some v => Ok v end)%go.

Definition as_map (args : option (gmap string any)) : result ArgError (gmap string any) :=
  match args with None => Err InvalidArguments | Some m => Ok m end.

(** The answer of an agent, raw. *)
Definition encode_raw (body : option string) : ToolResult :=
  match body with
  | None => ToolText (VRaw None)
  | Some b => if Valid_json b then ToolText (VRaw (Some b)) else ToolEncoding
  end.

(** A tool: the new state, what it asked of others, and its result. *)
Abbreviation ToolRun := (Server * list Outgoing * ToolResult)%type.

Definition refused (s : Server) (e : ArgError) : ToolRun := (s, [], ToolArg e).

Definition listAgentsHandler (ca : AgentCaller) (args : option (gmap string any)) (s : Server) : ToolRun :=
  let args := default ∅ args in
  let capability := default "" (arg_string args "capability") in
  match (if decide (capability = "") then None else ValidateCapability capability) with
  | Some e => refused s (InvalidArg "capability" e)
  | None =>
      let params := JObject (if decide (capability = "") then [] else [("capability", JString capability)]) in
      (s, [OCallRelay "relay.discover" params],
       match ca_CallRelay ca "relay.discover" params with
       | Err text => ToolFailed text
       | Ok r => match Unmarshal_agents (default "" r) with None => ToolParse | Some agents => ToolText (VAgents agents) end
       end)
  end.

Definition send_message_args (args : option (gmap string any)) : result ArgError (string * string * any) :=
  (args <-? as_map args; to <-? checked_arg ValidateDID args "to"; method <-? checked_arg ValidateMethod args "method";
   params <-? json_arg args "params"; Ok (to, method, params))%go.

Definition sendMessageHandler (ca : AgentCaller) (args : option (gmap string any)) (s : Server) : ToolRun :=
  match send_message_args args with
  | Err e => refused s e
  | Ok (to, method, params) =>
      (s, [OSendAsync to method params],
       match ca_SendAsync ca to method params with Err text => ToolFailed text | Ok msgID => ToolText (VSent msgID) end)
  end.

Definition getAgentInfoHandler (ca : AgentCaller) (args : option (gmap string any)) (s : Server) : ToolRun :=
  match (args <-? as_map args; checked_arg ValidateDID args "did")%go with
  | Err e => refused s e
  | Ok did =>
      let params := JObject [("did", JString did)] in
      (s, [OCallRelay "relay.lookup" params],
       match ca_CallRelay ca "relay.lookup" params with
       | Err text => ToolFailed text
       | Ok r => match Unmarshal_agent (default "" r) with
                 | None => ToolParse
                 | Some None => ToolNotFound did
                 | Some (Some agent) => ToolText (VCard (ToA2AAgentCard agent))
                 end
       end)
  end.

Definition task_args (args : option (gmap string any)) : result ArgError (gmap string any * string * string) :=
  (args <-? as_map args; taskID <-? checked_arg ValidateTaskID args "task_id"; agentDID <-? checked_arg ValidateDID args "agent_did";
   Ok (args, taskID, agentDID))%go.

(** A call of an agent's method; [after] is what an answer that is no error does. *)
Definition ask_agent (ca : AgentCaller) (agentDID method : string) (params : any) (after : option string → Server → Server) (s : Server) : ToolRun :=
  let calls := [OSend agentDID method params] in
  match ca_Send ca agentDID method params with
  | Err text => (s, calls, ToolFailed text)
  | Ok resp =>
      if rs_IsError resp then (s, calls, ToolAgentError (rs_RawBody resp))
      else (after (rs_RawBody resp) s, calls, encode_raw (rs_RawBody resp))
  end.

Definition getTaskStatusHandler (ca : AgentCaller) (args : option (gmap string any)) (s : Server) : ToolRun :=
  match task_args args with
  | Err e => refused s e
  | Ok (_, taskID, agentDID) => ask_agent ca agentDID "tasks/get" (JObject [("id", JString taskID)]) (λ _ s, s) s
  end.

Definition hasAllCapabilities (agent : Registry.Agent) (required : list string) : bool :=
  forallb (λ req, bool_decide (req ∈ cap_Name <$> a_Capabilities agent)) required.

(** The filter over the agents; a null agent panics. *)
Fixpoint matching_agents (required : list string) (agents : list (option Registry.Agent)) : option (list (option Registry.Agent)) :=
  match agents with
  | [] => Some []
  | None :: _ => None
  | Some a :: agents =>
      match matching_agents required agents with
      | None => None
      | Some l => Some (if hasAllCapabilities a required then Some a :: l else l)
      end
  end.

Definition capabilities_arg (args : option (gmap string any)) : result ArgError (list string) :=
  (args <-? as_map args;
   match arg_string args "capabilities" with
   | None => Err (MissingArg "capabilities")
   | Some capsStr => match ValidateCapabilities capsStr with Err e => Err (InvalidArg "capabilities" e) | Ok l => Ok l end
   end)%go.

Definition queryCapabilitiesHandler (ca : AgentCaller) (args : option (gmap string any)) (s : Server) : ToolRun :=
  match capabilities_arg args with
  | Err e => refused s e
  | Ok capabilities =>
      (s, [OCallRelay "relay.discover" (JObject [])],
       match ca_CallRelay ca "relay.discover" (JObject []) with
       | Err text => ToolFailed text
       | Ok r => match Unmarshal_agents (default "" r) with
                 | None => ToolParse
                 | Some agents => match matching_agents capabilities agents with None => ToolPanic | Some l => ToolText (VAgents l) end
                 end
       end)
  end.

Definition getSelfInfoHandler (ca : AgentCaller) (s : Server) : ToolRun := (s, [], ToolText (VSelf (ca_DID ca) (ca_Record ca))).

(** The message of a task: one part, with the given value as its text and without a type. *)
Definition user_message (message : any) : any := JObject [("role", JString "user"); ("parts", JArray [JObject [("text", message)]])].

Definition submit_args (args : option (gmap string any)) : result ArgError (string * any * string) :=
  (args <-? as_map args; agentDID <-? checked_arg ValidateDID args "agent_did"; message <-? json_arg args "message";
   Ok (agentDID, message, default "" (arg_string args "session_id")))%go.

Definition submitTaskHandler (ca : AgentCaller) (args : option (gmap string any)) (s : Server) : ToolRun :=
  match submit_args args with
  | Err e => refused s e
  | Ok (agentDID, message, sessionID) =>
      let params := JObject (("message", user_message message) :: (if decide (sessionID = "") then [] else [("sessionId", JString sessionID)])) in
      ask_agent ca agentDID "message/send" params
        (λ body s, match Unmarshal_task_id (default "" body) with Some taskID => trackTask taskID agentDID s | None => s end) s
  end.

Definition cancelTaskHandler (ca : AgentCaller) (args : option (gmap string any)) (s : Server) : ToolRun :=
  match task_args args with
  | Err e => refused s e
  | Ok (_, taskID, agentDID) => ask_agent ca agentDID "tasks/cancel" (JObject [("id", JString taskID)]) (λ _ s, untrackTask taskID s) s
  end.

Definition input_args (args : option (gmap string any)) : result ArgError (string * string * any) :=
  (t <-? task_args args; message <-? json_arg t.1.1 "message"; Ok (t.1.2, t.2, message))%go.

Definition sendTaskInputHandler (ca : AgentCaller) (args : option (gmap string any)) (s : Server) : ToolRun :=
  match input_args args with
  | Err e => refused s e
  | Ok (taskID, agentDID, message) =>
      ask_agent ca agentDID "message/send" (JObject [("id", JString taskID); ("message", user_message message)]) (λ _ s, s) s
  end.

Definition listTasksHandler (ks : list string) (s : Server) : ToolRun := (s, [], ToolText (VTasks (getTrackedTasks ks s))).

Definition listMessagesHandler (args : option (gmap string any)) (s : Server) : ToolRun :=
  (s, [], ToolText (VMessages (List_ (arg_bool (default ∅ args) "unread_only") (sv_inbox s)))).

Definition id_arg (args : option (gmap string any)) : result ArgError string :=
  (args <-? as_map args;
   match arg_string args "id" with
   | Some id => if decide (id = "") then Err (MissingArg "id") else Ok id
   | None => Err (MissingArg "id")
   end)%go.

(** The message is the one in the inbox, which is marked before it is encoded. *)
Definition read_inbox (id : string) (s : Server) : Server * option InboxMessage :=
  match Get id (sv_inbox s) with
  | None => (s, None)
  | Some _ => let i := (MarkRead id (sv_inbox s)).1 in (sv_with s (sv_tasks s) i (sv_notified s), Get id i)
  end.

Definition readMessageHandler (args : option (gmap string any)) (s : Server) : ToolRun :=
  match id_arg args with
  | Err e => refused s e
  | Ok id => match read_inbox id s with
             | (s, None) => (s, [], ToolNotFound id)
             | (s, Some msg) => (s, [], ToolText (VMessage msg))
             end
  end.

Definition deleteMessageHandler (args : option (gmap string any)) (s : Server) : ToolRun :=
  match id_arg args with
  | Err e => refused s e
  | Ok id => match Delete id (sv_inbox s) with
             | (_, false) => (s, [], ToolNotFound id)
             | (i, true) => (sv_with s (sv_tasks s) i (sv_notified s), [], ToolText VDeleted)
             end
  end.

Definition messageCountHandler (args : option (gmap string any)) (s : Server) : ToolRun :=
  let total := Count false (sv_inbox s) in
  let unread := Count true (sv_inbox s) in
  (s, [], ToolText (if arg_bool (default ∅ args) "unread_only" then VCount unread else VCounts total unread)).

(** The tools as they are registered. *)
Definition tool_names : list string :=
  ["list_agents"; "send_message"; "get_agent_info"; "get_task_status"; "query_capabilities"; "get_self_info"; "submit_task"; "cancel_task";
   "send_task_input"; "list_tasks"; "list_messages"; "read_message"; "delete_message"; "message_count"].

Definition call_tool (ca : AgentCaller) (ks : list string) (name : string) (args : option (gmap string any)) (s : Server) : option ToolRun :=
  if decide (name = "list_agents") then Some (listAgentsHandler ca args s)
  else if decide (name = "send_message") then Some (sendMessageHandler ca args s)
  else if decide (name = "get_agent_info") then Some (getAgentInfoHandler ca args s)
  else if decide (name = "get_task_status") then Some (getTaskStatusHandler ca args s)
  else if decide (name = "query_capabilities") then Some (queryCapabilitiesHandler ca args s)
  else if decide (name = "get_self_info") then Some (getSelfInfoHandler ca s)
  else if decide (name = "submit_task") then Some (submitTaskHandler ca args s)
  else if decide (name = "cancel_task") then Some (cancelTaskHandler ca args s)
  else if decide (name = "send_task_input") then Some (sendTaskInputHandler ca args s)
  else if decide (name = "list_tasks") then Some (listTasksHandler ks s)
  else if decide (name = "list_messages") then Some (listMessagesHandler args s)
  else if decide (name = "read_message") then Some (readMessageHandler args s)
  else if decide (name = "delete_message") then Some (deleteMessageHandler args s)
  else if decide (name = "message_count") then Some (messageCountHandler args s)
  else None.

(** ** Resources *)

Inductive ResourceResult := ResourceMessages (l : list InboxMessage) | ResourceTasks (l : list TrackedTask) | ResourceMessage (m : InboxMessage)
| ResourceTask (t : TrackedTask) | ResourceInvalid | ResourceNotFound (id : string).

Definition extractIDFromURI (uri prefix : string) : string :=
  if (String.length uri <=? String.length prefix)%nat then "" else from (String.length prefix) uri.

Definition inboxResourceHandler (s : Server) : ResourceResult := ResourceMessages (List_ false (sv_inbox s)).
Definition tasksResourceHandler (ks : list string) (s : Server) : ResourceResult := ResourceTasks (getTrackedTasks ks s).

Definition inboxMessageResourceHandler (uri : string) (s : Server) : Server * ResourceResult :=
  let id := extractIDFromURI uri "msg2agent://inbox/" in
  if decide (id = "") then (s, ResourceInvalid)
  else match read_inbox id s with (s, None) => (s, ResourceNotFound id) | (s, Some m) => (s, ResourceMessage m) end.

Definition taskResourceHandler (uri : string) (s : Server) : ResourceResult :=
  let id := extractIDFromURI uri "msg2agent://tasks/" in
  if decide (id = "") then ResourceInvalid
  else match sv_tasks s !! id with None => ResourceNotFound id | Some t => ResourceTask t end.

End tools.
