(* ===== verification/McpFacts.v ===== *)
(** * What the MCP server keeps and whom it contacts (src/pkg/mcp)

    Facts about [Mcp]: the form of a valid DID, the inbox over any history, and what the
    tools may ask of other agents and change. *)

From S2P Require Import Prelude Http Mcp.
#[local] Open Scope Z_scope.

(** ** Valid DIDs *)

Lemma span_of_spec p s : let '(x, y) := span_of p s in s = x +:+ y ∧ all_of p x = true ∧ match y with String a _ => p a = false | _ => True end.
Proof.
  induction s as [|a s IH]; simpl; [done|]. destruct (p a) eqn:Hp; [|by split_and!]. destruct (span_of p s) as [x y]. destruct IH as (-> & Hx & Hy).
  simpl. by rewrite Hp.
Qed.

Lemma from_prefix p s : from (String.length p) (p +:+ s) = s.
Proof.
  unfold from. rewrite string_app_length, Nat.add_comm, Nat.add_sub. induction p as [|a p IH]; simpl; [|done].
  induction s as [|a s IH]; simpl; [done | by rewrite IH].
Qed.

Lemma span_of_app p x a s : all_of p x = true → p a = false → span_of p (x +:+ String a s) = (x, String a s).
Proof.
  induction x as [|b x IH]; simpl; [by intros _ ->|]. rewrite andb_true_iff. intros [-> Hx] Ha. by rewrite IH.
Qed.

(** The regular expression, as the texts it stands for. *)
Lemma didRegex_spec s : didRegex s = true ↔ ∃ method id, s = "did:" +:+ method +:+ ":" +:+ id ∧ method ≠ "" ∧ id ≠ "" ∧
  all_of did_method_char method = true ∧ all_of did_id_char id = true.
Proof.
  unfold didRegex. split.
  - destruct (HasPrefix s "did:") eqn:Hp; [|done]. apply HasPrefix_spec in Hp as [r ->]. change 4%nat with (String.length "did:"). rewrite from_prefix.
    pose proof (span_of_spec did_method_char r) as Hs. destruct (span_of did_method_char r) as [[|a x] [|c rest]]; try done.
    destruct Hs as (-> & Hx & _). rewrite !andb_true_iff, negb_true_iff, Ascii.eqb_eq. intros [[-> Hr] Hall]. exists (String a x), rest.
    split_and!; try done. by apply String.eqb_neq.
  - intros (m & i & -> & Hm & Hi & Hmc & Hic). change (HasPrefix ("did:" +:+ m +:+ ":" +:+ i) "did:") with (HasPrefix (m +:+ ":" +:+ i) "").
    assert (Hp : HasPrefix (m +:+ ":" +:+ i) "" = true) by by destruct (m +:+ ":" +:+ i). rewrite Hp.
    change 4%nat with (String.length "did:"). rewrite from_prefix. change (":" +:+ i) with (String colon i). rewrite span_of_app by done.
    destruct m as [|a m]; [done|]. rewrite Ascii.eqb_refl, Hic, andb_true_r. apply negb_true_iff. by apply String.eqb_neq.
Qed.

(** ** The inbox over time *)

Inductive InboxOp := OpAdd (id : string) (now : Z) (from_ method : string) (body : option string) | OpMark (id : string) | OpDelete (id : string).

Definition run_op (i : Inbox) (op : InboxOp) : Inbox :=
  match op with
  | OpAdd id now f m b => Add id now f m b i
  | OpMark id => (MarkRead id i).1
  | OpDelete id => (Delete id i).1
  end.
Definition run_ops (i : Inbox) (ops : list InboxOp) : Inbox := foldl run_op i ops.

Definition op_added (op : InboxOp) : option string := match op with OpAdd id _ _ _ _ => Some id | _ => None end.
Definition added (ops : list InboxOp) : list string := omap op_added ops.
Definition marks (id : string) (op : InboxOp) : bool := match op with OpMark i => String.eqb i id | _ => false end.
Definition deletes (id : string) (op : InboxOp) : bool := match op with OpDelete i => String.eqb i id | _ => false end.

Definition ids (i : Inbox) : list string := im_ID <$> ib_messages i.

Lemma added_cons op ops : added (op :: ops) = from_option (λ id, id :: added ops) (added ops) (op_added op).
Proof. unfold added. cbn [omap list_omap]. by destruct (op_added op). Qed.

Lemma mark_first_ids id l : im_ID <$> (mark_first id l).1 = im_ID <$> l.
Proof.
  induction l as [|m l IH]; simpl; [done|]. case_decide; [done|]. destruct (mark_first id l) as [l' ok].
  cbn [fst] in *. rewrite !fmap_cons. by f_equal.
Qed.

Lemma delete_first_sublist id l : (delete_first id l).1 `sublist_of` l.
Proof.
  induction l as [|m l IH]; simpl; [done|]. case_decide; [by apply sublist_cons|]. destruct (delete_first id l) as [l' ok]. by apply sublist_skip.
Qed.

Lemma delete_first_gone id l : NoDup (im_ID <$> l) → id ∉ im_ID <$> (delete_first id l).1.
Proof.
  induction l as [|m l IH]; simpl; [set_solver|]. rewrite NoDup_cons. intros [Hm Hl]. case_decide as Hd; [by subst|].
  specialize (IH Hl). destruct (delete_first id l) as [l' ok]. cbn [fst] in *. rewrite fmap_cons. set_solver.
Qed.

Lemma Add_ids id now f m b i : ids (Add id now f m b i) `sublist_of` id :: ids i.
Proof.
  unfold ids, Add. cbn [ib_messages ib_with]. set (msg := {| im_ID := id; im_From := f |}).
  change (id :: (im_ID <$> ib_messages i)) with (im_ID <$> msg :: ib_messages i). apply fmap_sublist. case_match; [apply sublist_take | done].
Qed.

Lemma run_op_ids i op : ids (run_op i op) `sublist_of` from_option (λ id, id :: ids i) (ids i) (op_added op).
Proof.
  destruct op as [id now f m b|id|id]; cbn [run_op op_added from_option].
  - apply Add_ids.
  - unfold MarkRead, ids. pose proof (mark_first_ids id (ib_messages i)) as Hm. destruct (mark_first _ _) as [l ok]. simpl in *. by rewrite Hm.
  - unfold Delete, ids. pose proof (delete_first_sublist id (ib_messages i)) as Hd. destruct (delete_first _ _) as [l ok]. simpl in *. by apply fmap_sublist.
Qed.

Lemma run_op_max i op : ib_maxSize (run_op i op) = ib_maxSize i.
Proof. destruct op; simpl; [done| |]; [unfold MarkRead | unfold Delete]; by destruct (_ _ (ib_messages i)). Qed.

Lemma run_ops_max i ops : ib_maxSize (run_ops i ops) = ib_maxSize i.
Proof. revert i. induction ops as [|op ops IH]; intros i; [done|]. cbn [run_ops foldl] in *. by rewrite IH, run_op_max. Qed.

Lemma run_ops_ids i ops : ids (run_ops i ops) `sublist_of` reverse (added ops) ++ ids i.
Proof.
  revert i. induction ops as [|op ops IH]; intros i; [done|]. cbn [run_ops foldl]. etransitivity; [apply IH|].
  pose proof (run_op_ids i op) as Hop. rewrite added_cons. destruct (op_added op) as [id|]; simpl in Hop |- *.
  - rewrite reverse_cons, <- app_assoc. by apply sublist_app.
  - by apply sublist_app.
Qed.

Lemma run_op_length i op : (length (ib_messages i) ≤ ib_maxSize i)%nat → (length (ib_messages (run_op i op)) ≤ ib_maxSize i)%nat.
Proof.
  intros Hl. destruct op as [id now f m b|id|id]; cbn [run_op].
  - unfold Add. cbn [ib_messages ib_with]. destruct (Nat.ltb_spec (ib_maxSize i) (length ({| im_ID := id; im_From := f; im_Method := m; im_Body := b; im_Timestamp := now; im_Read := false |} :: ib_messages i)));
      [rewrite length_take; lia | done].
  - pose proof (run_op_ids i (OpMark id)) as Hs. apply sublist_length in Hs. unfold ids in Hs. cbn [op_added from_option run_op] in Hs. rewrite !length_fmap in Hs. lia.
  - pose proof (run_op_ids i (OpDelete id)) as Hs. apply sublist_length in Hs. unfold ids in Hs. cbn [op_added from_option run_op] in Hs. rewrite !length_fmap in Hs. lia.
Qed.

Lemma run_ops_length i ops : (length (ib_messages i) ≤ ib_maxSize i)%nat → (length (ib_messages (run_ops i ops)) ≤ ib_maxSize i)%nat.
Proof.
  revert i. induction ops as [|op ops IH]; intros i Hl; [done|]. cbn [run_ops foldl]. rewrite <- (run_op_max i op). apply IH.
  rewrite run_op_max. by apply run_op_length.
Qed.

(** A message at a position, with what was written in it. *)
Definition same_message (m m' : InboxMessage) (marked : bool) : Prop :=
  m' = {| im_ID := im_ID m; im_From := im_From m; im_Method := im_Method m; im_Body := im_Body m; im_Timestamp := im_Timestamp m;
          im_Read := im_Read m || marked |}.

Lemma mark_first_lookup id l k m : NoDup (im_ID <$> l) → l !! k = Some m →
  ∃ m', (mark_first id l).1 !! k = Some m' ∧ same_message m m' (String.eqb id (im_ID m)).
Proof.
  revert k. induction l as [|x l IH]; intros k; simpl; [done|]. rewrite NoDup_cons. intros [Hx Hl] Hk. unfold same_message.
  destruct (decide (im_ID x = id)) as [<-|Hne].
  - destruct k as [|k]; simpl in Hk |- *.
    + injection Hk as <-. eexists. split; [done|]. by rewrite String.eqb_refl, orb_true_r.
    + exists m. split; [done|]. assert (Hm : im_ID x ≠ im_ID m).
      { intros He. apply Hx. rewrite He. apply list_elem_of_fmap. exists m. split; [done | by eapply list_elem_of_lookup_2]. }
      apply String.eqb_neq in Hm. rewrite Hm, orb_false_r. by destruct m.
  - destruct (mark_first id l) as [l' ok] eqn:Hmf. destruct k as [|k]; simpl in Hk |- *.
    + injection Hk as <-. exists x. split; [done|]. rewrite (proj2 (String.eqb_neq id (im_ID x))) by congruence. rewrite orb_false_r. by destruct x.
    + destruct (IH k Hl Hk) as (m' & Hm' & Hs). by exists m'.
Qed.

Lemma delete_first_lookup id l k m : l !! k = Some m → im_ID m ≠ id → ∃ k', (k' ≤ k)%nat ∧ (delete_first id l).1 !! k' = Some m.
Proof.
  revert k. induction l as [|x l IH]; intros k; simpl; [done|]. intros Hk Hne. case_decide as Hd.
  - destruct k as [|k]; simpl in Hk; [naive_solver|]. exists k. split; [lia | done].
  - destruct k as [|k]; simpl in Hk.
    + exists O. split; [lia|]. by destruct (delete_first id l).
    + destruct (IH k Hk Hne) as (k' & Hle & Hk'). exists (S k'). split; [lia|]. by destruct (delete_first id l).
Qed.

(** A message that is not deleted stays while there is room for it. *)
Lemma run_ops_keeps i post k m : NoDup (ids i) → NoDup (added post) → (∀ id, id ∈ added post → id ∉ ids i) →
  ib_messages i !! k = Some m → existsb (deletes (im_ID m)) post = false → (k + length (added post) < ib_maxSize i)%nat →
  ∃ k' m', ib_messages (run_ops i post) !! k' = Some m' ∧ same_message m m' (existsb (marks (im_ID m)) post).
Proof.
  revert i k m. induction post as [|op post IH]; intros i k m Hnd Hadd Hfresh Hk Hdel Hroom.
  { exists k, m. split; [done|]. unfold same_message. simpl. rewrite orb_false_r. by destruct m. }
  simpl in Hdel. apply orb_false_iff in Hdel as [Hd1 Hdel]. cbn [run_ops foldl].
  assert (Hids : ids (run_op i op) `sublist_of` from_option (λ id, id :: ids i) (ids i) (op_added op)) by apply run_op_ids.
  assert (Hadd' : NoDup (added post) ∧ (match op_added op with Some id => (id ∉ added post) ∧ (id ∉ ids i) | None => True end) ∧ (∀ id, id ∈ added post → id ∉ ids i)).
  { rewrite added_cons in Hadd, Hfresh. destruct (op_added op) as [id|]; simpl in *; [|done].
    apply NoDup_cons in Hadd as [Hn Hadd]. split_and!; [done | done | apply Hfresh; by left | intros x Hx; apply Hfresh; by right]. }
  destruct Hadd' as (Hadd' & Hop & Hfr).
  assert (Hnd' : NoDup (ids (run_op i op))).
  { eapply sublist_NoDup; [|exact Hids]. destruct (op_added op) as [id|]; simpl in *; [|done]. apply NoDup_cons. tauto. }
  assert (Hfresh' : ∀ id, id ∈ added post → id ∉ ids (run_op i op)).
  { intros id Hin Hin''. pose proof (elem_of_sublist _ _ _ Hin'' Hids) as Hin'. clear Hin''. destruct (op_added op) as [x|]; simpl in *; [|by eapply Hfr].
    apply elem_of_cons in Hin' as [->|Hin']; [tauto | by eapply Hfr]. }
  assert (Hstep : ∃ k1 m1, ib_messages (run_op i op) !! k1 = Some m1 ∧ same_message m m1 (marks (im_ID m) op) ∧
    (k1 + length (added post) < ib_maxSize i)%nat).
  { rewrite added_cons in Hroom. destruct op as [id now f me b|id|id]; cbn [op_added run_op marks] in *.
    - exists (S k), m. simpl in Hroom. unfold same_message. rewrite orb_false_r. split_and!; [|by destruct m | lia].
      unfold Add. cbn [ib_messages ib_with]. case_match; [|done]. rewrite lookup_take_lt by lia. done.
    - destruct (mark_first_lookup id _ k m Hnd Hk) as (m' & Hm' & Hs). exists k, m'. split_and!; [|done | done].
      unfold MarkRead. by destruct (mark_first id (ib_messages i)).
    - simpl in Hd1. apply String.eqb_neq in Hd1. destruct (delete_first_lookup id _ k m Hk ltac:(congruence)) as (k' & Hle & Hk').
      exists k', m. unfold same_message. simpl in Hroom. rewrite orb_false_r. split_and!; [|by destruct m | lia].
      unfold Delete. by destruct (delete_first id (ib_messages i)). }
  destruct Hstep as (k1 & m1 & Hk1 & Hs1 & Hroom1). unfold same_message in Hs1.
  assert (Hid : im_ID m1 = im_ID m) by by subst m1.
  destruct (IH (run_op i op) k1 m1 Hnd' Hadd' Hfresh' Hk1) as (k2 & m2 & Hk2 & Hs2); [by rewrite Hid | by rewrite run_op_max|].
  exists k2, m2. split; [done|]. unfold same_message in *. subst m1. rewrite Hs2. simpl. by rewrite orb_assoc.
Qed.

Lemma Get_lookup i k m : NoDup (ids i) → ib_messages i !! k = Some m → Get (im_ID m) i = Some m.
Proof.
  unfold Get, ids. intros Hnd Hk. revert k Hk. induction (ib_messages i) as [|x l IH]; intros k Hk; [done|]. simpl in Hnd.
  apply NoDup_cons in Hnd as [Hx Hnd]. simpl. destruct k as [|k]; simpl in Hk; [injection Hk as ->; by rewrite String.eqb_refl|].
  rewrite (proj2 (String.eqb_neq (im_ID x) (im_ID m))); [by eapply IH|]. intros He. apply Hx. rewrite He.
  apply list_elem_of_fmap. exists m. split; [done | by eapply list_elem_of_lookup_2].
Qed.

Lemma Get_absent i id : id ∉ ids i → Get id i = None.
Proof.
  intros Hn. unfold Get. destruct (List.find _ _) as [m|] eqn:Hf; [|done]. apply find_some in Hf as [Hin He]. apply String.eqb_eq in He. subst id.
  destruct Hn. apply list_elem_of_fmap. exists m. split; [done | by apply list_elem_of_In].
Qed.

Lemma added_app ops ops' : added (ops ++ ops') = added ops ++ added ops'.
Proof. unfold added. induction ops as [|op ops IH]; [done|]. cbn [app omap list_omap]. destruct (op_added op); cbn [app]; by rewrite IH. Qed.

Lemma added_delete_ids i id ops : NoDup (ids i) → NoDup (added ops) → (∀ x, x ∈ added ops → x ∉ ids i) → id ∉ added ops →
  existsb (deletes id) ops = true → id ∉ ids (run_ops i ops).
Proof.
  revert i. induction ops as [|op ops IH]; intros i Hnd Hadd Hfresh Hn Hd; [done|]. cbn [run_ops foldl existsb] in *.
  pose proof (run_op_ids i op) as Hids. rewrite added_cons in Hadd, Hfresh, Hn.
  destruct (deletes id op) eqn:Hop.
  - intros Hin. pose proof (elem_of_sublist _ _ _ Hin (run_ops_ids (run_op i op) ops)) as [Hin'|Hin']%elem_of_app.
    + apply Hn. rewrite elem_of_reverse in Hin'. destruct (op_added op); cbn [from_option]; [by apply list_elem_of_further | exact Hin'].
    + destruct op as [| |x]; try done. simpl in Hop. apply String.eqb_eq in Hop. subst x. revert Hin'. cbn [run_op]. unfold ids, Delete.
      pose proof (delete_first_gone id (ib_messages i) Hnd) as Hg. by destruct (delete_first id (ib_messages i)).
  - simpl in Hd. apply IH; [| | | |done]; destruct (op_added op) as [x|] eqn:Hx; cbn [from_option] in *; try done.
    + apply NoDup_cons in Hadd as [Hxn Hadd]. eapply sublist_NoDup; [|exact Hids]. apply NoDup_cons. split; [apply Hfresh; by left | done].
    + eapply sublist_NoDup; [exact Hnd | exact Hids].
    + by apply NoDup_cons in Hadd as [_ Hadd].
    + intros y Hy Hin. pose proof (elem_of_sublist _ _ _ Hin Hids) as [->|Hin']%elem_of_cons; [by apply NoDup_cons in Hadd as [Hadd _]|].
      eapply Hfresh; [by right | done].
    + intros y Hy Hin. eapply Hfresh; [done|]. by eapply elem_of_sublist.
    + intros Hin. apply Hn. by right.
Qed.

Lemma run_ops_NoDup i ops : NoDup (ids i) → NoDup (added ops) → (∀ x, x ∈ added ops → x ∉ ids i) → NoDup (ids (run_ops i ops)).
Proof.
  intros Hnd Hadd Hfresh. eapply sublist_NoDup; [|apply run_ops_ids]. apply NoDup_app. split_and!; [by rewrite reverse_Permutation | | done].
  intros x Hx. apply Hfresh. by rewrite elem_of_reverse in Hx.
Qed.

(** In every history of arriving messages (with fresh identifiers), readings and deletions
    the inbox holds at most its size of messages, each once, the latest arrival first.  A
    message is there, as it arrived, as long as it was not deleted and fewer have come after
    it than the inbox holds, and it is marked read exactly when it was read; once deleted it
    does not come back. *)
Theorem inbox_history max ops : NoDup (added ops) →
  let i := run_ops (NewInbox max) ops in
  (length (ib_messages i) ≤ max)%nat ∧ ids i `sublist_of` reverse (added ops) ∧ NoDup (ids i) ∧
  ∀ pre id now f m b post, ops = pre ++ OpAdd id now f m b :: post →
    (existsb (deletes id) post = true → Get id i = None) ∧
    (existsb (deletes id) post = false → (length (added post) < max)%nat →
     Get id i = Some {| im_ID := id; im_From := f; im_Method := m; im_Body := b; im_Timestamp := now; im_Read := existsb (marks id) post |}).
Proof.
  intros Hnd. cbn zeta. pose proof (run_ops_ids (NewInbox max) ops) as Hsub. change (ids (NewInbox max)) with (@nil string) in Hsub. rewrite app_nil_r in Hsub.
  assert (Hids : NoDup (ids (run_ops (NewInbox max) ops))) by (eapply sublist_NoDup; [|exact Hsub]; by rewrite reverse_Permutation).
  split_and!; [apply (run_ops_length (NewInbox max)); simpl; lia | done | done|].
  intros pre id now f m b post ->. unfold run_ops. rewrite foldl_app. cbn [foldl]. fold (run_ops (NewInbox max) pre).
  set (i0 := run_ops (NewInbox max) pre). fold (run_ops (run_op i0 (OpAdd id now f m b)) post). set (i1 := run_op i0 (OpAdd id now f m b)).
  rewrite added_app in Hnd. change (added (OpAdd id now f m b :: post)) with (id :: added post) in Hnd.
  apply NoDup_app in Hnd as (Hpre & Hdisj & [Hid Hpost]%NoDup_cons).
  assert (Hi0 : ∀ x, x ∈ ids i0 → x ∈ added pre).
  { intros x Hx. pose proof (elem_of_sublist _ _ _ Hx (run_ops_ids (NewInbox max) pre)) as Hin. change (ids (NewInbox max)) with (@nil string) in Hin.
    rewrite app_nil_r in Hin. by rewrite elem_of_reverse in Hin. }
  assert (Hs1 : ids i1 `sublist_of` id :: ids i0) by apply Add_ids.
  assert (Hnd1 : NoDup (ids i1)).
  { eapply sublist_NoDup; [|exact Hs1]. apply NoDup_cons. split; [intros Hx; apply (Hdisj id); [by apply Hi0 | by left]|].
    eapply run_ops_NoDup; [apply NoDup_nil_2 | done | set_solver]. }
  assert (Hfresh1 : ∀ x, x ∈ added post → x ∉ ids i1).
  { intros x Hx Hin. pose proof (elem_of_sublist _ _ _ Hin Hs1) as [->|Hin']%elem_of_cons; [done|]. apply (Hdisj x); [by apply Hi0 | by right]. }
  split.
  - intros Hd. apply Get_absent. by apply added_delete_ids.
  - intros Hd Hroom. set (m0 := {| im_ID := id; im_From := f; im_Method := m; im_Body := b; im_Timestamp := now; im_Read := false |}).
    assert (Hmax : ib_maxSize i0 = max) by apply run_ops_max.
    assert (Hk : ib_messages i1 !! 0%nat = Some m0).
    { unfold i1. cbn [run_op]. unfold Add. cbn [ib_messages ib_with]. fold m0. case_match; [|done]. rewrite lookup_take_lt by lia. done. }
    destruct (run_ops_keeps i1 post 0 m0 Hnd1 Hpost Hfresh1 Hk Hd) as (k & m' & Hk' & Hm').
    { unfold i1. rewrite run_op_max, Hmax. simpl. lia. }
    assert (Hndf : NoDup (ids (run_ops i1 post))) by by apply run_ops_NoDup.
    pose proof (Get_lookup _ _ _ Hndf Hk') as Hget. unfold same_message in Hm'. subst m'. exact Hget.
Qed.

(** ** What a tool asks of others, and what it changes *)

(** The text of a DID: a method and an identifier, of bounded length. *)
Definition did_text (s : string) : Prop :=
  (String.length s ≤ MaxDIDLength)%nat ∧ ∃ method id, s = "did:" +:+ method +:+ ":" +:+ id ∧ method ≠ "" ∧ id ≠ "" ∧
    all_of did_method_char method = true ∧ all_of did_id_char id = true.

Definition method_text (s : string) : Prop := s ≠ "" ∧ (String.length s ≤ MaxMethodLength)%nat ∧ all_of isMethodChar s = true.

Lemma ValidateDID_ok s : ValidateDID s = None → did_text s.
Proof.
  unfold ValidateDID. case_decide; [done|]. case_match eqn:Hl; [done|]. case_match eqn:Hr; [done|]. intros _.
  apply Nat.ltb_ge in Hl. apply negb_false_iff in Hr. split; [done|]. by apply didRegex_spec.
Qed.

Lemma ValidateMethod_ok s : ValidateMethod s = None → method_text s.
Proof.
  unfold ValidateMethod. case_decide; [done|]. case_match eqn:Hl; [done|]. case_match eqn:Hr; [done|]. intros _.
  apply Nat.ltb_ge in Hl. by apply negb_false_iff in Hr.
Qed.

Lemma checked_arg_ok v args name s : checked_arg v args name = Ok s → arg_string args name = Some s ∧ v s = None.
Proof. unfold checked_arg. destruct (arg_string args name); [|done]. case_match; [done|]. by intros [= ->]. Qed.

(** The agents a tool may contact, and for what. *)
Definition contained (c : Outgoing) : Prop :=
  match c with
  | OSend to method _ => did_text to ∧ method ∈ ["tasks/get"; "message/send"; "tasks/cancel"]
  | OSendAsync to method _ => did_text to ∧ method_text method
  | OCallRelay method _ => method ∈ ["relay.discover"; "relay.lookup"]
  end.

Section tools.
Context `{McpCodec}.

(** The tools whose success is a change. *)
Definition changing : list string := ["cancel_task"; "read_message"; "delete_message"].
Definition nothing_done (name : string) (r : ToolResult) : Prop := name ∈ changing → ∀ v, r ≠ ToolText v.

(** Which tool changes what: a task is tracked with the agent that answered, under the
    identifier of its answer, and forgotten once the agent canceled it; a message is marked
    as it is shown, or deleted. *)
Inductive tool_effect (ca : AgentCaller) (name : string) (s : Server) : list Outgoing → ToolResult → Server → Prop :=
| effect_none calls r : nothing_done name r → tool_effect ca name s calls r s
| effect_submitted did params resp id : name = "submit_task" → ca_Send ca did "message/send" params = Ok resp → rs_IsError resp = false →
    Unmarshal_task_id (default "" (rs_RawBody resp)) = Some id →
    tool_effect ca name s [OSend did "message/send" params] (encode_raw (rs_RawBody resp)) (trackTask id did s)
| effect_canceled did id resp : name = "cancel_task" → ca_Send ca did "tasks/cancel" (JObject [("id", JString id)]) = Ok resp → rs_IsError resp = false →
    tool_effect ca name s [OSend did "tasks/cancel" (JObject [("id", JString id)])] (encode_raw (rs_RawBody resp)) (untrackTask id s)
| effect_read id m : name = "read_message" → Get id (sv_inbox s) = Some m →
    tool_effect ca name s [] (ToolText (VMessage (set_read m))) (sv_with s (sv_tasks s) (MarkRead id (sv_inbox s)).1 (sv_notified s))
| effect_deleted id : name = "delete_message" → (Delete id (sv_inbox s)).2 = true →
    tool_effect ca name s [] (ToolText VDeleted) (sv_with s (sv_tasks s) (Delete id (sv_inbox s)).1 (sv_notified s)).

Definition tool_ok (ca : AgentCaller) (name : string) (s : Server) (run : Server * list Outgoing * ToolResult) : Prop :=
  let '(s', calls, r) := run in
  Forall contained calls ∧ (length calls ≤ 1)%nat ∧ (∀ e, r = ToolArg e → calls = [] ∧ s' = s) ∧ tool_effect ca name s calls r s'.

Lemma other_ok name r : bool_decide (name ∈ changing) = false → nothing_done name r.
Proof. by intros Hn%bool_decide_eq_false Hin. Qed.

Lemma refused_ok ca name s e : tool_ok ca name s (refused s e).
Proof. unfold tool_ok, refused. split_and!; [done | simpl; lia | done | by constructor]. Qed.

(** A tool that calls nobody and changes nothing. *)
Lemma quiet_ok ca name s r : nothing_done name r → (∀ e, r ≠ ToolArg e) → tool_ok ca name s (s, [], r).
Proof. intros Hn Hr. unfold tool_ok. split_and!; [done | simpl; lia | by intros e He%Hr | by constructor]. Qed.

(** A tool that makes one call and changes nothing. *)
Lemma one_call_ok ca name s c r : contained c → nothing_done name r → (∀ e, r ≠ ToolArg e) → tool_ok ca name s (s, [c], r).
Proof. intros Hc Hn Hr. unfold tool_ok. split_and!; [by constructor | simpl; lia | by intros e He%Hr | by constructor]. Qed.

Lemma encode_raw_arg b e : encode_raw b ≠ ToolArg e.
Proof. unfold encode_raw. by repeat case_match. Qed.

Lemma ask_agent_ok ca name did method params after s :
  did_text did → method ∈ ["tasks/get"; "message/send"; "tasks/cancel"] →
  (∀ resp, ca_Send ca did method params = Ok resp → rs_IsError resp = false →
     tool_effect ca name s [OSend did method params] (encode_raw (rs_RawBody resp)) (after (rs_RawBody resp) s)) →
  tool_ok ca name s (ask_agent ca did method params after s).
Proof.
  intros Hd Hm Ha. unfold ask_agent. destruct (ca_Send _ _ _ _) as [resp|text] eqn:Hs; [|by apply one_call_ok].
  destruct (rs_IsError resp) eqn:He; [by apply one_call_ok|]. unfold tool_ok.
  split_and!; [by constructor | simpl; lia | by intros e ?%encode_raw_arg | by apply Ha].
Qed.

Lemma task_args_ok args m id did : task_args args = Ok (m, id, did) → did_text did.
Proof.
  unfold task_args. destruct (as_map args); [|done]. cbn. destruct (checked_arg _ _ "task_id"); [|done]. cbn.
  destruct (checked_arg _ _ "agent_did") eqn:Hc; [|done]. intros [= <- <- <-]. apply checked_arg_ok in Hc as [_ Hc]. by apply ValidateDID_ok.
Qed.

Lemma submit_args_ok args did v ses : submit_args args = Ok (did, v, ses) → did_text did.
Proof.
  unfold submit_args. destruct (as_map args); [|done]. cbn. destruct (checked_arg _ _ "agent_did") eqn:Hc; [|done]. cbn.
  destruct (json_arg _ _); [|done]. intros [= <- <- <-]. apply checked_arg_ok in Hc as [_ Hc]. by apply ValidateDID_ok.
Qed.

Lemma input_args_ok args id did v : input_args args = Ok (id, did, v) → did_text did.
Proof.
  unfold input_args. destruct (task_args args) as [[[m id'] did']|] eqn:Ht; [|done]. cbn. destruct (json_arg _ _); [|done]. intros [= <- <- <-].
  by eapply task_args_ok.
Qed.

Lemma send_message_args_ok args to method params : send_message_args args = Ok (to, method, params) → did_text to ∧ method_text method.
Proof.
  unfold send_message_args. destruct (as_map args); [|done]. cbn. destruct (checked_arg _ _ "to") eqn:Ht; [|done]. cbn.
  destruct (checked_arg _ _ "method") eqn:Hm; [|done]. cbn. destruct (json_arg _ _); [|done]. intros [= <- <- <-].
  apply checked_arg_ok in Ht as [_ Ht]. apply checked_arg_ok in Hm as [_ Hm]. split; [by apply ValidateDID_ok | by apply ValidateMethod_ok].
Qed.

(** The tools that ask the relay, or send a message. *)
Lemma relay_tools_ok ca name args s : bool_decide (name ∈ changing) = false →
  tool_ok ca name s (listAgentsHandler ca args s) ∧ tool_ok ca name s (getAgentInfoHandler ca args s) ∧
  tool_ok ca name s (queryCapabilitiesHandler ca args s) ∧ tool_ok ca name s (sendMessageHandler ca args s).
Proof.
  intros Hn%bool_decide_eq_false. split_and!.
  - unfold listAgentsHandler. case_match; [apply refused_ok|]. apply one_call_ok; [by left | by intros ?|]. intros e. by repeat case_match.
  - unfold getAgentInfoHandler. case_match; [|apply refused_ok]. apply one_call_ok; [by right; left | by intros ?|]. intros e. by repeat case_match.
  - unfold queryCapabilitiesHandler. case_match; [|apply refused_ok]. apply one_call_ok; [by left | by intros ?|]. intros e. by repeat case_match.
  - unfold sendMessageHandler. destruct (send_message_args args) as [[[to me] pa]|] eqn:Ha; [|apply refused_ok].
    apply one_call_ok; [by apply send_message_args_ok in Ha | by intros ?|]. intros e. by case_match.
Qed.

(** The tools that act on the tasks of an agent. *)
Lemma task_tools_ok ca args s :
  tool_ok ca "get_task_status" s (getTaskStatusHandler ca args s) ∧ tool_ok ca "submit_task" s (submitTaskHandler ca args s) ∧
  tool_ok ca "cancel_task" s (cancelTaskHandler ca args s) ∧ tool_ok ca "send_task_input" s (sendTaskInputHandler ca args s).
Proof.
  split_and!.
  - unfold getTaskStatusHandler. destruct (task_args args) as [[[m id] did]|] eqn:Ha; [|apply refused_ok].
    apply ask_agent_ok; [by eapply task_args_ok | by left | intros; by apply effect_none, other_ok].
  - unfold submitTaskHandler. destruct (submit_args args) as [[[did v] ses]|] eqn:Ha; [|apply refused_ok].
    apply ask_agent_ok; [by eapply submit_args_ok | by right; left|]. intros resp Hs He. destruct (Unmarshal_task_id _) eqn:Hid; [by apply effect_submitted | by apply effect_none, other_ok].
  - unfold cancelTaskHandler. destruct (task_args args) as [[[m id] did]|] eqn:Ha; [|apply refused_ok].
    apply ask_agent_ok; [by eapply task_args_ok | by right; right; left|]. intros resp Hs He. by apply effect_canceled.
  - unfold sendTaskInputHandler. destruct (input_args args) as [[[id did] v]|] eqn:Ha; [|apply refused_ok].
    apply ask_agent_ok; [by eapply input_args_ok | by right; left | intros; by apply effect_none, other_ok].
Qed.

Lemma mark_found id i m : Get id i = Some m → Get id (MarkRead id i).1 = Some (set_read m).
Proof.
  unfold Get, MarkRead. induction (ib_messages i) as [|x l IH]; simpl; [done|]. case_decide as Hd.
  - subst id. rewrite String.eqb_refl. intros [= ->]. simpl. by rewrite String.eqb_refl.
  - rewrite (proj2 (String.eqb_neq _ _) Hd). intros Hf. specialize (IH Hf). destruct (mark_first id l) as [l' ok]. simpl in *.
    by rewrite (proj2 (String.eqb_neq _ _) Hd).
Qed.

(** The tools over the inbox. *)
Lemma inbox_tools_ok ca args s :
  tool_ok ca "read_message" s (readMessageHandler args s) ∧ tool_ok ca "delete_message" s (deleteMessageHandler args s).
Proof.
  split.
  - unfold readMessageHandler, read_inbox. destruct (id_arg args) as [id|]; [|apply refused_ok]. destruct (Get id (sv_inbox s)) as [m|] eqn:Hg; [|by apply quiet_ok].
    rewrite (mark_found _ _ _ Hg). unfold tool_ok. split_and!; [done | simpl; lia | done | by apply effect_read].
  - unfold deleteMessageHandler. destruct (id_arg args) as [id|]; [|apply refused_ok]. destruct (Delete id (sv_inbox s)) as [i []] eqn:Hd; [|by apply quiet_ok].
    unfold tool_ok. split_and!; [done | simpl; lia | done|]. replace i with (Delete id (sv_inbox s)).1 by by rewrite Hd. apply effect_deleted; [done | by rewrite Hd].
Qed.

(** C38. A tool of the MCP server asks at most one thing of others, of an agent whose DID is
    well formed and by a method of its own (one of its caller's choice is well formed), and of
    the relay only to look agents up.  Refused arguments cost no call and change nothing.  A
    call changes the server's state only as its tool is meant to: a task is tracked for the
    agent that took it on, under the identifier it answered, and forgotten when that agent
    canceled it; a message is marked when it is shown, and deleted when it is there. *)
Theorem tools_contained ca ks name args s run : call_tool ca ks name args s = Some run → tool_ok ca name s run.
Proof.
  unfold call_tool. destruct (task_tools_ok ca args s) as (H5 & H6 & H7 & H8). destruct (inbox_tools_ok ca args s) as (H9 & H10).
  repeat (case_decide as Hd; [rewrite Hd; clear Hd; intros [= <-]; first [done | (apply quiet_ok; [by apply other_ok | done]) |
    (eapply relay_tools_ok; reflexivity)] | clear Hd]). done.
Qed.

End tools.

(** ** An inbox of two messages, and a tool that is canceled *)

Module Example.

Definition history : list InboxOp := [OpAdd "1" 10 "did:a:x" "chat" None; OpAdd "2" 11 "did:a:y" "chat" None; OpMark "1"; OpAdd "3" 12 "did:a:x" "ping" None; OpDelete "2"].

Example history_left : ib_messages (run_ops (NewInbox 2) history) =
  [{| im_ID := "3"; im_From := "did:a:x"; im_Method := "ping"; im_Body := None; im_Timestamp := 12; im_Read := false |}].
Proof. reflexivity. Qed.

Lemma inbox_history_witness : (length (ib_messages (run_ops (NewInbox 3) history)) ≤ 3)%nat ∧ Get "2" (run_ops (NewInbox 3) history) = None ∧
  Get "1" (run_ops (NewInbox 3) history) =
    Some {| im_ID := "1"; im_From := "did:a:x"; im_Method := "chat"; im_Body := None; im_Timestamp := 10; im_Read := true |}.
Proof.
  destruct (inbox_history 3 history) as (Hl & _ & _ & Hm); [by apply (bool_decide_unpack _); vm_compute|]. split_and!; [exact Hl | |].
  - exact (proj1 (Hm [OpAdd "1" 10 "did:a:x" "chat" None] "2" 11 "did:a:y" "chat" None [OpMark "1"; OpAdd "3" 12 "did:a:x" "ping" None; OpDelete "2"] eq_refl) eq_refl).
  - refine (proj2 (Hm [] "1" 10 "did:a:x" "chat" None [OpAdd "2" 11 "did:a:y" "chat" None; OpMark "1"; OpAdd "3" 12 "did:a:x" "ping" None; OpDelete "2"] eq_refl) eq_refl _).
    vm_compute. lia.
Defined.

#[local] Instance codec : McpCodec := {|
  Unmarshal_any := λ s, Some (JString s); Unmarshal_agents := λ _, Some []; Unmarshal_agent := λ _, Some None; Unmarshal_task_id := λ s, Some s;
  Valid_json := λ _, true;
|}.

Definition me : Registry.Agent := Registry.NewAgent (uuid_lit 1) 0 "did:me:1" "me".

(** An agent that answers every call with the text [t1]. *)
Definition caller : AgentCaller := {|
  ca_DID := "did:me:1"; ca_Record := me; ca_Send := λ _ _ _, Ok {| rs_IsError := false; rs_RawBody := Some "t1" |};
  ca_SendAsync := λ _ _ _, Ok "m1"; ca_CallRelay := λ _ _, Ok (Some "null");
|}.

Definition submit_arguments : gmap string any := {["agent_did" := JString "did:wba:bob"; "message" := JString "hello"]}.

Lemma tools_contained_witness :
  let run := submitTaskHandler caller (Some submit_arguments) NewServer in
  tool_ok caller "submit_task" NewServer run ∧
  sv_tasks run.1.1 = {["t1" := {| tt_ID := "t1"; tt_AgentDID := "did:wba:bob"; tt_Status := "submitted" |}]}.
Proof. split; [by apply (tools_contained caller [] "submit_task" (Some submit_arguments)) | reflexivity]. Defined.

(** A DID that is not one is refused before any call. *)
Example refused_did : submitTaskHandler caller (Some (<["agent_did" := JString "did:Wba:bob"]> submit_arguments)) NewServer =
  (NewServer, [], ToolArg (InvalidArg "agent_did" ErrDIDInvalidFormat)).
Proof. reflexivity. Qed.

(** One agent listed as null makes query_capabilities panic. *)
Example null_agent_panics ca args s :
  capabilities_arg args = Ok ["chat"] → ca_CallRelay ca "relay.discover" (JObject []) = Ok (Some "[null]") →
  ∀ C : McpCodec, @Unmarshal_agents C "[null]" = Some [None] → (@queryCapabilitiesHandler C ca args s).2 = ToolPanic.
Proof. intros Ha Hc C Hu. unfold queryCapabilitiesHandler. rewrite Ha, Hc. simpl. by rewrite Hu. Qed.

End Example.
