(* ===== verification/Gateway.v ===== *)
(** * Tenants behind the MCP gateway (src/cmd/mcp-server/gateway.go, src/pkg/billing/tenant_did.go)

    The identity derived from a tenant's seed, the gateway's cache of identities with the
    registrations it starts, and what the gateway sends for a tenant: an agent ([Agent]) sends
    it, the relay ([Relay]) checks who may speak for whom, and the recipient the signature. *)

From S2P Require Import Prelude Mcp Crypto Registry Acl Messaging Billing Hub Relay Agent AgentFlow.
#[local] Open Scope Z_scope.

(** ** The identity of a tenant *)

(** [s[n] = f(s[n])] for a byte of a text. *)
Fixpoint update_byte (n : nat) (f : Z → Z) (s : string) : string :=
  match n, s with
  | _, EmptyString => EmptyString
  | O, String a s => String (Ascii.ascii_of_nat (Z.to_nat (f (Z.of_nat (Ascii.nat_of_ascii a))))) s
  | S n, String a s => String a (update_byte n f s)
  end.

(** [encPriv[0] &= 248; encPriv[31] &= 127; encPriv[31] |= 64] *)
Definition clamp (k : string) : string :=
  update_byte 31 (λ b, Z.lor b 64) (update_byte 31 (λ b, Z.land b 127) (update_byte 0 (λ b, Z.land b 248) k)).

Definition TenantDIDString (domain tenantID : string) : string := "did:wba:" +:+ domain +:+ ":tenant:" +:+ tenantID.

Inductive GatewayError := ErrNoTenant | ErrNoSeed (tenantID : string) | ErrSeedLength (n : nat) | ErrDerive (e : IdentityError).

Section gateway.
Context `{HR : Runtime} `{HP : Primitives} `{HB : Box} `{HRC : RelayCodec} `{HAC : AgentCodec}.
Context (Sum512 : string → string).

(** The private key of a seed, and the multiplication of the base point by a clamped scalar,
    which does not fail. *)
Definition tenant_keys (seed : string) : AgentKeys :=
  let encPriv := clamp (String.substring 0 32 (Sum512 seed)) in {|
  ak_Signing := {| kp_PublicKey := ed25519_public seed; kp_PrivateKey := seed +:+ ed25519_public seed |};
  ak_Encryption := {| kp_PublicKey := x25519_public encPriv; kp_PrivateKey := encPriv |};
|}.

Definition DeriveTenantIdentity (domain tenantID seed : string) : result GatewayError Identity :=
  if decide (String.length seed ≠ 32%nat) then Err (ErrSeedLength (String.length seed))
  else match NewIdentityFromKeysTenant domain tenantID (tenant_keys seed) with Ok i => Ok i | Err e => Err (ErrDerive e) end.

(** ** The gateway *)

(** The two maps, and the registrations started in goroutines. *)
Record gatewayBridge := {
  gb_domain : string;
  gb_identCache : gmap string Identity;
  gb_registered : gset string;
  gb_started : list (Identity * string);
}.

Definition NewGateway (domain : string) : gatewayBridge := {| gb_domain := domain; gb_identCache := ∅; gb_registered := ∅; gb_started := [] |}.

(** The gateway with the identity of a tenant in its cache, and the registration that starts
    with it. *)
Definition remember (g : gatewayBridge) (T : string) (ident : Identity) : gatewayBridge := {|
  gb_domain := gb_domain g; gb_identCache := <[T := ident]> (gb_identCache g);
  gb_registered := {[T]} ∪ gb_registered g;
  gb_started := if decide (T ∈ gb_registered g) then gb_started g else gb_started g ++ [(ident, T)];
|}.

Definition tenantIdentity (g : gatewayBridge) (tenant : option Tenant) : gatewayBridge * result GatewayError Identity :=
  match tenant with
  | None => (g, Err ErrNoTenant)
  | Some t =>
      let seed := default "" (t_DIDSeed t) in
      if decide (String.length seed ≠ 32%nat) then (g, Err (ErrNoSeed (t_ID t)))
      else match gb_identCache g !! t_ID t with
           | Some ident => (g, Ok ident)
           | None => match DeriveTenantIdentity (gb_domain g) (t_ID t) seed with
                     | Err e => (g, Err e)
                     | Ok ident => (remember g (t_ID t) ident, Ok ident)
                     end
           end
  end.

(** The parameters of relay.register_subordinate; [id] and [id'] are fresh UUID texts. *)
Definition registerSubordinate (id id' : string) (ident : Identity) (tenantID : string) : SubordinateRegisterRequest := {|
  sr_DID := i_DID ident; sr_TenantID := tenantID;
  sr_PublicKeys := [
    {| pk_ID := id; pk_Type := KeyTypeEd25519; pk_Key := Some (kp_PublicKey (ak_Signing (i_Keys ident))); pk_Purpose := "signing" |};
    {| pk_ID := id'; pk_Type := KeyTypeX25519; pk_Key := Some (kp_PublicKey (ak_Encryption (i_Keys ident))); pk_Purpose := "encryption" |}];
|}.

(** Send up to the wait for the answer, and SendAsync; without an identity for the tenant the
    process speaks for itself. *)
Definition gateway_Send (e : AgentEnv) (a : LocalAgent) (g : gatewayBridge) (tenant : option Tenant) (to method : string) (params : option any)
  : gatewayBridge * (LocalAgent * result AgentError (Message * nat)) :=
  match tenantIdentity g tenant with
  | (g, Err _) => (g, Send_begin e a to method params)
  | (g, Ok ident) => (g, SendAs_begin e a ident to method params)
  end.

Definition gateway_SendAsync (e : AgentEnv) (a : LocalAgent) (g : gatewayBridge) (tenant : option Tenant) (to method : string) (params : option any)
  : gatewayBridge * (LocalAgent * result AgentError string) :=
  let text r := match r with Ok id => Ok (uuid_String id) | Err x => Err x end in
  match tenantIdentity g tenant with
  | (g, Err _) => let '(a, r) := SendAsync e a to method params in (g, (a, text r))
  | (g, Ok ident) => let '(a, r) := SendAsAsync e a ident to method params in (g, (a, text r))
  end.

(** An answer, as the tools read it. *)
Definition messageWrapper (m : Message) : AgentMessage := {| rs_IsError := IsError m; rs_RawBody := Body m |}.

(** The calls of a process, in the order of its mutex. *)
Definition serve (g : gatewayBridge) (calls : list (option Tenant)) : gatewayBridge := foldl (λ g t, (tenantIdentity g t).1) g calls.

End gateway.

(** ** The derived keys *)

Lemma update_byte_length n f s : String.length (update_byte n f s) = String.length s.
Proof. revert n. induction s as [|a s IH]; intros [|n]; simpl; [done.. |]. by rewrite IH. Qed.

Lemma clamp_length k : String.length (clamp k) = String.length k.
Proof. unfold clamp. by rewrite !update_byte_length. Qed.

Lemma update_byte_bytes n f s : (∀ b, 0 ≤ b < 256 → 0 ≤ f b < 256) → bytes_of (update_byte n f s) = alter f n (bytes_of s).
Proof.
  intros Hf. revert n. induction s as [|a s IH]; intros [|n]; [done.. | |].
  - unfold bytes_of. simpl. f_equal. pose proof (Ascii.nat_ascii_bounded a). specialize (Hf (Z.of_nat (Ascii.nat_of_ascii a))).
    rewrite Ascii.nat_ascii_embedding by lia. rewrite Z2Nat.id; lia.
  - change (bytes_of (update_byte (S n) f (String a s))) with (Z.of_nat (Ascii.nat_of_ascii a) :: bytes_of (update_byte n f s)). by rewrite IH.
Qed.

Lemma rnumber_app base l l' : rnumber base (l ++ l') = rnumber base l + base ^ Z.of_nat (length l) * rnumber base l'.
Proof.
  induction l as [|d l IH]; [cbn [app rnumber length]; change (Z.of_nat 0) with 0; lia|].
  cbn [app rnumber length]. rewrite IH, Nat2Z.inj_succ, Z.pow_succ_r by lia. ring.
Qed.

Lemma rnumber_bounds base l : 0 < base → digits base l → 0 ≤ rnumber base l < base ^ Z.of_nat (length l).
Proof.
  intros Hb Hd. rewrite <- number_reverse, <- (length_reverse l). apply number_bounds; [done|]. unfold digits. by rewrite Forall_reverse.
Qed.

Lemma bytes_of_length s : length (bytes_of s) = String.length s.
Proof. unfold bytes_of. rewrite length_fmap. induction s as [|a s IH]; simpl; [done | by rewrite IH]. Qed.

(** The three masks, on a byte. *)
Lemma byte_masks b : 0 ≤ b < 256 →
  (0 ≤ Z.land b 248 < 256 ∧ Z.land b 248 mod 8 = 0) ∧ 0 ≤ Z.land b 127 < 128 ∧ (0 ≤ b < 128 → 64 ≤ Z.lor b 64 < 128) ∧ 0 ≤ Z.lor b 64 < 256.
Proof.
  intros Hb. assert (Hall : forallb (λ n, let b := Z.of_nat n in
    (0 <=? Z.land b 248) && (Z.land b 248 <? 256) && (Z.land b 248 mod 8 =? 0) && (0 <=? Z.land b 127) && (Z.land b 127 <? 128) &&
    ((128 <=? b) || (64 <=? Z.lor b 64) && (Z.lor b 64 <? 128)) && (0 <=? Z.lor b 64) && (Z.lor b 64 <? 256)) (seq 0 256) = true) by reflexivity.
  rewrite forallb_forall in Hall. specialize (Hall (Z.to_nat b)). rewrite in_seq, Z2Nat.id in Hall by lia.
  specialize (Hall ltac:(lia)). cbn zeta in Hall. rewrite !andb_true_iff, !orb_true_iff, !andb_true_iff in Hall. lia.
Qed.

(** The scalar of RFC 7748, section 5: a multiple of the cofactor with the top bit set. *)
Lemma clamp_scalar k : String.length k = 32%nat →
  let n := rnumber 256 (bytes_of (clamp k)) in n mod 8 = 0 ∧ 2 ^ 254 ≤ n < 2 ^ 255.
Proof.
  intros Hk n. unfold n, clamp. pose proof (bytes_of_digits k) as Hd.
  rewrite !update_byte_bytes by (intros b Hb; pose proof (byte_masks b Hb); lia). rewrite <- bytes_of_length in Hk. clear n.
  destruct (bytes_of k) as [|b0 l]; [done|]. destruct l as [|b31 mid _] using rev_ind; [done|].
  apply Forall_cons in Hd as [Hb0 Hd]. apply Forall_app in Hd as [Hmid [Hb31 _]%Forall_cons].
  cbn [length] in Hk. rewrite length_app in Hk. cbn [length] in Hk. assert (Hlen : length mid = 30%nat) by lia.
  assert (Halt : ∀ f x, alter f 31%nat (Z.land b0 248 :: mid ++ [x]) = Z.land b0 248 :: mid ++ [f x]).
  { intros f x. replace 31%nat with (S (length mid + 0)) by lia. change (Z.land b0 248 :: alter f (length mid + 0)%nat (mid ++ [x]) = Z.land b0 248 :: mid ++ [f x]).
    by rewrite alter_app_r. }
  change (alter (λ b, Z.land b 248) 0%nat (b0 :: mid ++ [b31])) with (Z.land b0 248 :: mid ++ [b31]). rewrite !Halt.
  cbn [rnumber]. rewrite rnumber_app, Hlen. cbn [rnumber]. pose proof (rnumber_bounds 256 mid ltac:(lia) Hmid) as Hm. rewrite Hlen in Hm.
  destruct (byte_masks b0 Hb0) as ([Hx Hx8] & _). destruct (byte_masks b31 Hb31) as (_ & Hy & _). destruct (byte_masks (Z.land b31 127) ltac:(lia)) as (_ & _ & Hz & _).
  specialize (Hz ltac:(lia)). set (x := Z.land b0 248) in *. set (z := Z.lor (Z.land b31 127) 64) in *. set (m := rnumber 256 mid) in *.
  change (256 ^ Z.of_nat 30) with (2 ^ 240) in *. split; [|change (2 ^ 254) with (64 * 256 * 2 ^ 240); change (2 ^ 255) with (128 * 256 * 2 ^ 240); nia].
  replace (x + 256 * (m + 2 ^ 240 * (z + 256 * 0))) with (x + (32 * (m + 2 ^ 240 * z)) * 8) by ring. by rewrite Z_mod_plus_full.
Qed.

Section facts.
Context `{HR : Runtime} `{HP : Primitives} `{HB : Box} `{HRC : RelayCodec} `{HAC : AgentCodec}.
Context (Sum512 : string → string) (Sum512_length : ∀ s, String.length (Sum512 s) = 64%nat).

Lemma substring_length n s : (n ≤ String.length s)%nat → String.length (String.substring 0 n s) = n.
Proof. revert s. induction n as [|n IH]; intros [|a s]; simpl; intros Hn; try done; [lia|]. rewrite IH; lia. Qed.

Lemma tenant_keys_generated seed : String.length seed = 32%nat → generated (tenant_keys Sum512 seed).
Proof.
  intros Hs. split; [by exists seed | | done]. simpl. rewrite clamp_length, substring_length by (rewrite Sum512_length; lia). done.
Qed.

Lemma DeriveTenantIdentity_spec domain T seed ident : DeriveTenantIdentity Sum512 domain T seed = Ok ident →
  String.length seed = 32%nat ∧ i_DID ident = TenantDIDString domain T ∧ i_Keys ident = tenant_keys Sum512 seed.
Proof.
  unfold DeriveTenantIdentity, NewIdentityFromKeysTenant, identity_of. case_decide as Hl; [done|].
  destruct (ParseDID _); [|done]. by intros [= <-].
Qed.

Lemma DeriveTenantIdentity_ok domain T seed : String.length seed = 32%nat → is_Some (ParseDID (TenantDIDString domain T)) →
  ∃ ident, DeriveTenantIdentity Sum512 domain T seed = Ok ident.
Proof.
  intros Hs [d Hd]. unfold DeriveTenantIdentity, NewIdentityFromKeysTenant, identity_of. rewrite decide_False by (by intros []).
  unfold TenantDIDString in Hd. rewrite Hd. by eexists.
Qed.

(** What a gateway has after some calls: identities derived from seeds that came with a call,
    and one registration for each. *)
Record gateway_inv (domain : string) (calls : list (option Tenant)) (g : gatewayBridge) : Prop := {
  gi_domain : gb_domain g = domain;
  gi_derived T ident : gb_identCache g !! T = Some ident →
    ∃ t seed, Some t ∈ calls ∧ t_ID t = T ∧ t_DIDSeed t = Some seed ∧ DeriveTenantIdentity Sum512 domain T seed = Ok ident;
  gi_registered : gb_registered g = dom (gb_identCache g);
  gi_started ident T : (ident, T) ∈ gb_started g ↔ gb_identCache g !! T = Some ident;
  gi_once : NoDup (gb_started g).*2;
}.

Lemma gateway_inv_step domain calls g tenant : gateway_inv domain calls g → gateway_inv domain (calls ++ [tenant]) (tenantIdentity Sum512 g tenant).1.
Proof.
  intros [Hdom Hder Hreg Hst Honce].
  assert (Hkeep : gateway_inv domain (calls ++ [tenant]) g).
  { split; try done. intros T ident Hc. destruct (Hder T ident Hc) as (t & seed & Hin & ?). exists t, seed. split; [set_solver | done]. }
  destruct tenant as [t|]; [|done]. unfold tenantIdentity. case_decide; [done|]. destruct (gb_identCache g !! t_ID t) as [ident|] eqn:Hc; [done|].
  destruct (DeriveTenantIdentity _ _ _ _) as [ident|] eqn:Hd; [|done]. cbn [fst]. unfold remember.
  assert (Hnr : t_ID t ∉ gb_registered g) by (rewrite Hreg; by apply not_elem_of_dom).
  split; cbn [gb_domain gb_identCache gb_registered gb_started]; rewrite ?decide_False by done; [done | | | |].
  - intros T i [[<- <-]|[Hne Hl]]%lookup_insert_Some.
    + exists t, (default "" (t_DIDSeed t)). rewrite <- Hdom. split_and!; [set_solver | done | | done].
      destruct (t_DIDSeed t); [done|]. apply DeriveTenantIdentity_spec in Hd as [Hd _]. done.
    + destruct (Hder T i Hl) as (t' & seed & Hin & ?). exists t', seed. split; [set_solver | done].
  - by rewrite dom_insert_L, Hreg.
  - intros i T. rewrite elem_of_app, list_elem_of_singleton, Hst, lookup_insert_Some. split.
    + intros [Hl|[= -> ->]]; [right; split; [congruence | done] | by left].
    + intros [[<- <-]|[_ Hl]]; [by right | by left].
  - rewrite fmap_app. apply NoDup_app. split_and!; [done | | by apply NoDup_singleton].
    intros T ([i T'] & HT & Hin)%list_elem_of_fmap Hx. apply Hst in Hin. cbn in HT, Hx. apply list_elem_of_singleton in Hx. congruence.
Qed.

Lemma gateway_inv_serve domain calls : gateway_inv domain calls (serve Sum512 (NewGateway domain) calls).
Proof.
  unfold serve. induction calls as [|tenant calls IH] using rev_ind.
  - split; simpl; try done; [set_solver | by apply NoDup_nil_2].
  - rewrite foldl_app. cbn [foldl]. by apply gateway_inv_step.
Qed.

Context `{!PrimitivesLaws} `{!BoxLaws} `{!AgentCodecLaws}.

(** A tenant's signing key, as the relay is told of it. *)
Lemma registered_signing_key id id' ident T rec : a_PublicKeys rec = sr_PublicKeys (registerSubordinate id id' ident T) →
  ∃ key, GetSigningKey rec = Some key ∧ pk_Key key = Some (kp_PublicKey (ak_Signing (i_Keys ident))).
Proof. intros Hk. unfold GetSigningKey. rewrite Hk. simpl. by eexists. Qed.


(** Without a seed there is no identity of the tenant's own: the process speaks for itself. *)
Lemma unseeded_speaks_as_process e a g t to method params : String.length (default "" (t_DIDSeed t)) ≠ 32%nat →
  gateway_Send Sum512 e a g (Some t) to method params = (g, Send_begin e a to method params).
Proof. intros Hs. unfold gateway_Send, tenantIdentity. by rewrite decide_True. Qed.

End facts.

(** ** A tenant of a gateway that was granted [did:wba:t:*] *)

Module Example.

Definition Sum512_example (s : string) : string := text32 +:+ text32.

Definition tenant : Tenant := NewTenant ∅ "x" text32 0 "Acme" "a@acme.test" PlanFree.
Definition did : string := "did:wba:t:tenant:x".

Definition ident : Identity :=
  {| i_DID := did; i_Document := buildDocument did (tenant_keys (HP := primitives_example) (HB := box_example) Sum512_example text32);
     i_Keys := tenant_keys (HP := primitives_example) (HB := box_example) Sum512_example text32 |}.

(** What the relay keeps of the registered identity, and an agent that knows it. *)
Definition record : Agent := a_with_parts (NewAgent (uuid_lit 2) 0 did did) "" (sr_PublicKeys (registerSubordinate "k1" "k2" ident "x")) [] [].
Definition bob : LocalAgent :=
  let b := agent_example "did:wba:bob" "did:wba:gw" ∅ in ag_with_store b (ag_record b) (put_agent NewMemoryStore record).
Definition gw : LocalAgent := agent_example "did:wba:gw" "did:wba:bob" ∅.
Definition request : Message :=
  default zero_message (NewRequest (@Marshal_any agent_codec_example) (uuid_lit 3) 5 did "did:wba:bob" "chat" (Some (JString "hi"))).


End Example.
