(* ===== verification/Dashboard.v ===== *)
(** * The dashboard (src/cmd/dashboard: api.go, middleware.go)

    The API a signed-in tenant uses: its account, its keys, its usage, and the checkout pages
    of the relay.  The tenant comes from the OpenID middleware of [BillingHttp]; keys live in
    the store of [Billing].  Paths are taken as the router of net/http cleans them. *)

From S2P Require Import Prelude Crypto Reliability Billing Http BillingHttp Gateway.
From Stdlib Require Import QArith Lqa.
#[local] Open Scope Z_scope.

Definition StatusOK : Z := 200.
Definition StatusCreated : Z := 201.
Definition StatusNotFound : Z := 404.
Definition StatusNotImplemented : Z := 501.

(** ** The limit on key creation (middleware.go) *)

Record kcBucket := { kc_tokens : Q; kc_lastUpdate : Z; kc_lastSeen : Z }.
Abbreviation keyCreateLimiter := (gmap string kcBucket).

Definition kcCapacity : Q := 10.
Definition kcRate : Q := 10 # 3600.
Definition kcGCIdle : Z := 2 * Hour.

Definition kc_get (now : Z) (l : keyCreateLimiter) (tenantID : string) : kcBucket :=
  match l !! tenantID with
  | Some b => {| kc_tokens := kc_tokens b; kc_lastUpdate := kc_lastUpdate b; kc_lastSeen := now |}
  | None => {| kc_tokens := kcCapacity; kc_lastUpdate := now; kc_lastSeen := now |}
  end.

(** The tokens after the refill. *)
Definition kc_refill (now : Z) (b : kcBucket) : Q :=
  let t := (kc_tokens b + Seconds (now - kc_lastUpdate b) * kcRate)%Q in
  if Qle_bool t kcCapacity then t else kcCapacity.

Definition allow (now : Z) (l : keyCreateLimiter) (tenantID : string) : bool * keyCreateLimiter :=
  let t := kc_refill now (kc_get now l tenantID) in
  let ok := Qle_bool 1 t in
  (ok, <[tenantID := {| kc_tokens := if ok then (t - 1)%Q else t; kc_lastUpdate := now; kc_lastSeen := now |}]> l).

(** One tick of [gcLoop]. *)
Definition kc_gc (now : Z) (l : keyCreateLimiter) : keyCreateLimiter := filter (λ kv, ¬ kc_lastSeen kv.2 < now - kcGCIdle) l.

Definition retryAfterSecs (l : keyCreateLimiter) (tenantID : string) : Z :=
  match l !! tenantID with
  | None => 0
  | Some b => if Qle_bool 1 (kc_tokens b) then 0 else Qround.Qfloor ((1 - kc_tokens b) / kcRate) + 1
  end.

(** ** Pages (api.go) *)

Definition defaultPageLimit : Z := 100.
Definition maxPageLimit : Z := 500.

Record page (A : Type) := { pg_Items : list A; pg_Total : Z; pg_Limit : Z; pg_Offset : Z }.
Arguments pg_Items {A} _.
Arguments pg_Total {A} _.
Arguments pg_Limit {A} _.
Arguments pg_Offset {A} _.

Definition digit_of (a : Ascii.ascii) : option Z :=
  let n := Ascii.nat_of_ascii a in if ((48 <=? n) && (n <=? 57))%nat then Some (Z.of_nat n - 48) else None.

Fixpoint digits_value (acc : Z) (s : string) : option Z :=
  match s with EmptyString => Some acc | String a s => match digit_of a with Some d => digits_value (10 * acc + d) s | None => None end end.

Definition int_range (z : Z) : option Z := if decide (- 2 ^ 63 ≤ z < 2 ^ 63) then Some z else None.

(** [strconv.Atoi]; [None] is an error. *)
Definition Atoi (s : string) : option Z :=
  match s with
  | EmptyString => None
  | String a rest =>
      if decide (a = Ascii.ascii_of_nat 45) then (if decide (rest = "") then None else v ← digits_value 0 rest; int_range (- v))
      else if decide (a = Ascii.ascii_of_nat 43) then (if decide (rest = "") then None else v ← digits_value 0 rest; int_range v)
      else v ← digits_value 0 s; int_range v
  end.

(** A number of the query, when it is one and is accepted. *)
Definition query_int (v : string) (accept : Z → bool) (dflt : Z) : Z :=
  if decide (v = "") then dflt
  else match Atoi v with Some n => if accept n then n else dflt | None => dflt end.

Definition paginate {A} (limit_text offset_text : string) (items : list A) : page A :=
  let limit := query_int limit_text (λ n, 0 <? n) defaultPageLimit in
  let limit := if maxPageLimit <? limit then maxPageLimit else limit in
  let offset := query_int offset_text (λ n, 0 <=? n) 0 in
  let total := Z.of_nat (length items) in
  if total <=? offset then {| pg_Items := []; pg_Total := total; pg_Limit := limit; pg_Offset := offset |}
  else
    let end_ := if total <? offset + limit then total else offset + limit in
    {| pg_Items := take (Z.to_nat (end_ - offset)) (drop (Z.to_nat offset) items); pg_Total := total; pg_Limit := limit; pg_Offset := offset |}.

(** ** Requests and answers *)

Record meResponse := {
  me_ID : string; me_Name : string; me_Email : string; me_EmailVerified : bool; me_Plan : Plan; me_BillingStatus : string;
  me_Quota : QuotaConfig; me_DID : string; me_SigningPublicKey : string; me_EncryptionPublicKey : string;
}.

Record keyListItem := { ki_ID : string; ki_Label : string; ki_CreatedAt : Z; ki_KeyPrefix : string; ki_RevokedAt : option Z }.
Record createKeyResponse := { ck_ID : string; ck_Key : string; ck_Label : string }.
Record usageRow := { ur_Period : string; ur_Event : string; ur_Count : Z }.

Inductive DashboardReply :=
| ReplyError (e : HTTPError)
| ReplyMe (me : meResponse)
| ReplyKeys (p : page keyListItem)
| ReplyCreated (k : createKeyResponse)
| ReplyRevoked
| ReplyRateLimited (retryAfter : Z)
| ReplyUsage (p : page usageRow)
| ReplyNoUsage
| ReplyNoRelay
| ReplyRelayDown (text : string)
| ReplyRelayed (code : Z) (body : string).

(** A request, and what its query and its body read as. *)
Record DashboardRequest := { dr_http : Request; dr_query : string → string; dr_body : option string }.

(** The POST that is forwarded to the relay. *)
Record RelayCall := { rc_URL : string; rc_Authorization : string; rc_Body : string }.

(** What a request meets: the clock, the random text of a key and its identifier, the order of
    a range over the keys, the aggregates, and the answer of the relay. *)
Record DashboardEnv := {
  de_http : HttpEnv;
  de_env : string;
  de_keyID : string;
  de_encoded : option string;
  de_keyOrder : list string;
  de_aggregates : option (result string (list UsageSnapshot));
  de_relay : RelayCall → result string (Z * string);
}.

(** [application]: the store, when there is one, and the settings. *)
Record application := { app_store : option BillingStore; app_relayURL : string; app_domain : string; app_limiter : keyCreateLimiter }.

Definition app_with_store (app : application) (s : BillingStore) : application :=
  {| app_store := Some s; app_relayURL := app_relayURL app; app_domain := app_domain app; app_limiter := app_limiter app |}.
Definition app_with_limiter (app : application) (l : keyCreateLimiter) : application :=
  {| app_store := app_store app; app_relayURL := app_relayURL app; app_domain := app_domain app; app_limiter := l |}.

Section dashboard.
Context `{HR : Runtime} `{HP : Primitives} `{HB : Box}.
(** SHA-512, SHA-256 in hexadecimal, base64, and the label in a JSON body. *)
Context (Sum512 hashKey base64 : string → string) (Decode_label : string → option string).
Implicit Types (app : application) (e : DashboardEnv) (r : DashboardRequest).

(** The JSON text of the error for a missing store. *)
Definition no_store_text : string :=
  let q := String (Ascii.ascii_of_nat 34) "" in
  "{" +:+ q +:+ "error" +:+ q +:+ ":" +:+ q +:+ "billing store not configured" +:+ q +:+ "}".

Abbreviation Reply := (application * list RelayCall * DashboardReply)%type.
Definition answer app (d : DashboardReply) : Reply := (app, [], d).
Definition refuse app (code : Z) (text : string) : Reply := answer app (ReplyError (fail code text)).

Definition requireTenant app (ctx : option Tenant) (k : Tenant → Reply) : Reply :=
  match ctx with None => refuse app StatusUnauthorized "authentication required" | Some t => k t end.
Definition requireStore app (k : BillingStore → Reply) : Reply :=
  match app_store app with None => refuse app StatusNotImplemented no_store_text | Some s => k s end.
Definition requireMethod app r (m : string) (k : Reply) : Reply :=
  if decide (rq_Method (dr_http r) = m) then k else refuse app StatusMethodNotAllowed "method not allowed".

Definition me_of app (t : Tenant) : meResponse :=
  let derived := if decide (String.length (default "" (t_DIDSeed t)) = 32%nat)
                 then match DeriveTenantIdentity Sum512 (app_domain app) (t_ID t) (default "" (t_DIDSeed t)) with Ok i => Some i | Err _ => None end
                 else None in {|
  me_ID := t_ID t; me_Name := t_Name t; me_Email := t_Email t; me_EmailVerified := bool_decide (is_Some (t_EmailVerifiedAt t));
  me_Plan := t_Plan t; me_BillingStatus := t_BillingStatus t; me_Quota := t_Quota t;
  me_DID := from_option i_DID "" derived;
  me_SigningPublicKey := from_option (λ i, base64 (kp_PublicKey (ak_Signing (i_Keys i)))) "" derived;
  me_EncryptionPublicKey := from_option (λ i, base64 (kp_PublicKey (ak_Encryption (i_Keys i)))) "" derived;
|}.

Definition handleMe app (ctx : option Tenant) r : Reply :=
  requireMethod app r "GET" (requireTenant app ctx (λ t, answer app (ReplyMe (me_of app t)))).

Definition key_item (k : APIKey) : keyListItem :=
  {| ki_ID := k_ID k; ki_Label := k_Name k; ki_CreatedAt := k_CreatedAt k; ki_KeyPrefix := k_Prefix k; ki_RevokedAt := k_RevokedAt k |}.

(** The body is read up to 4096 bytes. *)
Definition create_key e app r (s : BillingStore) (t : Tenant) : Reply :=
  let now := he_now (de_http e) in
  let '(ok, l) := allow now (app_limiter app) (t_ID t) in
  let app := app_with_limiter app l in
  if negb ok then answer app (ReplyRateLimited (retryAfterSecs l (t_ID t)))
  else match dr_body r ≫= (λ b, Decode_label (String.substring 0 4096 b)) with
       | None => refuse app StatusBadRequest "invalid JSON"
       | Some label =>
           let label := if decide (label = "") then "API Key"%string else label in
           if (64 <? String.length label)%nat then refuse app StatusBadRequest "label too long (max 64 characters)"
           else match (encoded ← de_encoded e; GenerateAPIKey hashKey (de_env e) (de_keyID e) encoded now (t_ID t) label) with
                | None => refuse app StatusInternalServerError "failed to generate key"
                | Some (plaintext, record) =>
                    answer (app_with_store app (PutAPIKey s record))
                      (ReplyCreated {| ck_ID := k_ID record; ck_Key := plaintext; ck_Label := k_Name record |})
                end
       end.

Definition handleKeys e app (ctx : option Tenant) r : Reply :=
  requireTenant app ctx (λ t, requireStore app (λ s,
    if decide (rq_Method (dr_http r) = "GET"%string) then
      answer app (ReplyKeys (paginate (dr_query r "limit") (dr_query r "offset") (key_item <$> ListAPIKeys s (t_ID t))))
    else if decide (rq_Method (dr_http r) = "POST"%string) then create_key e app r s t
    else refuse app StatusMethodNotAllowed "method not allowed")).

Definition keys_path : string := "/api/dashboard/keys/".

Definition handleKeyByID e app (ctx : option Tenant) r : Reply :=
  requireMethod app r "DELETE" (requireTenant app ctx (λ t, requireStore app (λ s,
    let path := rq_Path (dr_http r) in
    let keyID := if HasPrefix path keys_path then from (String.length keys_path) path else path in
    if decide (keyID = ""%string) then refuse app StatusBadRequest "key id required"
    else if negb (existsb (λ k, String.eqb (k_ID k) keyID) (ListAPIKeys s (t_ID t))) then refuse app StatusNotFound "key not found"
    else match RevokeAPIKey (de_keyOrder e) (he_now (de_http e)) s keyID with
         | (s, Some _) => refuse (app_with_store app s) StatusInternalServerError "failed to revoke key"
         | (s, None) => answer (app_with_store app s) ReplyRevoked
         end))).

Definition usage_rows (t : Tenant) (period : string) (snapshots : list UsageSnapshot) : list usageRow :=
  (λ s, {| ur_Period := us_Period s; ur_Event := us_Event s; ur_Count := us_Count s |}) <$>
  filter (λ s, us_TenantID s = t_ID t ∧ (period = ""%string ∨ us_Period s = period)) snapshots.

Definition handleUsage e app (ctx : option Tenant) r : Reply :=
  requireMethod app r "GET" (requireTenant app ctx (λ t,
    match de_aggregates e with
    | None => answer app ReplyNoUsage
    | Some (Err _) => refuse app StatusInternalServerError "failed to load usage"
    | Some (Ok snapshots) =>
        answer app (ReplyUsage (paginate (dr_query r "limit") (dr_query r "offset") (usage_rows t (dr_query r "period") snapshots)))
    end)).

(** The body is read up to 8192 bytes, and the answer up to 65536. *)
Definition proxyToRelay e app r (path : string) : Reply :=
  if decide (app_relayURL app = ""%string) then answer app ReplyNoRelay
  else match dr_body r with
       | None => refuse app StatusBadRequest "failed to read request body"
       | Some body =>
           let call := {| rc_URL := trim_right_by is_slash (app_relayURL app) +:+ path; rc_Authorization := rq_Authorization (dr_http r);
                          rc_Body := String.substring 0 (N.to_nat 8192) body |} in
           (app, [call],
            match de_relay e call with
            | Err text => ReplyRelayDown text
            | Ok (code, body) => ReplyRelayed code (String.substring 0 (N.to_nat 65536) body)
            end)
       end.

Definition handleCheckout e app (ctx : option Tenant) r : Reply :=
  requireMethod app r "POST" (requireTenant app ctx (λ _, proxyToRelay e app r "/api/billing/checkout")).
Definition handlePortal e app (ctx : option Tenant) r : Reply :=
  requireMethod app r "POST" (requireTenant app ctx (λ _, proxyToRelay e app r "/api/billing/portal")).

Definition apiRouter e app (ctx : option Tenant) r : Reply :=
  let path := rq_Path (dr_http r) in
  if decide (path = "/api/dashboard/me"%string) then handleMe app ctx r
  else if decide (path = "/api/dashboard/keys"%string) then handleKeys e app ctx r
  else if HasPrefix path keys_path then handleKeyByID e app ctx r
  else if decide (path = "/api/dashboard/usage"%string) then handleUsage e app ctx r
  else if decide (path = "/api/dashboard/checkout"%string) then handleCheckout e app ctx r
  else if decide (path = "/api/dashboard/portal"%string) then handlePortal e app ctx r
  else refuse app StatusNotFound "404 page not found".

(** The API as main.go mounts it: behind the OpenID middleware when both a store and a
    validator are configured, and closed otherwise. *)
Definition dashboard_api (overrides : gmap string QuotaConfig) (validator : option (string → result string OAuthClaims)) (autoProvision : Plan)
    e app r : Reply :=
  match validator, app_store app with
  | Some validate, Some s =>
      let g := {| g_store := s; g_limiter := ∅ |} in
      match OAuth2Middleware overrides validate autoProvision (λ _ ctx _ g, (g, Answered ctx)) (de_http e) None (dr_http r) g with
      | (g, Refused err) => answer (app_with_store app (g_store g)) (ReplyError err)
      | (g, Answered ctx) => apiRouter e (app_with_store app (g_store g)) ctx r
      end
  | None, _ => refuse app StatusServiceUnavailable "dashboard API unavailable: OAuth2 not configured (set MSG2AGENT_OAUTH2_ISSUER_URL)"
  | Some _, None => refuse app StatusServiceUnavailable "dashboard API unavailable: billing store not configured"
  end.

End dashboard.

(** ** Pages *)

Lemma paginate_items {A} lt ot n o (items : list A) : Atoi lt = Some n → 0 < n ≤ maxPageLimit → Atoi ot = Some o → 0 ≤ o →
  pg_Items (paginate lt ot items) = take (Z.to_nat n) (drop (Z.to_nat o) items).
Proof.
  intros Hn Hnr Ho Hor. unfold paginate, query_int. unfold maxPageLimit in *.
  assert (Hlt : lt ≠ "") by (intros ->; done). assert (Hot : ot ≠ "") by (intros ->; done). rewrite !decide_False by done. rewrite Hn, Ho.
  rewrite (proj2 (Z.ltb_lt 0 n)), (proj2 (Z.leb_le 0 o)) by lia. rewrite (proj2 (Z.ltb_ge 500 n)) by lia.
  destruct (Z.leb_spec (Z.of_nat (length items)) o) as [Hout|Hin]; cbn [pg_Items].
  - rewrite drop_ge by lia. by rewrite take_nil.
  - destruct (Z.ltb_spec (Z.of_nat (length items)) (o + n)); [|by replace (o + n - o) with n by lia].
    rewrite !take_ge; [done | rewrite length_drop; lia..].
Qed.

(** The pages of [n] items at the offsets 0, n, 2n, … list all items, each once and in order,
    as soon as there are enough of them. *)
Lemma pages_cover {A} lt (off : nat → string) n m (items : list A) : Atoi lt = Some n → 0 < n ≤ maxPageLimit →
  (∀ i, (i < m)%nat → Atoi (off i) = Some (Z.of_nat i * n)) → (length items ≤ m * Z.to_nat n)%nat →
  concat ((λ i, pg_Items (paginate lt (off i) items)) <$> seq 0 m) = items.
Proof.
  intros Hn Hnr Hoff Hlen. transitivity (take (m * Z.to_nat n) items); [clear Hlen | by apply take_ge].
  induction m as [|m IH]; [done|]. rewrite seq_S, fmap_app, concat_app, IH by (intros; apply Hoff; lia). cbn [fmap list_fmap concat Nat.add]. rewrite app_nil_r.
  rewrite (paginate_items lt (off m) n (Z.of_nat m * n)) by (try done; try apply Hoff; lia).
  replace (Z.to_nat (Z.of_nat m * n)) with (m * Z.to_nat n)%nat by lia. replace (S m * Z.to_nat n)%nat with (m * Z.to_nat n + Z.to_nat n)%nat by lia.
  by rewrite take_take_drop.
Qed.

(** ** The limiter *)

#[local] Open Scope Q_scope.

Definition kc_ok (now : Z) (b : kcBucket) : Prop := 0 <= kc_tokens b /\ kc_lastSeen b = kc_lastUpdate b /\ (kc_lastUpdate b ≤ now)%Z.

(** The collector removes only buckets that are full again, so that it decides nothing. *)
Lemma kc_gc_neutral now l T : (∀ b, l !! T = Some b → kc_ok now b) → (allow now (kc_gc now l) T).1 = (allow now l T).1.
Proof.
  intros Hok. unfold allow, kc_get, kc_gc. cbn [fst]. destruct (l !! T) as [b|] eqn:Hb; [|by rewrite map_lookup_filter_None_2 by (by left)].
  destruct (Hok b eq_refl) as (Ht & Hs & Hle). destruct (decide (kc_lastSeen b < now - kcGCIdle)%Z) as [Hold|Hnew].
  - rewrite map_lookup_filter_None_2; [|right; intros b' Hb'; simplify_eq; simpl; tauto].
    assert (Hfull : ∀ q, Qle_bool 1 (if Qle_bool q kcCapacity then q else kcCapacity) = Qle_bool 1 q).
    { intros q. destruct (Qle_bool q kcCapacity) eqn:Hq; [done|]. symmetry. change (Qle_bool 1 kcCapacity) with true. apply Qle_bool_iff.
      assert (¬ q <= kcCapacity) by (intros H; apply Qle_bool_iff in H; congruence). unfold kcCapacity in *. lra. }
    unfold kc_refill. cbn [kc_tokens kc_lastUpdate]. rewrite !Hfull. rewrite Z.sub_diag.
    change (Qle_bool 1 (kcCapacity + Seconds 0 * kcRate)) with true. symmetry. apply Qle_bool_iff.
    assert (Hh : 7200 <= Seconds (now - kc_lastUpdate b)).
    { unfold kcGCIdle in Hold. rewrite Hs in Hold. replace (now - kc_lastUpdate b)%Z with (2 * Hour + (now - kc_lastUpdate b - 2 * Hour))%Z by lia.
      rewrite Seconds_add. pose proof (Seconds_nonneg (now - kc_lastUpdate b - 2 * Hour) ltac:(lia)). assert (Seconds (2 * Hour) == 7200) by reflexivity. lra. }
    unfold kcRate. lra.
  - by rewrite (map_lookup_filter_Some_2 _ l T b Hb).
Qed.

#[local] Close Scope Q_scope.

(** ** A tenant sees and changes its own *)

Lemma paginate_sublist {A} lt ot (items : list A) : pg_Items (paginate lt ot items) `sublist_of` items.
Proof.
  unfold paginate. case_match; cbn [pg_Items]; [apply sublist_nil_l|]. etransitivity; [apply sublist_take | apply sublist_drop].
Qed.

Lemma key_token env encoded : let plain := keyEnvPrefix env +:+ encoded in
  HasPrefix plain apiKeyPrefixLive || HasPrefix plain apiKeyPrefixTest || HasPrefix plain apiKeyPrefixLegacy = true.
Proof.
  intros plain. unfold plain, keyEnvPrefix. rewrite !orb_true_iff, !HasPrefix_spec.
  case_decide; [left; right | left; left]; by exists encoded.
Qed.

Section facts.
Context `{HR : Runtime} `{HP : Primitives} `{HB : Box}.
Context (Sum512 hashKey base64 : string → string) (Decode_label : string → option string).

(** The keys have distinct identifiers, which the range visits, and the random key is new. *)
Record keys_ok (e : DashboardEnv) (s : BillingStore) : Prop := {
  ko_ids h h' k k' : keys s !! h = Some k → keys s !! h' = Some k' → k_ID k = k_ID k' → h = h';
  ko_order : RangeOrder (keys s) (de_keyOrder e);
  ko_fresh encoded : de_encoded e = Some encoded → keys s !! hashKey (keyEnvPrefix (de_env e) +:+ encoded) = None;
}.

Definition stored (e : DashboardEnv) (t : Tenant) (s s' : BillingStore) (d : DashboardReply) : Prop :=
  match d with
  | ReplyCreated c => ∃ h k, HashAPIKey hashKey (ck_Key c) = Ok h ∧ k_ID k = ck_ID c ∧ k_TenantID k = t_ID t ∧ (∀ now, IsValid now k = true) ∧
                             keys s !! h = None ∧ s' = with_keys s (<[h := k]> (keys s))
  | ReplyRevoked => ∃ h k, keys s !! h = Some k ∧ k_TenantID k = t_ID t ∧ s' = with_keys s (<[h := revoke (he_now (de_http e)) k]> (keys s))
  | _ => s' = s
  end.

Definition shown (e : DashboardEnv) (t : Tenant) (s : BillingStore) (d : DashboardReply) : Prop :=
  match d with
  | ReplyMe me => me_ID me = t_ID t ∧ me_Email me = t_Email t
  | ReplyKeys p => ∀ i, i ∈ pg_Items p → ∃ h k, keys s !! h = Some k ∧ k_TenantID k = t_ID t ∧ i = key_item k
  | ReplyUsage p => ∀ u, u ∈ pg_Items p → ∃ snaps x, de_aggregates e = Some (Ok snaps) ∧ x ∈ snaps ∧ us_TenantID x = t_ID t ∧
      u = {| ur_Period := us_Period x; ur_Event := us_Event x; ur_Count := us_Count x |}
  | _ => True
  end.

(** A call to the relay carries the credential of the request, to one of two addresses. *)
Definition relayed (app : application) (r : DashboardRequest) (c : RelayCall) : Prop :=
  rc_Authorization c = rq_Authorization (dr_http r) ∧
  rc_URL c ∈ [trim_right_by is_slash (app_relayURL app) +:+ "/api/billing/checkout"; trim_right_by is_slash (app_relayURL app) +:+ "/api/billing/portal"].

Definition confined (e : DashboardEnv) (t : Tenant) (app : application) (r : DashboardRequest) (s : BillingStore)
    (run : application * list RelayCall * DashboardReply) : Prop :=
  let '(app', calls, d) := run in
  (∃ s', app_store app' = Some s' ∧ stored e t s s' d) ∧ shown e t s d ∧ Forall (relayed app r) calls ∧ (length calls ≤ 1)%nat.

(** A reply that changes no store and calls nobody. *)
Lemma confined_answer e t app app' r s d : app_store app' = Some s → stored e t s s d → shown e t s d → confined e t app r s (answer app' d).
Proof. intros Hs Hd Hsh. unfold confined, answer. split_and!; [by exists s | done | done | simpl; lia]. Qed.

Lemma create_key_confined e t app r s : app_store app = Some s → keys_ok e s → confined e t app r s (create_key hashKey Decode_label e app r s t).
Proof.
  intros Hs Hok. unfold create_key. destruct (allow _ _ _) as [[] l]; [|by apply confined_answer]. cbn [negb].
  destruct (dr_body r ≫= _) as [label|]; [|by apply confined_answer]. case_match; [by apply confined_answer|].
  destruct (de_encoded e) as [encoded|] eqn:He; [|by apply confined_answer]. cbn [mbind option_bind]. unfold GenerateAPIKey.
  destruct (_ <? 8)%nat; [by apply confined_answer|]. set (plain := keyEnvPrefix (de_env e) +:+ encoded). set (k := Build_APIKey _ _ _ _ _ _ _ _).
  unfold confined, answer. split_and!; [|done | done | simpl; lia]. exists (PutAPIKey s k). split; [done|].
  cbn [stored ck_Key ck_ID]. exists (hashKey plain), k. unfold HashAPIKey, plain. rewrite key_token. split_and!; try done. by apply (ko_fresh _ _ Hok).
Qed.

Lemma handleKeys_confined e t app r s : app_store app = Some s → keys_ok e s → confined e t app r s (handleKeys hashKey Decode_label e app (Some t) r).
Proof.
  intros Hs Hok. unfold handleKeys, requireTenant, requireStore. rewrite Hs. case_decide.
  - apply confined_answer; [done | done |]. intros i Hi. pose proof (elem_of_sublist _ _ _ Hi (paginate_sublist _ _ _)) as (k & -> & Hk)%list_elem_of_fmap.
    apply list_elem_of_filter in Hk as [Ht Hk]. apply list_elem_of_fmap in Hk as ([h k'] & -> & Hk). apply elem_of_map_to_list in Hk. by exists h, k'.
  - case_decide; [by apply create_key_confined | by apply confined_answer].
Qed.

Lemma handleKeyByID_confined e t app r s : app_store app = Some s → keys_ok e s → confined e t app r s (handleKeyByID e app (Some t) r).
Proof.
  intros Hs Hok. unfold handleKeyByID, requireMethod, requireTenant, requireStore. rewrite Hs.
  case_decide; [|by apply confined_answer]. set (keyID := if HasPrefix _ _ then _ else _).
  case_decide; [by apply confined_answer|]. destruct (existsb _ _) eqn:Hex; [|by apply confined_answer].
  apply existsb_exists in Hex as (k & Hin & Hid). apply String.eqb_eq in Hid. apply list_elem_of_In, list_elem_of_filter in Hin as [Ht Hin].
  apply list_elem_of_fmap in Hin as ([h k'] & -> & Hk). apply elem_of_map_to_list in Hk. cbn [snd] in *. cbn [negb].
  unfold RevokeAPIKey. rewrite (revoke_loop_unique _ s keyID (de_keyOrder e) h k').
  - unfold confined, answer. split_and!; [|done | done | simpl; lia]. eexists. split; [done|]. by exists h, k'.
  - apply (range_order_NoDup _ _ (ko_order _ _ Hok)).
  - apply (range_order_elem_of _ _ _ (ko_order _ _ Hok)). eauto.
  - done.
  - done.
  - intros h' k'' Hk'' Hid''. eapply (ko_ids _ _ Hok); [exact Hk'' | exact Hk | congruence].
Qed.

Lemma proxy_confined e t app r s path : app_store app = Some s → path ∈ ["/api/billing/checkout"; "/api/billing/portal"] →
  confined e t app r s (proxyToRelay e app r path).
Proof.
  intros Hs Hp. unfold proxyToRelay. case_decide; [by apply confined_answer|]. destruct (dr_body r) as [body|]; [|by apply confined_answer].
  unfold confined. split_and!; [exists s; split; [done | by repeat case_match] | by repeat case_match | | simpl; lia].
  constructor; [|done]. split; [done|]. cbn [rc_URL]. apply elem_of_cons in Hp as [->|Hp]; [set_solver|]. apply list_elem_of_singleton in Hp as ->. set_solver.
Qed.

Lemma apiRouter_confined e t app r s : app_store app = Some s → keys_ok e s →
  confined e t app r s (apiRouter Sum512 hashKey base64 Decode_label e app (Some t) r).
Proof.
  intros Hs Hok. unfold apiRouter. case_decide.
  { unfold handleMe, requireMethod, requireTenant. case_decide; by apply confined_answer. }
  case_decide; [by apply handleKeys_confined|]. case_match; [by apply handleKeyByID_confined|]. case_decide.
  { unfold handleUsage, requireMethod, requireTenant. case_decide; [|by apply confined_answer].
    destruct (de_aggregates e) as [[snaps|]|] eqn:Ha; [|by apply confined_answer..]. apply confined_answer; [done | done|].
    intros u Hu. pose proof (elem_of_sublist _ _ _ Hu (paginate_sublist _ _ _)) as (x & -> & Hx)%list_elem_of_fmap.
    apply list_elem_of_filter in Hx as [[Ht _] Hx]. by exists snaps, x. }
  case_decide; [|case_decide; [|by apply confined_answer]]; unfold handleCheckout, handlePortal, requireMethod, requireTenant;
    (case_decide; [apply proxy_confined; [done | set_solver] | by apply confined_answer]).
Qed.

(** Without a tenant every answer is an error. *)
Lemma apiRouter_anonymous e app r : ∃ err, apiRouter Sum512 hashKey base64 Decode_label e app None r = (app, [], ReplyError err).
Proof.
  unfold apiRouter, handleMe, handleKeys, handleKeyByID, handleUsage, handleCheckout, handlePortal, requireMethod, requireTenant, refuse, answer.
  repeat case_decide; try case_match; by eexists.
Qed.

(** C35. A request to the dashboard either fails, or it carried an OpenID token that the
    validator accepted, of an identity that stands for an active tenant; then it shows that
    tenant its own account, keys and usage, and the only change to the store is one new key
    of the tenant, valid and found under the hash of the text the tenant was given, or the
    revocation of one of its keys; the relay is called at most once, with the tenant's own
    credential.  A request that fails leaves all keys as they are. *)
Theorem dashboard_confined overrides validator autoProvision e app s r : app_store app = Some s → keys_ok e s →
  let '(app', calls, d) := dashboard_api Sum512 hashKey base64 Decode_label overrides validator autoProvision e app r in
  (∃ err s', d = ReplyError err ∧ calls = [] ∧ app_store app' = Some s' ∧ keys s' = keys s) ∨
  ∃ validate tok claims id t s1, validator = Some validate ∧ bearer_token (dr_http r) = Some tok ∧ IsAPIKeyToken tok = false ∧ validate tok = Ok claims ∧
    resolve_identity overrides autoProvision (de_http e) s claims = (s1, Ok id) ∧ GetTenant s1 id = Ok t ∧ IsActive t = true ∧ keys s1 = keys s ∧
    confined e t app r s1 (app', calls, d).
Proof.
  intros Hs Hok. destruct (dashboard_api _ _ _ _ _ _ _ _ _ _) as [[app' calls] d] eqn:Hrun. unfold dashboard_api in Hrun.
  rewrite Hs in Hrun. destruct validator as [validate|]; [|injection Hrun as <- <- <-; left; by eexists _, s].
  assert (Hres : ∀ claims, keys (resolve_identity overrides autoProvision (de_http e) s claims).1 = keys s).
  { intros claims. unfold resolve_identity. by repeat case_match. }
  unfold OAuth2Middleware in Hrun. cbn [g_store] in Hrun.
  assert (Hanon : ∀ app0 s0, app_store app0 = Some s0 → keys s0 = keys s →
    apiRouter Sum512 hashKey base64 Decode_label e app0 None r = (app', calls, d) →
    (∃ err s', d = ReplyError err ∧ calls = [] ∧ app_store app' = Some s' ∧ keys s' = keys s)).
  { intros app0 s0 H0 Hk Ha. destruct (apiRouter_anonymous e app0 r) as [err Herr]. rewrite Herr in Ha. injection Ha as <- <- <-. by exists err, s0. }
  destruct (decide (rq_Authorization (dr_http r) = "")); [left; by refine (Hanon _ s _ _ Hrun)|]. destruct (bearer_token (dr_http r)) as [tok|] eqn:Hb; [|left; by refine (Hanon _ s _ _ Hrun)].
  destruct (IsAPIKeyToken tok) eqn:Hapi; [left; by refine (Hanon _ s _ _ Hrun)|]. destruct (validate tok) as [claims|text] eqn:Hv; [|injection Hrun as <- <- <-; left; by eexists _, s].
  specialize (Hres claims). destruct (resolve_identity _ _ _ _ _) as [s1 [id|err]] eqn:Hr; cbn [fst] in Hres; cbn [with_store g_store] in Hrun;
    [|injection Hrun as <- <- <-; left; by eexists _, s1].
  destruct (GetTenant s1 id) as [t|] eqn:Ht; cbn [g_store] in Hrun; [|injection Hrun as <- <- <-; left; by eexists _, s1].
  destruct (IsActive t) eqn:Hact; cbn [negb] in Hrun; [|injection Hrun as <- <- <-; left; by eexists _, s1].
  right. exists validate, tok, claims, id, t, s1. split_and!; try done. rewrite <- Hrun.
  change (relayed app r) with (relayed (app_with_store app s1) r).
  apply (apiRouter_confined e t (app_with_store app s1) r s1); [done|]. destruct Hok as [H1 H2 H3]. split; rewrite Hres; done.
Qed.

End facts.

(** ** A tenant that creates a key and revokes it *)

Module Example.

Definition tenant : Tenant := NewTenant ∅ "t1" text32 0 "Acme" "a@acme.test" PlanFree.
Definition store : BillingStore := PutOAuthIdentity (PutTenant NewBillingStore tenant) "iss" "sub" "t1".
Definition app : application := {| app_store := Some store; app_relayURL := "http://relay/"; app_domain := "example.com"; app_limiter := ∅ |}.
Definition env (order : list string) : DashboardEnv := {|
  de_http := {| he_now := 5; he_newID := "t2"; he_seed := None |}; de_env := "production"; de_keyID := "k1"; de_encoded := Some "abcdefghij";
  de_keyOrder := order; de_aggregates := None; de_relay := λ _, Err "down" |}.
Definition request (method path : string) (body : option string) : DashboardRequest := {|
  dr_http := {| rq_Method := method; rq_Path := path; rq_Authorization := "Bearer tok"; rq_XRealIP := ""; rq_XForwardedFor := ""; rq_RemoteAddr := "" |};
  dr_query := λ _, ""; dr_body := body |}.
Definition validate (tok : string) : result string OAuthClaims :=
  if decide (tok = "tok") then Ok {| oc_Subject := "sub"; oc_Issuer := "iss"; oc_Email := "" |} else Err "bad".

Definition run (app : application) (order : list string) (r : DashboardRequest) : application * list RelayCall * DashboardReply :=
  dashboard_api (HR := runtime_example) (HP := primitives_example) (HB := box_example) id id id Some ∅ (Some validate) "" (env order) app r.

Definition after_create : application := (run app [] (request "POST" "/api/dashboard/keys" (Some "ci"))).1.1.

Example created : (run app [] (request "POST" "/api/dashboard/keys" (Some "ci"))).2 = ReplyCreated {| ck_ID := "k1"; ck_Key := "sk_live_abcdefghij"; ck_Label := "ci" |}.
Proof. vm_compute. reflexivity. Qed.

Example revoked : (run after_create ["sk_live_abcdefghij"] (request "DELETE" "/api/dashboard/keys/k1" None)).2 = ReplyRevoked.
Proof. vm_compute. reflexivity. Qed.

Example not_found : (run after_create ["sk_live_abcdefghij"] (request "DELETE" "/api/dashboard/keys/k9" None)).2 = ReplyError (fail StatusNotFound "key not found").
Proof. vm_compute. reflexivity. Qed.

(** Ten keys at once, and no eleventh. *)
Example eleventh_key_refused :
  let go l := (allow 0 l "t1").2 in (allow 0 (Nat.iter 9 go ∅) "t1").1 = true ∧ (allow 0 (Nat.iter 10 go ∅) "t1").1 = false ∧
  retryAfterSecs (Nat.iter 10 go ∅) "t1" = 361.
Proof. vm_compute. done. Qed.

Lemma dashboard_confined_witness :
  ∃ h k s', app_store after_create = Some s' ∧
    HashAPIKey id "sk_live_abcdefghij" = Ok h ∧ k_TenantID k = "t1" ∧ s' = with_keys store (<[h := k]> (keys store)).
Proof.
  pose proof (dashboard_confined (HR := runtime_example) (HP := primitives_example) (HB := box_example) id id id Some ∅ (Some validate) "" (env []) app store
    (request "POST" "/api/dashboard/keys" (Some "ci")) eq_refl) as H.
  assert (Hok : keys_ok id (env []) store).
  { split; [intros h h' k k' Hk; change (keys store) with (∅ : gmap string APIKey) in Hk; by rewrite lookup_empty in Hk | unfold RangeOrder; vm_compute; reflexivity | intros; apply lookup_empty]. }
  specialize (H Hok). fold (run app [] (request "POST" "/api/dashboard/keys" (Some "ci"))) in H.
  assert (Hd : (run app [] (request "POST" "/api/dashboard/keys" (Some "ci"))).2 = ReplyCreated {| ck_ID := "k1"; ck_Key := "sk_live_abcdefghij"; ck_Label := "ci" |})
    by (vm_compute; reflexivity).
  destruct (run app [] (request "POST" "/api/dashboard/keys" (Some "ci"))) as [[app' calls] d] eqn:Hrun. cbn [snd] in Hd. subst d.
  destruct H as [(err & s' & Hd & _)|(v & tok & claims & i & t & s1 & Hv & Hb & _ & Hc & Hr & Hg & _ & _ & (s' & Hs' & h & k & Hh & _ & Ht & _ & _ & Hkeys) & _)]; [done|].
  injection Hv as <-. vm_compute in Hb. injection Hb as <-. vm_compute in Hc. injection Hc as <-. vm_compute in Hr. injection Hr as <- <-.
  vm_compute in Hg. injection Hg as <-. exists h, k, s'. split_and!; [|exact Hh | exact Ht | exact Hkeys].
  unfold after_create. by rewrite Hrun.
Defined.

End Example.
