(* ===== verification/Checkout.v ===== *)
(** * Paying through the dashboard (src/cmd/dashboard/api.go, src/cmd/relay: main.go, stripe_checkout.go, http.go)

    The composition of three components: the dashboard ([Dashboard]) forwards a checkout or a
    visit to the billing portal to the relay, where the handlers of [Stripe] stand behind the
    bearer middleware of [BillingHttp].  Dashboard and relay share the billing store; each
    request is served by the two one after the other. *)

From S2P Require Import Prelude Crypto Reliability Billing Http BillingHttp Stripe Gateway Dashboard.
From Stdlib Require Import QArith.
#[local] Open Scope Z_scope.

(** The two endpoints, and their paths at the relay and at the dashboard. *)
Inductive PayRoute := RouteCheckout | RoutePortal.

Definition relay_path (p : PayRoute) : string :=
  match p with RouteCheckout => "/api/billing/checkout" | RoutePortal => "/api/billing/portal" end.
Definition dashboard_path (p : PayRoute) : string :=
  match p with RouteCheckout => "/api/dashboard/checkout" | RoutePortal => "/api/dashboard/portal" end.

Definition newline : string := String (Ascii.ascii_of_nat 10) "".

(** What [http.Error] writes. *)
Definition http_Error (err : HTTPError) : Z * string := (http_code err, http_text err +:+ newline).

(** The request as the relay sees it: the client of net/http sends no address headers. *)
Definition arriving (addr path : string) (call : RelayCall) : Request := {|
  rq_Method := "POST"; rq_Path := path; rq_Authorization := rc_Authorization call; rq_XRealIP := ""; rq_XForwardedFor := "";
  rq_RemoteAddr := addr |}.

Definition with_relay (relay : RelayCall → result string (Z * string)) (e : DashboardEnv) : DashboardEnv := {|
  de_http := de_http e; de_env := de_env e; de_keyID := de_keyID e; de_encoded := de_encoded e; de_keyOrder := de_keyOrder e;
  de_aggregates := de_aggregates e; de_relay := relay |}.

Section checkout.
Context `{HR : Runtime} `{HP : Primitives} `{HB : Box}.
Context (Sum512 hashKey base64 : string → string) (Decode_label : string → option string).
(** encoding/json for the bodies of the two endpoints and for their answers. *)
Context (Decode_checkout : string → option CheckoutRequest) (Decode_return : string → option string) (Encode_error Encode_url : string → string).
(** MSG2AGENT_PUBLIC_BASE_URL, the relay's validator of access tokens, the payment provider,
    and the address the dashboard has for the relay. *)
Context (base : string) (jwtVal : option (Z → string → option string)) (c : StripeClient) (addr : string).
Implicit Types (p : PayRoute) (he : HttpEnv) (e : DashboardEnv) (g : Gate).

(** ** The relay's side *)

(** The handlers with their reading of the body, of at most 4096 bytes. *)
Definition pay_handler p (body : string) : Handler :=
  λ he ctx r g,
    let body := String.substring 0 (N.to_nat 4096) body in
    match p with
    | RouteCheckout =>
        let '(s, res) := checkoutHandler (he_now he) c (rq_Method r) (Decode_checkout body) ctx (g_store g) in (with_store g s, Answered res)
    | RoutePortal => (g, Answered (portalHandler c (rq_Method r) (Decode_return body) ctx))
    end.

(** [writeError] and [writeRelayJSON] for the answers of the handlers, [http.Error] for the
    refusals of the middleware. *)
Definition render (a : Answer) : Z * string :=
  match a with
  | Refused err => http_Error err
  | Answered (Err err) => (http_code err, Encode_error (http_text err))
  | Answered (Ok url) => (StatusOK, Encode_url url)
  end.

Definition relay_pay p he (r : Request) (body : string) g : Gate * (Z * string) :=
  let '(g, a) := BearerMiddleware hashKey base jwtVal false (pay_handler p body) he None r g in (g, render a).

(** The routes of the relay for the calls the dashboard makes. *)
Definition relay_mux he (relayURL : string) (call : RelayCall) g : Gate * (Z * string) :=
  let to p := decide (rc_URL call = trim_right_by is_slash relayURL +:+ relay_path p) in
  let run p := relay_pay p he (arriving addr (relay_path p) call) (rc_Body call) g in
  if to RouteCheckout then run RouteCheckout
  else if to RoutePortal then run RoutePortal
  else (g, http_Error (fail StatusNotFound "404 page not found")).

(** ** Dashboard and relay together *)

Definition pay_through overrides validator autoProvision he e app (r : DashboardRequest) g : Gate * (application * list RelayCall * DashboardReply) :=
  let relay := relay_mux he (app_relayURL app) in
  let '(app', calls, d) :=
    dashboard_api Sum512 hashKey base64 Decode_label overrides validator autoProvision (with_relay (λ call, Ok (relay call g).2) e) app r in
  (foldl (λ g call, (relay call g).1) g calls, (app', calls, d)).

(** The request is that of a tenant who has signed in before. *)
Definition signed_in (validate : string → result string OAuthClaims) (s : BillingStore) (r : Request) (tok : string) (t : Tenant) : Prop :=
  bearer_token r = Some tok ∧ IsAPIKeyToken tok = false ∧
  ∃ claims id, validate tok = Ok claims ∧ GetOAuthIdentityTenant s (oc_Issuer claims) (oc_Subject claims) = Ok id ∧ tenants s !! id = Some t ∧ IsActive t = true.

(** The relay's own validator takes the token for one of this tenant's, or for none of its own. *)
Definition relay_knows he (tok id : string) : Prop :=
  ∃ validate, jwtVal = Some validate ∧ HasPrefix tok "eyJ" = true ∧ validate (he_now he) tok = Some id.
Definition relay_rejects he (tok : string) : Prop :=
  ∀ validate, jwtVal = Some validate → HasPrefix tok "eyJ" = true → validate (he_now he) tok = None.

Definition relayed (reply : Z * string) : DashboardReply := ReplyRelayed reply.1 (String.substring 0 (N.to_nat 65536) reply.2).

Lemma relay_path_private p call : public_path (arriving addr (relay_path p) call) = false.
Proof. by destruct p. Qed.

Lemma append_inj_r (s u v : string) : s +:+ u = s +:+ v → u = v.
Proof. induction s as [|a s IH]; [done|]. intros [= ?]. by apply IH. Qed.

Lemma relay_mux_route p he relayURL call g : rc_URL call = trim_right_by is_slash relayURL +:+ relay_path p →
  relay_mux he relayURL call g = relay_pay p he (arriving addr (relay_path p) call) (rc_Body call) g.
Proof.
  intros Hu. unfold relay_mux. rewrite Hu. destruct p; [by rewrite decide_True|].
  rewrite decide_False by (intros Heq%append_inj_r; done). by rewrite decide_True.
Qed.

(** Signing in finds the tenant and changes nothing. *)
Lemma dashboard_signed_in overrides validate autoProvision e app r s tok t : app_store app = Some s →
  signed_in validate s (dr_http r) tok t →
  dashboard_api Sum512 hashKey base64 Decode_label overrides (Some validate) autoProvision e app r =
  apiRouter Sum512 hashKey base64 Decode_label e app (Some t) r.
Proof.
  intros Hs (Ht & Hk & claims & id & Hv & Hid & Hl & Ha). unfold dashboard_api. rewrite Hs. unfold OAuth2Middleware. cbn [g_store].
  rewrite decide_False by (by eapply bearer_token_header). rewrite Ht, Hk, Hv. unfold resolve_identity. rewrite Hid. cbn [g_store with_store].
  unfold GetTenant. rewrite Hl, Ha. cbn. f_equal. destruct app as [st u dom l]. cbn in *. by subst st.
Qed.

(** A POST of a tenant to one of the two endpoints is one call of the relay. *)
Lemma apiRouter_pay p e app t r : rq_Method (dr_http r) = "POST"%string → rq_Path (dr_http r) = dashboard_path p →
  apiRouter Sum512 hashKey base64 Decode_label e app (Some t) r = proxyToRelay e app r (relay_path p).
Proof.
  intros Hm Hp. unfold apiRouter. rewrite Hp.
  destruct p; cbn; unfold handleCheckout, handlePortal, requireMethod; by rewrite Hm.
Qed.

Definition pay_call p app (r : DashboardRequest) (body : string) : RelayCall := {|
  rc_URL := trim_right_by is_slash (app_relayURL app) +:+ relay_path p; rc_Authorization := rq_Authorization (dr_http r);
  rc_Body := String.substring 0 (N.to_nat 8192) body |}.

Lemma pay_through_route p overrides validate autoProvision he e app r g tok t body : app_store app = Some (g_store g) →
  signed_in validate (g_store g) (dr_http r) tok t → rq_Method (dr_http r) = "POST"%string → rq_Path (dr_http r) = dashboard_path p →
  app_relayURL app ≠ ""%string → dr_body r = Some body →
  pay_through overrides (Some validate) autoProvision he e app r g =
  let run := relay_pay p he (arriving addr (relay_path p) (pay_call p app r body)) (rc_Body (pay_call p app r body)) g in
  (run.1, (app, [pay_call p app r body], relayed run.2)).
Proof.
  intros Hs Hin Hm Hp Hu Hb. unfold pay_through. rewrite (dashboard_signed_in _ _ _ _ _ _ _ _ _ Hs Hin).
  rewrite (apiRouter_pay p) by done. unfold proxyToRelay. rewrite decide_False by done. rewrite Hb.
  fold (pay_call p app r body). cbn [with_relay de_relay]. rewrite (relay_mux_route p) by done. cbn zeta.
  cbn [foldl]. rewrite (relay_mux_route p) by done.
  destruct (relay_pay p he _ _ g) as [g' [code text]]. done.
Qed.
Lemma relay_knows_credential he s tok t : relay_knows he tok (t_ID t) → tenants s !! t_ID t = Some t →
  credential hashKey jwtVal (he_now he) s tok t.
Proof. intros (v & Hj & Hp & Hv) Ht. by apply (cred_jwt _ _ _ _ _ _ v (t_ID t)). Qed.

Lemma relay_rejects_token he s tok : relay_rejects he tok → IsAPIKeyToken tok = false →
  ∃ text, bearer_tenant hashKey jwtVal (he_now he) s tok = Err (true, fail StatusUnauthorized text).
Proof.
  intros Hr Hk. unfold bearer_tenant. destruct jwtVal as [v|] eqn:Hj; [destruct (HasPrefix tok "eyJ") eqn:Hp|]; rewrite ?Hk; [|by eexists..].
  rewrite (Hr v) by done. by eexists.
Qed.

Lemma unpaid_refused t : ¬ paid_up t → admit_tenant base t = Some (fail StatusPaymentRequired (paymentRequiredMessage base)).
Proof.
  intros Hn. unfold admit_tenant. rewrite decide_True; [done|]. unfold paid_up in Hn.
  destruct (decide (t_BillingStatus t = "incomplete"%string)); [by left|]. right. apply dec_stable. naive_solver.
Qed.

(** C36. A signed-in tenant who asks the dashboard for the checkout or the billing portal gets
    what the relay's handler answers for that same tenant, when the relay's own validator
    knows the token and the tenant is paid up.  But a tenant whose payment is past due or
    incomplete is answered 402 by the very endpoints that would let it pay, whatever the
    provider would say; a token that the relay did not issue (one of an OpenID provider) is
    always answered 401 and costs an attempt of the dashboard's address, which all tenants
    share; and once its attempts are used up everybody is answered 429. *)
Theorem checkout_through_dashboard p overrides validate autoProvision he e app r g tok t body : app_store app = Some (g_store g) →
  signed_in validate (g_store g) (dr_http r) tok t → tenants (g_store g) !! t_ID t = Some t →
  rq_Method (dr_http r) = "POST"%string → rq_Path (dr_http r) = dashboard_path p → app_relayURL app ≠ ""%string → dr_body r = Some body →
  let call := pay_call p app r body in
  let request := arriving addr (relay_path p) call in
  let '(ok, al) := auth_Allow (he_now he) (g_limiter g) (remote_host addr) in
  let '(g', (app', calls, d)) := pay_through overrides (Some validate) autoProvision he e app r g in
  app' = app ∧ calls = [call] ∧
  (ok = true → relay_knows he tok (t_ID t) → paid_up t →
     g' = (pay_handler p (rc_Body call) he (Some t) request (with_limiter g al)).1 ∧
     d = relayed (render (pay_handler p (rc_Body call) he (Some t) request (with_limiter g al)).2)) ∧
  (ok = true → relay_knows he tok (t_ID t) → ¬ paid_up t →
     g' = with_limiter g al ∧ d = relayed (http_Error (fail StatusPaymentRequired (paymentRequiredMessage base)))) ∧
  (ok = true → relay_rejects he tok →
     g' = with_limiter g (Consume (he_now he) al (remote_host addr)) ∧ ∃ text, d = relayed (http_Error (fail StatusUnauthorized text))) ∧
  (ok = false → g' = with_limiter g al ∧ d = relayed (http_Error (fail StatusTooManyRequests "too many failed authentication attempts"))).
Proof.
  intros Hs Hin Hlt Hm Hp Hu Hb. cbn zeta. pose proof Hin as (Htok & Hkey & _ & _ & _ & _ & _ & Hact).
  rewrite (pay_through_route p _ _ _ _ _ _ _ _ _ _ body Hs Hin) by done. cbn zeta.
  set (call := pay_call p app r body). set (request := arriving addr (relay_path p) call).
  pose proof (relay_path_private p call) as Hpub. fold request in Hpub.
  assert (Hrt : bearer_token request = Some tok) by done. change (remote_host addr) with (realIP request).
  destruct (auth_Allow (he_now he) (g_limiter g) (realIP request)) as [ok al] eqn:Hal.
  assert (Hok1 : (auth_Allow (he_now he) (g_limiter g) (realIP request)).1 = ok) by by rewrite Hal.
  split_and!; [done | done | intros -> Hk Hpaid | intros -> Hk Hpaid | intros -> Hr | intros ->]; unfold relay_pay.
  - rewrite (bearer_lets_in _ _ _ _ _ _ _ _ t Hpub Hok1); [rewrite Hal; cbn; by destruct (pay_handler _ _ _ _ _ _)|].
    exists tok. split_and!; [done | by apply relay_knows_credential | by split].
  - rewrite (bearer_refuses_tenant _ _ _ _ _ _ _ _ tok t _ Hpub Hok1 Hrt (relay_knows_credential _ _ _ _ Hk Hlt) (unpaid_refused _ Hpaid)).
    by rewrite Hal.
  - destruct (relay_rejects_token he (g_store g) tok Hr Hkey) as [text Ht]. unfold BearerMiddleware. unfold public_path in Hpub. rewrite Hpub.
    unfold authenticate. rewrite Hal. cbn. rewrite decide_False by (by eapply bearer_token_header). rewrite Hrt, Ht. split; [done | by exists text].
  - unfold BearerMiddleware. unfold public_path in Hpub. rewrite Hpub. unfold authenticate. by rewrite Hal.
Qed.

End checkout.

(** ** A tenant at the portal *)

Module PayExample.

Definition tenant (status : string) : Tenant := set_status status (set_customer "cus_1" (NewTenant ∅ "t1" "seed" 0 "Acme" "a@acme.test" PlanFree)).
Definition gate (status : string) : Gate :=
  {| g_store := PutOAuthIdentity (PutTenant NewBillingStore (tenant status)) "iss" "sub" "t1"; g_limiter := ∅ |}.
Definition app (status : string) : application :=
  {| app_store := Some (g_store (gate status)); app_relayURL := "http://relay/"; app_domain := "example.com"; app_limiter := ∅ |}.
Definition clock : HttpEnv := {| he_now := 5; he_newID := "t2"; he_seed := None |}.
Definition env : DashboardEnv := {|
  de_http := clock; de_env := "production"; de_keyID := "k1"; de_encoded := None; de_keyOrder := []; de_aggregates := None; de_relay := λ _, Err "down" |}.
Definition request : DashboardRequest := {|
  dr_http := {| rq_Method := "POST"; rq_Path := dashboard_path RoutePortal; rq_Authorization := "Bearer eyJsub"; rq_XRealIP := "";
                rq_XForwardedFor := ""; rq_RemoteAddr := "" |};
  dr_query := λ _, ""; dr_body := Some "back"%string |}.
Definition validate (tok : string) : result string OAuthClaims :=
  if decide (tok = "eyJsub"%string) then Ok {| oc_Subject := "sub"; oc_Issuer := "iss"; oc_Email := "" |} else Err "bad".
Definition client : StripeClient := {|
  CreateCustomer := λ _ _ _, None; checkout_session := λ _ _ _ _, None; portal_session := λ customer _, Some ("https://pay/" +:+ customer)%string;
  client_config := {| sc_PriceIDs := ∅ |} |}.
(** The relay issued the token itself, or it did not. *)
Definition own (now : Z) (tok : string) : option string := if decide (tok = "eyJsub"%string) then Some "t1"%string else None.
Definition foreign (now : Z) (tok : string) : option string := None.

Definition visit (jwtVal : Z → string → option string) (status : string) :=
  (pay_through (HR := runtime_example) (HP := primitives_example) (HB := box_example) id id id Some (λ _, None) Some id id "" (Some jwtVal) client "10.0.0.1:9"
     ∅ (Some validate) "" clock env (app status) request (gate status)).2.2.

Lemma visitor status : signed_in validate (g_store (gate status)) (dr_http request) "eyJsub" (tenant status).
Proof. split_and!; [done | done|]. exists {| oc_Subject := "sub"; oc_Issuer := "iss"; oc_Email := "" |}, "t1"%string. by split_and!. Qed.

End PayExample.

(** The limiter is empty, so the first visit is let through to the token. *)
Ltac first_visit v :=
  pose proof v as H; destruct (auth_Allow _ _ _) as [ok al] eqn:Hal;
  assert (ok = true) as Hok by (change ok with (ok, al).1; rewrite <- Hal; vm_compute; reflexivity);
  destruct (pay_through _ _ _ _) as [g' [[app' calls] d]].

Lemma checkout_through_dashboard_witness :
  PayExample.visit PayExample.own "active" = ReplyRelayed 200 "https://pay/cus_1" ∧
  PayExample.visit PayExample.own "past_due" = ReplyRelayed 402 ("payment required: update your payment method" +:+ newline) ∧
  ∃ text, PayExample.visit PayExample.foreign "active" = relayed (http_Error (fail StatusUnauthorized text)).
Proof.
  assert (Hall : ∀ jwtVal status, _) by exact (λ jwtVal status,
    checkout_through_dashboard (HR := runtime_example) (HP := primitives_example) (HB := box_example) id id id Some (λ _, None) Some id id ""
      (Some jwtVal) PayExample.client "10.0.0.1:9" RoutePortal ∅ PayExample.validate "" PayExample.clock PayExample.env (PayExample.app status)
      PayExample.request (PayExample.gate status) "eyJsub" (PayExample.tenant status) "back" eq_refl (PayExample.visitor status) eq_refl eq_refl eq_refl
      (λ Heq, ltac:(discriminate Heq)) eq_refl).
  cbn zeta in Hall.
  assert (Hknows : relay_knows (Some PayExample.own) PayExample.clock "eyJsub" "t1") by (exists PayExample.own; by split_and!).
  unfold PayExample.visit. split_and!.
  - first_visit (Hall PayExample.own "active"%string). destruct H as (_ & _ & H & _).
    cbn [snd]. rewrite (proj2 (H Hok Hknows ltac:(split; discriminate))). vm_compute. reflexivity.
  - first_visit (Hall PayExample.own "past_due"%string). destruct H as (_ & _ & _ & H & _).
    cbn [snd]. rewrite (proj2 (H Hok Hknows ltac:(intros [_ Hn]; by apply Hn))). vm_compute. reflexivity.
  - first_visit (Hall PayExample.foreign "active"%string). destruct H as (_ & _ & _ & _ & H & _).
    apply (proj2 (H Hok ltac:(by intros v [= <-] _))).
Defined.
